(* ===== verification/_CoqProject ===== *)
-Q . S2P
Prelude.v
SnapshotStore.v
Timeline.v
Revm.v
Remote.v
ForkedDb.v
Branches.v
Journal.v
Concurrent.v
Coherence.v
Typing.v
StateDiff.v
Output.v
