(* ===== verification/Prelude.v ===== *)
(** * Verification of the forked state database of qilin

    The repository simulates transactions against a fork of a remote chain.
    Two source files are covered:

    - [src/fork-database/src/forked_db.rs]: the forked database
      ([ForkedDatabase]), the snapshot value ([ForkDbSnapshot]) and the
      snapshot registry ([Snapshots<T>]);
    - [src/src/state_manager/state_diff.rs]: the analysis that consumes state
      diffs: the merge of traces ([get_from_txs]), the extraction of pools
      ([extract_arb_pools], [extract_sandwich_pools]) and the construction
      of a cache database from a diff ([to_cache_db]).

    A [ForkedDatabase] answers the queries of the execution engine from a
    local overlay (revm's [CacheDB]) and, on a miss, from a remote source
    that fetches from the network and keeps what it fetched in a remote
    cache.  Snapshots copy the overlay and the remote cache into a registry;
    a revert takes a snapshot out of the registry, with every later one, and
    puts its copies back.  The clones of a database share the remote source
    and the registry.

    ** Parts of the program and the files that model them

    - [Prelude] (this file): the result type of fallible calls ([Result]),
      the outcome of a call that may panic ([Outcome]), the state-and-error
      monad [SE] in which reads that may fetch are written (notation
      [let* x := c in k] in scope [se_scope]), 256-bit unsigned arithmetic
      as [Z] with the overflow behaviour of each operation written out
      ([u256_saturating_add] saturates, [u256_add] panics), the [HashMap]
      operations [clear] and [extend] on [gmap], the iteration of a
      [BTreeMap] in ascending key order ([btree_keys], [btree_iter]) with
      its lemmas, the two relational properties of a computation of [SE]
      against a relation on its state ([se_respects], [se_quiet]) with
      their rules for [ret], [bind] and [map], and the shared automation
      (hint database [fork], tactic [fork_simpl]).
    - [SnapshotStore], Module [Snapshots]: the registry [Snapshots<T>] of
      forked_db.rs (lines 277-330): the record with the fields [id] and
      [snapshots]; [default], [next_id], [get], [remove], [insert] translate
      the methods of the same names.  [remove] runs the source's [while]
      loop ([remove_loop]) and reports the panic of [id + 1] on overflow as
      an [Outcome].  [step] is the transition relation of the registry,
      [wf] its invariant, [cascade] the effect of a removal as a filter.
    - [Timeline]: what the registry promises, as an abstract registry (a
      list of checkpoints, oldest first, that a revert cuts), the
      abstraction function [abs], and the simulation [refines].
    - [Revm]: the types and the cache database of the revm library that the
      sources only call ([AccountInfo], [DbAccount], [Account], [CacheDB]
      with its [Database], [DatabaseRef] and [DatabaseCommit] behaviour,
      [EmptyDB], the hash function as the class [Keccak]),
      modelled as the specification describes the local overlay.  The class
      [DatabaseRef] is the interface between the overlay and whatever backs
      it; the class [DatabaseRefLaws] states what the overlay needs of the
      backing database (an answer stays the same while the backing state
      grows), and the theorems of the overlay are proved against it.
    - [Remote]: the remote state source ([SharedBackend]) with the remote
      cache it owns (accounts, storage, block hashes), read-through caching,
      re-pinning and [persist]; the class [Transport] is what it needs of
      the network, the class [Persistence] what it needs of the file system
      (whether a cache path is configured, whether a write succeeds).
      Modelled from the specification (the code is not under src/).  It
      keeps [DatabaseRefLaws].
    - [ForkedDb]: the facade [ForkedDatabase] of forked_db.rs (lines 19-206)
      and [ForkDbSnapshot] with its read interface (lines 208-275):
      [reset], [flush_cache], [create_snapshot], [insert_snapshot],
      [revert_snapshot], the four mutable and the four read-only queries and
      [commit].  [flush_cache] takes the cache file and returns it as the
      flush leaves it.  Module [Example] runs the scenario of the
      specification.
    - [Branches]: the derived [Clone], a family of clones over the shared
      objects in which one call of a method by one clone is a step ([act]:
      clone, commit, each query of [Database] and [DatabaseRef] as
      [Ask mutable q], snapshot, revert, reset), and [revert_snapshot] cut
      into the regions in which it holds one lock ([revert_step]).
    - [Journal]: what the facade promises as a whole, as an abstract
      database: the clones, the remote source, and a stack of marks, each
      the view ([ForkDbSnapshot]) that a revert puts back.  [spec_act] is a
      call on it, [abs_family] the abstraction of a family, [acts] a run of
      calls.
    - [Concurrent]: calls in progress.  Every method that changes state is
      a call cut at its locks: [insert_step] ([create_snapshot] and
      [insert_snapshot], lines 98-117), [revert_step], [reset_step] (lines
      69-86), [commit_step] and [ask_step] (lines 159-206).  The class
      [Call] is what the scheduler needs of a call, [CallLaws] its laws,
      [Pending] the sum of the calls.  A [Pool] is a list of threads, each
      a clone with a call in progress, over one [Shared]; [sched i] gives
      thread [i] a turn, [run] follows a schedule.  [pool_invariant] is the
      shape of an invariant of a pool (a property of the shared state and
      one of every call in progress), [step_keeps] what a step must keep.
    - [Coherence]: the remote cache against the network.  [coherent] says
      that every entry of the cache is what the network answers at the
      pinned block; [wiped] empties the cache; two remote sources are
      equivalent ([≡]) when they are pinned to the same block and no query
      tells them apart.  The class [Settled] states of a backing database
      what [SharedBackend] has with respect to that equivalence (a query
      respects it and leaves an equivalent state); the overlay lifts it
      ([CacheDB_settled]).  [coherent_pool] extends coherence to the
      registered snapshots and to the copies that calls hold between their
      steps.
    - [Typing]: which values of the model are values of the program.  The
      model keeps integers as [Z]; the class [Typed] gives the range of
      every type ([U256], [B256], [B160], [u64], bytes) and lifts it to the
      records, the maps, the registry and the family.  [TypedTransport]
      states it of the answers of the network.
    - [Output]: what the program writes besides its state: the records of
      [trace!] and [warn!] in forked_db.rs ([Logged.reset],
      [Logged.insert_snapshot], [Logged.revert_snapshot]), the lines that
      [get_from_txs] prints, and the [Serialize] implementations of
      state_diff.rs (lines 26-45) over serde's data model ([Value]).
    - [StateDiff]: state_diff.rs.  The RPC calls are the methods of the class
      [Provider]; the hash functions, the slot search and the conversion of
      a pool are the methods of the class [Env].  The loops over the pools
      are folds whose body says how the iteration ends ([Flow]: next
      iteration, [break], return [None] by [?]).  The order in which the
      futures of [to_cache_db] complete is a parameter
      ([to_cache_db_in]).

    ** How shared objects are modelled

    In the source the backend handle, the remote cache ([BlockchainDb]) and
    the snapshot registry ([Arc<Mutex<Snapshots>>]) are shared by every clone
    of a [ForkedDatabase]; only [cache_db] is owned by a clone.  The model
    keeps the shared objects in one record, [Shared] (file [ForkedDb]), and
    a [ForkedDatabase] value holds handles (tokens without state) for them
    and its own overlay.  Every operation takes the database and the shared
    state and returns both.  A snapshot's [local] overlay holds the same
    backend handle, so reads of a snapshot fall through to the live remote
    state, as they do in the source.

    ** Locks and threads

    Concurrency is interleaving of steps, and a step is a region in which a
    call holds one lock.  The mutex of the registry is held inside a step
    only.  The write guards of [revert_snapshot] each live in a block of
    their own (lines 132-146), so the call holds nothing between two steps.
    The three [read()] guards of [create_snapshot] are temporaries of one
    [let] statement (lines 100-104): each is held until the statement ends,
    so the call holds read guards between its steps ([insert_holds]).  A
    step that takes a write guard waits while another thread holds a read
    guard on the same map ([enabled]); a schedule is a list of thread
    indices, and a turn of a thread that waits changes nothing.
    A call into the backend is one step, because its code is not under src/
    and the specification (section 5) gives the remote cache one lock per
    map without saying in which order a call that needs several takes
    them.  So a query is one step, also when it makes two requests to the
    backend, and takes the write guard of a map exactly when it puts what
    it fetched into it; and the wipe of [reset] (line 81) is one step under
    the three write guards.  [reset] itself is three steps: it re-pins the
    backend, wipes the remote cache, and replaces the overlay of the clone
    that called.
    Fairness is stated on finite schedules: a round is a list of turns in
    which every thread occurs, and the number of rounds needed is the
    number of steps the calls still need ([total]).

    ** Integers, loops and fuel

    [U256] values are [Z] in the range [0 .. U256_MAX]; every operation
    states what happens at the bound.  The only loop of forked_db.rs is the
    cascade of [Snapshots::remove]; [remove_loop] takes fuel, [remove] passes
    [Z.to_nat (id - to_revert)], lemma [remove_loop_enough] shows that this
    is enough on every input and theorem [remove_terminates] that [remove]
    never reports [OutOfFuel].  The loops of state_diff.rs run over finite
    lists and are structural.  A panic is a value: [Panicked] of [Outcome]
    with the state at the panic, or [None] where there is no state to keep
    ([to_cache_db]).

    ** What the theorems show

    - [SnapshotStore]: the invariant of the registry and its preservation
      along [step]; identifiers strictly increase and are not reused below
      the bound, and are reused at the bound; lookup after insert; the
      cascade removes exactly the identifier and the later ones;
      termination; the panic at [U256_MAX].
    - [Timeline]: the registry refines the stack of checkpoints, below the
      bound; a removal leaves an initial segment.
    - [Journal]: the facade refines the abstract database
      ([refines_journal]): a run of calls by the clones of a family that
      stays below [U256_MAX] never panics, tells every caller what the
      abstract database tells, and ends in the family that represents it.
      The hypotheses are the invariant of the registry and the bound under
      which identifiers are not reused; [insert_reuses_id_when_saturated]
      shows what happens past it.
    - [Revm], [Remote]: the read and write lemmas of the overlay and of the
      remote source that the facade's theorems use, and the laws of the
      interface.
    - [ForkedDb]: what [reset], [insert_snapshot] and [revert_snapshot] do
      to the overlay, the remote cache and the registry on every branch of
      the code, errors and the panic included; a snapshot is independent of
      later changes and a revert restores it exactly; what the read
      interface of a snapshot answers and where it reads the live state;
      the fallback order of the queries and the agreement of their two
      variants.
    - [Branches]: the registry belongs to all clones, so one clone can
      revert to the snapshot of another and then holds its overlay; a reset
      by one clone empties the cache of all and the overlay of that clone
      only, so the others go on answering from before the reset; a read
      between two steps of a revert sees a mixed state.  (That a call
      leaves the overlays of the other clones alone holds in the model by
      construction: a clone is a value, and [act] writes back the clone
      that called.)
    - [Concurrent]: against the laws of [Call], a pool is never stuck
      ([deadlock_free]) and every fair schedule completes every call within
      [total] rounds; the calls of the program keep the laws
      ([Pending_laws]).  What [create_snapshot] copies is the remote cache
      of one instant, under every schedule ([consistent] is an invariant of
      [run]); concurrent inserts get distinct identifiers.  Two schedules
      show what the locks do not
      exclude: a snapshot with the larger identifier that holds the earlier
      state, and a snapshot of a remote cache that is half reverted.
    - [Coherence]: the network is a function of the block and the key
      ([Transport]).  Under that assumption the cache cannot be observed:
      a query over a coherent cache gives the answer and the overlay it
      gives over an empty one, and keeps the cache coherent
      ([cache_is_transparent], by rewriting with [≡]).  Coherence of the
      pool is kept by every step of every call except a reset that moves the
      pinned block ([Pending_keeps_coherence]), hence under every schedule
      ([run_coherent], from [run_invariant]); the states in which a revert
      has restored some of the maps are coherent too, so the mixed states
      of the schedules above change which entries are cached, never what a
      query answers.  A reset to another block is where that ends: between
      its first two steps a query of another clone is answered from the old
      block ([query_during_reset_reads_old_block]).
    - [Typing]: every method keeps the family well typed and returns well
      typed values ([act_preserves_types]), from one lemma per operation
      and the rules [wt_out_ret] and [wt_out_bind] of the monad.
    - [Output]: which records each method logs on each branch (the warning
      exactly for an unregistered identifier, nothing before the panic);
      the serialized form of a map lists its keys in ascending order and
      determines the map.
    - [StateDiff]: [get_from_txs] returns [None] exactly when the node
      fails, and otherwise the merge, which keeps the first diff of an
      address and is empty when no trace has a state diff (the doc comment
      of the function says [None] there); what the two extraction loops
      return on each of their exits, against a direction ([Diff.rose])
      that is defined from the values before and after and not from the
      comparison of the loops; that
      [to_cache_db] returns a database exactly when every call to the node
      succeeds with a nonce that fits ([answered], decidable), which
      accounts that database holds and what revm's queries answer from it
      ([to_cache_db_answers]), independent of the order of completion; its
      error and its panic.

    ** Not modelled

    What is left out is outside the two source files and outside what the
    specification says of their collaborators.  The transport (the RPC
    calls themselves) is the function [Transport]; a network whose answers
    for one block change between two requests is not covered.  The worker
    threads of the remote source and the locks it takes inside a call are
    inside a step (see Locks and threads): a remote cache of which [clear]
    has wiped some maps and not yet the others, and what another thread
    does between the two requests of one storage query, are not modelled.
    The file
    system is the class [Persistence]: the format of the cache file and
    the loading of a cache file at start-up (done by the code that builds
    the backend, not by forked_db.rs) are not modelled.  The rendering of a
    log record into text and of a serialized value into a format belong to
    libraries that the application chooses.  The scheduler lets a reader
    in whenever no writer is inside its step; the preference of
    parking_lot's locks for waiting writers is not modelled.  Liveness is
    stated for every finite fair schedule that is long enough, not for
    unbounded ones.  Of revm's [CacheDB], the log list and what
    [insert_contract] does to the code hash of the record it is given
    (recomputing it from the code, replacing a zero hash by the hash of the
    empty code) are left out: the specification describes the overlay as a
    map of records that a commit overwrites, and for the records that the
    sources build themselves ([AccountInfo::new] in [to_cache_db], whose
    hash is the hash of the code) it changes nothing.  The lines of the two files that no
    definition translates are imports, a type alias, the headers of [impl]
    blocks, blank lines and comments. *)

From stdpp Require Import gmap list sorting.
From Stdlib Require Import ZArith Lia.

#[local] Open Scope Z_scope.
#[local] Set Warnings "-clear-no-such-hyp".

(** ** Results of fallible calls *)

Inductive Result (E A : Type) : Type :=
| Ok (a : A)
| Err (e : E).
Arguments Ok {E A} a.
Arguments Err {E A} e.

#[global] Instance Result_eq_dec `{EqDecision E, EqDecision A} :
  EqDecision (Result E A).
Proof. solve_decision. Defined.

Definition is_ok {E A} (r : Result E A) : bool :=
  match r with Ok _ => true | Err _ => false end.

(** [Result::ok] *)
Definition result_ok {E A} (r : Result E A) : option A :=
  match r with Ok a => Some a | Err _ => None end.

Definition result_map {E A B} (f : A → B) (r : Result E A) : Result E B :=
  match r with Ok a => Ok (f a) | Err e => Err e end.

Definition map_err {E F A} (f : E → F) (r : Result E A) : Result F A :=
  match r with Ok a => Ok a | Err e => Err (f e) end.

(** ** Outcomes of calls that may panic

    A call on a state [S] returns a value and the new state, or panics.  The
    state at the panic is kept: a panic in the middle of a method leaves the
    mutations made before it in place, and an object behind a lock that does
    not poison stays usable by other holders.  [OutOfFuel] is the answer of a
    fuel-bounded loop that was given too little fuel. *)

Inductive Outcome (S A : Type) : Type :=
| Returned (a : A) (s : S)
| Panicked (s : S)
| OutOfFuel.
Arguments Returned {S A} a s.
Arguments Panicked {S A} s.
Arguments OutOfFuel {S A}.

Definition outcome_state {S A} (o : Outcome S A) : option S :=
  match o with
  | Returned _ s | Panicked s => Some s
  | OutOfFuel => None
  end.

(** ** The state-and-error monad

    A computation reads and updates a state [S] and returns a value or an
    error.  The state survives an error: a read that fetched one item and then
    failed on the next leaves the first one cached. *)

Definition SE (S E A : Type) : Type := S → Result E A * S.

Definition se_ret {S E A} (a : A) : SE S E A := λ s, (Ok a, s).

Definition se_fail {S E A} (e : E) : SE S E A := λ s, (Err e, s).

Definition se_bind {S E A B} (m : SE S E A) (k : A → SE S E B) : SE S E B :=
  λ s, match m s with
       | (Ok a, s') => k a s'
       | (Err e, s') => (Err e, s')
       end.

Definition se_gets {S E A} (f : S → A) : SE S E A := λ s, (Ok (f s), s).

Definition se_modify {S E} (f : S → S) : SE S E unit := λ s, (Ok tt, f s).

Definition se_map {S E A B} (f : A → B) (m : SE S E A) : SE S E B :=
  se_bind m (λ a, se_ret (f a)).

(** [simpl] runs a computation once its state is given. *)
Arguments se_ret {S E A} a s /.
Arguments se_fail {S E A} e s /.
Arguments se_bind {S E A B} m k s /.
Arguments se_gets {S E A} f s /.
Arguments se_modify {S E} f s /.
Arguments se_map {S E A B} f m s /.

Declare Scope se_scope.
Delimit Scope se_scope with se.
Notation "'let*' x ':=' c 'in' k" := (se_bind c (λ x, k))
  (at level 10, x name, c at level 100, k at level 200) : se_scope.

(** ** Computations up to an equivalence of states

    [R] relates the states that no computation can tell apart.  A
    computation respects [R] when it gives the same result on related
    states and leaves them related; it is quiet when it leaves the state
    related to the state it found. *)

Definition se_respects {S E A} (R : relation S) (m : SE S E A) : Prop :=
  Proper (R ==> prod_relation (=) R) m.

Definition se_quiet {S E A} (R : relation S) (m : SE S E A) : Prop :=
  ∀ s, R (m s).2 s.

(** ** 256-bit and 64-bit unsigned integers *)

Definition U256_MAX : Z := 2 ^ 256 - 1.
Definition U64_MAX : Z := 2 ^ 64 - 1.

Definition is_u256 (x : Z) : Prop := 0 ≤ x ≤ U256_MAX.

#[global] Instance is_u256_dec x : Decision (is_u256 x).
Proof. unfold is_u256. apply _. Defined.

(** [U256::saturating_add]: the sum, or the largest value when it overflows. *)
Definition u256_saturating_add (a b : Z) : Z :=
  if decide (a + b ≤ U256_MAX) then a + b else U256_MAX.

(** [U256 + U256]: the operator panics on overflow; [None] is the panic. *)
Definition u256_add (a b : Z) : option Z :=
  if decide (a + b ≤ U256_MAX) then Some (a + b) else None.

(** ** [HashMap::clear] and [HashMap::extend] on finite maps *)

Section hashmap.
Context `{Countable K} {V : Type}.
Implicit Types m new : gmap K V.

Definition hm_clear m : gmap K V := ∅.

(** [extend] inserts every pair of [new], overwriting the keys present. *)
Definition hm_extend m new : gmap K V := new ∪ m.
End hashmap.

(** ** Iteration over a [BTreeMap]

    A [BTreeMap] keyed by addresses or hashes is a finite map that is iterated
    in ascending key order. *)

Definition btree_keys {V : Type} (m : gmap Z V) : list Z :=
  merge_sort Z.le (elements (dom m)).

Definition btree_iter {V : Type} (m : gmap Z V) : list (Z * V) :=
  omap (λ k, (λ v, (k, v)) <$> m !! k) (btree_keys m).

(** The value of the first pair with key [k] in an association list. *)
Fixpoint first_entry {V : Type} (k : Z) (l : list (Z * V)) : option V :=
  match l with
  | [] => None
  | e :: l => if decide (e.1 = k) then Some e.2 else first_entry k l
  end.

(** ** Automation

    The hint database [fork] collects the lemmas that settle range side
    conditions and the rewrite rules for lookups after [clear], [extend],
    [insert] and [delete]; the declarations follow the lemmas they name. *)

Create HintDb fork discriminated.
Create Rewrite HintDb fork.

(** Destructs the [decide] and the matches on results that a translated
    handler leaves in the goal, and closes arithmetic side goals. *)
Ltac fork_simpl :=
  repeat first
    [ progress simplify_eq/=
    | progress autorewrite with fork in *
    | case_decide
    | case_match ];
  try done; try lia.

(** ** Lemmas *)

Lemma U256_MAX_pos : 0 < U256_MAX.
Proof. done. Qed.

Lemma U64_MAX_pos : 0 < U64_MAX.
Proof. done. Qed.

#[global] Opaque U256_MAX U64_MAX.

Section se_laws.
Context {S E : Type}.

Lemma se_bind_ret_l {A B} (a : A) (k : A → SE S E B) s :
  se_bind (se_ret a) k s = k a s.
Proof. done. Qed.

Lemma se_bind_ret_r {A} (m : SE S E A) s : se_bind m se_ret s = m s.
Proof. unfold se_bind, se_ret. by destruct (m s) as [[]]. Qed.

Lemma se_bind_assoc {A B C} (m : SE S E A) (k : A → SE S E B)
    (h : B → SE S E C) s :
  se_bind (se_bind m k) h s = se_bind m (λ a, se_bind (k a) h) s.
Proof. unfold se_bind. by destruct (m s) as [[]]. Qed.

Lemma se_bind_ok {A B} (m : SE S E A) (k : A → SE S E B) s a s' :
  m s = (Ok a, s') → se_bind m k s = k a s'.
Proof. unfold se_bind. by intros ->. Qed.

Lemma se_bind_err {A B} (m : SE S E A) (k : A → SE S E B) s e s' :
  m s = (Err e, s') → se_bind m k s = (Err e, s').
Proof. unfold se_bind. by intros ->. Qed.

(** A bind succeeds exactly when both halves do. *)
Lemma se_bind_inv_ok {A B} (m : SE S E A) (k : A → SE S E B) s b s2 :
  se_bind m k s = (Ok b, s2) ↔
  ∃ a s1, m s = (Ok a, s1) ∧ k a s1 = (Ok b, s2).
Proof.
  unfold se_bind. destruct (m s) as [[a|e] s1]; split.
  - eauto.
  - by intros (? & ? & [= -> ->] & ?).
  - done.
  - by intros (? & ? & [=] & ?).
Qed.
End se_laws.

Section se_relational.
Context {S E : Type} (R : relation S).

Lemma se_respects_ret {A} (a : A) : se_respects R (se_ret (E:=E) a).
Proof. by intros s1 s2 Hs. Qed.

Lemma se_respects_bind {A B} (m : SE S E A) (k : A → SE S E B) :
  se_respects R m → (∀ a, se_respects R (k a)) →
  se_respects R (se_bind m k).
Proof.
  intros Hm Hk s1 s2 Hs. unfold se_bind.
  destruct (Hm s1 s2 Hs) as [Heq Hrel].
  destruct (m s1) as [[a|e] s1'], (m s2) as [[a'|e'] s2'];
    simplify_eq/=; [by apply Hk|done].
Qed.

Lemma se_respects_map {A B} (f : A → B) (m : SE S E A) :
  se_respects R m → se_respects R (se_map f m).
Proof. intros Hm. apply se_respects_bind; [done|intros a; apply se_respects_ret]. Qed.

Lemma se_quiet_ret `{!Reflexive R} {A} (a : A) : se_quiet R (se_ret (E:=E) a).
Proof. by intros s. Qed.

Lemma se_quiet_bind `{!Transitive R} {A B} (m : SE S E A)
    (k : A → SE S E B) :
  se_quiet R m → (∀ a, se_quiet R (k a)) → se_quiet R (se_bind m k).
Proof.
  intros Hm Hk s. unfold se_bind. specialize (Hm s).
  destruct (m s) as [[a|e] s']; [|done]. by etrans; [apply Hk|].
Qed.

Lemma se_quiet_map `{!PreOrder R} {A B} (f : A → B) (m : SE S E A) :
  se_quiet R m → se_quiet R (se_map f m).
Proof. intros Hm. apply se_quiet_bind; [done|intros a; apply se_quiet_ret]. Qed.
End se_relational.

Section u256_lemmas.
Implicit Types a b : Z.

Lemma u256_saturating_add_range a b :
  is_u256 a → 0 ≤ b → is_u256 (u256_saturating_add a b).
Proof.
  unfold is_u256, u256_saturating_add. pose proof U256_MAX_pos.
  case_decide; lia.
Qed.

Lemma u256_saturating_add_lt a :
  a < U256_MAX → u256_saturating_add a 1 = a + 1.
Proof. unfold u256_saturating_add. case_decide; lia. Qed.

Lemma u256_saturating_add_max b :
  0 ≤ b → u256_saturating_add U256_MAX b = U256_MAX.
Proof. unfold u256_saturating_add. case_decide; lia. Qed.

Lemma u256_saturating_add_ge a b : 0 ≤ b → a ≤ U256_MAX →
  a ≤ u256_saturating_add a b.
Proof. unfold u256_saturating_add. case_decide; lia. Qed.

Lemma u256_add_Some a b c :
  u256_add a b = Some c ↔ c = a + b ∧ a + b ≤ U256_MAX.
Proof.
  unfold u256_add. case_decide; split;
    try (intros [= <-]); try (intros [-> ?]); try done; lia.
Qed.

Lemma u256_add_None a b : u256_add a b = None ↔ U256_MAX < a + b.
Proof. unfold u256_add. case_decide; split; try done; lia. Qed.
End u256_lemmas.

Section hashmap_lemmas.
Context `{Countable K} {V : Type}.
Implicit Types m new : gmap K V.

Lemma lookup_hm_clear m k : hm_clear m !! k = None.
Proof. apply lookup_empty. Qed.

Lemma lookup_hm_extend m new k :
  hm_extend m new !! k =
    match new !! k with Some v => Some v | None => m !! k end.
Proof.
  unfold hm_extend. destruct (new !! k) as [v|] eqn:Hk.
  - by apply lookup_union_Some_l.
  - by rewrite lookup_union_r.
Qed.

(** Clearing and then extending replaces the contents by [new]: nothing of
    the old map survives. *)
Lemma hm_extend_clear m new : hm_extend (hm_clear m) new = new.
Proof. unfold hm_extend, hm_clear. apply (right_id_L ∅ (∪)). Qed.
End hashmap_lemmas.

Section btree_lemmas.
Context {V : Type}.
Implicit Types (m : gmap Z V) (k : Z) (v : V) (l : list (Z * V)).

Lemma elem_of_btree_keys m k : k ∈ btree_keys m ↔ is_Some (m !! k).
Proof.
  unfold btree_keys. rewrite merge_sort_Permutation, elem_of_elements.
  apply elem_of_dom.
Qed.

Lemma btree_keys_NoDup m : NoDup (btree_keys m).
Proof.
  unfold btree_keys. rewrite merge_sort_Permutation. apply NoDup_elements.
Qed.

Lemma btree_keys_sorted m : StronglySorted Z.le (btree_keys m).
Proof. apply (StronglySorted_merge_sort _). Qed.

Lemma elem_of_btree_iter m k v : (k, v) ∈ btree_iter m ↔ m !! k = Some v.
Proof.
  unfold btree_iter. rewrite list_elem_of_omap. split.
  - intros (k' & _ & Hk). destruct (m !! k') eqn:E; by simplify_eq/=.
  - intros Hk. exists k. rewrite Hk. split; [|done].
    apply elem_of_btree_keys. by eexists.
Qed.

Lemma first_entry_app k l1 l2 :
  first_entry k (l1 ++ l2) =
    match first_entry k l1 with
    | Some v => Some v
    | None => first_entry k l2
    end.
Proof. induction l1 as [|e l1 IH]; simpl; [done|]. by case_decide. Qed.

Lemma first_entry_None k l : first_entry k l = None ↔ k ∉ l.*1.
Proof.
  induction l as [|e l IH]; simpl.
  - split; [intros _; apply not_elem_of_nil|done].
  - rewrite not_elem_of_cons. case_decide; naive_solver.
Qed.

Lemma first_entry_Some k v l : first_entry k l = Some v → (k, v) ∈ l.
Proof.
  induction l as [|[k' v'] l IH]; simpl; [done|].
  case_decide; simplify_eq/=.
  - intros [= ->]. apply list_elem_of_here.
  - intros H'. apply list_elem_of_further. auto.
Qed.

(** The first entry of a key in the iteration of a map is its value in the
    map. *)
Lemma first_entry_btree_iter m k : first_entry k (btree_iter m) = m !! k.
Proof.
  destruct (first_entry k (btree_iter m)) as [v|] eqn:E.
  - apply first_entry_Some, elem_of_btree_iter in E. by rewrite E.
  - apply first_entry_None in E. destruct (m !! k) as [v|] eqn:Hk; [|done].
    exfalso. apply E. apply list_elem_of_fmap. exists (k, v).
    split; [done|]. by apply elem_of_btree_iter.
Qed.

(** The keys of the iteration are the keys of the map, once each. *)
Lemma btree_iter_fst m : (btree_iter m).*1 = btree_keys m.
Proof.
  unfold btree_iter.
  assert (H : ∀ k, k ∈ btree_keys m → is_Some (m !! k))
    by (intros k; apply elem_of_btree_keys).
  induction (btree_keys m) as [|k ks IH]; simpl; [done|].
  destruct (H k) as [v ->]; [apply list_elem_of_here|]. simpl.
  f_equal. apply IH. intros k' Hk'. apply H. by apply list_elem_of_further.
Qed.

Lemma btree_iter_NoDup m : NoDup (btree_iter m).*1.
Proof. rewrite btree_iter_fst. apply btree_keys_NoDup. Qed.

(** In an association list without duplicate keys every pair is the first
    of its key. *)
Lemma first_entry_NoDup k v l :
  NoDup l.*1 → (k, v) ∈ l → first_entry k l = Some v.
Proof.
  induction l as [|[k' v'] l IH]; simpl.
  - intros _ H. by apply elem_of_nil in H.
  - intros [Hk' Hl]%NoDup_cons [[= -> ->]|Hin]%elem_of_cons.
    + by rewrite decide_True.
    + rewrite decide_False; [by apply IH|].
      intros ->. apply Hk'. apply list_elem_of_fmap. by exists (k, v).
Qed.

(** The first entry of a key does not depend on the order of a list without
    duplicate keys. *)
Lemma first_entry_Permutation k l1 l2 :
  NoDup l1.*1 → l1 ≡ₚ l2 → first_entry k l1 = first_entry k l2.
Proof.
  intros Hnd Hp.
  assert (Hnd2 : NoDup l2.*1) by (by rewrite <- Hp).
  destruct (first_entry k l1) as [v|] eqn:E1.
  - apply first_entry_Some in E1. rewrite Hp in E1.
    symmetry. by apply first_entry_NoDup.
  - apply first_entry_None in E1. symmetry. apply first_entry_None.
    by rewrite <- Hp.
Qed.

Lemma sorted_le_NoDup_lt (ks : list Z) :
  StronglySorted Z.le ks → NoDup ks → StronglySorted Z.lt ks.
Proof.
  induction 1 as [|k ks Hks IH Hall]; [constructor|].
  intros [Hk Hn]%NoDup_cons. constructor; [by apply IH|].
  apply Forall_forall. intros k' Hk'.
  rewrite Forall_forall in Hall. specialize (Hall k' Hk').
  assert (k ≠ k') by (by intros ->). lia.
Qed.

Lemma sorted_lt_le (ks : list Z) :
  StronglySorted Z.lt ks → StronglySorted Z.le ks.
Proof.
  induction 1 as [|k ks Hks IH Hall]; constructor; [done|].
  eapply Forall_impl; [done|]. simpl. lia.
Qed.

Lemma sorted_lt_NoDup (ks : list Z) : StronglySorted Z.lt ks → NoDup ks.
Proof.
  induction 1 as [|k ks Hks IH Hall]; constructor; [|done].
  rewrite Forall_forall in Hall. intros Hk%Hall. lia.
Qed.

(** The keys of a map are iterated in strictly ascending order. *)
Lemma btree_keys_sorted_lt m : StronglySorted Z.lt (btree_keys m).
Proof.
  apply sorted_le_NoDup_lt; [apply btree_keys_sorted|apply btree_keys_NoDup].
Qed.

Lemma omap_lookup_fst m l :
  (∀ k v, (k, v) ∈ l → m !! k = Some v) →
  omap (λ k, (λ v, (k, v)) <$> m !! k) l.*1 = l.
Proof.
  induction l as [|[k v] l IH]; intros Hl; simpl; [done|].
  rewrite (Hl k v) by apply list_elem_of_here. simpl. f_equal.
  apply IH. intros k' v' H'. apply Hl. by apply list_elem_of_further.
Qed.

(** The iteration of a map is the only list of its entries that is in
    strictly ascending key order. *)
Lemma btree_iter_unique l m :
  StronglySorted Z.lt l.*1 →
  (∀ k v, (k, v) ∈ l ↔ m !! k = Some v) →
  l = btree_iter m.
Proof.
  intros Hs Hl.
  assert (Hkeys : l.*1 = btree_keys m).
  { apply (StronglySorted_unique_strong Z.le);
      [intros; lia|by apply sorted_lt_le|apply btree_keys_sorted|].
    apply NoDup_Permutation;
      [by apply sorted_lt_NoDup|apply btree_keys_NoDup|].
    intros k. rewrite elem_of_btree_keys, list_elem_of_fmap. split.
    - intros ([k' v] & -> & Hin). exists v. by apply Hl.
    - intros [v Hv]. exists (k, v). split; [done|]. by apply Hl. }
  unfold btree_iter. rewrite <- Hkeys. symmetry. apply omap_lookup_fst.
  intros k v. apply Hl.
Qed.

Lemma sorted_lt_filter_fst (P : Z * V → Prop) `{!∀ e, Decision (P e)} l :
  StronglySorted Z.lt l.*1 → StronglySorted Z.lt (filter P l).*1.
Proof.
  induction l as [|e l IH]; simpl; [done|].
  intros [Hl Hall]%StronglySorted_inv. rewrite filter_cons.
  case_decide; simpl; [|by apply IH]. constructor; [by apply IH|].
  rewrite Forall_forall in *. intros k ([k' v] & -> & Hin)%list_elem_of_fmap.
  apply list_elem_of_filter in Hin as [_ Hin]. apply Hall.
  apply list_elem_of_fmap. by exists (k', v).
Qed.

Lemma filter_none {A : Type} (P : A → Prop) `{!∀ a, Decision (P a)}
    (l : list A) :
  Forall (λ a, ¬ P a) l → filter P l = [].
Proof.
  induction 1 as [|a l Ha Hl IH]; [done|].
  by rewrite filter_cons, decide_False.
Qed.

(** An entry above every key of the map comes last in the iteration. *)
Lemma btree_iter_snoc m k v :
  (∀ k', is_Some (m !! k') → k' < k) →
  btree_iter (<[k := v]> m) = btree_iter m ++ [(k, v)].
Proof.
  intros Hmax. symmetry. apply btree_iter_unique.
  - rewrite fmap_app, btree_iter_fst. apply StronglySorted_app.
    split; [|split; [apply btree_keys_sorted_lt|repeat constructor]].
    intros k1 k2 Hk1%elem_of_btree_keys ->%list_elem_of_singleton. auto.
  - intros k' v'. rewrite elem_of_app, elem_of_btree_iter,
      list_elem_of_singleton, lookup_insert_Some.
    split; [|naive_solver]. intros [Hin|[= -> ->]]; [|by left].
    right. split; [|done]. intros <-.
    assert (k < k) by (apply Hmax; by eexists). lia.
Qed.

(** Filtering by key commutes with the iteration. *)
Lemma btree_iter_filter (P : Z → Prop) `{!∀ k, Decision (P k)} m :
  btree_iter (filter (λ kv, P kv.1) m) = filter (λ e, P e.1) (btree_iter m).
Proof.
  symmetry. apply btree_iter_unique.
  - apply sorted_lt_filter_fst. rewrite btree_iter_fst.
    apply btree_keys_sorted_lt.
  - intros k v. rewrite list_elem_of_filter, elem_of_btree_iter,
      map_lookup_filter_Some. simpl. tauto.
Qed.
End btree_lemmas.

(** ** Hints *)

#[export] Hint Resolve U256_MAX_pos U64_MAX_pos : fork.
#[export] Hint Resolve se_respects_ret se_respects_bind se_respects_map
  se_quiet_ret se_quiet_bind se_quiet_map : fork.
#[export] Hint Resolve u256_saturating_add_range u256_saturating_add_ge : fork.
#[export] Hint Rewrite @lookup_hm_clear @lookup_hm_extend @hm_extend_clear
  : fork.
#[export] Hint Rewrite @lookup_empty @lookup_insert_eq @lookup_delete_eq
  : fork.
