(* ===== verification/SnapshotStore.v ===== *)
(** * The snapshot registry [Snapshots<T>]

  Translation of [Snapshots<T>] of forked_db.rs (lines 277-330): the record
  and the methods [default], [next_id], [get], [remove] and [insert], in
  Module [Snapshots] (the struct is [Snapshots.t]).  The registry maps
  identifiers (U256) to snapshots and
  keeps the next identifier to hand out.  The file then states the
  invariant of the registry, shows that every method preserves it, and
  characterises each method on every branch: the identifier returned by
  [insert], the set of identifiers that [remove] deletes, the panic of
  [remove] at the largest identifier and the reuse of that identifier by
  [insert] once the counter has saturated. *)

From stdpp Require Import gmap list.
From Stdlib Require Import ZArith Lia.
From S2P Require Import Prelude.

#[local] Open Scope Z_scope.
#[local] Set Warnings "-clear-no-such-hyp".

Module Snapshots.

Section defs.
Context {T : Type}.

(** [struct Snapshots<T> { id: U256, snapshots: Map<U256, T> }] *)
Record t : Type := { id : Z; snapshots : gmap Z T }.

(** [impl Default]: counter zero, empty map. *)
Definition default : t := {| id := 0; snapshots := ∅ |}.

(** [next_id]: returns the counter and increments it, saturating. *)
Definition next_id (self : t) : Z * t :=
  let id0 := id self in
  (id0, {| id := u256_saturating_add id0 1; snapshots := snapshots self |}).

(** [get]: lookup without mutation. *)
Definition get (self : t) (i : Z) : option T := snapshots self !! i.

(** The loop of [remove]:
    [while to_revert < self.id { self.snapshots.remove(&to_revert);
                                 to_revert = to_revert + 1; }].
    The addition is the panicking [+] of U256. *)
Fixpoint remove_loop (fuel : nat) (self : t) (to_revert : Z)
    : Outcome t unit :=
  if decide (to_revert < id self) then
    match fuel with
    | O => OutOfFuel
    | S fuel' =>
        let self' :=
          {| id := id self; snapshots := delete to_revert (snapshots self) |} in
        match u256_add to_revert 1 with
        | Some next => remove_loop fuel' self' next
        | None => Panicked self'
        end
    end
  else Returned tt self.

(** [remove]: takes the snapshot [i] out of the map, then removes every
    snapshot taken after it.  [id + 1] panics when [i] is the largest U256,
    after the map has been changed. *)
Definition remove (self : t) (i : Z) : Outcome t (option T) :=
  let snapshot := snapshots self !! i in
  let self1 := {| id := id self; snapshots := delete i (snapshots self) |} in
  match u256_add i 1 with
  | None => Panicked self1
  | Some to_revert =>
      match remove_loop (Z.to_nat (id self - to_revert)) self1 to_revert with
      | Returned _ self2 => Returned snapshot self2
      | Panicked self2 => Panicked self2
      | OutOfFuel => OutOfFuel
      end
  end.

(** [insert]: stores the snapshot under the next identifier. *)
Definition insert (self : t) (snapshot : T) : Z * t :=
  let '(i, self1) := next_id self in
  (i, {| id := id self1; snapshots := <[i := snapshot]> (snapshots self1) |}).

(** The invariant: the counter is a U256 and every stored identifier is
    below it, except that the largest identifier may be stored once the
    counter has saturated. *)
Definition wf (self : t) : Prop :=
  is_u256 (id self) ∧
  map_Forall
    (λ k _, 0 ≤ k ∧ (k < id self ∨ (k = U256_MAX ∧ id self = U256_MAX)))
    (snapshots self).

#[global] Instance wf_dec self : Decision (wf self).
Proof. unfold wf. apply _. Defined.

(** The identifiers that [remove self i] deletes: [i] itself and those
    strictly between [i] and the counter. *)
Definition removed_by (self : t) (i : Z) (k : Z) : Prop :=
  k = i ∨ i < k < id self.

#[global] Instance removed_by_dec self i k : Decision (removed_by self i k).
Proof. unfold removed_by. apply _. Defined.

(** The registry after a cascade, as a filter. *)
Definition cascade (self : t) (i : Z) : t :=
  {| id := id self;
     snapshots := filter (λ kv, ¬ removed_by self i kv.1) (snapshots self) |}.
End defs.

Arguments t T : clear implicits.

(** The transitions of the registry: what a holder of the lock can do to it.
    A panicking [remove] is a transition too, since the lock does not poison
    and the registry stays in use. *)
Inductive step {T : Type} : t T → t T → Prop :=
| step_insert self x : step self (insert self x).2
| step_remove self i o self' :
    remove self i = o → outcome_state o = Some self' → step self self'.

(** The transitions that cannot take the snapshot [i] away: inserts, and
    removals of identifiers above [i]. *)
Inductive step_above {T : Type} (i : Z) : t T → t T → Prop :=
| above_insert self x : step_above i self (insert self x).2
| above_remove self k o self' :
    i < k → remove self k = o → outcome_state o = Some self' →
    step_above i self self'.

(** Proves an equality of maps built from [filter], [delete] and [insert] by
    comparing lookups. *)
Ltac map_filter_eq :=
  apply map_eq; intros ?; apply option_eq; intros ?;
  rewrite ?map_lookup_filter_Some, ?lookup_delete_Some, ?lookup_insert_Some;
  simpl; naive_solver lia.

Section lemmas.
Context {T : Type}.
Implicit Types (self : t T) (i k : Z) (x : T).

Lemma snapshots_eq self self' :
  id self = id self' → snapshots self = snapshots self' → self = self'.
Proof. destruct self, self'; simpl; congruence. Qed.

(** *** The loop *)

(** With fuel for every identifier between [to_revert] and the counter, the
    loop returns, and it has deleted exactly those identifiers. *)
Lemma remove_loop_fuel fuel self to_revert :
  id self ≤ U256_MAX →
  id self - to_revert ≤ Z.of_nat fuel →
  remove_loop fuel self to_revert =
    Returned tt
      {| id := id self;
         snapshots :=
           filter (λ kv, ¬ (to_revert ≤ kv.1 < id self)) (snapshots self) |}.
Proof.
  revert self to_revert.
  induction fuel as [|fuel IH]; intros self to_revert Hmax Hfuel; simpl;
    case_decide; try lia.
  - f_equal. apply snapshots_eq; simpl; [done|]. map_filter_eq.
  - assert (u256_add to_revert 1 = Some (to_revert + 1)) as ->
      by (apply u256_add_Some; lia).
    rewrite IH by (simpl; lia). simpl. f_equal. f_equal. map_filter_eq.
  - f_equal. apply snapshots_eq; simpl; [done|]. map_filter_eq.
Qed.

(** The fuel that [remove] passes is enough on every input: the loop may
    panic, it never runs out of fuel. *)
Lemma remove_loop_enough fuel self to_revert :
  id self - to_revert ≤ Z.of_nat fuel →
  remove_loop fuel self to_revert ≠ OutOfFuel.
Proof.
  revert self to_revert.
  induction fuel as [|fuel IH]; intros self to_revert Hfuel; simpl;
    case_decide; try done; try lia.
  destruct (u256_add to_revert 1) as [next|] eqn:E; [|done].
  apply u256_add_Some in E as [-> _]. apply IH. simpl. lia.
Qed.

(** *** [remove] *)

(** [remove] ends, by a return or by a panic. *)
Lemma remove_outcome self i : is_Some (outcome_state (remove self i)).
Proof.
  unfold remove. destruct (u256_add i 1) as [k|] eqn:E; [|by eexists].
  pose proof (remove_loop_enough (Z.to_nat (id self - k))
    {| id := id self; snapshots := delete i (snapshots self) |} k) as Hne.
  destruct (remove_loop _ _ k); try by eexists. destruct Hne; [simpl; lia|done].
Qed.

Lemma remove_returns self i :
  id self ≤ U256_MAX → i < U256_MAX →
  remove self i = Returned (get self i) (cascade self i).
Proof.
  intros Hmax Hi. unfold remove.
  assert (u256_add i 1 = Some (i + 1)) as -> by (apply u256_add_Some; lia).
  rewrite remove_loop_fuel by (simpl; lia). simpl.
  unfold get, cascade, removed_by. f_equal. f_equal. map_filter_eq.
Qed.

Lemma lookup_cascade self i k :
  snapshots (cascade self i) !! k =
    if decide (removed_by self i k) then None else snapshots self !! k.
Proof.
  unfold cascade; simpl. apply option_eq; intros x.
  rewrite map_lookup_filter_Some; simpl. case_decide; naive_solver.
Qed.

(** *** [insert] *)

Lemma insert_eq self x :
  insert self x =
    (id self, {| id := u256_saturating_add (id self) 1;
                 snapshots := <[id self := x]> (snapshots self) |}).
Proof. done. Qed.

(** *** The invariant *)

Lemma wf_default : wf (@default T).
Proof.
  split; [split; [done|apply Z.lt_le_incl, U256_MAX_pos]|].
  apply map_Forall_empty.
Qed.

Lemma wf_fresh self : wf self → id self < U256_MAX → get self (id self) = None.
Proof.
  intros [_ Hk] Hlt. unfold get.
  destruct (snapshots self !! id self) eqn:E; [|done].
  destruct (Hk _ _ E) as [_ ?]; lia.
Qed.

Lemma next_id_wf self : wf self → wf (next_id self).2.
Proof.
  intros [Hid Hk]. split; simpl; [by apply u256_saturating_add_range|].
  unfold is_u256 in Hid.
  intros k y Hy. destruct (Hk k y Hy) as [? [?|[-> ->]]].
  - split; [done|left]. unfold u256_saturating_add. case_decide; lia.
  - split; [done|right]. by rewrite u256_saturating_add_max.
Qed.

Lemma insert_wf self x : wf self → wf (insert self x).2.
Proof.
  intros [Hid Hk]. rewrite insert_eq. simpl.
  split; simpl; [by apply u256_saturating_add_range|].
  intros k y Hy. unfold is_u256 in Hid.
  apply lookup_insert_Some in Hy as [[<- _]|[Hne Hy]].
  - unfold u256_saturating_add. case_decide; lia.
  - destruct (Hk k y Hy) as [? ?].
    unfold u256_saturating_add. case_decide; lia.
Qed.

Lemma delete_wf self i :
  wf self → wf {| id := id self; snapshots := delete i (snapshots self) |}.
Proof.
  intros [Hid Hk]. split; [done|]. simpl. intros k y Hy.
  apply lookup_delete_Some in Hy as [_ Hy]. by apply (Hk k y).
Qed.

Lemma cascade_wf self i : wf self → wf (cascade self i).
Proof.
  intros [Hid Hk]. split; [done|]. intros k y Hy.
  rewrite lookup_cascade in Hy. case_decide; [done|]. by apply (Hk k y).
Qed.

Lemma remove_wf self i o self' :
  wf self → remove self i = o → outcome_state o = Some self' → wf self'.
Proof.
  intros Hwf <-. destruct (decide (i < U256_MAX)) as [Hi|Hi].
  - rewrite remove_returns by (done || apply Hwf). intros [= <-].
    by apply cascade_wf.
  - unfold remove. assert (u256_add i 1 = None) as ->
      by (apply u256_add_None; lia).
    intros [= <-]. by apply delete_wf.
Qed.

Lemma step_wf self self' : wf self → step self self' → wf self'.
Proof.
  intros Hwf Hstep. destruct Hstep as [s x|s i o s' Ho Hs]; [by apply insert_wf|].
  exact (remove_wf _ _ _ _ Hwf Ho Hs).
Qed.

(** [remove] never changes the counter, whatever its outcome. *)
Lemma remove_loop_id fuel self k self' :
  outcome_state (remove_loop fuel self k) = Some self' → id self' = id self.
Proof.
  revert self k. induction fuel as [|fuel IH]; intros self k; simpl;
    case_decide; try (by intros [= <-]); try done.
  destruct (u256_add k 1); [|by intros [= <-]].
  intros Hs%IH. by rewrite Hs.
Qed.

(** [remove] only takes snapshots out, and what it returns is what was
    stored under the identifier. *)
Lemma remove_loop_subseteq fuel self k self' :
  outcome_state (remove_loop fuel self k) = Some self' →
  snapshots self' ⊆ snapshots self.
Proof.
  revert self k. induction fuel as [|fuel IH]; intros self k; simpl;
    case_decide; try (by intros [= <-]); try done.
  destruct (u256_add k 1); [|intros [= <-]; apply delete_subseteq].
  intros Hs%IH. etrans; [exact Hs|apply delete_subseteq].
Qed.

Lemma remove_subseteq self i self' :
  outcome_state (remove self i) = Some self' →
  snapshots self' ⊆ snapshots self.
Proof.
  unfold remove.
  destruct (u256_add i 1) as [k|];
    [|intros [= <-]; apply delete_subseteq].
  destruct (remove_loop _ _ k) as [[] s2|s2|] eqn:E; intros [= <-];
    (etrans; [eapply (remove_loop_subseteq _ _ k); by rewrite E|]);
    apply delete_subseteq.
Qed.

Lemma remove_result self i o self' :
  remove self i = Returned o self' → o = get self i.
Proof.
  unfold remove. destruct (u256_add i 1) as [k|]; [|done].
  by destruct (remove_loop _ _ k); intros [= <- <-].
Qed.

Lemma remove_id self i self' :
  outcome_state (remove self i) = Some self' → id self' = id self.
Proof.
  unfold remove. destruct (u256_add i 1) as [k|]; [|by intros [= <-]].
  destruct (remove_loop _ _ k) as [[] s2|s2|] eqn:E; intros [= <-];
    by rewrite (remove_loop_id _ _ k s2) by (by rewrite E).
Qed.

Lemma step_id self self' :
  step self self' →
  id self' = id self ∨ id self' = u256_saturating_add (id self) 1.
Proof.
  intros Hstep. destruct Hstep as [s x|s i o s' <- Hs]; [by right|left].
  by apply remove_id in Hs.
Qed.

(** The counter never decreases along transitions. *)
Lemma rtc_step_id self self' :
  wf self → rtc step self self' → wf self' ∧ id self ≤ id self'.
Proof.
  intros Hwf Hrtc. induction Hrtc as [s|s1 s2 s3 Hstep _ IH]; [done|].
  destruct (IH (step_wf _ _ Hwf Hstep)) as [Hwf3 Hle]. split; [done|].
  destruct (step_id _ _ Hstep) as [->| ->] in Hle; [done|].
  pose proof (u256_saturating_add_ge (id s1) 1) as Hge.
  destruct Hwf as [[_ Hmax] _]. lia.
Qed.

Lemma step_above_step i self self' : step_above i self self' → step self self'.
Proof.
  intros H. destruct H as [s x|s k o s' _ Ho Hs]; [constructor|].
  by apply (step_remove s k o).
Qed.

(** The state of the registry after any [remove], as far as lookups go:
    whatever was removed is [k] or lies above [k]. *)
Lemma remove_lookup_below self k self' i :
  id self ≤ U256_MAX → i < k →
  outcome_state (remove self k) = Some self' → get self' i = get self i.
Proof.
  intros Hmax Hik. destruct (decide (k < U256_MAX)) as [Hk|Hk].
  - rewrite remove_returns by done. intros [= <-].
    unfold get. rewrite lookup_cascade. unfold removed_by.
    case_decide; [lia|done].
  - unfold remove.
    assert (u256_add k 1 = None) as -> by (apply u256_add_None; lia).
    intros [= <-]. unfold get; simpl. apply lookup_delete_ne. lia.
Qed.

(** A snapshot registered under an identifier below the counter stays
    registered, unchanged, as long as nothing at or below it is removed. *)
Lemma rtc_step_above_get i x self self' :
  wf self → i < id self → get self i = Some x →
  rtc (step_above i) self self' →
  wf self' ∧ i < id self' ∧ get self' i = Some x.
Proof.
  intros Hwf Hlt Hget Hrtc.
  induction Hrtc as [s|s1 s2 s3 Hstep _ IH]; [done|].
  pose proof (step_wf _ _ Hwf (step_above_step _ _ _ Hstep)) as Hwf2.
  destruct Hwf as [[? Hmax] _].
  apply IH; [done| |]; destruct Hstep as [s x'|s k o s' Hik <- Hs].
  - rewrite insert_eq. simpl.
    pose proof (u256_saturating_add_ge (id s) 1). lia.
  - by rewrite (remove_id _ _ _ Hs).
  - rewrite insert_eq. unfold get in *. simpl.
    rewrite lookup_insert_ne by lia. done.
  - by rewrite (remove_lookup_below _ _ _ _ Hmax Hik Hs).
Qed.
End lemmas.

(** ** Example registries *)

(** Three snapshots taken, none reverted. *)
Definition three : t nat :=
  {| id := 3; snapshots := {[0 := 10%nat; 1 := 20%nat; 2 := 30%nat]} |}.

(** A registry whose counter has saturated. *)
Definition saturated : t nat := {| id := U256_MAX; snapshots := ∅ |}.

Lemma three_wf : wf three.
Proof. by apply (bool_decide_unpack _). Defined.

(** ** Properties *)

Section properties.
Context {T : Type}.
Implicit Types (self : t T) (i k : Z) (x y : T).

(** Claim C2. [remove(id)] on a registry that satisfies the invariant, for an
    identifier below the largest U256: it returns the snapshot stored under
    [id] (none when there is none), leaves the counter unchanged, and
    afterwards the identifiers [id] and every identifier strictly between
    [id] and the counter are absent while all others are as before. *)
Theorem remove_cascades self i :
  wf self → i < U256_MAX →
  ∃ self', remove self i = Returned (get self i) self' ∧
    id self' = id self ∧
    ∀ k, get self' k =
           if decide (k = i ∨ i < k < id self) then None else get self k.
Proof.
  intros [[_ Hmax] _] Hi. exists (cascade self i).
  split; [by apply remove_returns|]. split; [done|].
  intros k. apply lookup_cascade.
Qed.

(** Claim C34. The loop of [remove] terminates: with the fuel that [remove]
    passes, the model never reports that the loop ran out of fuel, on any
    registry and any identifier. *)
Theorem remove_terminates self i : remove self i ≠ OutOfFuel.
Proof.
  unfold remove. destruct (u256_add i 1) as [k|] eqn:E; [|done].
  pose proof (remove_loop_enough (Z.to_nat (id self - k))
    {| id := id self; snapshots := delete i (snapshots self) |} k) as Hne.
  destruct (remove_loop _ _ k); try done. intros _. apply Hne; [simpl; lia|done].
Qed.

(** [remove(U256::MAX)] panics: [id + 1] overflows.  The panic
    comes after the snapshot stored under that identifier, if any, was taken
    out of the map, and no value is returned. *)
Theorem remove_panics_at_max self :
  remove self U256_MAX =
    Panicked {| id := id self; snapshots := delete U256_MAX (snapshots self) |}.
Proof.
  unfold remove.
  by assert (u256_add U256_MAX 1 = None) as -> by (apply u256_add_None; lia).
Qed.

(** [insert] returns the current counter as the identifier, the
    snapshot is then found under that identifier, and every other identifier
    maps to what it mapped to before. *)
Theorem insert_then_get self x :
  (insert self x).1 = id self ∧
  get (insert self x).2 (insert self x).1 = Some x ∧
  ∀ k, k ≠ id self → get (insert self x).2 k = get self k.
Proof.
  rewrite insert_eq. unfold get. simpl. split; [done|]. split.
  - apply lookup_insert_eq.
  - intros k Hk. by apply lookup_insert_ne.
Qed.

(** While the counter is below the largest U256, the identifier
    that [insert] hands out is not in use: no stored snapshot is
    overwritten. *)
Theorem insert_id_fresh self x :
  wf self → id self < U256_MAX → get self (insert self x).1 = None.
Proof. intros Hwf Hlt. rewrite insert_eq. simpl. by apply wf_fresh. Qed.

(** Claim C4. Identifiers are never reused below the bound: an identifier
    handed out by [insert], if below the largest U256, is strictly smaller
    than the one handed out by any later [insert], whatever inserts and
    removals (returning or panicking) happen in between. *)
Theorem insert_ids_increase self x self2 y :
  wf self → (insert self x).1 < U256_MAX →
  rtc step (insert self x).2 self2 →
  (insert self x).1 < (insert self2 y).1.
Proof.
  intros Hwf Hlt Hrtc.
  apply rtc_step_id in Hrtc as [_ Hle]; [|by apply insert_wf].
  rewrite !insert_eq in *. simpl in *.
  rewrite u256_saturating_add_lt in Hle by done. lia.
Qed.

(** Claim C38. Once the counter has saturated, [insert] hands out the largest
    U256 again and again: the second snapshot replaces the first under the
    same identifier. *)
Theorem insert_reuses_id_when_saturated self x y :
  id self = U256_MAX →
  (insert self x).1 = U256_MAX ∧
  (insert (insert self x).2 y).1 = U256_MAX ∧
  get (insert (insert self x).2 y).2 U256_MAX = Some y.
Proof.
  intros Hid. rewrite !insert_eq. simpl. rewrite Hid.
  rewrite u256_saturating_add_max by done. unfold get. simpl.
  split; [done|]. split; [done|]. apply lookup_insert_eq.
Qed.

(** Claim C11. Every registry reached from the empty one by inserts and
    removals satisfies the invariant: the counter is a U256 and every stored
    identifier is below it (or is the largest U256, once the counter has
    saturated). *)
Theorem reachable_wf self : rtc step (@default T) self → wf self.
Proof. intros Hrtc. by apply (rtc_step_id _ _ wf_default Hrtc). Qed.
End properties.

(** ** Witnesses *)

Lemma remove_cascades_witness :
  ∃ self', remove three 1 = Returned (get three 1) self' ∧
    id self' = id three ∧
    ∀ k, get self' k =
           if decide (k = 1 ∨ 1 < k < id three) then None else get three k.
Proof. apply (remove_cascades three 1); [exact three_wf|done]. Defined.

Lemma insert_id_fresh_witness : get three (insert three 40%nat).1 = None.
Proof. apply (insert_id_fresh three 40%nat); [exact three_wf|done]. Defined.

Lemma insert_ids_increase_witness :
  (insert three 40%nat).1 < (insert (cascade (insert three 40%nat).2 1) 50%nat).1.
Proof.
  apply (insert_ids_increase three 40%nat _ 50%nat); [exact three_wf|done|].
  apply rtc_once.
  by apply (step_remove _ 1 (Returned (Some 20%nat)
              (cascade (insert three 40%nat).2 1))); vm_compute.
Defined.

Lemma insert_reuses_id_when_saturated_witness :
  (insert saturated 1%nat).1 = U256_MAX ∧
  (insert (insert saturated 1%nat).2 2%nat).1 = U256_MAX ∧
  get (insert (insert saturated 1%nat).2 2%nat).2 U256_MAX = Some 2%nat.
Proof. by apply (insert_reuses_id_when_saturated saturated). Defined.

Lemma reachable_wf_witness : wf (insert default 7%nat).2.
Proof. apply reachable_wf. apply rtc_once. apply step_insert. Defined.

End Snapshots.
