(* ===== verification/Timeline.v ===== *)
(** * The registry as a stack of checkpoints

    What [Snapshots<T>] of forked_db.rs promises to its client, and the proof
    that the registry keeps the promise.

    The abstract registry, Module [Timeline], is the list of the live
    checkpoints, oldest first, with the identifier that the next checkpoint
    gets.  [push] appends, [find] looks an identifier up, [revert i] cuts the
    list before the first checkpoint whose identifier is [i] or larger and
    answers with the checkpoint [i] if it was there.  The list is a stack: a
    revert leaves a prefix of it.

    [abs] maps a registry of the code to the abstract one (the iteration of
    its map in key order).  [refines] is the simulation: below the largest
    U256 every run of inserts, lookups and removals on the code's registry
    returns, and gives the answers of the abstract run.  At the bound the
    registry stops being a stack (the counter saturates and the cascade of
    [remove] no longer reaches the last identifier), which is why the bound
    is a hypothesis. *)

From stdpp Require Import gmap list sorting.
From Stdlib Require Import ZArith Lia.
From S2P Require Import Prelude SnapshotStore.

#[local] Open Scope Z_scope.
#[local] Set Warnings "-clear-no-such-hyp".

(** ** The abstract registry *)

Module Timeline.
Section defs.
Context {T : Type}.

Record t : Type := { next : Z; live : list (Z * T) }.

Definition empty : t := {| next := 0; live := [] |}.

Definition push (s : t) (x : T) : Z * t :=
  (next s, {| next := next s + 1; live := live s ++ [(next s, x)] |}).

Definition find (s : t) (i : Z) : option T := first_entry i (live s).

Definition revert (s : t) (i : Z) : option T * t :=
  (find s i, {| next := next s; live := filter (λ e, e.1 < i) (live s) |}).

(** The identifiers grow along the list and are below the next one. *)
Definition ordered (s : t) : Prop :=
  0 ≤ next s ∧
  StronglySorted Z.lt (live s).*1 ∧ Forall (λ k, 0 ≤ k < next s) (live s).*1.
End defs.
Arguments t T : clear implicits.
End Timeline.

(** ** Runs of a client *)

(** What a client asks of the registry, and what it is told. *)
Inductive Request (T : Type) : Type :=
| Insert (x : T)
| Get (i : Z)
| Remove (i : Z).
Arguments Insert {T} x.
Arguments Get {T} i.
Arguments Remove {T} i.

Inductive Answer (T : Type) : Type :=
| Identifier (i : Z)
| Snapshot (o : option T).
Arguments Identifier {T} i.
Arguments Snapshot {T} o.

Section runs.
Context {T : Type}.

(** The abstraction: the entries of the map in key order. *)
Definition abs (c : Snapshots.t T) : Timeline.t T :=
  {| Timeline.next := Snapshots.id c;
     Timeline.live := btree_iter (Snapshots.snapshots c) |}.

(** Every stored identifier is below the counter: the registry has not
    reached the largest identifier. *)
Definition below (c : Snapshots.t T) : Prop :=
  is_u256 (Snapshots.id c) ∧
  map_Forall (λ k _, 0 ≤ k < Snapshots.id c) (Snapshots.snapshots c).

(** One request on the registry of the code. *)
Definition serve (c : Snapshots.t T) (r : Request T)
    : Outcome (Snapshots.t T) (Answer T) :=
  match r with
  | Insert x =>
      let '(i, c') := Snapshots.insert c x in Returned (Identifier i) c'
  | Get i => Returned (Snapshot (Snapshots.get c i)) c
  | Remove i =>
      match Snapshots.remove c i with
      | Returned o c' => Returned (Snapshot o) c'
      | Panicked c' => Panicked c'
      | OutOfFuel => OutOfFuel
      end
  end.

Fixpoint serve_all (c : Snapshots.t T) (rs : list (Request T))
    : Outcome (Snapshots.t T) (list (Answer T)) :=
  match rs with
  | [] => Returned [] c
  | r :: rs =>
      match serve c r with
      | Returned a c' =>
          match serve_all c' rs with
          | Returned answers c'' => Returned (a :: answers) c''
          | Panicked c'' => Panicked c''
          | OutOfFuel => OutOfFuel
          end
      | Panicked c' => Panicked c'
      | OutOfFuel => OutOfFuel
      end
  end.

(** One request on the abstract registry. *)
Definition spec (s : Timeline.t T) (r : Request T) : Answer T * Timeline.t T :=
  match r with
  | Insert x => let '(i, s') := Timeline.push s x in (Identifier i, s')
  | Get i => (Snapshot (Timeline.find s i), s)
  | Remove i => let '(o, s') := Timeline.revert s i in (Snapshot o, s')
  end.

Fixpoint spec_all (s : Timeline.t T) (rs : list (Request T))
    : list (Answer T) * Timeline.t T :=
  match rs with
  | [] => ([], s)
  | r :: rs =>
      let '(a, s') := spec s r in
      let '(answers, s'') := spec_all s' rs in
      (a :: answers, s'')
  end.

(** The removals of a run stay below the largest identifier. *)
Definition in_range (r : Request T) : Prop :=
  match r with Remove i => i < U256_MAX | _ => True end.

#[global] Instance in_range_dec r : Decision (in_range r).
Proof. destruct r; apply _. Defined.
End runs.

(** ** The abstract registry is a stack *)

Section timeline_lemmas.
Context {T : Type}.
Implicit Types (s : Timeline.t T) (i : Z) (x : T) (l : list (Z * T)).

Lemma ordered_empty : Timeline.ordered (@Timeline.empty T).
Proof. split; [done|]. split; constructor. Qed.

Lemma ordered_push s x :
  Timeline.ordered s → Timeline.ordered (Timeline.push s x).2.
Proof.
  intros (Hn & Hs & Hall). split; [simpl; lia|].
  split; simpl; rewrite fmap_app.
  - apply StronglySorted_app. split; [|split; [done|repeat constructor]].
    rewrite Forall_forall in Hall.
    intros k1 k2 Hk1%Hall ->%list_elem_of_singleton. simpl in *. lia.
  - apply Forall_app. split; [|repeat constructor; simpl; lia].
    eapply Forall_impl; [done|]. simpl. lia.
Qed.

Lemma ordered_revert s i :
  Timeline.ordered s → Timeline.ordered (Timeline.revert s i).2.
Proof.
  intros (Hn & Hs & Hall). split; [done|]. split; simpl.
  - by apply sorted_lt_filter_fst.
  - rewrite Forall_forall in *.
    intros k ([k' v] & -> & [_ Hin]%list_elem_of_filter)%list_elem_of_fmap.
    apply Hall. apply list_elem_of_fmap. by exists (k', v).
Qed.

(** Cutting a list in ascending key order at a key leaves a prefix. *)
Lemma filter_below_prefix l i :
  StronglySorted Z.lt l.*1 → filter (λ e, e.1 < i) l `prefix_of` l.
Proof.
  induction l as [|e l IH]; simpl; [done|].
  intros [Hl Hall]%StronglySorted_inv. rewrite filter_cons.
  case_decide as He; [by apply prefix_cons, IH|].
  rewrite filter_none; [apply prefix_nil|].
  rewrite Forall_forall in Hall. apply Forall_forall.
  intros e' He'. assert (e.1 < e'.1); [|lia].
  apply Hall. apply list_elem_of_fmap. by exists e'.
Qed.
End timeline_lemmas.

(** ** The registry of the code implements the abstract one *)

Section refinement.
Context {T : Type}.
Implicit Types (c : Snapshots.t T) (r : Request T) (i : Z) (x : T).

Lemma below_default : below (@Snapshots.default T).
Proof. split; [done|]. apply map_Forall_empty. Qed.

Lemma below_wf c : below c → Snapshots.wf c.
Proof.
  intros [Hid Hall]. split; [done|].
  eapply map_Forall_impl; [done|]. simpl. lia.
Qed.

Lemma abs_default : abs (@Snapshots.default T) = Timeline.empty.
Proof. done. Qed.

Lemma abs_ordered c : below c → Timeline.ordered (abs c).
Proof.
  intros [[Hid _] Hall]. split; [done|]. split; simpl.
  - rewrite btree_iter_fst. apply btree_keys_sorted_lt.
  - rewrite btree_iter_fst. apply Forall_forall.
    intros k [v Hv]%elem_of_btree_keys. by apply (Hall k v).
Qed.

Lemma abs_insert c x :
  below c → Snapshots.id c < U256_MAX →
  abs (Snapshots.insert c x).2 = (Timeline.push (abs c) x).2 ∧
  below (Snapshots.insert c x).2.
Proof.
  intros [[Hid0 Hid] Hall] Hlt. rewrite Snapshots.insert_eq. simpl.
  rewrite u256_saturating_add_lt by done. split.
  - unfold abs, Timeline.push. simpl. f_equal. apply btree_iter_snoc.
    intros k [v Hv]. by apply (Hall k v).
  - split; simpl; [unfold is_u256; lia|].
    apply map_Forall_insert_2; [lia|].
    eapply map_Forall_impl; [done|]. simpl. lia.
Qed.

Lemma abs_cascade c i :
  below c →
  abs (Snapshots.cascade c i) = (Timeline.revert (abs c) i).2 ∧
  below (Snapshots.cascade c i).
Proof.
  intros [Hid Hall]. split.
  - unfold abs, Timeline.revert. simpl. f_equal. symmetry.
    apply btree_iter_unique.
    + apply sorted_lt_filter_fst. rewrite btree_iter_fst.
      apply btree_keys_sorted_lt.
    + intros k v. rewrite list_elem_of_filter, elem_of_btree_iter,
        map_lookup_filter_Some. unfold Snapshots.removed_by. simpl.
      split; [intros [? Hk]|intros [Hk ?]];
        pose proof (Hall k v Hk); simpl in *;
        first [split; [done|lia]|split; [lia|done]].
  - split; [done|]. intros k v [Hk _]%map_lookup_filter_Some.
    by apply (Hall k v).
Qed.

(** One request: the registry of the code answers as the abstract one and
    stays in relation with it. *)
Lemma serve_spec c r :
  below c → in_range r → Snapshots.id c < U256_MAX →
  ∃ c', serve c r = Returned (spec (abs c) r).1 c' ∧
        abs c' = (spec (abs c) r).2 ∧
        below c' ∧ Snapshots.id c' ≤ Snapshots.id c + 1.
Proof.
  intros Hb Hr Hlt. destruct r as [x|i|i]; simpl in *.
  - exists (Snapshots.insert c x).2.
    destruct (abs_insert c x Hb Hlt) as [Habs Hb'].
    rewrite Snapshots.insert_eq in *. simpl in *.
    split; [done|]. split; [exact Habs|]. split; [exact Hb'|].
    rewrite u256_saturating_add_lt by done. lia.
  - exists c. unfold Snapshots.get, Timeline.find. simpl.
    rewrite first_entry_btree_iter.
    split; [done|]. split; [done|]. split; [done|lia].
  - exists (Snapshots.cascade c i).
    rewrite Snapshots.remove_returns by (done || lia).
    destruct (abs_cascade c i Hb) as [Habs Hb'].
    unfold Snapshots.get, Timeline.find. simpl.
    rewrite first_entry_btree_iter.
    split; [done|]. split; [exact Habs|]. split; [exact Hb'|simpl; lia].
Qed.

(** A run: the simulation, with the invariant that carries it. *)
Lemma serve_all_spec c rs :
  below c → Forall in_range rs →
  Snapshots.id c + Z.of_nat (length rs) ≤ U256_MAX →
  ∃ c', serve_all c rs = Returned (spec_all (abs c) rs).1 c' ∧
        abs c' = (spec_all (abs c) rs).2 ∧ below c'.
Proof.
  revert c. induction rs as [|r rs IH]; intros c Hb Hrs Hlen.
  - by exists c.
  - apply Forall_cons in Hrs as [Hr Hrs]. simpl in Hlen.
    destruct (serve_spec c r Hb Hr) as (c1 & Hserve & Habs & Hb1 & Hid);
      [lia|].
    destruct (IH c1 Hb1 Hrs) as (c2 & Hall & Habs2 & Hb2); [lia|].
    exists c2. simpl. rewrite Hserve, Hall.
    destruct (spec (abs c) r) as [a s1]. simpl in *. subst s1.
    by destruct (spec_all (abs c1) rs).
Qed.

(** ** Theorems *)

(** Claim C15. The registry implements a stack of checkpoints: from a
    registry whose identifiers are below its counter, a run of inserts,
    lookups and removals that stays below the largest U256 returns (no
    panic, no divergence), gives the answers of the abstract registry, and
    ends in the registry that represents the abstract one. *)
Theorem refines c rs :
  below c → Forall in_range rs →
  Snapshots.id c + Z.of_nat (length rs) ≤ U256_MAX →
  ∃ c', serve_all c rs = Returned (spec_all (abs c) rs).1 c' ∧
        abs c' = (spec_all (abs c) rs).2.
Proof.
  intros Hb Hrs Hlen.
  destruct (serve_all_spec c rs Hb Hrs Hlen) as (c' & ? & ? & _).
  by exists c'.
Qed.

(** A removal keeps the oldest snapshots: what is left of the
    registry after [remove], in the order of the identifiers, is an initial
    segment of what was there, and holds no identifier from the removed one
    on. *)
Theorem remove_keeps_prefix c i :
  below c → i < U256_MAX →
  ∃ c', Snapshots.remove c i = Returned (Snapshots.get c i) c' ∧
        btree_iter (Snapshots.snapshots c')
          `prefix_of` btree_iter (Snapshots.snapshots c) ∧
        ∀ k, i ≤ k → Snapshots.get c' k = None.
Proof.
  intros Hb Hi. exists (Snapshots.cascade c i).
  destruct (abs_cascade c i Hb) as [[= Habs] _].
  destruct (abs_ordered c Hb) as (_ & Hs & _). pose proof Hb as [[_ Hid] Hall].
  split; [by apply Snapshots.remove_returns|]. split.
  - simpl. rewrite Habs. by apply filter_below_prefix.
  - intros k Hk. unfold Snapshots.get. rewrite Snapshots.lookup_cascade.
    case_decide as Hrm; [done|]. unfold Snapshots.removed_by in Hrm.
    destruct (Snapshots.snapshots c !! k) as [v|] eqn:Hv; [|done].
    pose proof (Hall k v Hv). simpl in *. lia.
Qed.
End refinement.

(** ** A run *)

Module Run.

(** Three snapshots, a removal of the second one, one more snapshot, and
    lookups of the four identifiers. *)
Definition requests : list (Request nat) :=
  [Insert 10%nat; Insert 20%nat; Insert 30%nat; Remove 1; Insert 40%nat;
   Get 0; Get 1; Get 2; Get 3].

Lemma refines_witness :
  ∃ c', serve_all Snapshots.default requests =
          Returned
            [Identifier 0; Identifier 1; Identifier 2;
             Snapshot (Some 20%nat); Identifier 3; Snapshot (Some 10%nat);
             Snapshot None; Snapshot None; Snapshot (Some 40%nat)] c' ∧
        abs c' = {| Timeline.next := 4;
                    Timeline.live := [(0, 10%nat); (3, 40%nat)] |}.
Proof.
  apply (refines Snapshots.default requests);
    [apply below_default|by repeat constructor|by vm_compute].
Defined.

Definition three : Snapshots.t nat :=
  {| Snapshots.id := 3;
     Snapshots.snapshots := <[0 := 10%nat]> (<[1 := 20%nat]> (<[2 := 30%nat]> ∅)) |}.

Lemma three_below : below three.
Proof.
  split; [done|]. intros k v Hk. simpl in Hk.
  repeat (apply lookup_insert_Some in Hk as [[<- _]|[_ Hk]]; [done|]).
  by rewrite lookup_empty in Hk.
Qed.

Lemma remove_keeps_prefix_witness :
  ∃ c', Snapshots.remove three 1 = Returned (Snapshots.get three 1) c' ∧
        btree_iter (Snapshots.snapshots c')
          `prefix_of` btree_iter (Snapshots.snapshots three) ∧
        ∀ k, 1 ≤ k → Snapshots.get c' k = None.
Proof. apply (remove_keeps_prefix three 1); [exact three_below|done]. Defined.
End Run.
