(* ===== verification/Revm.v ===== *)
(** * The types and the cache database of revm

    forked_db.rs builds on the revm library: it stores a
    [CacheDB<SharedBackend>] and implements revm's traits [Database],
    [DatabaseRef] and [DatabaseCommit] by delegating to it.  The library is
    not part of the sources, so this file models it from what the
    specification says of the local overlay (sections 3, 4.1 and 4.2): an
    address-keyed map of account records with their storage, consulted first,
    filled on a miss from the backing database, and the only target of
    commits.  The account state flags of revm are kept since they decide
    whether a storage miss goes to the backing database.

    - [AccountInfo], [AccountState], [DbAccount], [Account]: the payloads.
    - Classes [DatabaseRef] and [Database]: the read-only and the
      fetch-and-cache query interfaces.  A read-only query on a backing
      database runs in the monad [SE W DatabaseError], where [W] is the state
      behind the database's handle (the remote cache for the shared backend,
      nothing for [EmptyDB]).
    - Class [Keccak]: the hash function of the library, which [EmptyDB]
      applies to the number of a block.
    - Module [CacheDB]: the overlay and its operations, generic in the
      backing database. *)

From stdpp Require Import gmap list.
From Stdlib Require Import ZArith Lia.
From S2P Require Import Prelude.

#[local] Open Scope Z_scope.
#[local] Open Scope se_scope.
#[local] Set Warnings "-clear-no-such-hyp".

(** Addresses (160 bits), hashes and words (256 bits) are integers; bytecode
    is a list of bytes. *)
Abbreviation Address := Z (only parsing).
Abbreviation B256 := Z (only parsing).
Abbreviation U256 := Z (only parsing).
Abbreviation Bytecode := (list Z) (only parsing).

(** The hash of the empty bytecode. *)
Definition KECCAK_EMPTY : Z :=
  0xc5d2460186f7233c927e7db2dcc703c0e500b653ca82273b7bfad8045d85a470.

(** The error of a query: the remote source could not answer. *)
Inductive DatabaseError : Type :=
| TransportError (code : Z).

#[global] Instance DatabaseError_eq_dec : EqDecision DatabaseError.
Proof. solve_decision. Defined.

Module AccountInfo.
Record t : Type :=
  { balance : U256; nonce : Z; code_hash : B256; code : option Bytecode }.

Definition default : t :=
  {| balance := 0; nonce := 0; code_hash := KECCAK_EMPTY; code := Some [] |}.

#[global] Instance eq_dec : EqDecision t.
Proof. solve_decision. Defined.
End AccountInfo.

Inductive AccountState : Type :=
| NotExisting
| Touched
| StorageCleared
| StateNone.

#[global] Instance AccountState_eq_dec : EqDecision AccountState.
Proof. solve_decision. Defined.

(** The states in which a storage slot that the overlay does not hold reads
    as zero without asking the backing database. *)
Definition is_storage_known (s : AccountState) : bool :=
  match s with
  | StorageCleared | NotExisting => true
  | Touched | StateNone => false
  end.

Module DbAccount.
Record t : Type :=
  { info : AccountInfo.t; account_state : AccountState; storage : gmap Z Z }.

(** [impl Default]: the account an entry starts from when it is created by a
    write. *)
Definition default : t :=
  {| info := AccountInfo.default; account_state := StateNone; storage := ∅ |}.

Definition new_not_existing : t :=
  {| info := AccountInfo.default; account_state := NotExisting; storage := ∅ |}.

(** The account as a query reports it: nothing for a non-existing one. *)
Definition get_info (self : t) : option AccountInfo.t :=
  match account_state self with
  | NotExisting => None
  | _ => Some (info self)
  end.

(** [From<Option<AccountInfo>>] *)
Definition from_info (from : option AccountInfo.t) : t :=
  match from with
  | Some i => {| info := i; account_state := StateNone; storage := ∅ |}
  | None => new_not_existing
  end.

Definition set_storage (self : t) (index value : Z) : t :=
  {| info := info self; account_state := account_state self;
     storage := <[index := value]> (storage self) |}.

#[global] Instance eq_dec : EqDecision t.
Proof. solve_decision. Defined.
End DbAccount.

(** A post-execution account state, as the execution engine hands it to
    [commit]: the record, the present value of every touched slot, and the
    flags. *)
Module Account.
Record t : Type :=
  { info : AccountInfo.t;
    storage : gmap Z Z;
    storage_cleared : bool;
    is_destroyed : bool }.
End Account.

(** ** The query interfaces *)

(** [trait DatabaseRef]: queries that take [&self].  [W] is the state behind
    the handle [D]. *)
Class DatabaseRef (W D : Type) : Type :=
  { basic_ref : D → Address → SE W DatabaseError (option AccountInfo.t);
    code_by_hash_ref : D → B256 → SE W DatabaseError Bytecode;
    storage_ref : D → Address → U256 → SE W DatabaseError U256;
    block_hash_ref : D → U256 → SE W DatabaseError B256 }.

(** [trait Database]: queries that take [&mut self]; the database after the
    query is returned with the answer.  On an error the caller keeps the
    database it had. *)
Class Database (W D : Type) : Type :=
  { basic : D → Address → SE W DatabaseError (option AccountInfo.t * D);
    code_by_hash : D → B256 → SE W DatabaseError (Bytecode * D);
    storage : D → Address → U256 → SE W DatabaseError (U256 * D);
    block_hash : D → U256 → SE W DatabaseError (B256 * D) }.

(** What the overlay may rely on, whatever backs it: a query never shrinks
    the state behind the handle, and a query that was answered is answered
    the same way again without changing that state.  [le] is the order in
    which the state grows. *)
Class DatabaseRefLaws (W D : Type) `{!DatabaseRef W D} (le : relation W)
    : Prop :=
  { laws_preorder : PreOrder le;
    basic_ref_grows d a w : le w (basic_ref d a w).2;
    storage_ref_grows d a i w : le w (storage_ref d a i w).2;
    block_hash_ref_grows d n w : le w (block_hash_ref d n w).2;
    code_by_hash_ref_grows d h w : le w (code_by_hash_ref d h w).2;
    basic_ref_stable d a w r w' :
      basic_ref d a w = (Ok r, w') → basic_ref d a w' = (Ok r, w');
    storage_ref_stable d a i w r w' :
      storage_ref d a i w = (Ok r, w') → storage_ref d a i w' = (Ok r, w');
    block_hash_ref_stable d n w r w' :
      block_hash_ref d n w = (Ok r, w') →
      block_hash_ref d n w' = (Ok r, w') }.

#[global] Hint Mode DatabaseRefLaws - ! - - : typeclass_instances.

(** The hash function of the library, on the bytes of a number. *)
Class Keccak : Type := { keccak256_of_number : U256 → B256 }.

(** [EmptyDB]: the backing database that knows nothing: no account, empty
    code, zero in every slot, and as the hash of a block the hash of its
    number. *)
Inductive EmptyDB : Type := EmptyDB_default.

#[global] Instance EmptyDB_DatabaseRef `{!Keccak} : DatabaseRef unit EmptyDB :=
  {| basic_ref _ _ := se_ret None;
     code_by_hash_ref _ _ := se_ret [];
     storage_ref _ _ _ := se_ret 0;
     block_hash_ref _ number := se_ret (keccak256_of_number number) |}.

#[global] Instance EmptyDB_laws `{!Keccak} : DatabaseRefLaws unit EmptyDB eq.
Proof.
  split; try apply _; try done; intros; by simplify_eq/=.
Qed.

(** ** The overlay *)

Module CacheDB.

Section defs.
Context {W ExtDB : Type} `{!DatabaseRef W ExtDB}.

Record t : Type :=
  { accounts : gmap Z DbAccount.t;
    contracts : gmap Z Bytecode;
    block_hashes : gmap Z Z;
    db : ExtDB }.

Definition set_accounts (self : t) (a : gmap Z DbAccount.t) : t :=
  {| accounts := a; contracts := contracts self;
     block_hashes := block_hashes self; db := db self |}.

(** [CacheDB::new]: an empty overlay; the empty bytecode is known under its
    hash and under the zero hash. *)
Definition new (db0 : ExtDB) : t :=
  {| accounts := ∅;
     contracts := <[KECCAK_EMPTY := []]> (<[0 := []]> ∅);
     block_hashes := ∅;
     db := db0 |}.

(** [insert_contract]: remembers the code of an account under its hash, unless
    it is empty or the hash is already known. *)
Definition insert_contract (account : AccountInfo.t)
    (cs : gmap Z Bytecode) : gmap Z Bytecode :=
  match AccountInfo.code account with
  | Some (b :: bs) =>
      match cs !! AccountInfo.code_hash account with
      | Some _ => cs
      | None => <[AccountInfo.code_hash account := b :: bs]> cs
      end
  | _ => cs
  end.

(** [insert_account_info]: sets the record of an account, keeping its
    storage. *)
Definition insert_account_info (self : t) (address : Address)
    (i : AccountInfo.t) : t :=
  let old := default DbAccount.default (accounts self !! address) in
  {| accounts :=
       <[address := {| DbAccount.info := i;
                       DbAccount.account_state := DbAccount.account_state old;
                       DbAccount.storage := DbAccount.storage old |}]>
         (accounts self);
     contracts := insert_contract i (contracts self);
     block_hashes := block_hashes self;
     db := db self |}.

(** [load_account]: the account of the overlay, fetched through on a miss. *)
Definition load_account (self : t) (address : Address)
    : SE W DatabaseError (DbAccount.t * t) :=
  match accounts self !! address with
  | Some a => se_ret (a, self)
  | None =>
      let* i := basic_ref (db self) address in
      let a := DbAccount.from_info i in
      se_ret (a, set_accounts self (<[address := a]> (accounts self)))
  end.

(** [insert_account_storage]: loads the account and sets one slot. *)
Definition insert_account_storage (self : t) (address : Address)
    (slot value : U256) : SE W DatabaseError (unit * t) :=
  let* r := load_account self address in
  let '(a, self1) := r in
  se_ret (tt, set_accounts self1
                (<[address := DbAccount.set_storage a slot value]>
                   (accounts self1))).

(** [Database::basic]: overlay first; on a miss the backing database is asked
    and its answer is kept in the overlay. *)
Definition basic_mut (self : t) (address : Address)
    : SE W DatabaseError (option AccountInfo.t * t) :=
  let* r := load_account self address in
  se_ret (DbAccount.get_info r.1, r.2).

Definition code_by_hash_mut (self : t) (hash : B256)
    : SE W DatabaseError (Bytecode * t) :=
  match contracts self !! hash with
  | Some c => se_ret (c, self)
  | None =>
      let* c := code_by_hash_ref (db self) hash in
      se_ret (c, {| accounts := accounts self;
                    contracts := <[hash := c]> (contracts self);
                    block_hashes := block_hashes self; db := db self |})
  end.

Definition storage_mut (self : t) (address : Address) (index : U256)
    : SE W DatabaseError (U256 * t) :=
  match accounts self !! address with
  | Some a =>
      match DbAccount.storage a !! index with
      | Some v => se_ret (v, self)
      | None =>
          if is_storage_known (DbAccount.account_state a) then se_ret (0, self)
          else
            let* slot := storage_ref (db self) address index in
            se_ret (slot, set_accounts self
                            (<[address := DbAccount.set_storage a index slot]>
                               (accounts self)))
      end
  | None =>
      let* i := basic_ref (db self) address in
      match i with
      | Some _ =>
          let* value := storage_ref (db self) address index in
          let a := DbAccount.set_storage (DbAccount.from_info i) index value in
          se_ret (value, set_accounts self (<[address := a]> (accounts self)))
      | None =>
          se_ret (0, set_accounts self
                       (<[address := DbAccount.from_info None]> (accounts self)))
      end
  end.

Definition block_hash_mut (self : t) (number : U256)
    : SE W DatabaseError (B256 * t) :=
  match block_hashes self !! number with
  | Some h => se_ret (h, self)
  | None =>
      let* h := block_hash_ref (db self) number in
      se_ret (h, {| accounts := accounts self; contracts := contracts self;
                    block_hashes := <[number := h]> (block_hashes self);
                    db := db self |})
  end.

#[global] Instance Database_instance : Database W t :=
  {| basic := basic_mut;
     code_by_hash := code_by_hash_mut;
     storage := storage_mut;
     block_hash := block_hash_mut |}.

(** [DatabaseRef for CacheDB]: the same chain, without keeping the answer of
    the backing database in the overlay. *)
#[global] Instance DatabaseRef_instance : DatabaseRef W t :=
  {| basic_ref self address :=
       match accounts self !! address with
       | Some a => se_ret (DbAccount.get_info a)
       | None => basic_ref (db self) address
       end;
     code_by_hash_ref self hash :=
       match contracts self !! hash with
       | Some c => se_ret c
       | None => code_by_hash_ref (db self) hash
       end;
     storage_ref self address index :=
       match accounts self !! address with
       | Some a =>
           match DbAccount.storage a !! index with
           | Some v => se_ret v
           | None =>
               if is_storage_known (DbAccount.account_state a) then se_ret 0
               else storage_ref (db self) address index
           end
       | None => storage_ref (db self) address index
       end;
     block_hash_ref self number :=
       match block_hashes self !! number with
       | Some h => se_ret h
       | None => block_hash_ref (db self) number
       end |}.

(** [DatabaseCommit::commit] for one account: a destroyed account becomes
    non-existing with empty storage; otherwise the record is replaced, the
    storage is emptied first when the change says so, and the touched slots
    are written over it. *)
Definition commit_account (change : Account.t) (old : option DbAccount.t)
    : DbAccount.t :=
  let old := default DbAccount.default old in
  if Account.is_destroyed change then DbAccount.new_not_existing
  else
    {| DbAccount.info := Account.info change;
       DbAccount.account_state :=
         if Account.storage_cleared change then StorageCleared
         else match DbAccount.account_state old with
              | StorageCleared => StorageCleared
              | _ => Touched
              end;
       DbAccount.storage :=
         hm_extend
           (if Account.storage_cleared change then ∅ else DbAccount.storage old)
           (Account.storage change) |}.

(** [commit]: every changed account is written to the overlay; nothing else
    is touched. *)
Definition commit (self : t) (changes : gmap Z Account.t) : t :=
  {| accounts :=
       merge (λ change old,
                match change with
                | Some c => Some (commit_account c old)
                | None => old
                end)
             changes (accounts self);
     contracts :=
       map_fold (λ _ c cs,
                   if Account.is_destroyed c then cs
                   else insert_contract (Account.info c) cs)
                (contracts self) changes;
     block_hashes := block_hashes self;
     db := db self |}.
End defs.

Arguments t ExtDB : clear implicits.

Section lemmas.
Context {W ExtDB : Type} `{!DatabaseRef W ExtDB}.
Implicit Types (self : t ExtDB) (address index : Z) (w : W).

Lemma lookup_insert_contract (i : AccountInfo.t) (cs : gmap Z Bytecode) h :
  insert_contract i cs !! h =
    match cs !! h with
    | Some c => Some c
    | None =>
        match AccountInfo.code i with
        | Some (b :: bs) =>
            if decide (h = AccountInfo.code_hash i) then Some (b :: bs)
            else None
        | _ => None
        end
    end.
Proof.
  unfold insert_contract.
  destruct (AccountInfo.code i) as [[|b bs]|]; try by destruct (cs !! h).
  case_decide as Hh.
  - subst h. destruct (cs !! AccountInfo.code_hash i) eqn:Hold;
      by rewrite ?Hold, ?lookup_insert_eq.
  - destruct (cs !! AccountInfo.code_hash i);
      rewrite ?lookup_insert_ne by done; by destruct (cs !! h).
Qed.

Lemma lookup_commit self changes address :
  accounts (commit self changes) !! address =
    match changes !! address with
    | Some c => Some (commit_account c (accounts self !! address))
    | None => accounts self !! address
    end.
Proof.
  unfold commit; simpl. rewrite lookup_merge.
  destruct (changes !! address), (accounts self !! address); done.
Qed.

Lemma commit_db self changes : db (commit self changes) = db self.
Proof. done. Qed.

Lemma commit_block_hashes self changes :
  block_hashes (commit self changes) = block_hashes self.
Proof. done. Qed.

(** A resident account answers [basic] without the backing database, in both
    variants and with the same answer. *)
Lemma basic_mut_hit self address a w :
  accounts self !! address = Some a →
  basic_mut self address w = (Ok (DbAccount.get_info a, self), w).
Proof. unfold basic_mut, load_account. by intros ->. Qed.

Lemma basic_ref_hit self address a w :
  accounts self !! address = Some a →
  basic_ref self address w = (Ok (DbAccount.get_info a), w).
Proof. simpl. by intros ->. Qed.

(** On a miss both variants ask the backing database and give its answer;
    the mutable one keeps it. *)
Lemma basic_mut_miss self address w :
  accounts self !! address = None →
  basic_mut self address w =
    match basic_ref (db self) address w with
    | (Ok i, w') =>
        (Ok (DbAccount.get_info (DbAccount.from_info i),
             set_accounts self
               (<[address := DbAccount.from_info i]> (accounts self))), w')
    | (Err e, w') => (Err e, w')
    end.
Proof.
  unfold basic_mut, load_account. intros ->. unfold se_bind.
  by destruct (basic_ref (db self) address w) as [[]].
Qed.

Lemma basic_ref_miss self address w :
  accounts self !! address = None →
  basic_ref self address w = basic_ref (db self) address w.
Proof. simpl. by intros ->. Qed.

(** A resident slot answers [storage] without the backing database. *)
Lemma storage_mut_hit self address index a v w :
  accounts self !! address = Some a →
  DbAccount.storage a !! index = Some v →
  storage_mut self address index w = (Ok (v, self), w).
Proof. unfold storage_mut. by intros -> ->. Qed.

Lemma storage_ref_hit self address index a v w :
  accounts self !! address = Some a →
  DbAccount.storage a !! index = Some v →
  storage_ref self address index w = (Ok v, w).
Proof. simpl. by intros -> ->. Qed.

(** A query that the mutable variant answered is answered again from the
    overlay alone, with the same answer. *)
Lemma basic_mut_stable self address w v self' w' :
  basic_mut self address w = (Ok (v, self'), w') →
  basic_mut self' address w' = (Ok (v, self'), w').
Proof.
  destruct (accounts self !! address) as [a|] eqn:E.
  - rewrite (basic_mut_hit _ _ a) by done. intros [= <- <- <-].
    by apply basic_mut_hit.
  - rewrite basic_mut_miss by done.
    destruct (basic_ref (db self) address w) as [[i|e] w1]; intros [= <- <- <-].
    apply basic_mut_hit. simpl. apply lookup_insert_eq.
Qed.

(** The two variants give the same answer and leave the same state behind
    the handle; only the mutable one changes the overlay. *)
Lemma variants_agree_overlay self address w :
  result_map fst (basic_mut self address w).1 = (basic_ref self address w).1 ∧
  (basic_mut self address w).2 = (basic_ref self address w).2.
Proof.
  destruct (accounts self !! address) as [a|] eqn:E.
  - by rewrite (basic_mut_hit _ _ a), (basic_ref_hit _ _ a).
  - rewrite basic_mut_miss, basic_ref_miss by done.
    destruct (basic_ref (db self) address w) as [[[i|]|e] w1]; try done.
Qed.

(** After a commit the overlay answers for a changed account that was not
    destroyed, with the committed record and without the backing database. *)
Lemma basic_mut_commit self changes address c w :
  changes !! address = Some c → Account.is_destroyed c = false →
  basic_mut (commit self changes) address w =
    (Ok (Some (Account.info c), commit self changes), w).
Proof.
  intros Hc Hd. erewrite basic_mut_hit; [|by rewrite lookup_commit, Hc].
  unfold commit_account, DbAccount.get_info. rewrite Hd. simpl.
  destruct (Account.storage_cleared c); [done|].
  by destruct (DbAccount.account_state _).
Qed.

(** The overlay over a backing database that keeps the contract keeps it
    too. *)
#[global] Instance laws (le : relation W) `{!DatabaseRefLaws W ExtDB le} :
  DatabaseRefLaws W (t ExtDB) le.
Proof.
  pose proof (laws_preorder (D := ExtDB)) as Hpre.
  split; try done.
  - intros d a w. simpl. destruct (accounts d !! a); [done|].
    apply basic_ref_grows.
  - intros d a i w. simpl. destruct (accounts d !! a) as [acc|];
      [|apply storage_ref_grows].
    destruct (DbAccount.storage acc !! i); [done|].
    destruct (is_storage_known _); [done|apply storage_ref_grows].
  - intros d n w. simpl. destruct (block_hashes d !! n); [done|].
    apply block_hash_ref_grows.
  - intros d h w. simpl. destruct (contracts d !! h); [done|].
    apply code_by_hash_ref_grows.
  - intros d a w r w'. simpl. destruct (accounts d !! a).
    + by intros [= <- <-].
    + apply basic_ref_stable.
  - intros d a i w r w'. simpl. destruct (accounts d !! a) as [acc|];
      [|apply storage_ref_stable].
    destruct (DbAccount.storage acc !! i); [by intros [= <- <-]|].
    destruct (is_storage_known _);
      [by intros [= <- <-]|apply storage_ref_stable].
  - intros d n w r w'. simpl. destruct (block_hashes d !! n).
    + by intros [= <- <-].
    + apply block_hash_ref_stable.
Qed.
End lemmas.

End CacheDB.
