(* ===== verification/Remote.v ===== *)
(** * The remote state source and its cache

    forked_db.rs only calls this part of the system: [SharedBackend] (a handle
    on the process that fetches remote state), [BlockchainDb] (a handle on the
    cache of fetched state) and [StateSnapshot] (a copy of that cache) are
    defined in sibling files that are not part of the sources.  They are
    modelled from the specification (sections 2, 3 and 6):

    - Module [RemoteCache]: the three maps of fetched state (accounts, storage
      by address and slot, block hashes), which only grow between resets.
    - Class [Transport]: the network, as the remote source needs it: point
      queries at a pinned block that answer or fail, and the resolution of a
      block to re-pin to.
    - Module [RemoteStateSource]: the state behind the handles, that is the
      pinned block and the cache, and the read-through queries: a query is
      answered from the cache, or fetched at the pinned block and remembered.
    - [SharedBackend.t] and [BlockchainDb.t] are the handles; they carry no
      state, so every clone of a handle refers to the same
      [RemoteStateSource.t].
    - Module [StateSnapshot]: an owned copy of the three maps.
    - Class [Persistence], [RemoteStateSource.persist]: the best-effort
      write of the cache to a file (specification, sections 6 and 7): a
      write that fails leaves the file as it was and is reported to the log
      only. *)

From stdpp Require Import gmap list.
From Stdlib Require Import ZArith Lia.
From S2P Require Import Prelude Revm.

#[local] Open Scope Z_scope.
#[local] Open Scope se_scope.
#[local] Set Warnings "-clear-no-such-hyp".

(** A block to pin to, by number. *)
Abbreviation BlockId := Z (only parsing).

(** The remote cache: three independent maps.  Storage is one map keyed by
    address and slot, as section 3 of the specification has it. *)
Module RemoteCache.
Record t : Type :=
  { accounts : gmap Z AccountInfo.t;
    storage : gmap (Z * Z) Z;
    block_hashes : gmap Z Z }.

Definition empty : t := {| accounts := ∅; storage := ∅; block_hashes := ∅ |}.

(** [clear]: wipes the three maps. *)
Definition clear (self : t) : t :=
  {| accounts := hm_clear (accounts self);
     storage := hm_clear (storage self);
     block_hashes := hm_clear (block_hashes self) |}.

(** The cache [c2] holds everything [c1] holds. *)
Definition incl (c1 c2 : t) : Prop :=
  accounts c1 ⊆ accounts c2 ∧ storage c1 ⊆ storage c2 ∧
  block_hashes c1 ⊆ block_hashes c2.

#[global] Instance eq_dec : EqDecision t.
Proof. solve_decision. Defined.
End RemoteCache.

(** [StateSnapshot]: a copy of the three maps of the remote cache. *)
Module StateSnapshot.
Record t : Type :=
  { accounts : gmap Z AccountInfo.t;
    storage : gmap (Z * Z) Z;
    block_hashes : gmap Z Z }.

#[global] Instance eq_dec : EqDecision t.
Proof. solve_decision. Defined.
End StateSnapshot.

(** What the remote source asks of the network. *)
Class Transport : Type :=
  { fetch_account : BlockId → Address → Result DatabaseError AccountInfo.t;
    fetch_storage : BlockId → Address → U256 → Result DatabaseError U256;
    fetch_code : B256 → Result DatabaseError Bytecode;
    fetch_block_hash : U256 → Result DatabaseError B256;
    resolve_block : BlockId → Result DatabaseError unit }.

(** What the remote source asks of the disk: whether a cache file is
    configured, and whether a write of the cache succeeds. *)
Class Persistence : Type :=
  { cache_path : bool;
    write_file : RemoteCache.t → bool }.

(** The cache file: the cache that was written last, if any was. *)
Abbreviation Disk := (option RemoteCache.t) (only parsing).

Module RemoteStateSource.

Record t : Type := { pinned_block : BlockId; cache : RemoteCache.t }.

#[global] Instance eq_dec : EqDecision t.
Proof. solve_decision. Defined.

Definition set_cache (self : t) (c : RemoteCache.t) : t :=
  {| pinned_block := pinned_block self; cache := c |}.

Section defs.
Context `{!Transport}.

(** [get_account]: never reports an unknown account. *)
Definition get_account (address : Address)
    : SE t DatabaseError (option AccountInfo.t) :=
  λ self,
    match RemoteCache.accounts (cache self) !! address with
    | Some i => (Ok (Some i), self)
    | None =>
        match fetch_account (pinned_block self) address with
        | Ok i =>
            (Ok (Some i),
             set_cache self
               {| RemoteCache.accounts :=
                    <[address := i]> (RemoteCache.accounts (cache self));
                  RemoteCache.storage := RemoteCache.storage (cache self);
                  RemoteCache.block_hashes :=
                    RemoteCache.block_hashes (cache self) |})
        | Err e => (Err e, self)
        end
    end.

Definition get_storage (address : Address) (index : U256)
    : SE t DatabaseError U256 :=
  λ self,
    match RemoteCache.storage (cache self) !! (address, index) with
    | Some v => (Ok v, self)
    | None =>
        match fetch_storage (pinned_block self) address index with
        | Ok v =>
            (Ok v,
             set_cache self
               {| RemoteCache.accounts := RemoteCache.accounts (cache self);
                  RemoteCache.storage :=
                    <[(address, index) := v]>
                      (RemoteCache.storage (cache self));
                  RemoteCache.block_hashes :=
                    RemoteCache.block_hashes (cache self) |})
        | Err e => (Err e, self)
        end
    end.

(** [get_code]: the cache has no map for code; the query goes out. *)
Definition get_code (hash : B256) : SE t DatabaseError Bytecode :=
  λ self, (fetch_code hash, self).

Definition get_block_hash (number : U256) : SE t DatabaseError B256 :=
  λ self,
    match RemoteCache.block_hashes (cache self) !! number with
    | Some h => (Ok h, self)
    | None =>
        match fetch_block_hash number with
        | Ok h =>
            (Ok h,
             set_cache self
               {| RemoteCache.accounts := RemoteCache.accounts (cache self);
                  RemoteCache.storage := RemoteCache.storage (cache self);
                  RemoteCache.block_hashes :=
                    <[number := h]> (RemoteCache.block_hashes (cache self)) |})
        | Err e => (Err e, self)
        end
    end.

(** [set_pinned_block]: re-targets the fetches that follow, or fails and
    changes nothing. *)
Definition set_pinned_block (block : BlockId) : SE t DatabaseError unit :=
  λ self,
    match resolve_block block with
    | Ok _ => (Ok tt, {| pinned_block := block; cache := cache self |})
    | Err e => (Err e, self)
    end.

(** [persist]: writes the cache to the file when one is configured.  The
    result is the file with whether a failure was logged; the caller is told
    nothing. *)
Definition persist `{!Persistence} (self : t) (disk : Disk) : Disk * bool :=
  if cache_path then
    if write_file (cache self) then (Some (cache self), false)
    else (disk, true)
  else (disk, false).
End defs.
End RemoteStateSource.

(** The handle on the remote source.  It has no state of its own. *)
Module SharedBackend.
Inductive t : Type := Handle.

#[global] Instance eq_dec : EqDecision t.
Proof. solve_decision. Defined.

(** [DatabaseRef for SharedBackend]: every query is sent to the remote
    source. *)
#[global] Instance DatabaseRef_instance `{!Transport}
    : DatabaseRef RemoteStateSource.t t :=
  {| basic_ref _ := RemoteStateSource.get_account;
     code_by_hash_ref _ := RemoteStateSource.get_code;
     storage_ref _ := RemoteStateSource.get_storage;
     block_hash_ref _ := RemoteStateSource.get_block_hash |}.
End SharedBackend.

(** The handle on the remote cache. *)
Module BlockchainDb.
Inductive t : Type := Handle.

#[global] Instance eq_dec : EqDecision t.
Proof. solve_decision. Defined.
End BlockchainDb.

(** ** The remote source keeps the contract of a backing database *)

(** The remote source grows when the pinned block stays and the cache keeps
    what it had. *)
Definition remote_le (r1 r2 : RemoteStateSource.t) : Prop :=
  RemoteStateSource.pinned_block r1 = RemoteStateSource.pinned_block r2 ∧
  RemoteCache.incl (RemoteStateSource.cache r1) (RemoteStateSource.cache r2).

Section lemmas.
Context `{!Transport}.
Implicit Types (self : RemoteStateSource.t) (address index number : Z).

#[global] Instance RemoteCache_incl_preorder : PreOrder RemoteCache.incl.
Proof.
  split.
  - by intros c.
  - intros c1 c2 c3 (? & ? & ?) (? & ? & ?).
    repeat split; by etrans.
Qed.

#[global] Instance remote_le_preorder : PreOrder remote_le.
Proof.
  split.
  - by intros r.
  - intros r1 r2 r3 [? ?] [? ?]. split; [congruence|by etrans].
Qed.

Lemma get_account_hit self address i :
  RemoteCache.accounts (RemoteStateSource.cache self) !! address = Some i →
  RemoteStateSource.get_account address self = (Ok (Some i), self).
Proof. unfold RemoteStateSource.get_account. by intros ->. Qed.

Lemma get_storage_hit self address index v :
  RemoteCache.storage (RemoteStateSource.cache self) !! (address, index)
    = Some v →
  RemoteStateSource.get_storage address index self = (Ok v, self).
Proof. unfold RemoteStateSource.get_storage. by intros ->. Qed.

Lemma get_block_hash_hit self number h :
  RemoteCache.block_hashes (RemoteStateSource.cache self) !! number = Some h →
  RemoteStateSource.get_block_hash number self = (Ok h, self).
Proof. unfold RemoteStateSource.get_block_hash. by intros ->. Qed.

Lemma get_account_grows self address :
  remote_le self (RemoteStateSource.get_account address self).2.
Proof.
  unfold RemoteStateSource.get_account.
  destruct (_ !! address) eqn:E; [done|].
  destruct (fetch_account _ _); [|done].
  split; [done|]. repeat split; simpl; try done. by apply insert_subseteq.
Qed.

Lemma get_storage_grows self address index :
  remote_le self (RemoteStateSource.get_storage address index self).2.
Proof.
  unfold RemoteStateSource.get_storage.
  destruct (_ !! (address, index)) eqn:E; [done|].
  destruct (fetch_storage _ _ _); [|done].
  split; [done|]. repeat split; simpl; try done. by apply insert_subseteq.
Qed.

Lemma get_block_hash_grows self number :
  remote_le self (RemoteStateSource.get_block_hash number self).2.
Proof.
  unfold RemoteStateSource.get_block_hash.
  destruct (_ !! number) eqn:E; [done|].
  destruct (fetch_block_hash _); [|done].
  split; [done|]. repeat split; simpl; try done. by apply insert_subseteq.
Qed.

Lemma get_account_stable self address r self' :
  RemoteStateSource.get_account address self = (Ok r, self') →
  RemoteStateSource.get_account address self' = (Ok r, self').
Proof.
  unfold RemoteStateSource.get_account.
  destruct (_ !! address) eqn:E.
  - intros [= <- <-]. by rewrite E.
  - destruct (fetch_account _ _); intros [= <- <-]; simpl.
    by rewrite lookup_insert_eq.
Qed.

Lemma get_storage_stable self address index r self' :
  RemoteStateSource.get_storage address index self = (Ok r, self') →
  RemoteStateSource.get_storage address index self' = (Ok r, self').
Proof.
  unfold RemoteStateSource.get_storage.
  destruct (_ !! (address, index)) eqn:E.
  - intros [= <- <-]. by rewrite E.
  - destruct (fetch_storage _ _ _); intros [= <- <-]; simpl.
    by rewrite lookup_insert_eq.
Qed.

Lemma get_block_hash_stable self number r self' :
  RemoteStateSource.get_block_hash number self = (Ok r, self') →
  RemoteStateSource.get_block_hash number self' = (Ok r, self').
Proof.
  unfold RemoteStateSource.get_block_hash.
  destruct (_ !! number) eqn:E.
  - intros [= <- <-]. by rewrite E.
  - destruct (fetch_block_hash _); intros [= <- <-]; simpl.
    by rewrite lookup_insert_eq.
Qed.

(** The shared backend keeps the contract. *)
#[global] Instance SharedBackend_laws :
  DatabaseRefLaws RemoteStateSource.t SharedBackend.t remote_le.
Proof.
  split; try apply _.
  - intros d a w. exact (get_account_grows w a).
  - intros d a i w. exact (get_storage_grows w a i).
  - intros d n w. exact (get_block_hash_grows w n).
  - by intros d h w.
  - intros d a w r w'. exact (get_account_stable w a r w').
  - intros d a i w r w'. exact (get_storage_stable w a i r w').
  - intros d n w r w'. exact (get_block_hash_stable w n r w').
Qed.

(** A flush that logs nothing and has a file to write to leaves the cache
    in the file; every other flush leaves the file as it was. *)
Lemma persist_spec `{!Persistence} self (disk : Disk) :
  RemoteStateSource.persist self disk =
    (Some (RemoteStateSource.cache self), false) ∧ cache_path = true ∨
  (RemoteStateSource.persist self disk).1 = disk.
Proof.
  unfold RemoteStateSource.persist.
  destruct cache_path; [|by right]. destruct (write_file _); [by left|by right].
Qed.

(** Flushing twice is flushing once: the cache has not changed. *)
Lemma persist_idempotent `{!Persistence} self (disk : Disk) :
  RemoteStateSource.persist self (RemoteStateSource.persist self disk).1 =
    RemoteStateSource.persist self disk.
Proof.
  unfold RemoteStateSource.persist.
  destruct cache_path; [|done]. by destruct (write_file _) eqn:E; rewrite ?E.
Qed.

Lemma set_pinned_block_err self block e self' :
  RemoteStateSource.set_pinned_block block self = (Err e, self') →
  self' = self.
Proof.
  unfold RemoteStateSource.set_pinned_block.
  destruct (resolve_block block); by intros [= <-].
Qed.

Lemma set_pinned_block_ok self block self' :
  RemoteStateSource.set_pinned_block block self = (Ok tt, self') →
  self' = {| RemoteStateSource.pinned_block := block;
             RemoteStateSource.cache := RemoteStateSource.cache self |}.
Proof.
  unfold RemoteStateSource.set_pinned_block.
  destruct (resolve_block block); by intros [= <-].
Qed.
End lemmas.
