(* ===== verification/ForkedDb.v ===== *)
(** * The forked database and its snapshots

    Translation of forked_db.rs, lines 19-275.

    - Module [ForkDbSnapshot]: the struct [ForkDbSnapshot] (a copy of the
      overlay and a copy of the remote cache) and its [DatabaseRef]
      implementation.  The overlay copy keeps the handle of the shared
      backend, so a read that finds nothing in the snapshot goes to the live
      remote source.
    - [Shared]: the objects that every clone of a [ForkedDatabase] shares: the
      remote source behind [backend] and [db], and the registry behind
      [snapshots].
    - Module [ForkedDatabase]: the struct, whose fields [backend], [db] and
      [snapshots] are handles and whose field [cache_db] is the overlay the
      value owns, and the methods [new], [database], [database_mut], [inner],
      [reset], [flush_cache], [create_snapshot], [insert_snapshot],
      [revert_snapshot], the queries of [Database] and [DatabaseRef], and
      [commit].  A method that touches a shared object takes and returns
      [Shared].

    The theorems state what [reset], [insert_snapshot] and [revert_snapshot]
    do to the overlay, the remote cache and the registry on every branch,
    the panic of [revert_snapshot] included, and what the read interface of a
    snapshot answers. *)

From stdpp Require Import gmap list strings.
From Stdlib Require Import ZArith Lia.
From S2P Require Import Prelude SnapshotStore Revm Remote.

#[local] Open Scope Z_scope.
#[local] Open Scope se_scope.
#[local] Set Warnings "-clear-no-such-hyp".

(** ** [ForkDbSnapshot] *)

Module ForkDbSnapshot.

Record t : Type :=
  { local : CacheDB.t SharedBackend.t; snapshot : StateSnapshot.t }.

Section defs.
Context `{!Transport}.

(** [get_storage]: the slot as the overlay copy holds it. *)
Definition get_storage (self : t) (address : Address) (index : U256)
    : option U256 :=
  match CacheDB.accounts (local self) !! address with
  | Some account => DbAccount.storage account !! index
  | None => None
  end.

(** [basic]: the overlay copy, then the copied accounts of the remote cache,
    then the overlay's backing database. *)
Definition basic (self : t) (address : Address)
    : SE RemoteStateSource.t DatabaseError (option AccountInfo.t) :=
  match CacheDB.accounts (local self) !! address with
  | Some account => se_ret (Some (DbAccount.info account))
  | None =>
      match StateSnapshot.accounts (snapshot self) !! address with
      | Some acc => se_ret (Some acc)
      | None => basic_ref (local self) address
      end
  end.

Definition code_by_hash (self : t) (code_hash : B256)
    : SE RemoteStateSource.t DatabaseError Bytecode :=
  code_by_hash_ref (local self) code_hash.

(** [storage]: the overlay copy, then [get_storage], then the overlay's read
    interface. *)
Definition storage (self : t) (address : Address) (index : U256)
    : SE RemoteStateSource.t DatabaseError U256 :=
  match CacheDB.accounts (local self) !! address with
  | Some account =>
      match DbAccount.storage account !! index with
      | Some entry => se_ret entry
      | None =>
          match get_storage self address index with
          | None => storage_ref (local self) address index
          | Some storage => se_ret storage
          end
      end
  | None =>
      match get_storage self address index with
      | None => storage_ref (local self) address index
      | Some storage => se_ret storage
      end
  end.

(** [block_hash]: the copied block hashes, then the overlay's read
    interface. *)
Definition block_hash (self : t) (number : U256)
    : SE RemoteStateSource.t DatabaseError B256 :=
  match StateSnapshot.block_hashes (snapshot self) !! number with
  | None => block_hash_ref (local self) number
  | Some block_hash => se_ret block_hash
  end.

#[global] Instance DatabaseRef_instance : DatabaseRef RemoteStateSource.t t :=
  {| basic_ref := basic;
     code_by_hash_ref := code_by_hash;
     storage_ref := storage;
     block_hash_ref := block_hash |}.
End defs.
End ForkDbSnapshot.

(** ** The shared objects *)

(** The handle on the registry: [Arc<Mutex<Snapshots<ForkDbSnapshot>>>]. *)
Inductive SnapshotsRef : Type := SnapshotsRef_handle.

(** What the handles of a [ForkedDatabase] refer to. *)
Record Shared : Type :=
  { remote : RemoteStateSource.t;
    registry : Snapshots.t ForkDbSnapshot.t }.

Definition set_remote (sh : Shared) (r : RemoteStateSource.t) : Shared :=
  {| remote := r; registry := registry sh |}.

Definition set_registry (sh : Shared) (s : Snapshots.t ForkDbSnapshot.t)
    : Shared :=
  {| remote := remote sh; registry := s |}.

(** The error of [reset]: the database error rendered as a string. *)
Inductive ErrorString : Type :=
| to_string (err : DatabaseError).

(** ** [ForkedDatabase] *)

Module ForkedDatabase.

Record t : Type :=
  { backend : SharedBackend.t;
    cache_db : CacheDB.t SharedBackend.t;
    db : BlockchainDb.t;
    snapshots : SnapshotsRef }.

Definition set_cache_db (self : t) (c : CacheDB.t SharedBackend.t) : t :=
  {| backend := backend self; cache_db := c; db := db self;
     snapshots := snapshots self |}.

Section defs.
Context `{!Transport}.

(** [new]: an empty overlay over the backend and a registry of its own, which
    starts empty. *)
Definition new (backend0 : SharedBackend.t) (db0 : BlockchainDb.t)
    : t * Snapshots.t ForkDbSnapshot.t :=
  ({| cache_db := CacheDB.new backend0;
      backend := backend0;
      db := db0;
      snapshots := SnapshotsRef_handle |},
   Snapshots.default).

Definition database (self : t) : CacheDB.t SharedBackend.t := cache_db self.

(** [database_mut]: the overlay, for an update in place. *)
Definition database_mut (self : t)
    (update : CacheDB.t SharedBackend.t → CacheDB.t SharedBackend.t) : t :=
  set_cache_db self (update (cache_db self)).

Definition inner (self : t) : BlockchainDb.t := db self.

(** [snapshots]: the handle on the registry, handed out to any caller. *)
Definition get_snapshots (self : t) : SnapshotsRef := snapshots self.

(** [reset]: re-pins the backend; if that fails, returns the error with
    nothing changed; otherwise wipes the remote cache and replaces the overlay
    by an empty one.  The url is not used. *)
Definition reset (self : t) (_url : option string) (block_number : BlockId)
    (sh : Shared)
    : Result ErrorString unit * t * Shared :=
  match RemoteStateSource.set_pinned_block block_number (remote sh) with
  | (Err err, r) => (Err (to_string err), self, set_remote sh r)
  | (Ok _, r) =>
      let r :=
        RemoteStateSource.set_cache r
          (RemoteCache.clear (RemoteStateSource.cache r)) in
      (Ok tt, set_cache_db self (CacheDB.new (backend self)), set_remote sh r)
  end.

(** [flush_cache]: asks the cache to write itself to disk.  The method
    takes [&self] and returns nothing: what it changes is the file. *)
Definition flush_cache `{!Persistence} (self : t) (sh : Shared) (disk : Disk)
    : Disk * bool :=
  RemoteStateSource.persist (remote sh) disk.

(** [create_snapshot]: copies the three maps of the remote cache and the
    overlay. *)
Definition create_snapshot (self : t) (sh : Shared) : ForkDbSnapshot.t :=
  let db := RemoteStateSource.cache (remote sh) in
  let snapshot :=
    {| StateSnapshot.accounts := RemoteCache.accounts db;
       StateSnapshot.storage := RemoteCache.storage db;
       StateSnapshot.block_hashes := RemoteCache.block_hashes db |} in
  {| ForkDbSnapshot.local := cache_db self;
     ForkDbSnapshot.snapshot := snapshot |}.

(** [insert_snapshot]: creates a snapshot and registers it. *)
Definition insert_snapshot (self : t) (sh : Shared) : U256 * Shared :=
  let snapshot := create_snapshot self sh in
  let '(id, snapshots) := Snapshots.insert (registry sh) snapshot in
  (id, set_registry sh snapshots).

(** [revert_snapshot]: takes the snapshot out of the registry (with every
    later one); if there is one, empties each map of the remote cache and
    fills it from the snapshot, replaces the overlay by the snapshot's, and
    answers true; otherwise answers false. *)
Definition revert_snapshot (self : t) (id : U256) (sh : Shared)
    : Outcome (t * Shared) bool :=
  match Snapshots.remove (registry sh) id with
  | Panicked snapshots => Panicked (self, set_registry sh snapshots)
  | OutOfFuel => OutOfFuel
  | Returned snapshot snapshots =>
      let sh := set_registry sh snapshots in
      match snapshot with
      | Some {| ForkDbSnapshot.local := local;
                ForkDbSnapshot.snapshot :=
                  {| StateSnapshot.accounts := accounts;
                     StateSnapshot.storage := storage;
                     StateSnapshot.block_hashes := block_hashes |} |} =>
          let db := RemoteStateSource.cache (remote sh) in
          let db :=
            {| RemoteCache.accounts :=
                 hm_extend (hm_clear (RemoteCache.accounts db)) accounts;
               RemoteCache.storage :=
                 hm_extend (hm_clear (RemoteCache.storage db)) storage;
               RemoteCache.block_hashes :=
                 hm_extend (hm_clear (RemoteCache.block_hashes db))
                   block_hashes |} in
          Returned true
            (set_cache_db self local,
             set_remote sh (RemoteStateSource.set_cache (remote sh) db))
      | None => Returned false (self, sh)
      end
  end.

(** [impl Database]: every query goes to the overlay, which may fetch and
    keeps what it fetched. *)
Definition basic (self : t) (address : Address)
    : SE RemoteStateSource.t DatabaseError (option AccountInfo.t * t) :=
  se_map (λ r, (r.1, set_cache_db self r.2))
    (Revm.basic (cache_db self) address).

Definition code_by_hash (self : t) (code_hash : B256)
    : SE RemoteStateSource.t DatabaseError (Bytecode * t) :=
  se_map (λ r, (r.1, set_cache_db self r.2))
    (Revm.code_by_hash (cache_db self) code_hash).

Definition storage (self : t) (address : Address) (index : U256)
    : SE RemoteStateSource.t DatabaseError (U256 * t) :=
  se_map (λ r, (r.1, set_cache_db self r.2))
    (Revm.storage (cache_db self) address index).

Definition block_hash (self : t) (number : U256)
    : SE RemoteStateSource.t DatabaseError (B256 * t) :=
  se_map (λ r, (r.1, set_cache_db self r.2))
    (Revm.block_hash (cache_db self) number).

#[global] Instance Database_instance : Database RemoteStateSource.t t :=
  {| Revm.basic := basic;
     Revm.code_by_hash := code_by_hash;
     Revm.storage := storage;
     Revm.block_hash := block_hash |}.

(** [impl DatabaseRef]: the read interface of the overlay. *)
Definition basic_ref (self : t) (address : Address)
    : SE RemoteStateSource.t DatabaseError (option AccountInfo.t) :=
  Revm.basic_ref (cache_db self) address.

Definition code_by_hash_ref (self : t) (code_hash : B256)
    : SE RemoteStateSource.t DatabaseError Bytecode :=
  Revm.code_by_hash_ref (cache_db self) code_hash.

Definition storage_ref (self : t) (address : Address) (index : U256)
    : SE RemoteStateSource.t DatabaseError U256 :=
  Revm.storage_ref (cache_db self) address index.

Definition block_hash_ref (self : t) (number : U256)
    : SE RemoteStateSource.t DatabaseError B256 :=
  Revm.block_hash_ref (cache_db self) number.

#[global] Instance DatabaseRef_instance : DatabaseRef RemoteStateSource.t t :=
  {| Revm.basic_ref := basic_ref;
     Revm.code_by_hash_ref := code_by_hash_ref;
     Revm.storage_ref := storage_ref;
     Revm.block_hash_ref := block_hash_ref |}.

(** [impl DatabaseCommit]: the changes go to the overlay. *)
Definition commit (self : t) (changes : gmap Z Account.t) : t :=
  database_mut self (λ c, CacheDB.commit c changes).
End defs.
End ForkedDatabase.

(** ** Copies of the remote cache *)

(** The snapshot of a remote cache, and the remote cache that holds exactly
    what a snapshot holds. *)
Definition capture (c : RemoteCache.t) : StateSnapshot.t :=
  {| StateSnapshot.accounts := RemoteCache.accounts c;
     StateSnapshot.storage := RemoteCache.storage c;
     StateSnapshot.block_hashes := RemoteCache.block_hashes c |}.

Definition restore (s : StateSnapshot.t) : RemoteCache.t :=
  {| RemoteCache.accounts := StateSnapshot.accounts s;
     RemoteCache.storage := StateSnapshot.storage s;
     RemoteCache.block_hashes := StateSnapshot.block_hashes s |}.

(** The shared state after a successful revert to the snapshot [s]. *)
Definition reverted (sh : Shared) (id : U256) (s : ForkDbSnapshot.t) : Shared :=
  {| remote :=
       RemoteStateSource.set_cache (remote sh)
         (restore (ForkDbSnapshot.snapshot s));
     registry := Snapshots.cascade (registry sh) id |}.

Section lemmas.
Context `{!Transport}.
Implicit Types (self : ForkedDatabase.t) (sh : Shared) (id : Z).
Implicit Types (r : RemoteStateSource.t) (snap : ForkDbSnapshot.t).

Lemma restore_capture c : restore (capture c) = c.
Proof. by destruct c. Qed.

Lemma create_snapshot_eq self sh :
  ForkedDatabase.create_snapshot self sh =
    {| ForkDbSnapshot.local := ForkedDatabase.cache_db self;
       ForkDbSnapshot.snapshot := capture (RemoteStateSource.cache (remote sh)) |}.
Proof. done. Qed.

Lemma insert_snapshot_eq self sh :
  ForkedDatabase.insert_snapshot self sh =
    (Snapshots.id (registry sh),
     set_registry sh
       (Snapshots.insert (registry sh)
          (ForkedDatabase.create_snapshot self sh)).2).
Proof. done. Qed.

(** [revert_snapshot] below the largest identifier, on both branches. *)
Lemma revert_snapshot_returns self id sh :
  Snapshots.id (registry sh) ≤ U256_MAX → id < U256_MAX →
  ForkedDatabase.revert_snapshot self id sh =
    match Snapshots.get (registry sh) id with
    | Some s =>
        Returned true
          (ForkedDatabase.set_cache_db self (ForkDbSnapshot.local s),
           reverted sh id s)
    | None =>
        Returned false
          (self, set_registry sh (Snapshots.cascade (registry sh) id))
    end.
Proof.
  intros Hmax Hid. unfold ForkedDatabase.revert_snapshot.
  rewrite Snapshots.remove_returns by done.
  destruct (Snapshots.get (registry sh) id) as [[l [a s b]]|]; [|done].
  unfold reverted, restore. simpl. by rewrite !hm_extend_clear.
Qed.

Lemma se_map_ok {S E A B} (f : A → B) (m : SE S E A) s a s' :
  m s = (Ok a, s') → se_map f m s = (Ok (f a), s').
Proof. unfold se_map, se_bind, se_ret. by intros ->. Qed.

Lemma se_map_err {S E A B} (f : A → B) (m : SE S E A) s e s' :
  m s = (Err e, s') → se_map f m s = (Err e, s').
Proof. unfold se_map, se_bind. by intros ->. Qed.

(** The account query of the database is the account query of its overlay. *)
Lemma basic_ok self address r v c r' :
  CacheDB.basic_mut (ForkedDatabase.cache_db self) address r
    = (Ok (v, c), r') →
  ForkedDatabase.basic self address r
    = (Ok (v, ForkedDatabase.set_cache_db self c), r').
Proof.
  intros Hc. unfold ForkedDatabase.basic.
  change (Revm.basic ?c ?a) with (CacheDB.basic_mut c a).
  by rewrite (se_map_ok _ _ _ _ _ Hc).
Qed.

(** The database and a snapshot keep the contract of a backing database, so
    either can be put behind an overlay of its own. *)
#[global] Instance ForkedDatabase_laws :
  DatabaseRefLaws RemoteStateSource.t ForkedDatabase.t remote_le.
Proof.
  split; try apply _.
  - intros self a w. exact (basic_ref_grows (ForkedDatabase.cache_db self) a w).
  - intros self a i w.
    exact (storage_ref_grows (ForkedDatabase.cache_db self) a i w).
  - intros self n w.
    exact (block_hash_ref_grows (ForkedDatabase.cache_db self) n w).
  - intros self h w.
    exact (code_by_hash_ref_grows (ForkedDatabase.cache_db self) h w).
  - intros self a w r w'.
    exact (basic_ref_stable (ForkedDatabase.cache_db self) a w r w').
  - intros self a i w r w'.
    exact (storage_ref_stable (ForkedDatabase.cache_db self) a i w r w').
  - intros self n w r w'.
    exact (block_hash_ref_stable (ForkedDatabase.cache_db self) n w r w').
Qed.

#[global] Instance ForkDbSnapshot_laws :
  DatabaseRefLaws RemoteStateSource.t ForkDbSnapshot.t remote_le.
Proof.
  split; try apply _.
  - intros snap a w. simpl. unfold ForkDbSnapshot.basic.
    repeat case_match; try done.
    exact (basic_ref_grows (ForkDbSnapshot.local snap) a w).
  - intros snap a i w. simpl.
    unfold ForkDbSnapshot.storage, ForkDbSnapshot.get_storage.
    repeat case_match; try done;
      exact (storage_ref_grows (ForkDbSnapshot.local snap) a i w).
  - intros snap n w. simpl. unfold ForkDbSnapshot.block_hash.
    case_match; [done|].
    exact (block_hash_ref_grows (ForkDbSnapshot.local snap) n w).
  - intros snap h w.
    exact (code_by_hash_ref_grows (ForkDbSnapshot.local snap) h w).
  - intros snap a w r w'. simpl. unfold ForkDbSnapshot.basic.
    repeat case_match; try by intros [= <- <-].
    exact (basic_ref_stable (ForkDbSnapshot.local snap) a w r w').
  - intros snap a i w r w'. simpl.
    unfold ForkDbSnapshot.storage, ForkDbSnapshot.get_storage.
    repeat case_match; try (by intros [= <- <-]);
      exact (storage_ref_stable (ForkDbSnapshot.local snap) a i w r w').
  - intros snap n w r w'. simpl. unfold ForkDbSnapshot.block_hash.
    case_match; [by intros [= <- <-]|].
    exact (block_hash_ref_stable (ForkDbSnapshot.local snap) n w r w').
Qed.

Lemma set_cache_db_id self :
  ForkedDatabase.set_cache_db self (ForkedDatabase.cache_db self) = self.
Proof. by destruct self. Qed.

Lemma set_cache_db_twice self c c' :
  ForkedDatabase.set_cache_db (ForkedDatabase.set_cache_db self c) c' =
    ForkedDatabase.set_cache_db self c'.
Proof. done. Qed.
End lemmas.

(** ** Properties *)

Section properties.
Context `{!Transport}.
Implicit Types (self : ForkedDatabase.t) (sh : Shared) (id : Z).
Implicit Types (r : RemoteStateSource.t) (snap : ForkDbSnapshot.t).

(** Claim C1. [revert_snapshot(id)] for a registered snapshot (identifier
    below the largest U256): it answers true, the overlay becomes the
    snapshot's overlay, each of the three maps of the remote cache holds
    exactly what the snapshot holds (nothing fetched since survives), the
    pinned block stays, and the snapshot and every later one leave the
    registry. *)
Theorem revert_snapshot_restores self id sh snap :
  Snapshots.wf (registry sh) → id < U256_MAX →
  Snapshots.get (registry sh) id = Some snap →
  ∃ self' sh',
    ForkedDatabase.revert_snapshot self id sh = Returned true (self', sh') ∧
    ForkedDatabase.cache_db self' = ForkDbSnapshot.local snap ∧
    capture (RemoteStateSource.cache (remote sh')) = ForkDbSnapshot.snapshot snap ∧
    RemoteStateSource.pinned_block (remote sh') =
      RemoteStateSource.pinned_block (remote sh) ∧
    registry sh' = Snapshots.cascade (registry sh) id.
Proof.
  intros [[_ Hmax] _] Hid Hget. do 2 eexists.
  rewrite revert_snapshot_returns, Hget by done.
  repeat split. by destruct snap as [l []].
Qed.

(** Claim C31. [revert_snapshot(id)] for an identifier that is not registered
    (and is below the largest U256) answers false and leaves the overlay and
    the remote source as they were; the registry still loses every snapshot
    later than [id]. *)
Theorem revert_snapshot_unknown self id sh :
  Snapshots.wf (registry sh) → id < U256_MAX →
  Snapshots.get (registry sh) id = None →
  ForkedDatabase.revert_snapshot self id sh =
    Returned false
      (self, {| remote := remote sh;
                registry := Snapshots.cascade (registry sh) id |}).
Proof.
  intros [[_ Hmax] _] Hid Hget.
  by rewrite revert_snapshot_returns, Hget by done.
Qed.

(** Claim C28. [revert_snapshot(U256::MAX)] does not answer false: it panics,
    in [Snapshots::remove], with the overlay and the remote source
    untouched. *)
Theorem revert_snapshot_panics_at_max self sh :
  ∃ snapshots,
    ForkedDatabase.revert_snapshot self U256_MAX sh =
      Panicked (self, {| remote := remote sh; registry := snapshots |}).
Proof.
  eexists. unfold ForkedDatabase.revert_snapshot, Snapshots.remove.
  by assert (u256_add U256_MAX 1 = None) as -> by (apply u256_add_None; lia).
Qed.

(** Claim C8. After a revert to [id], neither [id] nor any later identifier
    can be reverted to: [revert_snapshot] answers false for each of them and
    leaves the overlay and the remote source as the first revert left
    them. *)
Theorem revert_snapshot_invalidates_later self id sh snap k self' sh' :
  Snapshots.wf (registry sh) → id < U256_MAX →
  Snapshots.get (registry sh) id = Some snap →
  ForkedDatabase.revert_snapshot self id sh = Returned true (self', sh') →
  id ≤ k < Snapshots.id (registry sh) →
  ∃ snapshots,
    ForkedDatabase.revert_snapshot self' k sh' =
      Returned false (self', {| remote := remote sh'; registry := snapshots |}).
Proof.
  intros Hwf Hid Hget Hrev Hk. pose proof Hwf as [[_ Hmax] _].
  rewrite revert_snapshot_returns, Hget in Hrev by done.
  injection Hrev as <- <-. eexists.
  rewrite revert_snapshot_returns by (simpl; lia).
  change (registry (reverted sh id snap))
    with (Snapshots.cascade (registry sh) id).
  unfold Snapshots.get at 1. rewrite Snapshots.lookup_cascade.
  unfold Snapshots.removed_by. case_decide; [done|lia].
Qed.

(** Claim C3. A snapshot is independent of what happens after it is taken,
    and a revert restores it exactly: take a snapshot with
    [insert_snapshot]; let the overlay and the remote source change in any
    way, and let the registry change by further inserts and by reverts to
    later identifiers; then [revert_snapshot] of the identifier answers true,
    the overlay is the overlay at the time of the snapshot and the remote
    cache holds exactly what it held then. *)
Theorem snapshot_then_revert self sh self2 r2 snapshots2 :
  Snapshots.wf (registry sh) → Snapshots.id (registry sh) < U256_MAX →
  rtc (Snapshots.step_above (ForkedDatabase.insert_snapshot self sh).1)
      (registry (ForkedDatabase.insert_snapshot self sh).2) snapshots2 →
  ∃ self' sh',
    ForkedDatabase.revert_snapshot self2
        (ForkedDatabase.insert_snapshot self sh).1
        {| remote := r2; registry := snapshots2 |}
      = Returned true (self', sh') ∧
    ForkedDatabase.cache_db self' = ForkedDatabase.cache_db self ∧
    RemoteStateSource.cache (remote sh') = RemoteStateSource.cache (remote sh).
Proof.
  intros Hwf Hlt Hrtc. rewrite insert_snapshot_eq in *. simpl in *.
  set (snap := ForkedDatabase.create_snapshot self sh) in *.
  apply (Snapshots.rtc_step_above_get _ snap) in Hrtc
    as ([[_ Hmax] _] & _ & Hget).
  - do 2 eexists. rewrite revert_snapshot_returns by (simpl; lia).
    simpl. rewrite Hget.
    split; [done|]. split; [done|]. simpl. apply restore_capture.
  - by apply (Snapshots.insert_wf _ snap) in Hwf.
  - simpl. rewrite u256_saturating_add_lt by done. lia.
  - unfold Snapshots.get; simpl. apply lookup_insert_eq.
Qed.

(** [insert_snapshot] registers a copy of the overlay and of the
    three maps of the remote cache under the current counter of the registry
    and returns that identifier; the remote source is untouched. *)
Theorem insert_snapshot_registers self sh :
  let '(id, sh') := ForkedDatabase.insert_snapshot self sh in
  id = Snapshots.id (registry sh) ∧
  remote sh' = remote sh ∧
  Snapshots.get (registry sh') id =
    Some {| ForkDbSnapshot.local := ForkedDatabase.cache_db self;
            ForkDbSnapshot.snapshot :=
              capture (RemoteStateSource.cache (remote sh)) |}.
Proof.
  rewrite insert_snapshot_eq. split; [done|]. split; [done|].
  unfold Snapshots.get. simpl. apply lookup_insert_eq.
Qed.

(** Claim C5. When re-pinning fails, [reset] returns the error and changes
    nothing: the overlay, the pinned block, the remote cache and the
    registry are as before. *)
Theorem reset_failure_changes_nothing self url block sh err :
  resolve_block block = Err err →
  ForkedDatabase.reset self url block sh = (Err (to_string err), self, sh).
Proof.
  intros Herr. unfold ForkedDatabase.reset, RemoteStateSource.set_pinned_block.
  rewrite Herr. by destruct sh.
Qed.

(** When re-pinning succeeds, [reset] pins the new block, empties
    the three maps of the remote cache and replaces the overlay by an empty
    one.  The registry is not touched: snapshots taken before the reset stay
    registered. *)
Theorem reset_success self url block sh :
  resolve_block block = Ok tt →
  ForkedDatabase.reset self url block sh =
    (Ok tt,
     ForkedDatabase.set_cache_db self
       (CacheDB.new (ForkedDatabase.backend self)),
     {| remote := {| RemoteStateSource.pinned_block := block;
                     RemoteStateSource.cache := RemoteCache.empty |};
        registry := registry sh |}).
Proof.
  intros Hok. unfold ForkedDatabase.reset, RemoteStateSource.set_pinned_block.
  by rewrite Hok.
Qed.

(** Claim C24. A snapshot survives a reset and brings the old block back
    under the new pin: take a snapshot, reset to another block, revert to the
    snapshot.  The revert answers true; afterwards the remote cache holds
    what was fetched at the block of the snapshot, the overlay is the one of
    the snapshot, and the pinned block is the block of the reset, so the
    next miss is fetched at the new block and put beside the data of the old
    one. *)
Theorem revert_after_reset_mixes_blocks self sh url block self1 sh1 :
  Snapshots.wf (registry sh) → Snapshots.id (registry sh) < U256_MAX →
  ForkedDatabase.reset self url block
      (ForkedDatabase.insert_snapshot self sh).2 = (Ok tt, self1, sh1) →
  ∃ self2 sh2,
    ForkedDatabase.revert_snapshot self1
        (ForkedDatabase.insert_snapshot self sh).1 sh1
      = Returned true (self2, sh2) ∧
    RemoteStateSource.pinned_block (remote sh2) = block ∧
    RemoteStateSource.cache (remote sh2) = RemoteStateSource.cache (remote sh) ∧
    ForkedDatabase.cache_db self2 = ForkedDatabase.cache_db self.
Proof.
  intros Hwf Hlt. rewrite insert_snapshot_eq. simpl.
  unfold ForkedDatabase.reset, RemoteStateSource.set_pinned_block.
  destruct (resolve_block block); simpl; intros [= <- <-].
  do 2 eexists. rewrite revert_snapshot_returns; simpl;
    [|rewrite u256_saturating_add_lt by done; lia|done].
  unfold Snapshots.get. simpl. rewrite lookup_insert_eq.
  repeat split. simpl. apply restore_capture.
Qed.

(** Claim C29. The storage read of a snapshot never looks at the storage
    that the snapshot copied from the remote cache: for an account that the
    snapshot's overlay does not hold, the answer is the slot of the live
    remote cache, whatever the snapshot holds for that slot. *)
Theorem snapshot_storage_reads_live_cache snap address index v r :
  CacheDB.accounts (ForkDbSnapshot.local snap) !! address = None →
  RemoteCache.storage (RemoteStateSource.cache r) !! (address, index) = Some v →
  ForkDbSnapshot.storage snap address index r = (Ok v, r).
Proof.
  intros Hacc Hlive. unfold ForkDbSnapshot.storage, ForkDbSnapshot.get_storage.
  rewrite Hacc. simpl. rewrite Hacc. by apply get_storage_hit.
Qed.

(** The account read and the block hash read of a snapshot use
    the copies taken from the remote cache: an account that the snapshot's
    overlay does not hold is answered from the copied accounts, and a block
    hash from the copied block hashes, without touching the remote
    source. *)
Theorem snapshot_reads_copied_accounts_and_hashes snap address acc number h r :
  CacheDB.accounts (ForkDbSnapshot.local snap) !! address = None →
  StateSnapshot.accounts (ForkDbSnapshot.snapshot snap) !! address = Some acc →
  StateSnapshot.block_hashes (ForkDbSnapshot.snapshot snap) !! number = Some h →
  ForkDbSnapshot.basic snap address r = (Ok (Some acc), r) ∧
  ForkDbSnapshot.block_hash snap number r = (Ok h, r).
Proof.
  intros Hl Ha Hb. unfold ForkDbSnapshot.basic, ForkDbSnapshot.block_hash.
  by rewrite Hl, Ha, Hb.
Qed.

(** Claim C37. For an account that a commit destroyed, the account read of a
    snapshot and the account read of the overlay it copied disagree: the
    snapshot reports the account record, the overlay reports that there is no
    account. *)
Theorem snapshot_basic_of_destroyed_account snap address acc r :
  CacheDB.accounts (ForkDbSnapshot.local snap) !! address = Some acc →
  DbAccount.account_state acc = NotExisting →
  ForkDbSnapshot.basic snap address r = (Ok (Some (DbAccount.info acc)), r) ∧
  Revm.basic_ref (ForkDbSnapshot.local snap) address r = (Ok None, r).
Proof.
  intros Hl Hs. unfold ForkDbSnapshot.basic. simpl. rewrite Hl. simpl.
  unfold DbAccount.get_info. by rewrite Hs.
Qed.

(** Claim C35. A snapshot keeps a live link to the remote source: an account
    read that finds the account neither in the snapshot's overlay nor in its
    copied accounts fetches it at the block that is pinned now and puts it
    into the live remote cache. *)
Theorem snapshot_miss_fetches_live snap address r i :
  CacheDB.accounts (ForkDbSnapshot.local snap) !! address = None →
  StateSnapshot.accounts (ForkDbSnapshot.snapshot snap) !! address = None →
  RemoteCache.accounts (RemoteStateSource.cache r) !! address = None →
  fetch_account (RemoteStateSource.pinned_block r) address = Ok i →
  ∃ r', ForkDbSnapshot.basic snap address r = (Ok (Some i), r') ∧
        RemoteCache.accounts (RemoteStateSource.cache r') !! address = Some i.
Proof.
  intros Hl Hs Hc Hf. eexists. unfold ForkDbSnapshot.basic.
  rewrite Hl, Hs. simpl. rewrite Hl.
  unfold RemoteStateSource.get_account. rewrite Hc, Hf.
  split; [done|]. simpl. apply lookup_insert_eq.
Qed.

(** Claim C39. Fallback order of the account query: an account that the
    overlay does not hold and the remote cache holds is answered from the
    remote cache, the remote source is not changed, the overlay remembers the
    answer, and the same query on the resulting database gives the same
    answer again. *)
Theorem basic_reads_through self address i r :
  CacheDB.accounts (ForkedDatabase.cache_db self) !! address = None →
  RemoteCache.accounts (RemoteStateSource.cache r) !! address = Some i →
  ∃ self',
    ForkedDatabase.basic self address r = (Ok (Some i, self'), r) ∧
    CacheDB.accounts (ForkedDatabase.cache_db self') !! address =
      Some (DbAccount.from_info (Some i)) ∧
    ForkedDatabase.basic self' address r = (Ok (Some i, self'), r).
Proof.
  intros Hl Hc.
  set (c := CacheDB.set_accounts (ForkedDatabase.cache_db self)
              (<[address := DbAccount.from_info (Some i)]>
                 (CacheDB.accounts (ForkedDatabase.cache_db self)))).
  assert (CacheDB.basic_mut (ForkedDatabase.cache_db self) address r =
            (Ok (Some i, c), r)) as Hfirst.
  { rewrite CacheDB.basic_mut_miss by done. simpl.
    by rewrite (get_account_hit _ _ i). }
  pose proof (CacheDB.basic_mut_stable _ _ _ _ _ _ Hfirst) as Hsecond.
  exists (ForkedDatabase.set_cache_db self c).
  split; [by apply basic_ok|]. split; [apply lookup_insert_eq|].
  by apply (basic_ok (ForkedDatabase.set_cache_db self c)).
Qed.

(** Claim C40. Write isolation: after [commit] of a change for an account
    (not destroyed), the account query answers with the committed record,
    whatever the remote source holds or would fetch, and without changing
    the remote source. *)
Theorem commit_then_basic self changes address c r :
  changes !! address = Some c → Account.is_destroyed c = false →
  ForkedDatabase.basic (ForkedDatabase.commit self changes) address r =
    (Ok (Some (Account.info c), ForkedDatabase.commit self changes), r).
Proof.
  intros Hc Hd.
  erewrite basic_ok; [|by apply (CacheDB.basic_mut_commit _ _ _ c)].
  by rewrite set_cache_db_id.
Qed.

(** The two query variants of the database agree: for every
    address, the mutable and the read-only account query give the same
    answer (or the same error) and leave the remote source in the same
    state. *)
Theorem basic_variants_agree self address r :
  result_map fst (ForkedDatabase.basic self address r).1 =
    (ForkedDatabase.basic_ref self address r).1 ∧
  (ForkedDatabase.basic self address r).2 =
    (ForkedDatabase.basic_ref self address r).2.
Proof.
  pose proof (CacheDB.variants_agree_overlay (ForkedDatabase.cache_db self)
                address r) as [Hv Hs].
  unfold ForkedDatabase.basic, ForkedDatabase.basic_ref.
  change (Revm.basic ?c ?a) with (CacheDB.basic_mut c a).
  rewrite <- Hv, <- Hs. unfold se_map, se_bind.
  by destruct (CacheDB.basic_mut _ _ _) as [[[]|]].
Qed.
End properties.

(** ** A concrete chain, and the properties applied to it *)

Module Example.

Definition acct (b : Z) : AccountInfo.t :=
  {| AccountInfo.balance := b; AccountInfo.nonce := 0;
     AccountInfo.code_hash := KECCAK_EMPTY; AccountInfo.code := Some [] |}.

(** A network that answers every query from the pinned block number, cannot
    reach the account 404 and cannot resolve negative block numbers. *)
#[local] Instance chain : Transport :=
  {| fetch_account blk a :=
       if decide (a = 404) then Err (TransportError 1)
       else Ok (acct (blk * 1000 + a));
     fetch_storage blk a i := Ok (blk + a + i);
     fetch_code _ := Ok [];
     fetch_block_hash n := Ok (n + 7000);
     resolve_block blk :=
       if decide (0 ≤ blk) then Ok tt else Err (TransportError 2) |}.

(** The remote source pinned at block 100 with account 1 (balance 10), one
    storage slot and one block hash in its cache. *)
Definition remote0 : RemoteStateSource.t :=
  {| RemoteStateSource.pinned_block := 100;
     RemoteStateSource.cache :=
       {| RemoteCache.accounts := {[1 := acct 10]};
          RemoteCache.storage := {[(1, 5) := 9]};
          RemoteCache.block_hashes := {[99 := 7099]} |} |}.

Definition fdb0 : ForkedDatabase.t :=
  (ForkedDatabase.new SharedBackend.Handle BlockchainDb.Handle).1.

Definition shared0 : Shared :=
  {| remote := remote0;
     registry :=
       (ForkedDatabase.new SharedBackend.Handle BlockchainDb.Handle).2 |}.

Definition change (b : Z) : Account.t :=
  {| Account.info := acct b; Account.storage := {[5 := 77]};
     Account.storage_cleared := false; Account.is_destroyed := false |}.

Definition destroy : Account.t :=
  {| Account.info := acct 0; Account.storage := ∅;
     Account.storage_cleared := false; Account.is_destroyed := true |}.

(** The database after account 1 was committed with balance 20, and the
    shared state after a snapshot of it was registered. *)
Definition fdb20 : ForkedDatabase.t := ForkedDatabase.commit fdb0 {[1 := change 20]}.
Definition shared1 : Shared := (ForkedDatabase.insert_snapshot fdb20 shared0).2.
Definition snap0 : ForkDbSnapshot.t := ForkedDatabase.create_snapshot fdb20 shared0.

(** A snapshot that copied slot (1, 5) as 7 and account 2, over an overlay
    that destroyed account 3. *)
Definition snap_old : ForkDbSnapshot.t :=
  {| ForkDbSnapshot.local :=
       CacheDB.commit (CacheDB.new SharedBackend.Handle) {[3 := destroy]};
     ForkDbSnapshot.snapshot :=
       {| StateSnapshot.accounts := {[2 := acct 50]};
          StateSnapshot.storage := {[(1, 5) := 7]};
          StateSnapshot.block_hashes := {[98 := 7098]} |} |}.

(** The balance that the account query reports, if it answers. *)
Definition balance_of (q : Result DatabaseError (option AccountInfo.t * ForkedDatabase.t)
                            * RemoteStateSource.t) : option Z :=
  match q.1 with
  | Ok (Some i, _) => Some (AccountInfo.balance i)
  | _ => None
  end.

(** The scenario of the specification: the remote cache holds account 1 with
    balance 10; query; commit balance 20; query; snapshot; commit balance 30;
    query; revert to the snapshot; query.  The answers, in order. *)
Definition scenario : list (option Z) * Z * option bool :=
  let q1 := balance_of (ForkedDatabase.basic fdb0 1 remote0) in
  let q2 := balance_of (ForkedDatabase.basic fdb20 1 remote0) in
  let '(id, sh1) := ForkedDatabase.insert_snapshot fdb20 shared0 in
  let fdb30 := ForkedDatabase.commit fdb20 {[1 := change 30]} in
  let q3 := balance_of (ForkedDatabase.basic fdb30 1 (remote sh1)) in
  match ForkedDatabase.revert_snapshot fdb30 id sh1 with
  | Returned b (fdb', sh') =>
      ([q1; q2; q3; balance_of (ForkedDatabase.basic fdb' 1 (remote sh'))],
       id, Some b)
  | _ => ([q1; q2; q3], id, None)
  end.

(** The scenario of the specification runs as the specification
    says: the account queries answer 10, 20, 30 and, after the revert, 20;
    the snapshot gets the identifier 0; the revert answers true. *)
Theorem spec_scenario :
  scenario = ([Some 10; Some 20; Some 30; Some 20], 0, Some true).
Proof. vm_compute. reflexivity. Qed.

Lemma shared1_wf : Snapshots.wf (registry shared1).
Proof. by apply (bool_decide_unpack _). Defined.

Lemma revert_snapshot_restores_witness :
  ∃ self' sh',
    ForkedDatabase.revert_snapshot fdb0 0 shared1 = Returned true (self', sh') ∧
    ForkedDatabase.cache_db self' = ForkDbSnapshot.local snap0 ∧
    capture (RemoteStateSource.cache (remote sh')) = ForkDbSnapshot.snapshot snap0 ∧
    RemoteStateSource.pinned_block (remote sh') =
      RemoteStateSource.pinned_block (remote shared1) ∧
    registry sh' = Snapshots.cascade (registry shared1) 0.
Proof.
  apply (revert_snapshot_restores fdb0 0 shared1 snap0);
    [exact shared1_wf|done|by vm_compute].
Defined.

Lemma revert_snapshot_unknown_witness :
  ForkedDatabase.revert_snapshot fdb0 5 shared1 =
    Returned false
      (fdb0, {| remote := remote shared1;
                registry := Snapshots.cascade (registry shared1) 5 |}).
Proof.
  apply (revert_snapshot_unknown fdb0 5 shared1);
    [exact shared1_wf|done|by vm_compute].
Defined.

Lemma revert_snapshot_invalidates_later_witness :
  ∃ snapshots,
    ForkedDatabase.revert_snapshot
        (ForkedDatabase.set_cache_db fdb0 (ForkDbSnapshot.local snap0)) 0
        (reverted shared1 0 snap0) =
      Returned false
        (ForkedDatabase.set_cache_db fdb0 (ForkDbSnapshot.local snap0),
         {| remote := remote (reverted shared1 0 snap0);
            registry := snapshots |}).
Proof.
  apply (revert_snapshot_invalidates_later fdb0 0 shared1 snap0 0);
    [exact shared1_wf|done|by vm_compute|by vm_compute|by vm_compute].
Defined.

Lemma snapshot_then_revert_witness :
  ∃ self' sh',
    ForkedDatabase.revert_snapshot fdb0
        (ForkedDatabase.insert_snapshot fdb20 shared0).1
        {| remote := remote0;
           registry := registry (ForkedDatabase.insert_snapshot fdb20 shared0).2 |}
      = Returned true (self', sh') ∧
    ForkedDatabase.cache_db self' = ForkedDatabase.cache_db fdb20 ∧
    RemoteStateSource.cache (remote sh') = RemoteStateSource.cache (remote shared0).
Proof.
  apply (snapshot_then_revert fdb20 shared0 fdb0 remote0);
    [by apply (bool_decide_unpack _)|done|apply rtc_refl].
Defined.

Lemma reset_failure_changes_nothing_witness :
  ForkedDatabase.reset fdb20 None (-1) shared1 =
    (Err (to_string (TransportError 2)), fdb20, shared1).
Proof.
  by apply (reset_failure_changes_nothing fdb20 None (-1) shared1).
Defined.

Lemma reset_success_witness :
  ForkedDatabase.reset fdb20 (Some String.EmptyString) 200 shared1 =
    (Ok tt,
     ForkedDatabase.set_cache_db fdb20
       (CacheDB.new (ForkedDatabase.backend fdb20)),
     {| remote := {| RemoteStateSource.pinned_block := 200;
                     RemoteStateSource.cache := RemoteCache.empty |};
        registry := registry shared1 |}).
Proof.
  by apply (reset_success fdb20 (Some String.EmptyString) 200 shared1).
Defined.

Lemma revert_after_reset_mixes_blocks_witness :
  ∃ self2 sh2,
    ForkedDatabase.revert_snapshot
        (ForkedDatabase.set_cache_db fdb20
           (CacheDB.new (ForkedDatabase.backend fdb20)))
        (ForkedDatabase.insert_snapshot fdb20 shared0).1
        {| remote := {| RemoteStateSource.pinned_block := 200;
                        RemoteStateSource.cache := RemoteCache.empty |};
           registry := registry shared1 |}
      = Returned true (self2, sh2) ∧
    RemoteStateSource.pinned_block (remote sh2) = 200 ∧
    RemoteStateSource.cache (remote sh2)
      = RemoteStateSource.cache (remote shared0) ∧
    ForkedDatabase.cache_db self2 = ForkedDatabase.cache_db fdb20.
Proof.
  apply (revert_after_reset_mixes_blocks fdb20 shared0 None 200);
    [by apply (bool_decide_unpack _)|done|by vm_compute].
Defined.

Lemma snapshot_storage_reads_live_cache_witness :
  StateSnapshot.storage (ForkDbSnapshot.snapshot snap_old) !! (1, 5) = Some 7 ∧
  ForkDbSnapshot.storage snap_old 1 5 remote0 = (Ok 9, remote0).
Proof.
  split; [done|].
  by apply (snapshot_storage_reads_live_cache snap_old 1 5 9 remote0).
Defined.

Lemma snapshot_reads_copied_accounts_and_hashes_witness :
  ForkDbSnapshot.basic snap_old 2 remote0 = (Ok (Some (acct 50)), remote0) ∧
  ForkDbSnapshot.block_hash snap_old 98 remote0 = (Ok 7098, remote0).
Proof.
  by apply (snapshot_reads_copied_accounts_and_hashes snap_old 2 (acct 50)
              98 7098 remote0).
Defined.

Lemma snapshot_basic_of_destroyed_account_witness :
  ForkDbSnapshot.basic snap_old 3 remote0 =
    (Ok (Some (DbAccount.info DbAccount.new_not_existing)), remote0) ∧
  Revm.basic_ref (ForkDbSnapshot.local snap_old) 3 remote0 = (Ok None, remote0).
Proof.
  by apply (snapshot_basic_of_destroyed_account snap_old 3
              DbAccount.new_not_existing remote0).
Defined.

Lemma snapshot_miss_fetches_live_witness :
  ∃ r', ForkDbSnapshot.basic snap_old 8 remote0 = (Ok (Some (acct 100008)), r') ∧
        RemoteCache.accounts (RemoteStateSource.cache r') !! 8 =
          Some (acct 100008).
Proof. by apply (snapshot_miss_fetches_live snap_old 8 remote0). Defined.

Lemma basic_reads_through_witness :
  ∃ self',
    ForkedDatabase.basic fdb0 1 remote0 = (Ok (Some (acct 10), self'), remote0) ∧
    CacheDB.accounts (ForkedDatabase.cache_db self') !! 1 =
      Some (DbAccount.from_info (Some (acct 10))) ∧
    ForkedDatabase.basic self' 1 remote0 = (Ok (Some (acct 10), self'), remote0).
Proof. by apply (basic_reads_through fdb0 1 (acct 10) remote0). Defined.

Lemma commit_then_basic_witness :
  ForkedDatabase.basic (ForkedDatabase.commit fdb0 {[1 := change 20]}) 1 remote0 =
    (Ok (Some (acct 20), ForkedDatabase.commit fdb0 {[1 := change 20]}), remote0).
Proof. by apply (commit_then_basic fdb0 {[1 := change 20]} 1 (change 20)). Defined.

End Example.
