(* ===== verification/Branches.v ===== *)
(** * Branches: several databases over one remote source and one registry

    [ForkedDatabase] derives [Clone] (forked_db.rs, line 25).  A clone has an
    overlay of its own and the handles of the original: the clones of a
    database read and fill the same remote cache and register their snapshots
    in the same registry.

    - [Family]: the clones (branches) and what they share; [act] is one call
      of a method by one branch: [Clone], [Commit], a query, a snapshot, a
      revert or a reset.
    - [Query], [Answer], [ask]: the four queries of the two interfaces
      ([Database], lines 159-180, which may load into the overlay, and
      [DatabaseRef], lines 182-200, which leaves it alone), as one action
      [Ask mutable q].
    - [RevertPc], [revert_step]: [revert_snapshot] (lines 119-156) cut at its
      locks.  The method takes the lock of the registry, then the write lock
      of each of the three maps of the remote cache, one after the other,
      and assigns the overlay last; between two of these steps the other
      branches run.

    A clone is a value and [act] writes back the clone that called, so a
    call leaves the overlays of the other branches alone by construction.

    The theorems: the steps of a revert, run without interruption, are the
    method; a branch can revert to the snapshot of another branch and then
    holds its overlay; a reset by one branch wipes the cache of all and the
    overlay of that branch only, so that the others answer from before the
    reset; a read between two steps of a revert sees the accounts of the
    snapshot and the storage of before the revert. *)

From stdpp Require Import gmap list strings.
From Stdlib Require Import ZArith Lia.
From S2P Require Import Prelude SnapshotStore Revm Remote ForkedDb.

#[local] Open Scope Z_scope.
#[local] Open Scope se_scope.
#[local] Set Warnings "-clear-no-such-hyp".

(** ** Clones *)

(** [#[derive(Clone)]]: the overlay is copied, the handles are the same
    handles.  The copy is a value of its own; what the handles refer to is
    in [Shared]. *)
Definition clone (self : ForkedDatabase.t) : ForkedDatabase.t :=
  {| ForkedDatabase.backend := ForkedDatabase.backend self;
     ForkedDatabase.cache_db := ForkedDatabase.cache_db self;
     ForkedDatabase.db := ForkedDatabase.db self;
     ForkedDatabase.snapshots := ForkedDatabase.snapshots self |}.

(** The branches of a database and what they share. *)
Record Family : Type :=
  { branches : list ForkedDatabase.t; shared : Shared }.

Definition set_branch (f : Family) (b : nat) (self : ForkedDatabase.t)
    (sh : Shared) : Family :=
  {| branches := <[b := self]> (branches f); shared := sh |}.

(** The four queries of [Database] and of [DatabaseRef], and their
    answers. *)
Inductive Query : Type :=
| QBasic (address : Address)
| QCodeByHash (code_hash : B256)
| QStorage (address : Address) (index : U256)
| QBlockHash (number : U256).

Inductive Answer : Type :=
| AccountAnswer (r : Result DatabaseError (option AccountInfo.t))
| CodeAnswer (r : Result DatabaseError Bytecode)
| WordAnswer (r : Result DatabaseError U256).

(** A call of a method by a branch, and what the caller is told.  [Ask true]
    is a query of [Database] (it takes [&mut self]), [Ask false] one of
    [DatabaseRef]. *)
Inductive Action : Type :=
| Clone
| Commit (changes : gmap Z Account.t)
| Ask (mutable : bool) (q : Query)
| InsertSnapshot
| RevertSnapshot (id : U256)
| Reset (url : option string) (block_number : BlockId).

Inductive Observation : Type :=
| Nothing
| Told (a : Answer)
| SnapshotId (id : U256)
| Reverted (ok : bool)
| ResetResult (r : Result ErrorString unit).

(** The answer of a query of [Database], with the database it leaves: the
    one it returns, or on an error the one it was called on. *)
Definition told_mut {A : Type} (wrap : Result DatabaseError A → Answer)
    (self : ForkedDatabase.t)
    (res : Result DatabaseError (A * ForkedDatabase.t) * RemoteStateSource.t)
    : Answer * ForkedDatabase.t * RemoteStateSource.t :=
  match res with
  | (Ok r, rem) => (wrap (Ok r.1), r.2, rem)
  | (Err e, rem) => (wrap (Err e), self, rem)
  end.

Definition told_ref {A : Type} (wrap : Result DatabaseError A → Answer)
    (self : ForkedDatabase.t)
    (res : Result DatabaseError A * RemoteStateSource.t)
    : Answer * ForkedDatabase.t * RemoteStateSource.t :=
  (wrap res.1, self, res.2).

Section family.
Context `{!Transport}.

(** A query, through [impl Database for ForkedDatabase] or through
    [impl DatabaseRef for ForkedDatabase]. *)
Definition ask (mutable : bool) (self : ForkedDatabase.t) (q : Query)
    (rem : RemoteStateSource.t)
    : Answer * ForkedDatabase.t * RemoteStateSource.t :=
  match mutable, q with
  | true, QBasic address =>
      told_mut AccountAnswer self (ForkedDatabase.basic self address rem)
  | true, QCodeByHash code_hash =>
      told_mut CodeAnswer self (ForkedDatabase.code_by_hash self code_hash rem)
  | true, QStorage address index =>
      told_mut WordAnswer self (ForkedDatabase.storage self address index rem)
  | true, QBlockHash number =>
      told_mut WordAnswer self (ForkedDatabase.block_hash self number rem)
  | false, QBasic address =>
      told_ref AccountAnswer self (ForkedDatabase.basic_ref self address rem)
  | false, QCodeByHash code_hash =>
      told_ref CodeAnswer self
        (ForkedDatabase.code_by_hash_ref self code_hash rem)
  | false, QStorage address index =>
      told_ref WordAnswer self
        (ForkedDatabase.storage_ref self address index rem)
  | false, QBlockHash number =>
      told_ref WordAnswer self (ForkedDatabase.block_hash_ref self number rem)
  end.

(** The branch [b] calls a method.  [None]: there is no such branch. *)
Definition act (b : nat) (a : Action) (f : Family)
    : option (Outcome Family Observation) :=
  self ← branches f !! b;
  Some
    match a with
    | Clone =>
        Returned Nothing
          {| branches := branches f ++ [clone self]; shared := shared f |}
    | Commit changes =>
        Returned Nothing
          (set_branch f b (ForkedDatabase.commit self changes) (shared f))
    | Ask mutable q =>
        let '(a, self', rem) := ask mutable self q (remote (shared f)) in
        Returned (Told a) (set_branch f b self' (set_remote (shared f) rem))
    | InsertSnapshot =>
        let '(id, sh) := ForkedDatabase.insert_snapshot self (shared f) in
        Returned (SnapshotId id) (set_branch f b self sh)
    | RevertSnapshot id =>
        match ForkedDatabase.revert_snapshot self id (shared f) with
        | Returned ok st => Returned (Reverted ok) (set_branch f b st.1 st.2)
        | Panicked st => Panicked (set_branch f b st.1 st.2)
        | OutOfFuel => OutOfFuel
        end
    | Reset url block_number =>
        let '(r, self', sh) :=
          ForkedDatabase.reset self url block_number (shared f) in
        Returned (ResetResult r) (set_branch f b self' sh)
    end.
End family.

(** ** [revert_snapshot], lock by lock *)

(** Where a call of [revert_snapshot] stands. *)
Inductive RevertPc : Type :=
| AtRemove
| AtAccounts (snapshot : ForkDbSnapshot.t)
| AtStorage (snapshot : ForkDbSnapshot.t)
| AtBlockHashes (snapshot : ForkDbSnapshot.t)
| AtOverlay (snapshot : ForkDbSnapshot.t)
| Finished (result : bool).

(** What the remote cache becomes when one of its maps is replaced. *)
Definition set_accounts (sh : Shared) (m : gmap Z AccountInfo.t) : Shared :=
  let db := RemoteStateSource.cache (remote sh) in
  set_remote sh
    (RemoteStateSource.set_cache (remote sh)
       {| RemoteCache.accounts := m;
          RemoteCache.storage := RemoteCache.storage db;
          RemoteCache.block_hashes := RemoteCache.block_hashes db |}).

Definition set_storage (sh : Shared) (m : gmap (Z * Z) Z) : Shared :=
  let db := RemoteStateSource.cache (remote sh) in
  set_remote sh
    (RemoteStateSource.set_cache (remote sh)
       {| RemoteCache.accounts := RemoteCache.accounts db;
          RemoteCache.storage := m;
          RemoteCache.block_hashes := RemoteCache.block_hashes db |}).

Definition set_block_hashes (sh : Shared) (m : gmap Z Z) : Shared :=
  let db := RemoteStateSource.cache (remote sh) in
  set_remote sh
    (RemoteStateSource.set_cache (remote sh)
       {| RemoteCache.accounts := RemoteCache.accounts db;
          RemoteCache.storage := RemoteCache.storage db;
          RemoteCache.block_hashes := m |}).

(** One step of [revert_snapshot]: what the method does while it holds one
    lock. *)
Definition revert_step (self : ForkedDatabase.t) (id : U256) (pc : RevertPc)
    (sh : Shared) : Outcome (ForkedDatabase.t * Shared) RevertPc :=
  let db := RemoteStateSource.cache (remote sh) in
  match pc with
  | AtRemove =>
      match Snapshots.remove (registry sh) id with
      | Panicked snapshots => Panicked (self, set_registry sh snapshots)
      | OutOfFuel => OutOfFuel
      | Returned (Some snapshot) snapshots =>
          Returned (AtAccounts snapshot) (self, set_registry sh snapshots)
      | Returned None snapshots =>
          Returned (Finished false) (self, set_registry sh snapshots)
      end
  | AtAccounts s =>
      let accounts := StateSnapshot.accounts (ForkDbSnapshot.snapshot s) in
      Returned (AtStorage s)
        (self,
         set_accounts sh
           (hm_extend (hm_clear (RemoteCache.accounts db)) accounts))
  | AtStorage s =>
      let storage := StateSnapshot.storage (ForkDbSnapshot.snapshot s) in
      Returned (AtBlockHashes s)
        (self,
         set_storage sh (hm_extend (hm_clear (RemoteCache.storage db)) storage))
  | AtBlockHashes s =>
      let block_hashes :=
        StateSnapshot.block_hashes (ForkDbSnapshot.snapshot s) in
      Returned (AtOverlay s)
        (self,
         set_block_hashes sh
           (hm_extend (hm_clear (RemoteCache.block_hashes db)) block_hashes))
  | AtOverlay s =>
      Returned (Finished true)
        (ForkedDatabase.set_cache_db self (ForkDbSnapshot.local s), sh)
  | Finished result => Returned (Finished result) (self, sh)
  end.

(** [n] steps of a call, nothing else running in between. *)
Fixpoint revert_steps (n : nat) (self : ForkedDatabase.t) (id : U256)
    (pc : RevertPc) (sh : Shared)
    : Outcome (ForkedDatabase.t * Shared) RevertPc :=
  match n with
  | O => Returned pc (self, sh)
  | S n =>
      match revert_step self id pc sh with
      | Returned pc' st => revert_steps n st.1 id pc' st.2
      | Panicked st => Panicked st
      | OutOfFuel => OutOfFuel
      end
  end.

(** The result of the call, once it has finished. *)
Definition finished (o : Outcome (ForkedDatabase.t * Shared) bool)
    : Outcome (ForkedDatabase.t * Shared) RevertPc :=
  match o with
  | Returned result st => Returned (Finished result) st
  | Panicked st => Panicked st
  | OutOfFuel => OutOfFuel
  end.

(** ** Lemmas *)

Section lemmas.
Context `{!Transport}.
Implicit Types (self other : ForkedDatabase.t) (sh : Shared) (f : Family)
  (b j : nat) (a : Action) (snap : ForkDbSnapshot.t).

Lemma lookup_set_branch_ne f b j self sh :
  j ≠ b → branches (set_branch f b self sh) !! j = branches f !! j.
Proof. intros Hne. simpl. by apply list_lookup_insert_ne. Qed.

Lemma lookup_set_branch f b self sh :
  (b < length (branches f))%nat →
  branches (set_branch f b self sh) !! b = Some self.
Proof. intros Hb. simpl. by apply list_lookup_insert_eq. Qed.

(** A read of an account that the overlay does not hold and the remote cache
    holds. *)
Lemma basic_ref_remote other address acc r :
  CacheDB.accounts (ForkedDatabase.cache_db other) !! address = None →
  RemoteCache.accounts (RemoteStateSource.cache r) !! address = Some acc →
  ForkedDatabase.basic_ref other address r = (Ok (Some acc), r).
Proof.
  intros Hmiss Hhit. unfold ForkedDatabase.basic_ref. simpl.
  rewrite Hmiss. simpl. unfold RemoteStateSource.get_account. by rewrite Hhit.
Qed.

(** A read of an account that the overlay holds. *)
Lemma basic_ref_overlay other address acc r :
  CacheDB.accounts (ForkedDatabase.cache_db other) !! address = Some acc →
  ForkedDatabase.basic_ref other address r = (Ok (DbAccount.get_info acc), r).
Proof.
  intros Hhit. unfold ForkedDatabase.basic_ref. simpl. by rewrite Hhit.
Qed.

(** A read of an account that neither the overlay nor the remote cache
    holds: the answer of the network at the pinned block. *)
Lemma basic_ref_fetched other address info r :
  CacheDB.accounts (ForkedDatabase.cache_db other) !! address = None →
  RemoteCache.accounts (RemoteStateSource.cache r) !! address = None →
  fetch_account (RemoteStateSource.pinned_block r) address = Ok info →
  (ForkedDatabase.basic_ref other address r).1 = Ok (Some info).
Proof.
  intros Hmiss Hmiss' Hinfo. unfold ForkedDatabase.basic_ref. simpl.
  rewrite Hmiss. simpl. unfold RemoteStateSource.get_account.
  by rewrite Hmiss', Hinfo.
Qed.

(** A read of a slot of an account that the overlay does not hold, when the
    remote cache holds the slot. *)
Lemma storage_ref_remote other address index v r :
  CacheDB.accounts (ForkedDatabase.cache_db other) !! address = None →
  RemoteCache.storage (RemoteStateSource.cache r) !! (address, index)
    = Some v →
  ForkedDatabase.storage_ref other address index r = (Ok v, r).
Proof.
  intros Hmiss Hhit. unfold ForkedDatabase.storage_ref. simpl.
  rewrite Hmiss. simpl. unfold RemoteStateSource.get_storage. by rewrite Hhit.
Qed.
End lemmas.

(** ** Theorems *)

Section properties.
Context `{!Transport}.
Implicit Types (self other : ForkedDatabase.t) (sh : Shared) (f : Family)
  (b j : nat) (a : Action) (snap : ForkDbSnapshot.t).

(** Claim C25. A reset by one branch is not a reset of the others.  The
    branch that resets gets an empty overlay, and the remote source that all
    branches share is pinned to the new block with an empty cache, whatever
    the overlay and the cache held; every other branch keeps its overlay.
    So an account that another branch holds in its overlay is reported by
    the branch that reset as the network has it at the new block, and by
    the other branch as its overlay has it, from before the reset. *)
Theorem reset_leaves_other_overlays f b j self other url block address acc
    info :
  b ≠ j →
  branches f !! b = Some self → branches f !! j = Some other →
  resolve_block block = Ok tt →
  CacheDB.accounts (ForkedDatabase.cache_db other) !! address = Some acc →
  fetch_account block address = Ok info →
  ∃ f' fb fj,
    act b (Reset url block) f = Some (Returned (ResetResult (Ok tt)) f') ∧
    RemoteStateSource.pinned_block (remote (shared f')) = block ∧
    act b (Ask false (QBasic address)) f'
      = Some (Returned (Told (AccountAnswer (Ok (Some info)))) fb) ∧
    act j (Ask false (QBasic address)) f'
      = Some (Returned
                (Told (AccountAnswer (Ok (DbAccount.get_info acc)))) fj).
Proof.
  intros Hne Hb Hj Hres Hacc Hinfo.
  pose proof (lookup_lt_Some _ _ _ Hb) as Hblen.
  unfold act at 1. rewrite Hb. simpl. rewrite (reset_success _ _ _ _ Hres).
  do 3 eexists. split; [done|]. split; [done|].
  unfold act. rewrite lookup_set_branch, lookup_set_branch_ne, Hj by done.
  simpl. unfold told_ref.
  rewrite (basic_ref_fetched _ address info), (basic_ref_overlay other _ acc)
    by done.
  done.
Qed.

(** The steps of [revert_snapshot], run one after the other with
    nothing in between, are the method: same result, same overlay, same
    shared state, same panic. *)
Theorem revert_steps_are_revert_snapshot self id sh :
  revert_steps 5 self id AtRemove sh =
    finished (ForkedDatabase.revert_snapshot self id sh).
Proof.
  unfold ForkedDatabase.revert_snapshot. simpl.
  by destruct (Snapshots.remove (registry sh) id)
    as [[[l [accounts storage block_hashes]]|] snapshots|snapshots|].
Qed.

(** Claim C27. The registry belongs to all branches: a snapshot that one
    branch inserts can be reverted to by any other branch, which then holds
    the overlay of the branch that took the snapshot. *)
Theorem revert_to_snapshot_of_other_branch f b j self other :
  branches f !! b = Some self → branches f !! j = Some other →
  Snapshots.wf (registry (shared f)) →
  Snapshots.id (registry (shared f)) < U256_MAX →
  ∃ f1 f2 self',
    act b InsertSnapshot f =
      Some (Returned (SnapshotId (Snapshots.id (registry (shared f)))) f1) ∧
    act j (RevertSnapshot (Snapshots.id (registry (shared f)))) f1 =
      Some (Returned (Reverted true) f2) ∧
    branches f2 !! j = Some self' ∧
    ForkedDatabase.cache_db self' = ForkedDatabase.cache_db self.
Proof.
  intros Hb Hj Hwf Hlt. pose proof Hwf as [[Hid0 Hid] _].
  pose proof (lookup_lt_Some _ _ _ Hj) as Hjlen.
  unfold act. rewrite Hb. simpl. do 3 eexists. split; [done|].
  unfold set_branch at 1 2. simpl. rewrite list_insert_id by done.
  rewrite Hj. simpl.
  rewrite revert_snapshot_returns
    by (simpl; rewrite ?u256_saturating_add_lt by done; lia).
  unfold Snapshots.get. simpl. rewrite lookup_insert_eq.
  split; [done|]. simpl. split; [by apply list_lookup_insert_eq|done].
Qed.

(** Claim C20. A revert is not one step for the other branches: after the
    accounts of the remote cache are restored and before its storage is, a
    branch reads the account of the snapshot together with the storage slot
    that the remote cache held before the revert. *)
Theorem read_during_revert_is_mixed self other id sh snap snapshots
    address index acc v :
  Snapshots.remove (registry sh) id = Returned (Some snap) snapshots →
  CacheDB.accounts (ForkedDatabase.cache_db other) !! address = None →
  StateSnapshot.accounts (ForkDbSnapshot.snapshot snap) !! address
    = Some acc →
  RemoteCache.storage (RemoteStateSource.cache (remote sh)) !! (address, index)
    = Some v →
  ∃ sh2,
    revert_steps 2 self id AtRemove sh = Returned (AtStorage snap) (self, sh2) ∧
    ForkedDatabase.basic_ref other address (remote sh2)
      = (Ok (Some acc), remote sh2) ∧
    ForkedDatabase.storage_ref other address index (remote sh2)
      = (Ok v, remote sh2).
Proof.
  intros Hrm Hmiss Hacc Hv. eexists. simpl. rewrite Hrm. simpl.
  split; [done|]. split.
  - apply basic_ref_remote; [done|]. simpl.
    by rewrite hm_extend_clear.
  - by apply storage_ref_remote.
Qed.
End properties.

(** ** Two branches *)

Module TwoBranches.
#[local] Existing Instance Example.chain.

(** The branch 0 has committed balance 20 for account 1; the branch 1 has
    committed nothing. *)
Definition family : Family :=
  {| branches := [Example.fdb20; Example.fdb0]; shared := Example.shared0 |}.

(** A snapshot that holds account 1 with balance 50 and no storage. *)
Definition snap_50 : ForkDbSnapshot.t :=
  {| ForkDbSnapshot.local := CacheDB.new SharedBackend.Handle;
     ForkDbSnapshot.snapshot :=
       {| StateSnapshot.accounts := {[1 := Example.acct 50]};
          StateSnapshot.storage := ∅;
          StateSnapshot.block_hashes := ∅ |} |}.

Definition shared_50 : Shared :=
  set_registry Example.shared0
    (Snapshots.insert (registry Example.shared0) snap_50).2.

(** The family when the registry holds [snap_50] under the identifier 0. *)
Definition family_50 : Family :=
  {| branches := branches family; shared := shared_50 |}.

(** The branch 0 has loaded account 1 at block 100, where its balance was
    10; the branch 1 resets to block 200. *)
Definition loaded : ForkedDatabase.t :=
  (ask true Example.fdb0 (QBasic 1) Example.remote0).1.2.

Definition family_loaded : Family :=
  {| branches := [loaded; Example.fdb0]; shared := Example.shared0 |}.

Lemma reset_leaves_other_overlays_witness :
  ∃ f' fb fj,
    act 1 (Reset None 200) family_loaded
      = Some (Returned (ResetResult (Ok tt)) f') ∧
    RemoteStateSource.pinned_block (remote (shared f')) = 200 ∧
    act 1 (Ask false (QBasic 1)) f'
      = Some (Returned
                (Told (AccountAnswer (Ok (Some (Example.acct 200001))))) fb) ∧
    act 0 (Ask false (QBasic 1)) f'
      = Some (Returned
                (Told (AccountAnswer (Ok (Some (Example.acct 10))))) fj).
Proof.
  by apply (reset_leaves_other_overlays family_loaded 1 0 Example.fdb0 loaded
              None 200 1
              {| DbAccount.info := Example.acct 10;
                 DbAccount.account_state := StateNone;
                 DbAccount.storage := ∅ |}).
Defined.

Lemma revert_to_snapshot_of_other_branch_witness :
  ∃ f1 f2 self',
    act 0 InsertSnapshot family = Some (Returned (SnapshotId 0) f1) ∧
    act 1 (RevertSnapshot 0) f1 = Some (Returned (Reverted true) f2) ∧
    branches f2 !! 1%nat = Some self' ∧
    ForkedDatabase.cache_db self' = ForkedDatabase.cache_db Example.fdb20.
Proof.
  apply (revert_to_snapshot_of_other_branch family 0 1
           Example.fdb20 Example.fdb0); [done|done| |done].
  by apply (bool_decide_unpack _).
Defined.

Lemma read_during_revert_is_mixed_witness :
  ∃ sh2,
    revert_steps 2 Example.fdb20 0 AtRemove shared_50
      = Returned (AtStorage snap_50) (Example.fdb20, sh2) ∧
    ForkedDatabase.basic_ref Example.fdb0 1 (remote sh2)
      = (Ok (Some (Example.acct 50)), remote sh2) ∧
    ForkedDatabase.storage_ref Example.fdb0 1 5 (remote sh2)
      = (Ok 9, remote sh2).
Proof.
  by eapply (read_during_revert_is_mixed Example.fdb20 Example.fdb0 0
               shared_50 snap_50 _ 1 5 (Example.acct 50) 9).
Defined.
End TwoBranches.
