(* ===== verification/Journal.v ===== *)
(** * The database as a journal of checkpoints

    What the façade of forked_db.rs promises to the execution engine, and
    the proof that the code keeps the promise.

    The abstract database, Module [Journal], is what the specification
    describes (sections 2, 4.2 and 4.3): the clones, the remote source they
    share, and a stack of checkpoints ([Timeline.t] of Timeline.v).  A
    checkpoint is the view of a clone: its overlay and the three maps of the
    remote cache.  [spec_act] is one call of a method: [InsertSnapshot]
    pushes the view of the caller, [RevertSnapshot] cuts the stack at an
    identifier and rewinds the caller and the remote cache to the
    checkpoint found there, [Reset] re-pins and wipes; the queries and
    [Commit] are those of the code.  Nothing in it can panic or run out of
    fuel, and it has no map of snapshots and no counter that saturates.

    [abs_family] maps a family of clones of the code ([Family] of
    Branches.v) to the abstract database.  [refines_journal] is the
    simulation: below the largest U256, every run of calls by any clones
    returns, tells each caller what the abstract database tells, and ends in
    the family that represents the abstract database.  It composes the
    refinement of the registry ([abs_insert], [abs_cascade] of Timeline.v)
    with the methods of [ForkedDatabase]. *)

From stdpp Require Import gmap list strings.
From Stdlib Require Import ZArith Lia.
From S2P Require Import Prelude SnapshotStore Timeline Revm Remote ForkedDb.
From S2P Require Import Branches.

#[local] Open Scope Z_scope.
#[local] Open Scope se_scope.
#[local] Set Warnings "-clear-no-such-hyp".

(** ** The abstract database *)

Module Journal.
Record t : Type :=
  { clones : list ForkedDatabase.t;
    source : RemoteStateSource.t;
    marks : Timeline.t ForkDbSnapshot.t }.

Definition set_clone (j : t) (b : nat) (self : ForkedDatabase.t)
    (r : RemoteStateSource.t) : t :=
  {| clones := <[b := self]> (clones j); source := r; marks := marks j |}.

Definition set_marks (j : t) (m : Timeline.t ForkDbSnapshot.t) : t :=
  {| clones := clones j; source := source j; marks := m |}.
End Journal.

(** The view of a clone: what a checkpoint keeps. *)
Definition view (self : ForkedDatabase.t) (r : RemoteStateSource.t)
    : ForkDbSnapshot.t :=
  {| ForkDbSnapshot.local := ForkedDatabase.cache_db self;
     ForkDbSnapshot.snapshot := capture (RemoteStateSource.cache r) |}.

(** The clone and the remote source, taken back to a view. *)
Definition rewind (self : ForkedDatabase.t) (r : RemoteStateSource.t)
    (v : ForkDbSnapshot.t) : ForkedDatabase.t * RemoteStateSource.t :=
  (ForkedDatabase.set_cache_db self (ForkDbSnapshot.local v),
   RemoteStateSource.set_cache r (restore (ForkDbSnapshot.snapshot v))).

Section spec.
Context `{!Transport}.

(** One call of a method by the clone [b].  [None]: there is no such
    clone. *)
Definition spec_act (b : nat) (a : Action) (j : Journal.t)
    : option (Observation * Journal.t) :=
  self ← Journal.clones j !! b;
  Some
    match a with
    | Clone =>
        (Nothing,
         {| Journal.clones := Journal.clones j ++ [clone self];
            Journal.source := Journal.source j;
            Journal.marks := Journal.marks j |})
    | Commit changes =>
        (Nothing,
         Journal.set_clone j b (ForkedDatabase.commit self changes)
           (Journal.source j))
    | Ask mutable q =>
        let '(a, self', r) := ask mutable self q (Journal.source j) in
        (Told a, Journal.set_clone j b self' r)
    | InsertSnapshot =>
        let '(id, marks) :=
          Timeline.push (Journal.marks j) (view self (Journal.source j)) in
        (SnapshotId id, Journal.set_marks j marks)
    | RevertSnapshot id =>
        match Timeline.revert (Journal.marks j) id with
        | (Some v, marks) =>
            let '(self', r) := rewind self (Journal.source j) v in
            (Reverted true,
             Journal.set_marks (Journal.set_clone j b self' r) marks)
        | (None, marks) => (Reverted false, Journal.set_marks j marks)
        end
    | Reset _ block_number =>
        match RemoteStateSource.set_pinned_block block_number
                (Journal.source j) with
        | (Ok _, r) =>
            (ResetResult (Ok tt),
             Journal.set_clone j b
               (ForkedDatabase.set_cache_db self
                  (CacheDB.new (ForkedDatabase.backend self)))
               (RemoteStateSource.set_cache r RemoteCache.empty))
        | (Err e, r) =>
            (ResetResult (Err (to_string e)), Journal.set_clone j b self r)
        end
    end.

Fixpoint spec_acts (j : Journal.t) (calls : list (nat * Action))
    : option (list Observation * Journal.t) :=
  match calls with
  | [] => Some ([], j)
  | (b, a) :: calls =>
      '(o, j') ← spec_act b a j;
      '(os, j'') ← spec_acts j' calls;
      Some (o :: os, j'')
  end.

(** A run of calls on the family of the code. *)
Fixpoint acts (f : Family) (calls : list (nat * Action))
    : option (Outcome Family (list Observation)) :=
  match calls with
  | [] => Some (Returned [] f)
  | (b, a) :: calls =>
      match act b a f with
      | Some (Returned o f') =>
          match acts f' calls with
          | Some (Returned os f'') => Some (Returned (o :: os) f'')
          | other => other
          end
      | Some (Panicked f') => Some (Panicked f')
      | Some OutOfFuel => Some OutOfFuel
      | None => None
      end
  end.
End spec.

(** The abstraction. *)
Definition abs_family (f : Family) : Journal.t :=
  {| Journal.clones := branches f;
     Journal.source := remote (shared f);
     Journal.marks := abs (registry (shared f)) |}.

(** The reverts of a run stay below the largest identifier. *)
Definition in_range_call (c : nat * Action) : Prop :=
  match c.2 with RevertSnapshot id => id < U256_MAX | _ => True end.

#[global] Instance in_range_call_dec c : Decision (in_range_call c).
Proof. destruct c as [b []]; apply _. Defined.

(** ** The simulation *)

Section refinement.
Context `{!Transport}.
Implicit Types (f : Family) (j : Journal.t) (a : Action) (b : nat).

(** The registry of the family keeps its identifiers below its counter, and
    the counter is [n] at most. *)
Definition within (n : Z) f : Prop :=
  below (registry (shared f)) ∧ Snapshots.id (registry (shared f)) ≤ n.

(** One call: the family answers as the journal and stays in relation with
    it. *)
Lemma act_spec f b a n :
  within n f → n < U256_MAX → in_range_call (b, a) →
  match spec_act b a (abs_family f) with
  | Some (o, j') =>
      ∃ f', act b a f = Some (Returned o f') ∧ abs_family f' = j' ∧
            within (n + 1) f'
  | None => act b a f = None
  end.
Proof.
  intros [Hb Hn] Hmax Hr. unfold spec_act, act, abs_family. simpl.
  destruct (branches f !! b) as [self|] eqn:Hself; [simpl|done].
  assert (within (n + 1) f) as Hw by (split; [done|lia]).
  destruct a as [|changes|mutable q| |id|url block]; simpl in *.
  - by eexists.
  - by eexists.
  - destruct (ask mutable self q (remote (shared f))) as [[a self'] r].
    by eexists.
  - destruct (abs_insert (registry (shared f)) (view self (remote (shared f))))
      as [Habs Hb']; [done|lia|].
    eexists. split; [done|]. split; [|split; [exact Hb'|]].
    + unfold Journal.set_marks. simpl.
      f_equal; first [exact Habs|by apply list_insert_id].
    + simpl. rewrite u256_saturating_add_lt by lia. lia.
  - destruct (abs_cascade (registry (shared f)) id Hb) as [Habs Hb'].
    rewrite revert_snapshot_returns by (destruct Hb as [[] ?]; done || lia).
    unfold Timeline.find, Snapshots.get. simpl.
    rewrite first_entry_btree_iter.
    destruct (Snapshots.snapshots (registry (shared f)) !! id) as [v|];
      (eexists; split; [done|]); (split; [|split; [exact Hb'|simpl; lia]]);
      unfold Journal.set_marks; simpl;
      (f_equal; first [exact Habs|by apply list_insert_id]).
  - unfold ForkedDatabase.reset.
    destruct (RemoteStateSource.set_pinned_block block (remote (shared f)))
      as [[[]|e] r]; by eexists.
Qed.

(** A run: the simulation, with the invariant that carries it. *)
Lemma acts_spec f calls n :
  within n f → n + Z.of_nat (length calls) ≤ U256_MAX →
  Forall in_range_call calls →
  match spec_acts (abs_family f) calls with
  | Some (os, j') =>
      ∃ f', acts f calls = Some (Returned os f') ∧ abs_family f' = j' ∧
            within (n + Z.of_nat (length calls)) f'
  | None => acts f calls = None
  end.
Proof.
  revert f n. induction calls as [|[b a] calls IH]; intros f n Hw Hlen Hcalls.
  { simpl. exists f. by rewrite Z.add_0_r. }
  apply Forall_cons in Hcalls as [Hc Hcalls]. simpl in Hlen |- *.
  pose proof (act_spec f b a n Hw) as Hone.
  destruct (spec_act b a (abs_family f)) as [[o j1]|]; simpl;
    [|by rewrite Hone by (done || lia)].
  destruct Hone as (f1 & -> & <- & Hw1); [lia|done|].
  specialize (IH f1 (n + 1) Hw1).
  destruct (spec_acts (abs_family f1) calls) as [[os j2]|]; simpl.
  - destruct IH as (f2 & -> & <- & Hw2); [lia|done|].
    exists f2. split; [done|]. split; [done|].
    destruct Hw2 as [? ?]. split; [done|lia].
  - by rewrite IH by (done || lia).
Qed.

(** Claim C14. The database implements a journal of checkpoints: from a
    family whose registry keeps its identifiers below its counter, every run
    of calls by its clones (clone, commit, queries of either interface,
    [insert_snapshot], [revert_snapshot], [reset]) that stays below the
    largest U256 returns without a panic, tells every caller what the
    abstract database tells (the identifiers, the answers of the reverts and
    of the queries), and ends in the family that represents the abstract
    database; and it names a clone that does not exist exactly when the
    abstract run does. *)
Theorem refines_journal f calls :
  below (registry (shared f)) → Forall in_range_call calls →
  Snapshots.id (registry (shared f)) + Z.of_nat (length calls) ≤ U256_MAX →
  match spec_acts (abs_family f) calls with
  | Some (os, j') =>
      ∃ f', acts f calls = Some (Returned os f') ∧ abs_family f' = j'
  | None => acts f calls = None
  end.
Proof.
  intros Hb Hcalls Hlen.
  pose proof (acts_spec f calls (Snapshots.id (registry (shared f)))) as Hrun.
  destruct (spec_acts (abs_family f) calls) as [[os j']|].
  - destruct Hrun as (f' & ? & ? & _); [by split|done..|]. by exists f'.
  - by apply Hrun.
Qed.
End refinement.

(** ** A run *)

Module Session.
#[local] Existing Instance Example.chain.

(** Two clones.  The first commits balance 20 for account 1 and takes a
    snapshot; the second clones itself, asks for a slot, and takes a
    snapshot; the first reverts to its snapshot, which takes the second
    snapshot out of the registry as well; a revert to it answers false. *)
Definition calls : list (nat * Action) :=
  [(0%nat, Commit {[1 := Example.change 20]}); (0%nat, InsertSnapshot);
   (1%nat, Clone); (1%nat, Ask true (QStorage 1 5)); (1%nat, InsertSnapshot);
   (0%nat, Commit {[1 := Example.change 30]}); (0%nat, Ask false (QBasic 1));
   (0%nat, RevertSnapshot 0); (0%nat, Ask false (QBasic 1));
   (2%nat, RevertSnapshot 1); (0%nat, Reset None 200)].

Definition family : Family :=
  {| branches := [Example.fdb0; Example.fdb0]; shared := Example.shared0 |}.

Definition told : list Observation :=
  [Nothing; SnapshotId 0; Nothing; Told (WordAnswer (Ok 9)); SnapshotId 1;
   Nothing; Told (AccountAnswer (Ok (Some (Example.acct 30))));
   Reverted true; Told (AccountAnswer (Ok (Some (Example.acct 20))));
   Reverted false; ResetResult (Ok tt)].

Lemma refines_journal_witness :
  ∃ j', spec_acts (abs_family family) calls = Some (told, j') ∧
  ∃ f', acts family calls = Some (Returned told f') ∧ abs_family f' = j'.
Proof.
  pose proof (refines_journal family calls) as Hrun.
  assert (∃ j', spec_acts (abs_family family) calls = Some (told, j'))
    as [j' Hj]; [eexists; vm_compute; reflexivity|].
  exists j'. split; [done|]. rewrite Hj in Hrun. apply Hrun.
  - apply below_default.
  - by repeat constructor.
  - by vm_compute.
Defined.
End Session.
