(* ===== verification/Concurrent.v ===== *)
(** * Calls in progress: threads, locks and schedules

    The methods of [ForkedDatabase] that touch the shared objects take locks:
    the mutex of the registry and the three reader-writer locks of the remote
    cache (accounts, storage, block hashes).  This file cuts the methods at
    the points where a lock is taken and runs several calls, by several
    clones, under a scheduler.

    - [InsertPc], [insert_step]: [insert_snapshot] and [create_snapshot]
      (forked_db.rs, lines 98-117).  The three [read()] guards of
      [create_snapshot] are temporaries of one [let] statement (lines
      100-104): each is taken when its field is evaluated and all three are
      released at the end of the statement.  Between its first and its third
      step the call therefore holds read locks ([insert_holds]).
    - [revert_holds], [revert_writes]: the locks of [revert_snapshot] (lines
      119-156), whose steps are in Branches.v.  Every write guard lives in a
      block of its own, so the call holds nothing between two steps.
    - [AskPc], [ask_step]: a query of either interface ([Database], lines
      159-180, or [DatabaseRef], lines 182-200), one step; it takes the
      write lock of a map of the remote cache exactly when it puts what it
      fetched into that map ([ask_writes], [changed]).
    - [CommitPc], [commit_step]: [commit] (lines 202-206), one step on the
      overlay of the clone; it takes no lock.
    - [ResetPc], [reset_step]: [reset] (lines 69-86) in three steps: the
      backend is re-pinned (lines 74-76; the call ends here when that
      fails), the remote cache is wiped (line 81), the overlay is replaced
      (line 83).  The wipe is a call into the backend, whose code is not
      under src/: it is one step, under the three write locks
      ([reset_writes]), so a cache of which only some maps are wiped is
      not a state of the model.
    - Class [Call]: what the scheduler needs of a call (its step, the number
      of steps it still needs, the read locks it holds, the write locks its
      next step takes), with the laws [CallLaws].  [Pending] is the sum of
      the five calls, with the instance [Pending_laws].
    - [Thread], [Pool], [sched], [run]: a thread is a clone with a call in
      progress; [sched i] lets thread [i] take its next step if no other
      thread holds a lock that the step writes under, and does nothing
      otherwise; [run] follows a schedule.

    The theorems: every schedule that is fair (made of rounds in which every
    thread has a turn) completes every call, so there is no deadlock; what
    [create_snapshot] copies is the remote cache of one instant; concurrent
    inserts never get the same identifier; and two
    schedules that the specification does not expect: a
    snapshot with a later identifier that holds an earlier state, and a
    snapshot of a remote cache that is half reverted. *)

From stdpp Require Import gmap list strings.
From Stdlib Require Import ZArith Lia.
From S2P Require Import Prelude SnapshotStore Revm Remote ForkedDb Branches.

#[local] Open Scope Z_scope.
#[local] Open Scope se_scope.
#[local] Set Warnings "-clear-no-such-hyp".

(** ** Locks *)

(** The reader-writer locks of the three maps of the remote cache.  (The
    mutex of the registry is never held from one step to the next.) *)
Inductive Lock : Type := AccountsLock | StorageLock | BlockHashesLock.

#[global] Instance Lock_eq_dec : EqDecision Lock.
Proof. solve_decision. Defined.

(** The map under the lock [l] is the same in [sh] and in [sh']. *)
Definition unchanged (l : Lock) (sh sh' : Shared) : Prop :=
  let c := RemoteStateSource.cache (remote sh) in
  let c' := RemoteStateSource.cache (remote sh') in
  match l with
  | AccountsLock => RemoteCache.accounts c' = RemoteCache.accounts c
  | StorageLock => RemoteCache.storage c' = RemoteCache.storage c
  | BlockHashesLock => RemoteCache.block_hashes c' = RemoteCache.block_hashes c
  end.

(** ** [insert_snapshot], lock by lock *)

(** Where a call of [insert_snapshot] stands: before each of the three reads
    of [create_snapshot], before the registration, and after it. *)
Inductive InsertPc : Type :=
| AtReadAccounts
| AtReadStorage (accounts : gmap Z AccountInfo.t)
| AtReadBlockHashes (accounts : gmap Z AccountInfo.t)
    (storage : gmap (Z * Z) Z)
| AtRegister (snapshot : ForkDbSnapshot.t)
| Inserted (id : U256).

(** One step of [insert_snapshot].  The third step ends the statement that
    builds the [StateSnapshot]; the [ForkDbSnapshot] with the copy of the
    overlay follows in the same step, since it touches nothing shared.  The
    fourth step is the region under the mutex of the registry. *)
Definition insert_step (self : ForkedDatabase.t) (pc : InsertPc) (sh : Shared)
    : InsertPc * Shared :=
  let db := RemoteStateSource.cache (remote sh) in
  match pc with
  | AtReadAccounts => (AtReadStorage (RemoteCache.accounts db), sh)
  | AtReadStorage accounts =>
      (AtReadBlockHashes accounts (RemoteCache.storage db), sh)
  | AtReadBlockHashes accounts storage =>
      let snapshot :=
        {| StateSnapshot.accounts := accounts;
           StateSnapshot.storage := storage;
           StateSnapshot.block_hashes := RemoteCache.block_hashes db |} in
      (AtRegister {| ForkDbSnapshot.local := ForkedDatabase.cache_db self;
                     ForkDbSnapshot.snapshot := snapshot |}, sh)
  | AtRegister snapshot =>
      let '(id, snapshots) := Snapshots.insert (registry sh) snapshot in
      (Inserted id, set_registry sh snapshots)
  | Inserted id => (Inserted id, sh)
  end.

(** The read locks that the call holds between two steps: the guards that
    the statement of [create_snapshot] has taken and not yet dropped. *)
Definition insert_holds (pc : InsertPc) : list Lock :=
  match pc with
  | AtReadStorage _ => [AccountsLock]
  | AtReadBlockHashes _ _ => [AccountsLock; StorageLock]
  | _ => []
  end.

Definition insert_left (pc : InsertPc) : nat :=
  match pc with
  | AtReadAccounts => 4
  | AtReadStorage _ => 3
  | AtReadBlockHashes _ _ => 2
  | AtRegister _ => 1
  | Inserted _ => 0
  end.

(** ** The locks of [revert_snapshot] *)

(** The write lock that the next step of [revert_snapshot] takes. *)
Definition revert_writes (pc : RevertPc) : list Lock :=
  match pc with
  | AtAccounts _ => [AccountsLock]
  | AtStorage _ => [StorageLock]
  | AtBlockHashes _ => [BlockHashesLock]
  | _ => []
  end.

Definition revert_left (pc : RevertPc) : nat :=
  match pc with
  | AtRemove => 5
  | AtAccounts _ => 4
  | AtStorage _ => 3
  | AtBlockHashes _ => 2
  | AtOverlay _ => 1
  | Finished _ => 0
  end.

(** ** Queries, [commit] and [reset] *)

Definition all_locks : list Lock := [AccountsLock; StorageLock; BlockHashesLock].

#[global] Instance unchanged_dec l sh sh' : Decision (unchanged l sh sh').
Proof. destruct l; simpl; apply _. Defined.

(** The maps that differ between [sh] and [sh']. *)
Definition changed (sh sh' : Shared) : list Lock :=
  filter (λ l, ¬ unchanged l sh sh') all_locks.

(** A query of either interface is one step. *)
Inductive AskPc : Type :=
| AtAsk (mutable : bool) (q : Query)
| Asked (a : Answer).

(** [commit] touches the overlay only. *)
Inductive CommitPc : Type :=
| AtCommit (changes : gmap Z Account.t)
| Committed.

(** Where a call of [reset] stands: before the backend is re-pinned, before
    the remote cache is wiped, before the overlay is replaced, and after. *)
Inductive ResetPc : Type :=
| AtPin
| AtClear
| AtNewOverlay
| ResetDone (r : Result ErrorString unit).

Section steps.
Context `{!Transport}.

Definition ask_step (self : ForkedDatabase.t) (pc : AskPc) (sh : Shared)
    : AskPc * ForkedDatabase.t * Shared :=
  match pc with
  | AtAsk mutable q =>
      let '(a, self', rem) := ask mutable self q (remote sh) in
      (Asked a, self', set_remote sh rem)
  | Asked a => (Asked a, self, sh)
  end.

(** A query takes the write lock of a map when it puts what it fetched into
    it, that is when the map is not the same afterwards. *)
Definition ask_writes (self : ForkedDatabase.t) (pc : AskPc) (sh : Shared)
    : list Lock :=
  changed sh (ask_step self pc sh).2.

Definition commit_step (self : ForkedDatabase.t) (pc : CommitPc) (sh : Shared)
    : CommitPc * ForkedDatabase.t * Shared :=
  match pc with
  | AtCommit changes => (Committed, ForkedDatabase.commit self changes, sh)
  | Committed => (Committed, self, sh)
  end.

(** One step of [reset] (lines 69-86): the call of [set_pinned_block] with
    its [?], the call of [clear], the assignment of the overlay. *)
Definition reset_step (self : ForkedDatabase.t) (block_number : BlockId)
    (pc : ResetPc) (sh : Shared) : ResetPc * ForkedDatabase.t * Shared :=
  match pc with
  | AtPin =>
      match RemoteStateSource.set_pinned_block block_number (remote sh) with
      | (Err err, r) => (ResetDone (Err (to_string err)), self, set_remote sh r)
      | (Ok _, r) => (AtClear, self, set_remote sh r)
      end
  | AtClear =>
      let r :=
        RemoteStateSource.set_cache (remote sh)
          (RemoteCache.clear (RemoteStateSource.cache (remote sh))) in
      (AtNewOverlay, self, set_remote sh r)
  | AtNewOverlay =>
      (ResetDone (Ok tt),
       ForkedDatabase.set_cache_db self
         (CacheDB.new (ForkedDatabase.backend self)), sh)
  | ResetDone r => (ResetDone r, self, sh)
  end.
End steps.

(** [clear] (line 81) wipes the three maps; it needs the write lock of
    each, and the model lets it take the three at once. *)
Definition reset_writes (pc : ResetPc) : list Lock :=
  match pc with AtClear => all_locks | _ => [] end.

Definition ask_left (pc : AskPc) : nat :=
  match pc with AtAsk _ _ => 1 | Asked _ => 0 end.

Definition commit_left (pc : CommitPc) : nat :=
  match pc with AtCommit _ => 1 | Committed => 0 end.

Definition reset_left (pc : ResetPc) : nat :=
  match pc with
  | AtPin => 3
  | AtClear => 2
  | AtNewOverlay => 1
  | ResetDone _ => 0
  end.

(** ** Calls *)

(** What the scheduler needs of a call in progress: its next step, the number
    of steps it needs at most, the read locks it holds, and the write locks
    that its next step takes. *)
Class Call (C : Type) : Type :=
  { call_step :
      ForkedDatabase.t → C → Shared → Outcome (ForkedDatabase.t * Shared) C;
    call_left : C → nat;
    call_holds : C → list Lock;
    call_writes : ForkedDatabase.t → C → Shared → list Lock }.

(** What the scheduler relies on: a step ends and brings the call closer to
    its end; a call that has returned holds no lock; a call that holds a
    lock does not wait for a write lock; and a step changes only the maps
    whose write lock it takes. *)
Class CallLaws (C : Type) `{!Call C} : Prop :=
  { call_step_total self c sh : call_step self c sh ≠ OutOfFuel;
    call_step_progress self c sh c' st :
      call_left c ≠ 0%nat → call_step self c sh = Returned c' st →
      (call_left c' < call_left c)%nat;
    call_done_holds c : call_left c = 0%nat → call_holds c = [];
    call_holder_writes self c sh :
      call_holds c ≠ [] → call_writes self c sh = [];
    call_step_frame self c sh st l :
      outcome_state (call_step self c sh) = Some st →
      l ∉ call_writes self c sh → unchanged l sh st.2 }.

#[global] Hint Mode Call ! : typeclass_instances.
#[global] Hint Mode CallLaws ! - : typeclass_instances.

(** A call of a method. *)
Inductive Pending : Type :=
| Reverting (id : U256) (pc : RevertPc)
| Inserting (pc : InsertPc)
| Resetting (url : option string) (block_number : BlockId) (pc : ResetPc)
| Committing (pc : CommitPc)
| Asking (pc : AskPc).

(** A step that cannot panic, as an outcome. *)
Definition returned {C D : Type} (f : C → D)
    (r : C * ForkedDatabase.t * Shared)
    : Outcome (ForkedDatabase.t * Shared) D :=
  Returned (f r.1.1) (r.1.2, r.2).

(** A step that leaves the database of the caller as it is. *)
Definition keeping {C : Type} (self : ForkedDatabase.t) (r : C * Shared)
    : C * ForkedDatabase.t * Shared :=
  (r.1, self, r.2).

Definition lift {S A B} (f : A → B) (o : Outcome S A) : Outcome S B :=
  match o with
  | Returned a s => Returned (f a) s
  | Panicked s => Panicked s
  | OutOfFuel => OutOfFuel
  end.

#[global] Instance Pending_call `{!Transport} : Call Pending :=
  {| call_step self c sh :=
       match c with
       | Reverting id pc => lift (Reverting id) (revert_step self id pc sh)
       | Inserting pc =>
           returned Inserting (keeping self (insert_step self pc sh))
       | Resetting url block_number pc =>
           returned (Resetting url block_number)
             (reset_step self block_number pc sh)
       | Committing pc => returned Committing (commit_step self pc sh)
       | Asking pc => returned Asking (ask_step self pc sh)
       end;
     call_left c :=
       match c with
       | Reverting _ pc => revert_left pc
       | Inserting pc => insert_left pc
       | Resetting _ _ pc => reset_left pc
       | Committing pc => commit_left pc
       | Asking pc => ask_left pc
       end;
     call_holds c :=
       match c with
       | Inserting pc => insert_holds pc
       | _ => []
       end;
     call_writes self c sh :=
       match c with
       | Reverting _ pc => revert_writes pc
       | Inserting _ => []
       | Resetting _ _ pc => reset_writes pc
       | Committing _ => []
       | Asking pc => ask_writes self pc sh
       end |}.

(** ** Threads and schedules *)

(** A thread: a clone of the database with a call in progress.  A thread
    whose call panicked has unwound; it holds nothing and takes no step. *)
Record Thread (C : Type) : Type :=
  { thread_db : ForkedDatabase.t; thread_call : C; thread_panicked : bool }.

Arguments thread_db {C} _.
Arguments thread_call {C} _.
Arguments thread_panicked {C} _.

Record Pool (C : Type) : Type :=
  { threads : list (Thread C); store : Shared }.

Arguments threads {C} _.
Arguments store {C} _.

Section scheduler.
Context {C : Type} `{!Call C}.

Definition thread (self : ForkedDatabase.t) (c : C) : Thread C :=
  {| thread_db := self; thread_call := c; thread_panicked := false |}.

(** The steps that a thread still needs. *)
Definition remaining (th : Thread C) : nat :=
  if thread_panicked th then 0%nat else call_left (thread_call th).

Definition held (th : Thread C) : list Lock :=
  if thread_panicked th then [] else call_holds (thread_call th).

(** The read locks that the threads other than [i] hold. *)
Definition held_by_others (i : nat) (p : Pool C) : list Lock :=
  mjoin (imap (λ j th, if decide (j = i) then [] else held th) (threads p)).

(** The thread [i] can take its next step: its call has not ended and no
    other thread holds a lock that the step takes for writing. *)
Definition enabled (i : nat) (th : Thread C) (p : Pool C) : Prop :=
  remaining th ≠ 0%nat ∧
  Forall (λ l, l ∉ held_by_others i p)
    (call_writes (thread_db th) (thread_call th) (store p)).

#[global] Instance enabled_dec i th p : Decision (enabled i th p).
Proof. unfold enabled. apply _. Defined.

(** The scheduler gives the thread [i] a turn. *)
Definition sched (i : nat) (p : Pool C) : Pool C :=
  match threads p !! i with
  | Some th =>
      if decide (enabled i th p) then
        match call_step (thread_db th) (thread_call th) (store p) with
        | Returned c st =>
            {| threads := <[i := thread st.1 c]> (threads p); store := st.2 |}
        | Panicked st =>
            {| threads :=
                 <[i := {| thread_db := st.1; thread_call := thread_call th;
                           thread_panicked := true |}]> (threads p);
               store := st.2 |}
        | OutOfFuel => p
        end
      else p
  | None => p
  end.

(** The pool after the turns of a schedule. *)
Definition run (schedule : list nat) (p : Pool C) : Pool C :=
  foldl (λ p i, sched i p) p schedule.

(** The steps that all threads together still need. *)
Definition total (p : Pool C) : nat := sum_list_with remaining (threads p).

(** A round: a piece of a schedule in which every thread has a turn. *)
Definition round (p : Pool C) (turns : list nat) : Prop :=
  ∀ i, (i < length (threads p))%nat → i ∈ turns.

(** A property [J] of the shared state together with a property [K] of
    every call in progress, which may depend on the shared state. *)
Definition pool_invariant (J : Shared → Prop) (K : Shared → C → Prop)
    (p : Pool C) : Prop :=
  J (store p) ∧ Forall (λ th, K (store p) (thread_call th)) (threads p).

(** Every step keeps [J] and [K]: of the shared state, of the calls that
    did not move, and of the call that did. *)
Definition step_keeps (J : Shared → Prop) (K : Shared → C → Prop) : Prop :=
  ∀ self c sh st,
    J sh → K sh c → outcome_state (call_step self c sh) = Some st →
    J st.2 ∧ (∀ c', K sh c' → K st.2 c') ∧
    (∀ c', call_step self c sh = Returned c' st → K st.2 c').
End scheduler.

(** ** The scheduler, for every kind of call *)

Lemma sum_list_with_insert {A} (f : A → nat) (l : list A) i x y :
  l !! i = Some x →
  (sum_list_with f (<[i := y]> l) + f x = sum_list_with f l + f y)%nat.
Proof.
  revert i. induction l as [|a l IH]; intros [|i] Hi; simplify_eq/=; [lia|].
  specialize (IH i Hi). lia.
Qed.

Lemma sum_list_with_pos {A} (f : A → nat) (l : list A) :
  sum_list_with f l ≠ 0%nat → ∃ i x, l !! i = Some x ∧ f x ≠ 0%nat.
Proof.
  induction l as [|a l IH]; simpl; [done|]. intros Hne.
  destruct (decide (f a = 0%nat)) as [Ha|Ha].
  - destruct IH as (i & x & Hi & Hx); [lia|]. by exists (S i), x.
  - by exists 0%nat, a.
Qed.

Section scheduler_lemmas.
Context {C : Type} `{!Call C}.
Implicit Types (p : Pool C) (th : Thread C) (i j : nat) (l : Lock).

Lemma elem_of_held_by_others i p l :
  l ∈ held_by_others i p ↔
    ∃ j th, threads p !! j = Some th ∧ j ≠ i ∧ l ∈ held th.
Proof.
  unfold held_by_others. rewrite list_elem_of_join. split.
  - intros (ls & Hl & Hls). apply elem_of_lookup_imap in Hls
      as (j & th & -> & Hj). exists j, th.
    case_decide; [by apply elem_of_nil in Hl|done].
  - intros (j & th & Hj & Hne & Hl). exists (held th). split; [done|].
    apply elem_of_lookup_imap. exists j, th. by rewrite decide_False.
Qed.

(** A turn that is not taken, for whatever reason, changes nothing. *)
Lemma sched_skip i p :
  (∀ th, threads p !! i = Some th → ¬ enabled i th p) → sched i p = p.
Proof.
  intros Hno. unfold sched. destruct (threads p !! i) as [th|]; [|done].
  by rewrite decide_False by by apply Hno.
Qed.

Lemma run_cons i schedule p : run (i :: schedule) p = run schedule (sched i p).
Proof. done. Qed.

Lemma run_app s1 s2 p : run (s1 ++ s2) p = run s2 (run s1 p).
Proof. apply foldl_app. Qed.

Lemma lookup_sched_ne i j p : i ≠ j → threads (sched i p) !! j = threads p !! j.
Proof.
  intros Hne. unfold sched. destruct (threads p !! i) as [th|]; [|done].
  case_decide; [|done].
  destruct (call_step _ _ _); simpl; by rewrite ?list_lookup_insert_ne.
Qed.

Lemma length_sched i p : length (threads (sched i p)) = length (threads p).
Proof.
  unfold sched. destruct (threads p !! i) as [th|]; [|done].
  case_decide; [|done].
  destruct (call_step _ _ _); simpl; by rewrite ?length_insert.
Qed.

Lemma length_run schedule p :
  length (threads (run schedule p)) = length (threads p).
Proof.
  revert p. induction schedule as [|i s IH]; intros p; [done|].
  by rewrite run_cons, IH, length_sched.
Qed.

(** A turn that is taken, as the step of the call. *)
Lemma sched_took i p th :
  threads p !! i = Some th → enabled i th p →
  sched i p =
    match call_step (thread_db th) (thread_call th) (store p) with
    | Returned c st =>
        {| threads := <[i := thread st.1 c]> (threads p); store := st.2 |}
    | Panicked st =>
        {| threads :=
             <[i := {| thread_db := st.1; thread_call := thread_call th;
                       thread_panicked := true |}]> (threads p);
           store := st.2 |}
    | OutOfFuel => p
    end.
Proof. intros Hi Hen. unfold sched. by rewrite Hi, decide_True. Qed.

(** A thread whose call has ended, or has panicked, stays as it is. *)
Lemma sched_finished i j p th :
  threads p !! i = Some th → remaining th = 0%nat →
  threads (sched j p) !! i = Some th.
Proof.
  intros Hi Hrem. destruct (decide (j = i)) as [->|Hne];
    [|by rewrite lookup_sched_ne].
  rewrite sched_skip; [done|]. intros th' Hth' [Hen _]. naive_solver.
Qed.

Lemma run_finished i schedule p th :
  threads p !! i = Some th → remaining th = 0%nat →
  threads (run schedule p) !! i = Some th.
Proof.
  revert p. induction schedule as [|j s IH]; intros p Hi Hrem; [done|].
  rewrite run_cons. by apply IH; [apply sched_finished|].
Qed.

(** What every step keeps, every schedule keeps. *)
Lemma sched_invariant J K i p :
  step_keeps J K → pool_invariant J K p → pool_invariant J K (sched i p).
Proof.
  intros Hstep [HJ HK].
  destruct (threads p !! i) as [th|] eqn:Hi;
    [|by rewrite sched_skip by naive_solver].
  destruct (decide (enabled i th p)) as [Hen|Hen];
    [|by rewrite sched_skip by naive_solver].
  rewrite (sched_took i p th) by done.
  pose proof (Forall_lookup_1 _ _ _ _ HK Hi) as Hth. simpl in Hth.
  pose proof (Hstep (thread_db th) (thread_call th) (store p)) as Hkeeps.
  destruct (call_step _ _ _) as [c st|st|]; [| |done];
    destruct (Hkeeps st HJ Hth eq_refl) as (HJ' & Hrest & Hmoved);
    (split; [done|]); simpl; apply Forall_insert; simpl;
    eauto using Forall_impl.
Qed.

Lemma run_invariant J K schedule p :
  step_keeps J K → pool_invariant J K p → pool_invariant J K (run schedule p).
Proof.
  intros Hstep. revert p. induction schedule as [|i s IH]; intros p Hp; [done|].
  rewrite run_cons. by apply IH, sched_invariant.
Qed.

Context `{!CallLaws C}.

(** A turn that is taken: the thread has moved, by the step of its call, and
    needs fewer steps than before. *)
Lemma sched_step i p th :
  threads p !! i = Some th → enabled i th p →
  ∃ th' sh',
    sched i p = {| threads := <[i := th']> (threads p); store := sh' |} ∧
    outcome_state (call_step (thread_db th) (thread_call th) (store p))
      = Some (thread_db th', sh') ∧
    (thread_panicked th' = false →
     call_step (thread_db th) (thread_call th) (store p)
       = Returned (thread_call th') (thread_db th', sh')) ∧
    (remaining th' < remaining th)%nat.
Proof.
  intros Hi Hen. unfold sched. rewrite Hi, decide_True by done.
  destruct Hen as [Hrem _]. unfold remaining in *.
  destruct (thread_panicked th); [done|].
  pose proof (call_step_total (thread_db th) (thread_call th) (store p)) as Ht.
  pose proof (call_step_progress (thread_db th) (thread_call th) (store p))
    as Hp.
  destruct (call_step _ _ _) as [c [self sh]|[self sh]|]; [| |done].
  - eexists (thread self c), sh. repeat split. simpl. by eapply Hp.
  - eexists {| thread_panicked := true |}, sh. repeat split; simpl; [done|lia].
Qed.

(** A turn either changes nothing or brings the pool closer to its end. *)
Lemma sched_cases i p : sched i p = p ∨ (total (sched i p) < total p)%nat.
Proof.
  destruct (threads p !! i) as [th|] eqn:Hi;
    [|left; apply sched_skip; naive_solver].
  destruct (decide (enabled i th p)) as [Hen|Hen];
    [|left; apply sched_skip; naive_solver].
  right. destruct (sched_step i p th Hi Hen) as (th' & sh' & -> & _ & _ & Hlt).
  unfold total. simpl.
  pose proof (sum_list_with_insert remaining (threads p) i th th' Hi). lia.
Qed.

Lemma total_sched i p : (total (sched i p) ≤ total p)%nat.
Proof. destruct (sched_cases i p) as [->|]; lia. Qed.

Lemma total_run schedule p : (total (run schedule p) ≤ total p)%nat.
Proof.
  revert p. induction schedule as [|i s IH]; intros p; [done|].
  rewrite run_cons. etrans; [apply IH|apply total_sched].
Qed.

(** A piece of a schedule either changes nothing, and then none of its turns
    could be taken, or brings the pool closer to its end. *)
Lemma run_cases schedule p :
  (run schedule p = p ∧ ∀ i, i ∈ schedule → sched i p = p) ∨
  (total (run schedule p) < total p)%nat.
Proof.
  revert p. induction schedule as [|i s IH]; intros p.
  { left. split; [done|]. by intros i Hi%elem_of_nil. }
  rewrite run_cons. destruct (sched_cases i p) as [Heq|Hlt].
  - rewrite Heq. destruct (IH p) as [[Hrun Hall]|Hlt]; [left|by right].
    split; [done|]. intros j [->|Hj]%elem_of_cons; eauto.
  - right. pose proof (total_run s (sched i p)). lia.
Qed.

(** No deadlock: as long as a call has not ended, some thread can take a
    step.  A thread that holds a lock waits for no one; when no thread holds
    a lock, no thread waits. *)
Lemma deadlock_free p :
  total p ≠ 0%nat → ∃ i th, threads p !! i = Some th ∧ enabled i th p.
Proof.
  intros Hne.
  destruct (decide (Exists (λ th, held th ≠ []) (threads p))) as [Hex|Hno].
  - apply Exists_exists in Hex as (th & [i Hi]%list_elem_of_lookup & Hheld).
    exists i, th. split; [done|]. unfold enabled, held, remaining in *.
    destruct (thread_panicked th); [done|]. split.
    + intros H0. apply Hheld. by apply call_done_holds.
    + by rewrite call_holder_writes.
  - apply sum_list_with_pos in Hne as (i & th & Hi & Hrem).
    exists i, th. split; [done|]. split; [done|].
    apply Forall_forall. intros l _ (j & th' & Hj & _ & Hl)%elem_of_held_by_others.
    apply Hno, Exists_exists. exists th'.
    split; [by eapply list_elem_of_lookup_2|].
    intros Hnil. rewrite Hnil in Hl. by apply elem_of_nil in Hl.
Qed.

(** In a round, at least one step is taken. *)
Lemma round_progress turns p :
  round p turns → total p ≠ 0%nat → (total (run turns p) < total p)%nat.
Proof.
  intros Hround Hne. destruct (run_cases turns p) as [[_ Hall]|]; [|done].
  destruct (deadlock_free p Hne) as (i & th & Hi & Hen).
  specialize (Hall i (Hround i (lookup_lt_Some _ _ _ Hi))).
  destruct (sched_step i p th Hi Hen) as (th' & sh' & Heq & _ & _ & Hlt).
  rewrite Hall in Heq. apply (f_equal total) in Heq. unfold total in Heq.
  simpl in Heq.
  pose proof (sum_list_with_insert remaining (threads p) i th th' Hi). lia.
Qed.

(** Rounds, one after the other, end every call. *)
Lemma rounds_finish (rounds : list (list nat)) p :
  Forall (round p) rounds → (total p ≤ length rounds)%nat →
  total (run (mjoin rounds) p) = 0%nat.
Proof.
  revert p. induction rounds as [|turns rounds IH]; intros p Hall Hlen.
  { simpl in *. lia. }
  apply Forall_cons in Hall as [Hturns Hall]. simpl. rewrite run_app.
  destruct (decide (total p = 0%nat)) as [H0|Hne].
  { pose proof (total_run (turns ++ mjoin rounds) p) as Hle.
    rewrite run_app in Hle. lia. }
  pose proof (round_progress turns p Hturns Hne). apply IH.
  - eapply Forall_impl; [exact Hall|]. intros s Hs i Hi. apply Hs.
    by rewrite length_run in Hi.
  - simpl in Hlen. lia.
Qed.

(** What another thread holds a read lock on is not changed by a turn. *)
Lemma sched_keeps_held i j p th l :
  threads p !! j = Some th → j ≠ i → l ∈ held th →
  unchanged l (store p) (store (sched i p)).
Proof.
  intros Hj Hne Hl.
  destruct (threads p !! i) as [thi|] eqn:Hi;
    [|rewrite sched_skip by naive_solver; by destruct l].
  destruct (decide (enabled i thi p)) as [Hen|Hen];
    [|rewrite sched_skip by naive_solver; by destruct l].
  destruct (sched_step i p thi Hi Hen) as (th' & sh' & -> & Hst & _).
  apply (call_step_frame _ _ _ _ _ Hst). intros Hw.
  destruct Hen as [_ Hfree]. rewrite Forall_forall in Hfree.
  apply (Hfree l Hw), elem_of_held_by_others. by exists j, th.
Qed.

Lemma total_0 p i th :
  total p = 0%nat → threads p !! i = Some th → remaining th = 0%nat.
Proof.
  intros H0 Hi. apply list_elem_of_lookup_2 in Hi.
  pose proof (sum_list_with_in th remaining (threads p) Hi).
  unfold total in H0. lia.
Qed.
End scheduler_lemmas.

(** ** The three calls keep the laws *)

Section pending.
Context `{!Transport}.
Implicit Types (self : ForkedDatabase.t) (sh : Shared) (c : Pending).
Implicit Types (p : Pool Pending) (th : Thread Pending) (i j : nat) (l : Lock).

Lemma revert_step_total self id pc sh : revert_step self id pc sh ≠ OutOfFuel.
Proof.
  destruct pc; try done. simpl.
  destruct (Snapshots.remove_outcome (registry sh) id) as [s Hs].
  by destruct (Snapshots.remove _ _) as [[?|] ?|?|].
Qed.

Lemma revert_step_progress self id pc sh pc' st :
  revert_left pc ≠ 0%nat → revert_step self id pc sh = Returned pc' st →
  (revert_left pc' < revert_left pc)%nat.
Proof.
  destruct pc; simpl; try (intros _ [= <- <-]; simpl; lia); [|done].
  intros _. destruct (Snapshots.remove _ _) as [[?|] ?|?|];
    intros [= <- <-]; simpl; lia.
Qed.

Lemma revert_step_frame self id pc sh st l :
  outcome_state (revert_step self id pc sh) = Some st →
  l ∉ revert_writes pc → unchanged l sh st.2.
Proof.
  destruct pc; simpl; try (intros [= <-]; by destruct l; set_solver).
  by destruct (Snapshots.remove _ _) as [[?|] ?|?|]; intros [= <-]; destruct l.
Qed.

Lemma changed_frame sh sh' l : l ∉ changed sh sh' → unchanged l sh sh'.
Proof.
  unfold changed. rewrite list_elem_of_filter. intros Hl.
  destruct (decide (unchanged l sh sh')) as [|Hne]; [done|].
  destruct Hl. split; [done|]. destruct l; set_solver.
Qed.

Lemma reset_step_frame self block pc sh l :
  l ∉ reset_writes pc → unchanged l sh (reset_step self block pc sh).2.
Proof.
  destruct pc; simpl; try by destruct l.
  - unfold RemoteStateSource.set_pinned_block.
    by destruct (resolve_block block), l.
  - intros Hl. destruct l; set_solver.
Qed.

#[global] Instance Pending_laws : CallLaws Pending.
Proof.
  split.
  - intros self [id pc|pc|url block pc|pc|pc] sh; simpl; try done.
    pose proof (revert_step_total self id pc sh).
    by destruct (revert_step _ _ _ _).
  - intros self [id pc|pc|url block pc|pc|pc] sh c' st Hleft; simpl in *.
    + pose proof (revert_step_progress self id pc sh) as Hp.
      destruct (revert_step _ _ _ _); intros [= <- <-]. by eapply Hp.
    + destruct pc; simpl in *; try done;
        try destruct (Snapshots.insert _ _);
        intros [= <- <-]; simpl; lia.
    + destruct pc; simpl in *; try done;
        try destruct (RemoteStateSource.set_pinned_block _ _) as [[] ?];
        intros [= <- <-]; simpl; lia.
    + destruct pc; intros [= <- <-]; simpl; [lia|done].
    + destruct pc; intros [= <- <-]; simpl; [|done].
      destruct (ask _ _ _ _) as [[] ?]. simpl. lia.
  - by intros [id []|[]|url block []|[]|[]].
  - by intros self [id pc|pc|url block pc|pc|pc] sh.
  - intros self [id pc|pc|url block pc|pc|pc] sh st l; simpl.
    + pose proof (revert_step_frame self id pc sh st l) as Hf.
      destruct (revert_step _ _ _ _); naive_solver.
    + intros [= <-] _. destruct pc; simpl;
        try destruct (Snapshots.insert _ _); by destruct l.
    + intros [= <-]. apply reset_step_frame.
    + intros [= <-] _. by destruct pc, l.
    + intros [= <-]. apply changed_frame.
Qed.
End pending.

(** ** What a capture has read *)

(** What a call of [insert_snapshot] has read so far is what the remote cache
    holds now. *)
Definition fresh_reads (sh : Shared) (th : Thread Pending) : Prop :=
  let c := RemoteStateSource.cache (remote sh) in
  thread_panicked th = false →
  match thread_call th with
  | Inserting (AtReadStorage accounts) => accounts = RemoteCache.accounts c
  | Inserting (AtReadBlockHashes accounts storage) =>
      accounts = RemoteCache.accounts c ∧ storage = RemoteCache.storage c
  | _ => True
  end.

Definition consistent (p : Pool Pending) : Prop :=
  Forall (fresh_reads (store p)) (threads p).

(** The identifier that a thread got from [insert_snapshot], once its call
    has returned. *)
Definition inserted (th : Thread Pending) : option U256 :=
  match thread_call th with
  | Inserting (Inserted id) => Some id
  | _ => None
  end.

Definition inserted_at (j : nat) (p : Pool Pending) : option U256 :=
  threads p !! j ≫= inserted.

Section pending_lemmas.
Context `{!Transport}.
Implicit Types (self : ForkedDatabase.t) (sh : Shared) (c : Pending).
Implicit Types (p : Pool Pending) (th : Thread Pending) (i j : nat) (l : Lock).

Lemma enabled_not_panicked i th p : enabled i th p → thread_panicked th = false.
Proof. intros [Hrem _]. unfold remaining in Hrem. by destruct (thread_panicked th). Qed.

(** The reads of a thread stay fresh when the maps that it holds a lock on
    stay as they are. *)
Lemma fresh_reads_unchanged sh sh' th :
  fresh_reads sh th → (∀ l, l ∈ held th → unchanged l sh sh') →
  fresh_reads sh' th.
Proof.
  unfold fresh_reads, held, unchanged. intros Hfresh Hsame Hlive.
  rewrite Hlive in Hsame. specialize (Hfresh Hlive).
  destruct (thread_call th) as [|[]| | |]; simpl in *; try done.
  - rewrite (Hsame AccountsLock) by set_solver. done.
  - rewrite (Hsame AccountsLock), (Hsame StorageLock) by set_solver. done.
Qed.

(** A step of a thread with fresh reads leaves it with fresh reads. *)
Lemma fresh_reads_step th th' sh sh' :
  fresh_reads sh th → thread_panicked th = false →
  (thread_panicked th' = false →
   call_step (thread_db th) (thread_call th) sh
     = Returned (thread_call th') (thread_db th', sh')) →
  fresh_reads sh' th'.
Proof.
  intros Hfresh Hlive Hstep Hlive'. specialize (Hfresh Hlive).
  specialize (Hstep Hlive').
  destruct (thread_call th) as [id pc|pc|url block pc|pc|pc]; simpl in Hstep.
  - destruct (revert_step _ _ _ _); simplify_eq/=. by rewrite <- Hstep.
  - unfold returned, keeping in Hstep. injection Hstep as <- _ <-.
    destruct pc; simpl in *; try done; naive_solver.
  - unfold returned in Hstep. by injection Hstep as <- _ _.
  - unfold returned in Hstep. by injection Hstep as <- _ _.
  - unfold returned in Hstep. by injection Hstep as <- _ _.
Qed.

Lemma sched_consistent i p : consistent p → consistent (sched i p).
Proof.
  intros Hcons.
  destruct (threads p !! i) as [th|] eqn:Hi;
    [|by rewrite sched_skip by naive_solver].
  destruct (decide (enabled i th p)) as [Hen|Hen];
    [|by rewrite sched_skip by naive_solver].
  unfold consistent in *. rewrite Forall_lookup in Hcons.
  apply Forall_lookup. intros j thj Hj.
  destruct (decide (j = i)) as [->|Hne].
  - destruct (sched_step i p th Hi Hen) as (th' & sh' & Heq & _ & Hret & _).
    rewrite Heq in Hj |- *. simpl in *.
    rewrite list_lookup_insert_eq in Hj by by eapply lookup_lt_Some.
    injection Hj as <-.
    eapply fresh_reads_step;
      [by apply (Hcons i)|by eapply enabled_not_panicked|done].
  - rewrite lookup_sched_ne in Hj by done.
    eapply fresh_reads_unchanged; [by apply (Hcons j)|].
    intros l Hl. by eapply sched_keeps_held.
Qed.

Lemma run_consistent schedule p : consistent p → consistent (run schedule p).
Proof.
  revert p. induction schedule as [|i s IH]; intros p Hp; [done|].
  rewrite run_cons. by apply IH, sched_consistent.
Qed.

(** An account read that has to fetch. *)
Lemma basic_ref_fetch self address r info :
  CacheDB.accounts (ForkedDatabase.cache_db self) !! address = None →
  RemoteCache.accounts (RemoteStateSource.cache r) !! address = None →
  fetch_account (RemoteStateSource.pinned_block r) address = Ok info →
  ForkedDatabase.basic_ref self address r =
    (Ok (Some info),
     RemoteStateSource.set_cache r
       {| RemoteCache.accounts :=
            <[address := info]> (RemoteCache.accounts (RemoteStateSource.cache r));
          RemoteCache.storage := RemoteCache.storage (RemoteStateSource.cache r);
          RemoteCache.block_hashes :=
            RemoteCache.block_hashes (RemoteStateSource.cache r) |}).
Proof.
  intros Hover Hcache Hfetch. unfold ForkedDatabase.basic_ref. simpl.
  rewrite Hover. simpl. unfold RemoteStateSource.get_account.
  by rewrite Hcache, Hfetch.
Qed.

(** *** The registry under a schedule *)

Lemma revert_step_registry self id pc sh st :
  outcome_state (revert_step self id pc sh) = Some st →
  Snapshots.wf (registry sh) →
  Snapshots.wf (registry st.2) ∧
  Snapshots.id (registry st.2) = Snapshots.id (registry sh).
Proof.
  destruct pc; simpl; try by intros [= <-].
  intros Hst Hwf.
  assert (outcome_state (Snapshots.remove (registry sh) id)
            = Some (registry st.2)) as Hrm
    by (by destruct (Snapshots.remove _ _) as [[?|] ?|?|]; simplify_eq/=).
  split; [by eapply Snapshots.remove_wf|by eapply Snapshots.remove_id].
Qed.

Lemma inserted_at_set i j p th' sh' :
  (i < length (threads p))%nat →
  inserted_at j {| threads := <[i := th']> (threads p); store := sh' |} =
    if decide (j = i) then inserted th' else inserted_at j p.
Proof.
  intros Hi. unfold inserted_at. simpl. case_decide as Hj.
  - subst j. by rewrite list_lookup_insert_eq.
  - by rewrite list_lookup_insert_ne.
Qed.

(** What a turn does to the registry and to the identifiers that the threads
    hold: nothing to the counter and to the identifiers, or it is the
    registration of a snapshot, which hands out the counter and advances
    it. *)
Lemma sched_inserted i p :
  Snapshots.wf (registry (store p)) →
  Snapshots.wf (registry (store (sched i p))) ∧
  ((Snapshots.id (registry (store (sched i p)))
      = Snapshots.id (registry (store p)) ∧
    ∀ j, inserted_at j (sched i p) = inserted_at j p) ∨
   (Snapshots.id (registry (store (sched i p)))
      = u256_saturating_add (Snapshots.id (registry (store p))) 1 ∧
    inserted_at i (sched i p) = Some (Snapshots.id (registry (store p))) ∧
    ∀ j, j ≠ i → inserted_at j (sched i p) = inserted_at j p)).
Proof.
  intros Hwf.
  destruct (threads p !! i) as [th|] eqn:Hi;
    [|rewrite sched_skip by naive_solver; by eauto].
  destruct (decide (enabled i th p)) as [Hen|Hen];
    [|rewrite sched_skip by naive_solver; by eauto].
  pose proof (lookup_lt_Some _ _ _ Hi) as Hlt.
  assert (inserted_at i p = inserted th) as Hold
    by (unfold inserted_at; by rewrite Hi).
  rewrite (sched_took i p th Hi Hen). unfold inserted in Hold.
  destruct Hen as [Hrem _]. unfold remaining in Hrem.
  destruct (thread_panicked th); [done|].
  destruct (thread_call th) as [id pc|pc|url block pc|pc|pc] eqn:Hcall;
    simpl in *.
  - pose proof (revert_step_registry (thread_db th) id pc (store p)) as Hreg.
    destruct (revert_step _ _ _ _) as [pc' st|st|]; simpl in *;
      try (destruct (Hreg st eq_refl Hwf) as [Hwf' Hid]); [| |by eauto];
      (split; [done|left; split; [done|]]); intros j;
      rewrite inserted_at_set by done; case_decide; subst;
      by rewrite ?Hold; unfold inserted; simpl; rewrite ?Hcall.
  - destruct pc; simpl in *; try done;
      try (split; [done|left; split; [done|]]; intros j;
           rewrite inserted_at_set by done; by case_decide; subst).
    split; [by apply Snapshots.insert_wf|right]. split; [done|].
    split; [by rewrite inserted_at_set, decide_True|].
    intros j Hj. by rewrite inserted_at_set, decide_False.
  - assert (registry (reset_step (thread_db th) block pc (store p)).2
              = registry (store p)) as Hreg.
    { destruct pc; simpl; try done.
      by destruct (RemoteStateSource.set_pinned_block _ _) as [[] ?]. }
    rewrite Hreg. split; [done|left; split; [done|]]. intros j.
    rewrite inserted_at_set by done. by case_decide; subst.
  - destruct pc; simpl in *; [|done].
    split; [done|left; split; [done|]]. intros j.
    rewrite inserted_at_set by done. by case_decide; subst.
  - destruct pc as [mutable q|a]; simpl in *; [|done].
    destruct (ask _ _ _ _) as [[] ?]. simpl.
    split; [done|left; split; [done|]]. intros j.
    rewrite inserted_at_set by done. by case_decide; subst.
Qed.

(** The identifiers that the threads hold are below the counter and
    different from each other. *)
Definition identifiers_apart (p : Pool Pending) : Prop :=
  (∀ j a, inserted_at j p = Some a → a < Snapshots.id (registry (store p))) ∧
  (∀ i j a, i ≠ j → inserted_at i p = Some a → inserted_at j p ≠ Some a).

Lemma sched_counter i p :
  Snapshots.wf (registry (store p)) →
  Snapshots.wf (registry (store (sched i p))) ∧
  Snapshots.id (registry (store p)) ≤ Snapshots.id (registry (store (sched i p))).
Proof.
  intros Hwf. destruct (sched_inserted i p Hwf) as [Hwf' Hcase].
  split; [done|]. destruct Hwf as [[? ?] _].
  destruct Hcase as [[-> _]|(-> & _)];
    [done|unfold u256_saturating_add; case_decide; lia].
Qed.

Lemma run_counter schedule p :
  Snapshots.wf (registry (store p)) →
  Snapshots.wf (registry (store (run schedule p))) ∧
  Snapshots.id (registry (store p))
    ≤ Snapshots.id (registry (store (run schedule p))).
Proof.
  revert p. induction schedule as [|i s IH]; intros p Hwf; [done|].
  rewrite run_cons. destruct (sched_counter i p Hwf) as [Hwf' Hle].
  destruct (IH _ Hwf') as [? ?]. split; [done|lia].
Qed.

Lemma sched_identifiers_apart i p :
  Snapshots.wf (registry (store p)) → identifiers_apart p →
  Snapshots.id (registry (store (sched i p))) < U256_MAX →
  identifiers_apart (sched i p).
Proof.
  intros Hwf [Hbelow Hapart] Hmax. unfold identifiers_apart.
  destruct (sched_inserted i p Hwf) as [_ [[Hid Hsame]|(Hid & Hi & Hsame)]].
  - rewrite Hid. split.
    + intros j a. rewrite Hsame. apply Hbelow.
    + intros k j a. rewrite !Hsame. apply Hapart.
  - rewrite Hid in *. unfold u256_saturating_add in *.
    case_decide; [|lia]. split.
    + intros j a. destruct (decide (j = i)) as [->|Hne].
      * rewrite Hi. intros [= <-]. lia.
      * rewrite Hsame by done. intros Ha%Hbelow. lia.
    + intros k j a Hkj.
      destruct (decide (k = i)) as [->|Hk], (decide (j = i)) as [->|Hj];
        rewrite ?Hi, ?Hsame by done; try done.
      * intros [= <-] Hj'%Hbelow. lia.
      * intros Hk'%Hbelow [= <-]. lia.
      * by apply Hapart.
Qed.

Lemma inserted_at_None p j :
  Forall (λ th, inserted th = None) (threads p) → inserted_at j p = None.
Proof.
  rewrite Forall_lookup. intros Hnone. unfold inserted_at.
  destruct (threads p !! j) eqn:E; simpl; eauto.
Qed.

Lemma run_identifiers_apart schedule p :
  Snapshots.wf (registry (store p)) → identifiers_apart p →
  Snapshots.id (registry (store (run schedule p))) < U256_MAX →
  identifiers_apart (run schedule p).
Proof.
  revert p. induction schedule as [|i s IH]; intros p Hwf Hp Hmax; [done|].
  rewrite run_cons in *. destruct (sched_counter i p Hwf) as [Hwf' _].
  destruct (run_counter s _ Hwf') as [_ Hle].
  apply IH; [done| |done]. apply sched_identifiers_apart; [done|done|lia].
Qed.
End pending_lemmas.

(** ** Theorems *)

(** Takes the next turn of a concrete schedule, in which no other thread
    holds a lock. *)
Ltac turn :=
  rewrite run_cons;
  erewrite sched_took;
    [|reflexivity
     |split; [by simpl|apply Forall_forall; intros ? _; simpl; set_solver]];
  cbn [thread_db thread_call thread store threads call_step Pending_call
       returned keeping lift insert_step revert_step reset_step commit_step
       ask_step fst snd list_insert insert];
  rewrite ?Snapshots.insert_eq.

Section pending_properties.
Context `{!Transport}.
Implicit Types (self : ForkedDatabase.t) (sh : Shared) (c : Pending).
Implicit Types (p : Pool Pending) (th : Thread Pending) (i j : nat) (l : Lock).

(** Claim C12. No deadlock and no starvation: under every schedule that is
    made of rounds in which each thread has a turn, in any order and with
    any number of further turns, every call of [insert_snapshot], of
    [revert_snapshot], of [reset], of [commit] and every query has returned
    or panicked after as many rounds as the calls need steps. *)
Theorem fair_schedule_finishes_every_call p (rounds : list (list nat)) :
  Forall (round p) rounds → (total p ≤ length rounds)%nat →
  length (threads (run (mjoin rounds) p)) = length (threads p) ∧
  Forall (λ th, remaining th = 0%nat) (threads (run (mjoin rounds) p)).
Proof.
  intros Hrounds Hlen. split; [apply length_run|].
  apply Forall_lookup. intros i th Hi.
  by eapply total_0; [apply rounds_finish|].
Qed.

(** Claim C7. What [create_snapshot] copies is the remote cache of one
    instant: when a call has read the accounts and the storage and takes its
    third step, under any schedule and whatever the other threads do, the
    snapshot it goes on to register is the value of [create_snapshot] on the
    shared state of that moment.  (The read guards of lines 101 and 102 are
    held until the statement ends.) *)
Theorem create_snapshot_reads_one_instant schedule p i th accounts storage :
  consistent p →
  threads (run schedule p) !! i = Some th → thread_panicked th = false →
  thread_call th = Inserting (AtReadBlockHashes accounts storage) →
  threads (sched i (run schedule p)) !! i =
    Some (thread (thread_db th)
            (Inserting (AtRegister
               (ForkedDatabase.create_snapshot (thread_db th)
                  (store (run schedule p)))))).
Proof.
  intros Hcons Hi Hlive Hcall. apply (run_consistent schedule) in Hcons.
  pose proof (Forall_lookup_1 _ _ _ _ Hcons Hi Hlive) as Hfresh.
  rewrite Hcall in Hfresh. destruct Hfresh as [-> ->].
  erewrite sched_took; [|done|].
  - rewrite Hcall. simpl. by eapply list_lookup_insert_eq, lookup_lt_Some.
  - unfold enabled, remaining. rewrite Hlive, Hcall. simpl. split; [done|].
    constructor.
Qed.

(** Claim C18. Concurrent inserts never get the same identifier: under any
    schedule of any calls by any number of threads, two threads whose
    [insert_snapshot] has returned hold different identifiers, as long as
    the counter of the registry has not reached the largest U256. *)
Theorem concurrent_inserts_get_distinct_ids schedule p i j a :
  Snapshots.wf (registry (store p)) →
  Forall (λ th, inserted th = None) (threads p) →
  Snapshots.id (registry (store (run schedule p))) < U256_MAX →
  i ≠ j →
  inserted_at i (run schedule p) = Some a →
  inserted_at j (run schedule p) ≠ Some a.
Proof.
  intros Hwf Hnone Hmax Hne.
  apply (run_identifiers_apart schedule p Hwf); [|done..].
  split; intros *; by rewrite !inserted_at_None.
Qed.

(** The two transcriptions of a method agree: the steps of a call, taken
    with no other thread in between, give what the definition of the method
    in ForkedDb.v gives.  This ties the steps to the methods, so that what
    the theorems of ForkedDb.v state of a method holds of a call that runs
    alone; it says nothing of the program beyond them. *)
Lemma calls_alone_are_methods self id sh :
  run (replicate 4 0%nat)
      {| threads := [thread self (Inserting AtReadAccounts)]; store := sh |} =
    {| threads :=
         [thread self
            (Inserting (Inserted (ForkedDatabase.insert_snapshot self sh).1))];
       store := (ForkedDatabase.insert_snapshot self sh).2 |} ∧
  run (replicate 5 0%nat)
      {| threads := [thread self (Reverting id AtRemove)]; store := sh |} =
    match ForkedDatabase.revert_snapshot self id sh with
    | Returned result st =>
        {| threads := [thread st.1 (Reverting id (Finished result))];
           store := st.2 |}
    | Panicked st =>
        {| threads :=
             [{| thread_db := st.1; thread_call := Reverting id AtRemove;
                 thread_panicked := true |}];
           store := st.2 |}
    | OutOfFuel =>
        {| threads := [thread self (Reverting id AtRemove)]; store := sh |}
    end ∧
  ∀ url block,
    run (replicate 3 0%nat)
        {| threads := [thread self (Resetting url block AtPin)];
           store := sh |} =
      {| threads :=
           [thread (ForkedDatabase.reset self url block sh).1.2
              (Resetting url block
                 (ResetDone (ForkedDatabase.reset self url block sh).1.1))];
         store := (ForkedDatabase.reset self url block sh).2 |}.
Proof.
  split; [|split].
  - simpl replicate. do 4 turn. by rewrite insert_snapshot_eq.
  - simpl replicate. turn. unfold ForkedDatabase.revert_snapshot.
    destruct (Snapshots.remove_outcome (registry sh) id) as [s Hs].
    destruct (Snapshots.remove (registry sh) id)
      as [[[local [accounts storage block_hashes]]|] snapshots|snapshots|].
    + do 4 turn. done.
    + simpl. rewrite !sched_skip; [done|..]; intros th [= <-] [? _]; done.
    + simpl. rewrite !sched_skip; [done|..]; intros th [= <-] [? _]; done.
    + done.
  - intros url block. simpl replicate. turn. unfold ForkedDatabase.reset.
    destruct (RemoteStateSource.set_pinned_block block (remote sh))
      as [[[]|e] r].
    + by do 2 turn.
    + simpl. rewrite !sched_skip; [done|..]; intros th [= <-] [? _]; done.
Qed.

(** Claim C22. The identifier says when a snapshot was registered, not when
    its state was copied: a call of [insert_snapshot] that has copied the
    state and has not yet taken the lock of the registry is overtaken by a
    fetch and by a whole [insert_snapshot] of another thread.  The snapshot
    with the smaller identifier then holds the fetched account, and the
    snapshot with the larger identifier holds the remote cache of before the
    fetch. *)
Theorem later_identifier_earlier_state selfA selfB selfC sh address info :
  Snapshots.id (registry sh) < U256_MAX →
  CacheDB.accounts (ForkedDatabase.cache_db selfC) !! address = None →
  RemoteCache.accounts (RemoteStateSource.cache (remote sh)) !! address = None →
  fetch_account (RemoteStateSource.pinned_block (remote sh)) address
    = Ok info →
  let p' :=
    run [0; 0; 0; 2; 1; 1; 1; 1; 0]%nat
      {| threads := [thread selfA (Inserting AtReadAccounts);
                     thread selfB (Inserting AtReadAccounts);
                     thread selfC (Asking (AtAsk false (QBasic address)))];
         store := sh |} in
  let n := Snapshots.id (registry sh) in
  ∃ earlier later,
    inserted_at 0 p' = Some (n + 1) ∧ inserted_at 1 p' = Some n ∧
    Snapshots.get (registry (store p')) (n + 1) = Some earlier ∧
    Snapshots.get (registry (store p')) n = Some later ∧
    ForkDbSnapshot.snapshot earlier
      = capture (RemoteStateSource.cache (remote sh)) ∧
    StateSnapshot.accounts (ForkDbSnapshot.snapshot earlier) !! address = None ∧
    StateSnapshot.accounts (ForkDbSnapshot.snapshot later) !! address
      = Some info.
Proof.
  intros Hmax Hover Hcache Hfetch. do 4 turn. unfold ask, told_ref.
  rewrite (basic_ref_fetch _ _ _ info) by done.
  cbn [fst snd]. do 5 turn. unfold inserted_at, Snapshots.get. simpl.
  rewrite u256_saturating_add_lt by done. do 2 eexists.
  split; [done|]. split; [done|]. split; [apply lookup_insert_eq|].
  split; [rewrite lookup_insert_ne by lia; apply lookup_insert_eq|].
  split; [done|]. split; [done|]. apply lookup_insert_eq.
Qed.

(** Claim C21. A snapshot of a remote cache that is half reverted: a call of
    [insert_snapshot] that runs after a [revert_snapshot] of another thread
    has restored the accounts and before it restores the storage copies the
    accounts of the snapshot reverted to together with the storage and the
    block hashes of before the revert.  It is registered under a fresh
    identifier after the cascade of the revert, so it stays. *)
Theorem snapshot_of_half_reverted_cache selfA selfB id sh s snapshots :
  Snapshots.remove (registry sh) id = Returned (Some s) snapshots →
  let p' :=
    run [1; 1; 0; 0; 0; 1; 1; 1; 0]%nat
      {| threads := [thread selfA (Inserting AtReadAccounts);
                     thread selfB (Reverting id AtRemove)];
         store := sh |} in
  let c := RemoteStateSource.cache (remote sh) in
  threads p' =
    [thread selfA (Inserting (Inserted (Snapshots.id snapshots)));
     thread (ForkedDatabase.set_cache_db selfB (ForkDbSnapshot.local s))
       (Reverting id (Finished true))] ∧
  Snapshots.get (registry (store p')) (Snapshots.id snapshots) =
    Some {| ForkDbSnapshot.local := ForkedDatabase.cache_db selfA;
            ForkDbSnapshot.snapshot :=
              {| StateSnapshot.accounts :=
                   StateSnapshot.accounts (ForkDbSnapshot.snapshot s);
                 StateSnapshot.storage := RemoteCache.storage c;
                 StateSnapshot.block_hashes := RemoteCache.block_hashes c |} |} ∧
  RemoteStateSource.cache (remote (store p'))
    = restore (ForkDbSnapshot.snapshot s).
Proof.
  intros Hremove. turn. rewrite Hremove. do 8 turn.
  unfold Snapshots.get, restore. simpl. rewrite !hm_extend_clear.
  split; [done|]. split; [apply lookup_insert_eq|done].
Qed.
End pending_properties.

(** ** Three threads *)

Module Threads.
#[local] Existing Instance Example.chain.

(** Thread 0 takes a snapshot, thread 1 reverts to the snapshot 0 (which
    holds account 1 with balance 50), thread 2 reads account 8, which has to
    be fetched, thread 3 resets the fork to block 60 and thread 4 commits a
    change of account 1 to its overlay. *)
Definition pool : Pool Pending :=
  {| threads := [thread Example.fdb20 (Inserting AtReadAccounts);
                 thread Example.fdb0 (Reverting 0 AtRemove);
                 thread Example.fdb0 (Asking (AtAsk false (QBasic 8)));
                 thread Example.fdb0 (Resetting None 60 AtPin);
                 thread Example.fdb20
                   (Committing (AtCommit {[1 := Example.change 30]}))];
     store := TwoBranches.shared_50 |}.

(** Fourteen rounds, in each of which the reader comes first. *)
Definition rounds : list (list nat) := replicate 14 [2; 0; 1; 4; 3]%nat.

(** Thread 0 after its first two steps, when the revert has restored the
    accounts and not yet the storage. *)
Definition at_third_read : Thread Pending :=
  thread Example.fdb20
    (Inserting (AtReadBlockHashes {[1 := Example.acct 50]} {[(1, 5) := 9]})).

(** Two threads that take a snapshot each. *)
Definition inserters : Pool Pending :=
  {| threads := [thread Example.fdb20 (Inserting AtReadAccounts);
                 thread Example.fdb0 (Inserting AtReadAccounts)];
     store := Example.shared0 |}.

Lemma pool_consistent : consistent pool.
Proof. by repeat constructor. Defined.

Lemma rounds_fair : Forall (round pool) rounds.
Proof.
  apply Forall_replicate. intros i Hi. unfold pool in Hi. simpl in Hi.
  destruct i as [|[|[|[|[|i]]]]]; [set_solver..|lia].
Defined.

Lemma fair_schedule_finishes_every_call_witness :
  length (threads (run (mjoin rounds) pool)) = length (threads pool) ∧
  Forall (λ th, remaining th = 0%nat) (threads (run (mjoin rounds) pool)).
Proof.
  apply (fair_schedule_finishes_every_call pool rounds);
    [exact rounds_fair|vm_compute; lia].
Defined.

Lemma create_snapshot_reads_one_instant_witness :
  threads (sched 0 (run [1; 1; 0; 0]%nat pool)) !! 0%nat =
    Some (thread (thread_db at_third_read)
            (Inserting (AtRegister
               (ForkedDatabase.create_snapshot (thread_db at_third_read)
                  (store (run [1; 1; 0; 0]%nat pool)))))).
Proof.
  apply (create_snapshot_reads_one_instant [1; 1; 0; 0]%nat pool 0
           at_third_read {[1 := Example.acct 50]} {[(1, 5) := 9]});
    [exact pool_consistent|by vm_compute|done|done].
Defined.

Lemma concurrent_inserts_get_distinct_ids_witness :
  inserted_at 0 (run [0; 1; 0; 1; 0; 1; 1; 0]%nat inserters) = Some 1 ∧
  inserted_at 1 (run [0; 1; 0; 1; 0; 1; 1; 0]%nat inserters) ≠ Some 1.
Proof.
  split; [by vm_compute|].
  apply (concurrent_inserts_get_distinct_ids _ inserters 0 1 1);
    [by apply (bool_decide_unpack _)|by repeat constructor|by vm_compute|
     done|by vm_compute].
Defined.

Lemma later_identifier_earlier_state_witness :
  ∃ earlier later,
    inserted_at 0
      (run [0; 0; 0; 2; 1; 1; 1; 1; 0]%nat
         {| threads := [thread Example.fdb20 (Inserting AtReadAccounts);
                        thread Example.fdb0 (Inserting AtReadAccounts);
                        thread Example.fdb0 (Asking (AtAsk false (QBasic 8)))];
            store := Example.shared0 |}) = Some (0 + 1) ∧
    inserted_at 1
      (run [0; 0; 0; 2; 1; 1; 1; 1; 0]%nat
         {| threads := [thread Example.fdb20 (Inserting AtReadAccounts);
                        thread Example.fdb0 (Inserting AtReadAccounts);
                        thread Example.fdb0 (Asking (AtAsk false (QBasic 8)))];
            store := Example.shared0 |}) = Some 0 ∧
    Snapshots.get
      (registry (store
        (run [0; 0; 0; 2; 1; 1; 1; 1; 0]%nat
           {| threads := [thread Example.fdb20 (Inserting AtReadAccounts);
                          thread Example.fdb0 (Inserting AtReadAccounts);
                          thread Example.fdb0 (Asking (AtAsk false (QBasic 8)))];
              store := Example.shared0 |}))) (0 + 1) = Some earlier ∧
    Snapshots.get
      (registry (store
        (run [0; 0; 0; 2; 1; 1; 1; 1; 0]%nat
           {| threads := [thread Example.fdb20 (Inserting AtReadAccounts);
                          thread Example.fdb0 (Inserting AtReadAccounts);
                          thread Example.fdb0 (Asking (AtAsk false (QBasic 8)))];
              store := Example.shared0 |}))) 0 = Some later ∧
    ForkDbSnapshot.snapshot earlier
      = capture (RemoteStateSource.cache (remote Example.shared0)) ∧
    StateSnapshot.accounts (ForkDbSnapshot.snapshot earlier) !! 8 = None ∧
    StateSnapshot.accounts (ForkDbSnapshot.snapshot later) !! 8
      = Some (Example.acct 100008).
Proof.
  by apply (later_identifier_earlier_state Example.fdb20 Example.fdb0
              Example.fdb0 Example.shared0 8 (Example.acct 100008)).
Defined.

Lemma snapshot_of_half_reverted_cache_witness :
  threads (run [1; 1; 0; 0; 0; 1; 1; 1; 0]%nat
             {| threads := [thread Example.fdb20 (Inserting AtReadAccounts);
                            thread Example.fdb0 (Reverting 0 AtRemove)];
                store := TwoBranches.shared_50 |}) =
    [thread Example.fdb20 (Inserting (Inserted 1));
     thread (ForkedDatabase.set_cache_db Example.fdb0
               (ForkDbSnapshot.local TwoBranches.snap_50))
       (Reverting 0 (Finished true))] ∧
  Snapshots.get
    (registry (store
      (run [1; 1; 0; 0; 0; 1; 1; 1; 0]%nat
         {| threads := [thread Example.fdb20 (Inserting AtReadAccounts);
                        thread Example.fdb0 (Reverting 0 AtRemove)];
            store := TwoBranches.shared_50 |}))) 1 =
    Some {| ForkDbSnapshot.local := ForkedDatabase.cache_db Example.fdb20;
            ForkDbSnapshot.snapshot :=
              {| StateSnapshot.accounts := {[1 := Example.acct 50]};
                 StateSnapshot.storage := {[(1, 5) := 9]};
                 StateSnapshot.block_hashes := {[99 := 7099]} |} |} ∧
  RemoteStateSource.cache
    (remote (store
      (run [1; 1; 0; 0; 0; 1; 1; 1; 0]%nat
         {| threads := [thread Example.fdb20 (Inserting AtReadAccounts);
                        thread Example.fdb0 (Reverting 0 AtRemove)];
            store := TwoBranches.shared_50 |})))
    = restore (ForkDbSnapshot.snapshot TwoBranches.snap_50).
Proof.
  by apply (snapshot_of_half_reverted_cache Example.fdb20 Example.fdb0 0
              TwoBranches.shared_50 TwoBranches.snap_50
              (Snapshots.cascade (registry TwoBranches.shared_50) 0)).
Defined.
End Threads.
