(* ===== verification/Coherence.v ===== *)
(** * The remote cache is only a cache

    The remote cache holds what was fetched; a query that finds its key
    there does not go to the network.  This file says when the cache cannot
    be observed, and shows that the database keeps it that way.

    - [coherent]: every entry of the remote cache is what the network
      answers for its key at the pinned block.  [wiped] is the remote source
      with an empty cache, which is what [reset] leaves (forked_db.rs, line
      81) and what a database starts with.
    - The equivalence [≡] on remote sources: the same pinned block and the
      same answer to every query.  Class [Settled]: a backing database under
      whose queries the state stays equivalent, and which answers alike on
      equivalent states.  The shared backend is settled, and so is every
      overlay over a settled database ([CacheDB_settled]); the queries of
      [ForkedDatabase] (lines 159-200) are morphisms for [≡]
      ([ask_respects]).
    - [coherent_shared], [coherent_call], [coherent_pool]: coherence of
      everything that can reach the remote cache: the cache, the snapshots
      of the registry, and the copies that the calls in progress of
      Concurrent.v hold between two steps.

    The theorems.  A coherent remote source is equivalent to the wiped one,
    so on it every query of either interface gives the answer, and leaves
    the overlay, that it gives over the bare network.  Coherence is an
    invariant of every schedule of calls by any number of clones, as long
    as no [reset] moves the pinned block: the states that a revert passes
    through, and the snapshots taken of them, mix the maps of two moments,
    and still every entry is true at the pinned block.  So under every such
    schedule a query is answered as over the bare network.  A [reset] to
    another block is where this ends: between its first and its second
    statement the cache of the old block sits under the new pinned block,
    and a query of another clone is answered from it.

    The network is a function of the block and the key (class [Transport]):
    a fetch that is repeated gives the same answer. *)

From stdpp Require Import gmap list strings.
From Stdlib Require Import ZArith Lia.
From S2P Require Import Prelude SnapshotStore Revm Remote ForkedDb Branches.
From S2P Require Import Concurrent.

#[local] Open Scope Z_scope.
#[local] Open Scope se_scope.
#[local] Set Warnings "-clear-no-such-hyp".

(** ** Settled backing databases *)

(** What an overlay may rely on when its backing database caches: there is
    an equivalence [R] on the states behind the handle such that every query
    answers alike on equivalent states, and leaves the state equivalent to
    the one it found. *)
Class Settled (W D : Type) `{!DatabaseRef W D} (R : relation W) : Prop :=
  { settled_equivalence : Equivalence R;
    basic_ref_respects d a : se_respects R (basic_ref d a);
    code_by_hash_ref_respects d h : se_respects R (code_by_hash_ref d h);
    storage_ref_respects d a i : se_respects R (storage_ref d a i);
    block_hash_ref_respects d n : se_respects R (block_hash_ref d n);
    basic_ref_quiet d a : se_quiet R (basic_ref d a);
    code_by_hash_ref_quiet d h : se_quiet R (code_by_hash_ref d h);
    storage_ref_quiet d a i : se_quiet R (storage_ref d a i);
    block_hash_ref_quiet d n : se_quiet R (block_hash_ref d n) }.

#[global] Hint Mode Settled - ! - - : typeclass_instances.

(** ** Coherence *)

Section defs.
Context `{!Transport}.

Definition coherent_accounts (block : BlockId) (m : gmap Z AccountInfo.t)
    : Prop :=
  map_Forall (λ address info, fetch_account block address = Ok info) m.

Definition coherent_storage (block : BlockId) (m : gmap (Z * Z) Z) : Prop :=
  map_Forall (λ key value, fetch_storage block key.1 key.2 = Ok value) m.

Definition coherent_block_hashes (m : gmap Z Z) : Prop :=
  map_Forall (λ number hash, fetch_block_hash number = Ok hash) m.

(** Every entry of the three maps is the answer of the network at [block]. *)
Definition coherent_cache (block : BlockId) (c : RemoteCache.t) : Prop :=
  coherent_accounts block (RemoteCache.accounts c) ∧
  coherent_storage block (RemoteCache.storage c) ∧
  coherent_block_hashes (RemoteCache.block_hashes c).

Definition coherent (r : RemoteStateSource.t) : Prop :=
  coherent_cache (RemoteStateSource.pinned_block r) (RemoteStateSource.cache r).

(** The remote source with nothing fetched. *)
Definition wiped (r : RemoteStateSource.t) : RemoteStateSource.t :=
  RemoteStateSource.set_cache r RemoteCache.empty.

(** Two remote sources that no query tells apart.  ([get_code] does not
    look at the cache.) *)
#[global] Instance remote_equiv : Equiv RemoteStateSource.t := λ r1 r2,
  RemoteStateSource.pinned_block r1 = RemoteStateSource.pinned_block r2 ∧
  (∀ address,
     (RemoteStateSource.get_account address r1).1 =
     (RemoteStateSource.get_account address r2).1) ∧
  (∀ address index,
     (RemoteStateSource.get_storage address index r1).1 =
     (RemoteStateSource.get_storage address index r2).1) ∧
  (∀ number,
     (RemoteStateSource.get_block_hash number r1).1 =
     (RemoteStateSource.get_block_hash number r2).1).

(** The copy of the remote cache in a snapshot is coherent at [block]. *)
Definition coherent_snapshot (block : BlockId) (s : ForkDbSnapshot.t) : Prop :=
  coherent_cache block (restore (ForkDbSnapshot.snapshot s)).

(** The remote cache and every registered snapshot are coherent at the
    pinned block. *)
Definition coherent_shared (sh : Shared) : Prop :=
  coherent (remote sh) ∧
  map_Forall
    (λ _, coherent_snapshot (RemoteStateSource.pinned_block (remote sh)))
    (Snapshots.snapshots (registry sh)).

(** What a call in progress holds of the remote cache is coherent at
    [block], and a [reset] in progress does not move the pinned block. *)
Definition coherent_call (block : BlockId) (c : Pending) : Prop :=
  match c with
  | Reverting _ (AtAccounts s | AtStorage s | AtBlockHashes s | AtOverlay s) =>
      coherent_snapshot block s
  | Inserting (AtReadStorage accounts) => coherent_accounts block accounts
  | Inserting (AtReadBlockHashes accounts storage) =>
      coherent_accounts block accounts ∧ coherent_storage block storage
  | Inserting (AtRegister s) => coherent_snapshot block s
  | Resetting _ block_number _ => block_number = block
  | _ => True
  end.

Definition coherent_pool (p : Pool Pending) : Prop :=
  coherent_shared (store p) ∧
  Forall
    (λ th,
       coherent_call (RemoteStateSource.pinned_block (remote (store p)))
         (thread_call th))
    (threads p).

#[global] Instance coherent_cache_dec block c : Decision (coherent_cache block c).
Proof.
  unfold coherent_cache, coherent_accounts, coherent_storage,
    coherent_block_hashes. apply _.
Defined.

#[global] Instance coherent_dec r : Decision (coherent r).
Proof. unfold coherent. apply _. Defined.

#[global] Instance coherent_shared_dec sh : Decision (coherent_shared sh).
Proof. unfold coherent_shared, coherent_snapshot. apply _. Defined.
End defs.

(** ** The shared backend is settled *)

Section remote.
Context `{!Transport}.
Implicit Types (r : RemoteStateSource.t) (address index number : Z).

#[global] Instance remote_equiv_equivalence :
  Equivalence (≡@{RemoteStateSource.t}).
Proof.
  split.
  - by intros r.
  - intros r1 r2 (? & ? & ? & ?). by repeat split.
  - intros r1 r2 r3 (? & Ha & Hs & Hb) (? & Ha' & Hs' & Hb').
    split; [congruence|]. split; [|split]; intros.
    + by rewrite Ha, Ha'.
    + by rewrite Hs, Hs'.
    + by rewrite Hb, Hb'.
Qed.

(** The answers, as functions of the cache and the network. *)
Lemma get_account_answer address r :
  (RemoteStateSource.get_account address r).1 =
    match RemoteCache.accounts (RemoteStateSource.cache r) !! address with
    | Some i => Ok (Some i)
    | None =>
        result_map Some (fetch_account (RemoteStateSource.pinned_block r) address)
    end.
Proof.
  unfold RemoteStateSource.get_account.
  destruct (_ !! address); [done|]. by destruct (fetch_account _ _).
Qed.

Lemma get_storage_answer address index r :
  (RemoteStateSource.get_storage address index r).1 =
    match RemoteCache.storage (RemoteStateSource.cache r) !! (address, index) with
    | Some v => Ok v
    | None => fetch_storage (RemoteStateSource.pinned_block r) address index
    end.
Proof.
  unfold RemoteStateSource.get_storage.
  destruct (_ !! (address, index)); [done|]. by destruct (fetch_storage _ _ _).
Qed.

Lemma get_block_hash_answer number r :
  (RemoteStateSource.get_block_hash number r).1 =
    match RemoteCache.block_hashes (RemoteStateSource.cache r) !! number with
    | Some h => Ok h
    | None => fetch_block_hash number
    end.
Proof.
  unfold RemoteStateSource.get_block_hash.
  destruct (_ !! number); [done|]. by destruct (fetch_block_hash _).
Qed.

Lemma remote_equiv_unfold r1 r2 :
  r1 ≡ r2 ↔
    RemoteStateSource.pinned_block r1 = RemoteStateSource.pinned_block r2 ∧
    (∀ address,
       (RemoteStateSource.get_account address r1).1 =
       (RemoteStateSource.get_account address r2).1) ∧
    (∀ address index,
       (RemoteStateSource.get_storage address index r1).1 =
       (RemoteStateSource.get_storage address index r2).1) ∧
    (∀ number,
       (RemoteStateSource.get_block_hash number r1).1 =
       (RemoteStateSource.get_block_hash number r2).1).
Proof. done. Qed.

Lemma get_account_quiet address :
  se_quiet (≡) (RemoteStateSource.get_account address).
Proof.
  intros r. unfold RemoteStateSource.get_account at 1.
  destruct (_ !! address) eqn:E; [done|].
  destruct (fetch_account _ _) eqn:F; [|done].
  apply remote_equiv_unfold. split; [done|].
  setoid_rewrite get_account_answer. setoid_rewrite get_storage_answer.
  setoid_rewrite get_block_hash_answer. simpl.
  split; [|done]. intros address'.
  destruct (decide (address' = address)) as [->|Hne].
  - by rewrite lookup_insert_eq, E, F.
  - by rewrite lookup_insert_ne.
Qed.

Lemma get_storage_quiet address index :
  se_quiet (≡) (RemoteStateSource.get_storage address index).
Proof.
  intros r. unfold RemoteStateSource.get_storage at 1.
  destruct (_ !! (address, index)) eqn:E; [done|].
  destruct (fetch_storage _ _ _) eqn:F; [|done].
  apply remote_equiv_unfold. split; [done|].
  setoid_rewrite get_account_answer. setoid_rewrite get_storage_answer.
  setoid_rewrite get_block_hash_answer. simpl.
  split; [done|]. split; [|done]. intros address' index'.
  destruct (decide ((address', index') = (address, index))) as [[= -> ->]|Hne].
  - by rewrite lookup_insert_eq, E, F.
  - by rewrite lookup_insert_ne.
Qed.

Lemma get_block_hash_quiet number :
  se_quiet (≡) (RemoteStateSource.get_block_hash number).
Proof.
  intros r. unfold RemoteStateSource.get_block_hash at 1.
  destruct (_ !! number) eqn:E; [done|].
  destruct (fetch_block_hash _) eqn:F; [|done].
  apply remote_equiv_unfold. split; [done|].
  setoid_rewrite get_account_answer. setoid_rewrite get_storage_answer.
  setoid_rewrite get_block_hash_answer. simpl.
  split; [done|]. split; [done|]. intros number'.
  destruct (decide (number' = number)) as [->|Hne].
  - by rewrite lookup_insert_eq, E, F.
  - by rewrite lookup_insert_ne.
Qed.

(** A quiet computation that answers alike on equivalent states respects
    the equivalence. *)
Lemma quiet_respects {A} (m : SE RemoteStateSource.t DatabaseError A) :
  se_quiet (≡) m → (∀ r1 r2, r1 ≡ r2 → (m r1).1 = (m r2).1) →
  se_respects (≡) m.
Proof.
  intros Hq Ha r1 r2 Hr. split; [by apply Ha|].
  simpl. by rewrite (Hq r1), (Hq r2).
Qed.

#[global] Instance SharedBackend_settled :
  Settled RemoteStateSource.t SharedBackend.t (≡).
Proof.
  split; try apply _; intros d; simpl.
  - intros a. apply quiet_respects; [apply get_account_quiet|].
    by intros r1 r2 (_ & Ha & _).
  - intros h r1 r2 Hr. by split.
  - intros a i. apply quiet_respects; [apply get_storage_quiet|].
    by intros r1 r2 (_ & _ & Hs & _).
  - intros n. apply quiet_respects; [apply get_block_hash_quiet|].
    by intros r1 r2 (_ & _ & _ & Hb).
  - apply get_account_quiet.
  - by intros h r.
  - apply get_storage_quiet.
  - apply get_block_hash_quiet.
Qed.

(** Coherence is equivalence with the wiped source. *)
Lemma coherent_wiped r : coherent r ↔ r ≡ wiped r.
Proof.
  rewrite remote_equiv_unfold.
  setoid_rewrite get_account_answer. setoid_rewrite get_storage_answer.
  setoid_rewrite get_block_hash_answer. simpl.
  setoid_rewrite lookup_empty. split.
  - intros (Ha & Hs & Hb). split; [done|].
    split; [|split]; intros; case_match eqn:E; try done.
    + by rewrite (Ha _ _ E).
    + by rewrite <- (Hs _ _ E).
    + by rewrite (Hb _ _ E).
  - intros (_ & Ha & Hs & Hb). split; [|split].
    + intros a i E. specialize (Ha a). rewrite E in Ha.
      destruct (fetch_account _ _); naive_solver.
    + intros [a k] v E. specialize (Hs a k). by rewrite E in Hs.
    + intros n h E. specialize (Hb n). by rewrite E in Hb.
Qed.

Lemma wiped_pinned r1 r2 :
  RemoteStateSource.pinned_block r1 = RemoteStateSource.pinned_block r2 →
  wiped r1 = wiped r2.
Proof. unfold wiped, RemoteStateSource.set_cache. by intros ->. Qed.

#[global] Instance coherent_proper : Proper ((≡) ==> iff) coherent.
Proof.
  intros r1 r2 Hr. rewrite !coherent_wiped.
  rewrite (wiped_pinned r1 r2) by apply Hr. by rewrite Hr.
Qed.

Lemma coherent_wiped_2 r : coherent (wiped r).
Proof. repeat split; apply map_Forall_empty. Qed.
End remote.

(** ** An overlay over a settled database is settled *)

(** Takes a computation of the overlay apart, down to the queries of the
    backing database. *)
Ltac settle :=
  repeat first
    [ match goal with
      | |- Reflexive _ => apply _
      | |- Transitive _ => apply _
      end
    | apply se_respects_ret | apply se_quiet_ret
    | apply se_respects_bind | apply se_quiet_bind
    | apply basic_ref_respects | apply code_by_hash_ref_respects
    | apply storage_ref_respects | apply block_hash_ref_respects
    | apply basic_ref_quiet | apply code_by_hash_ref_quiet
    | apply storage_ref_quiet | apply block_hash_ref_quiet
    | case_match
    | intros ? ].

Section overlay.
Context {W ExtDB : Type} `{!DatabaseRef W ExtDB} (R : relation W).
Context `{!Settled W ExtDB R}.
Implicit Types (self : CacheDB.t ExtDB).

#[local] Instance settled_equivalence_here : Equivalence R :=
  settled_equivalence.

Lemma basic_mut_respects self a : se_respects R (CacheDB.basic_mut self a).
Proof. unfold CacheDB.basic_mut, CacheDB.load_account. settle. Qed.

Lemma basic_mut_quiet self a : se_quiet R (CacheDB.basic_mut self a).
Proof. unfold CacheDB.basic_mut, CacheDB.load_account. settle. Qed.

Lemma code_by_hash_mut_respects self h :
  se_respects R (CacheDB.code_by_hash_mut self h).
Proof. unfold CacheDB.code_by_hash_mut. settle. Qed.

Lemma code_by_hash_mut_quiet self h :
  se_quiet R (CacheDB.code_by_hash_mut self h).
Proof. unfold CacheDB.code_by_hash_mut. settle. Qed.

Lemma storage_mut_respects self a i :
  se_respects R (CacheDB.storage_mut self a i).
Proof. unfold CacheDB.storage_mut. settle. Qed.

Lemma storage_mut_quiet self a i : se_quiet R (CacheDB.storage_mut self a i).
Proof. unfold CacheDB.storage_mut. settle. Qed.

Lemma block_hash_mut_respects self n :
  se_respects R (CacheDB.block_hash_mut self n).
Proof. unfold CacheDB.block_hash_mut. settle. Qed.

Lemma block_hash_mut_quiet self n :
  se_quiet R (CacheDB.block_hash_mut self n).
Proof. unfold CacheDB.block_hash_mut. settle. Qed.

(** The read interface of the overlay is a settled database again. *)
#[global] Instance CacheDB_settled : Settled W (CacheDB.t ExtDB) R.
Proof.
  split; [apply _|..]; intros self; intros;
    cbn [basic_ref code_by_hash_ref storage_ref block_hash_ref
         CacheDB.DatabaseRef_instance]; settle.
Qed.
End overlay.

(** ** The queries of the database are morphisms *)

Section facade.
Context `{!Transport}.
Implicit Types (self : ForkedDatabase.t) (r : RemoteStateSource.t).
Implicit Types (q : Query) (sh : Shared).

Lemma told_mut_respects {A} wrap self
    (m : SE RemoteStateSource.t DatabaseError (A * ForkedDatabase.t)) :
  se_respects (≡) m →
  Proper ((≡) ==> prod_relation (=) (≡)) (λ r, told_mut wrap self (m r)).
Proof.
  intros Hm r1 r2 Hr. destruct (Hm r1 r2 Hr) as [Ha Hs]. unfold told_mut.
  by destruct (m r1) as [[x|e] r1'], (m r2) as [[x'|e'] r2']; simplify_eq/=.
Qed.

Lemma told_ref_respects {A} wrap self
    (m : SE RemoteStateSource.t DatabaseError A) :
  se_respects (≡) m →
  Proper ((≡) ==> prod_relation (=) (≡)) (λ r, told_ref wrap self (m r)).
Proof.
  intros Hm r1 r2 Hr. destruct (Hm r1 r2 Hr) as [Ha Hs]. unfold told_ref.
  split; simpl; [by rewrite Ha|done].
Qed.

Lemma told_mut_quiet {A} wrap self
    (m : SE RemoteStateSource.t DatabaseError (A * ForkedDatabase.t)) r :
  se_quiet (≡) m → (told_mut wrap self (m r)).2 ≡ r.
Proof.
  intros Hm. specialize (Hm r). unfold told_mut.
  by destruct (m r) as [[x|e] r'].
Qed.

(** Every query of either interface answers alike on equivalent remote
    sources, leaves the same overlay, and leaves the sources equivalent. *)
#[global] Instance ask_respects mutable self q :
  Proper ((≡) ==> prod_relation (=) (≡)) (ask mutable self q).
Proof.
  destruct mutable, q; unfold ask;
    first [apply told_mut_respects; apply se_respects_map
          |apply told_ref_respects].
  - apply (basic_mut_respects (≡)).
  - apply (code_by_hash_mut_respects (≡)).
  - apply (storage_mut_respects (≡)).
  - apply (block_hash_mut_respects (≡)).
  - apply (basic_ref_respects (R:=(≡)) (ForkedDatabase.cache_db self)).
  - apply (code_by_hash_ref_respects (R:=(≡)) (ForkedDatabase.cache_db self)).
  - apply (storage_ref_respects (R:=(≡)) (ForkedDatabase.cache_db self)).
  - apply (block_hash_ref_respects (R:=(≡)) (ForkedDatabase.cache_db self)).
Qed.

(** A query leaves the remote source equivalent to the one it found. *)
Lemma ask_quiet mutable self q r : (ask mutable self q r).2 ≡ r.
Proof.
  destruct mutable, q; unfold ask;
    first [apply told_mut_quiet; apply se_quiet_map; [apply _|]|idtac].
  - apply (basic_mut_quiet (≡)).
  - apply (code_by_hash_mut_quiet (≡)).
  - apply (storage_mut_quiet (≡)).
  - apply (block_hash_mut_quiet (≡)).
  - apply (basic_ref_quiet (R:=(≡)) (ForkedDatabase.cache_db self)).
  - apply (code_by_hash_ref_quiet (R:=(≡)) (ForkedDatabase.cache_db self)).
  - apply (storage_ref_quiet (R:=(≡)) (ForkedDatabase.cache_db self)).
  - apply (block_hash_ref_quiet (R:=(≡)) (ForkedDatabase.cache_db self)).
Qed.

Lemma ask_pinned_block mutable self q r :
  RemoteStateSource.pinned_block (ask mutable self q r).2 =
    RemoteStateSource.pinned_block r.
Proof. apply ask_quiet. Qed.

Lemma ask_coherent mutable self q r :
  coherent r → coherent (ask mutable self q r).2.
Proof. by rewrite ask_quiet. Qed.

(** On a coherent remote source a query answers as on the wiped one. *)
Lemma ask_wiped mutable self q r :
  coherent r → (ask mutable self q r).1 = (ask mutable self q (wiped r)).1.
Proof.
  intros Hr%coherent_wiped. by apply (ask_respects mutable self q).
Qed.

(** Claim C17. The remote cache cannot be observed: on a remote source whose
    cache is coherent with the network at the pinned block, every query of
    [Database] and of [DatabaseRef] gives the answer, and leaves the
    overlay, that it gives when nothing is cached and every miss of the
    overlay goes to the network; and it leaves the cache coherent. *)
Theorem cache_is_transparent mutable self q r :
  coherent r →
  (ask mutable self q r).1 = (ask mutable self q (wiped r)).1 ∧
  coherent (ask mutable self q r).2.
Proof.
  intros Hr. split; [by apply ask_wiped|by apply ask_coherent].
Qed.
End facade.

(** ** Coherence under every schedule *)

Section pool.
Context `{!Transport}.
Implicit Types (self : ForkedDatabase.t) (sh : Shared) (p : Pool Pending).
Implicit Types (s : ForkDbSnapshot.t) (block : BlockId).

#[local] Abbreviation pinned sh :=
  (RemoteStateSource.pinned_block (remote sh)).

Lemma coherent_shared_registry sh snapshots :
  coherent_shared sh →
  Snapshots.snapshots snapshots ⊆ Snapshots.snapshots (registry sh) →
  coherent_shared (set_registry sh snapshots).
Proof.
  intros [Hr Hreg] Hsub. split; [done|]. intros k s Hk.
  apply (Hreg k). by eapply lookup_weaken.
Qed.

Lemma coherent_shared_remote sh r :
  coherent_shared sh → coherent r →
  RemoteStateSource.pinned_block r = pinned sh →
  coherent_shared (set_remote sh r).
Proof. intros [_ Hreg] Hr Hb. split; [done|]. simpl. by rewrite Hb. Qed.

Lemma coherent_registered sh id s :
  coherent_shared sh → Snapshots.get (registry sh) id = Some s →
  coherent_snapshot (pinned sh) s.
Proof. intros [_ Hreg] Hs. by apply (Hreg id). Qed.

(** A step of [revert_snapshot]: a map of a coherent snapshot replaces a
    map of the coherent cache. *)
Lemma revert_step_coherent self id pc sh st :
  coherent_shared sh → coherent_call (pinned sh) (Reverting id pc) →
  outcome_state (revert_step self id pc sh) = Some st →
  coherent_shared st.2 ∧ pinned st.2 = pinned sh ∧
  ∀ pc', revert_step self id pc sh = Returned pc' st →
         coherent_call (pinned sh) (Reverting id pc').
Proof.
  intros Hsh Hpc Hst. pose proof Hsh as [(Ha & Hs & Hb) Hreg].
  destruct pc as [|s|s|s|s|result]; simpl in Hst, Hpc |- *.
  - pose proof (Snapshots.remove_subseteq (registry sh) id) as Hsub.
    pose proof (Snapshots.remove_result (registry sh) id) as Hres.
    destruct (Snapshots.remove _ _) as [[s|] snapshots|snapshots|];
      simplify_eq/=;
      (split; [by apply coherent_shared_registry, Hsub|]);
      (split; [done|]); intros pc' [= <-]; [|done].
    eapply coherent_registered; [done|]. symmetry. by eapply Hres.
  - injection Hst as <-. pose proof Hpc as (Ha' & _).
    rewrite hm_extend_clear. split; [done|].
    split; [done|]. by intros pc' [= <-].
  - injection Hst as <-. pose proof Hpc as (_ & Hs' & _).
    rewrite hm_extend_clear. split; [done|].
    split; [done|]. by intros pc' [= <-].
  - injection Hst as <-. pose proof Hpc as (_ & _ & Hb').
    rewrite hm_extend_clear. split; [done|].
    split; [done|]. by intros pc' [= <-].
  - injection Hst as <-. split; [done|]. split; [done|]. by intros pc' [= <-].
  - injection Hst as <-. split; [done|]. split; [done|]. by intros pc' [= <-].
Qed.

(** A step of [insert_snapshot]: what is copied from a coherent cache is
    coherent, and so is the registry with the copy in it. *)
Lemma insert_step_coherent self pc sh :
  coherent_shared sh → coherent_call (pinned sh) (Inserting pc) →
  coherent_shared (insert_step self pc sh).2 ∧
  pinned (insert_step self pc sh).2 = pinned sh ∧
  coherent_call (pinned sh) (Inserting (insert_step self pc sh).1).
Proof.
  intros Hsh Hpc. pose proof Hsh as [(Ha & Hs & Hb) Hreg].
  destruct pc as [|accounts|accounts storage|s|id]; simpl in *; try done.
  - by destruct Hpc.
  - split; [|done]. split; [done|]. by apply map_Forall_insert_2.
Qed.

(** A step of a [reset] to the pinned block: the cache it leaves is the
    same or empty. *)
Lemma reset_step_coherent self pc sh :
  coherent_shared sh →
  coherent_shared (reset_step self (pinned sh) pc sh).2 ∧
  pinned (reset_step self (pinned sh) pc sh).2 = pinned sh.
Proof.
  intros Hsh. pose proof Hsh as [Hr Hreg].
  destruct pc as [| | |r]; simpl; [|split; [|done]..|done|done].
  - unfold RemoteStateSource.set_pinned_block.
    destruct (resolve_block _); simpl; [|done].
    split; [|done]. by apply coherent_shared_remote.
  - apply coherent_shared_remote; [done|apply coherent_wiped_2|done].
Qed.

Lemma ask_step_coherent self pc sh :
  coherent_shared sh →
  coherent_shared (ask_step self pc sh).2 ∧
  pinned (ask_step self pc sh).2 = pinned sh.
Proof.
  intros Hsh. destruct pc as [mutable q|a]; simpl; [|done].
  pose proof (ask_coherent mutable self q (remote sh) (proj1 Hsh)) as Hc.
  pose proof (ask_pinned_block mutable self q (remote sh)) as Hb.
  destruct (ask mutable self q (remote sh)) as [[a self'] rem]. simpl in *.
  split; [|done]. by apply coherent_shared_remote.
Qed.

(** Every step of every call keeps coherence and the pinned block. *)
Lemma call_step_coherent self c sh st :
  coherent_shared sh → coherent_call (pinned sh) c →
  outcome_state (call_step self c sh) = Some st →
  coherent_shared st.2 ∧ pinned st.2 = pinned sh ∧
  ∀ c', call_step self c sh = Returned c' st → coherent_call (pinned sh) c'.
Proof.
  intros Hsh Hc Hst.
  destruct c as [id pc|pc|url block pc|pc|pc]; simpl in Hst |- *.
  - destruct (revert_step_coherent self id pc sh st Hsh Hc) as (? & ? & Hpc).
    { by destruct (revert_step self id pc sh). }
    split; [done|]. split; [done|]. intros c'.
    destruct (revert_step self id pc sh) eqn:E; intros [= <- <-].
    by apply Hpc.
  - injection Hst as <-.
    destruct (insert_step_coherent self pc sh Hsh Hc) as (? & ? & ?).
    split; [done|]. split; [done|]. by intros c' [= <-].
  - injection Hst as <-. simpl in Hc. subst block.
    destruct (reset_step_coherent self pc sh Hsh) as (? & ?).
    split; [done|]. split; [done|]. by intros c' [= <-].
  - injection Hst as <-.
    destruct pc; (split; [done|]); (split; [done|]); by intros c' [= <-].
  - injection Hst as <-.
    destruct (ask_step_coherent self pc sh Hsh) as (? & ?).
    split; [done|]. split; [done|]. by intros c' [= <-].
Qed.

Lemma Pending_keeps_coherence block :
  step_keeps (λ sh, coherent_shared sh ∧ pinned sh = block)
    (λ _, coherent_call block).
Proof.
  intros self c sh st [Hsh <-] Hc Hst.
  destruct (call_step_coherent self c sh st Hsh Hc Hst) as (? & ? & ?).
  eauto.
Qed.

Lemma coherent_pool_invariant p :
  coherent_pool p ↔
    pool_invariant (λ sh, coherent_shared sh ∧ pinned sh = pinned (store p))
      (λ _, coherent_call (pinned (store p))) p.
Proof. unfold coherent_pool, pool_invariant. naive_solver. Qed.

(** Coherence is an invariant of every schedule, and so is the pinned
    block. *)
Lemma run_coherent schedule p :
  coherent_pool p →
  coherent_pool (run schedule p) ∧
  pinned (store (run schedule p)) = pinned (store p).
Proof.
  intros Hp%coherent_pool_invariant.
  apply (run_invariant _ _ schedule) in Hp as [[Hsh Hb] Hth];
    [|apply Pending_keeps_coherence].
  split; [|done]. split; [done|]. by rewrite Hb.
Qed.

(** The turn in which a query is answered. *)
Lemma sched_asking i j p self mutable q :
  coherent_pool p →
  threads p !! i = Some (thread self (Asking (AtAsk mutable q))) →
  let a := ask mutable self q (wiped (remote (store p))) in
  threads (sched j p) !! i = Some (thread self (Asking (AtAsk mutable q))) ∨
  threads (sched j p) !! i = Some (thread a.1.2 (Asking (Asked a.1.1))).
Proof.
  intros [[Hr _] _] Hi a.
  destruct (decide (j = i)) as [->|Hne]; [|left; by rewrite lookup_sched_ne].
  destruct (decide (enabled i (thread self (Asking (AtAsk mutable q))) p))
    as [Hen|Hen]; [|left; rewrite sched_skip; naive_solver].
  right. rewrite (sched_took i p _ Hi Hen). simpl.
  rewrite list_lookup_insert_eq by by eapply lookup_lt_Some.
  pose proof (ask_wiped mutable self q (remote (store p)) Hr) as Ha.
  fold a in Ha. destruct (ask mutable self q (remote (store p))) as [[] ?].
  simpl in *. by rewrite <- Ha.
Qed.

(** Claim C13. Under every schedule of calls of [insert_snapshot],
    [revert_snapshot], [commit], queries and [reset]s that do not move the
    pinned block, by any number of clones, coherence is kept: the remote
    cache, the snapshots of the registry and what the calls hold between
    their steps stay true to the network at the pinned block, also in the
    states that a revert passes through.  So a query that waits for its
    turn is answered, whenever its turn comes, as it is over the bare
    network, and leaves the overlay that it leaves there. *)
Theorem query_under_every_schedule schedule p i self mutable q :
  coherent_pool p →
  threads p !! i = Some (thread self (Asking (AtAsk mutable q))) →
  let a := ask mutable self q (wiped (remote (store p))) in
  coherent_pool (run schedule p) ∧
  (threads (run schedule p) !! i
     = Some (thread self (Asking (AtAsk mutable q))) ∨
   threads (run schedule p) !! i = Some (thread a.1.2 (Asking (Asked a.1.1)))).
Proof.
  intros Hp Hi a. split; [by apply run_coherent|].
  subst a. revert p Hp Hi.
  induction schedule as [|j s IH]; intros p Hp Hi; [by left|].
  rewrite run_cons.
  destruct (run_coherent [j] p Hp) as [Hp' Hb]. simpl in Hp', Hb.
  rewrite <- (wiped_pinned _ _ Hb).
  destruct (sched_asking i j p self mutable q Hp Hi) as [Hi'|Hi'];
    [by apply IH|].
  right. rewrite (wiped_pinned _ _ Hb). by apply run_finished.
Qed.

(** Claim C23. A [reset] to another block is not one step for the other
    clones: it re-pins the backend in its first statement and wipes the
    remote cache in its second.  A query of another clone that runs between
    the two is answered from the cache of the old block while the backend is
    pinned to the new one, and keeps that answer when the reset is over and
    the cache is empty. *)
Theorem query_during_reset_reads_old_block selfA selfB sh url block address
    info :
  resolve_block block = Ok tt →
  CacheDB.accounts (ForkedDatabase.cache_db selfB) !! address = None →
  RemoteCache.accounts (RemoteStateSource.cache (remote sh)) !! address
    = Some info →
  let p :=
    {| threads := [thread selfA (Resetting url block AtPin);
                   thread selfB (Asking (AtAsk false (QBasic address)))];
       store := sh |} in
  pinned (store (run [0]%nat p)) = block ∧
  threads (run [0; 1]%nat p) !! 1%nat
    = Some (thread selfB (Asking (Asked (AccountAnswer (Ok (Some info)))))) ∧
  run [0; 1; 0; 0]%nat p =
    {| threads :=
         [thread (ForkedDatabase.set_cache_db selfA
                    (CacheDB.new (ForkedDatabase.backend selfA)))
            (Resetting url block (ResetDone (Ok tt)));
          thread selfB (Asking (Asked (AccountAnswer (Ok (Some info)))))];
       store :=
         set_remote sh
           {| RemoteStateSource.pinned_block := block;
              RemoteStateSource.cache := RemoteCache.empty |} |}.
Proof.
  intros Hres Hmiss Hhit p. subst p.
  assert (∀ rest, run (0%nat :: rest)
            {| threads := [thread selfA (Resetting url block AtPin);
                           thread selfB (Asking (AtAsk false (QBasic address)))];
               store := sh |} =
          run rest
            {| threads := [thread selfA (Resetting url block AtClear);
                           thread selfB (Asking (AtAsk false (QBasic address)))];
               store :=
                 set_remote sh
                   {| RemoteStateSource.pinned_block := block;
                      RemoteStateSource.cache :=
                        RemoteStateSource.cache (remote sh) |} |}) as Hpin.
  { intros rest. turn. unfold RemoteStateSource.set_pinned_block.
    by rewrite Hres. }
  rewrite !Hpin. split; [done|].
  assert (∀ rest, run (1%nat :: rest)
            {| threads := [thread selfA (Resetting url block AtClear);
                           thread selfB (Asking (AtAsk false (QBasic address)))];
               store :=
                 set_remote sh
                   {| RemoteStateSource.pinned_block := block;
                      RemoteStateSource.cache :=
                        RemoteStateSource.cache (remote sh) |} |} =
          run rest
            {| threads :=
                 [thread selfA (Resetting url block AtClear);
                  thread selfB
                    (Asking (Asked (AccountAnswer (Ok (Some info)))))];
               store :=
                 set_remote sh
                   {| RemoteStateSource.pinned_block := block;
                      RemoteStateSource.cache :=
                        RemoteStateSource.cache (remote sh) |} |}) as Hask.
  { intros rest. turn. unfold ask, told_ref.
    by rewrite (basic_ref_remote selfB address info). }
  rewrite !Hask. split; [done|]. by do 2 turn.
Qed.
End pool.

(** ** A coherent pool *)

Module Coherent.
#[local] Existing Instance Example.chain.

(** The remote source pinned at block 100, holding what the network answers
    there for account 1, for a slot of it and for the block 99. *)
Definition source : RemoteStateSource.t :=
  {| RemoteStateSource.pinned_block := 100;
     RemoteStateSource.cache :=
       {| RemoteCache.accounts := {[1 := Example.acct 100001]};
          RemoteCache.storage := {[(1, 5) := 106]};
          RemoteCache.block_hashes := {[99 := 7099]} |} |}.

(** The registry holds, under the identifier 0, a snapshot taken when only
    the account was cached. *)
Definition snapshot : ForkDbSnapshot.t :=
  {| ForkDbSnapshot.local := ForkedDatabase.cache_db Example.fdb20;
     ForkDbSnapshot.snapshot :=
       {| StateSnapshot.accounts := {[1 := Example.acct 100001]};
          StateSnapshot.storage := ∅;
          StateSnapshot.block_hashes := ∅ |} |}.

Definition shared : Shared :=
  {| remote := source;
     registry := (Snapshots.insert Snapshots.default snapshot).2 |}.

(** Five threads: a snapshot, a revert to the snapshot 0, a storage query
    that has to fetch, a reset to the pinned block, a commit. *)
Definition pool : Pool Pending :=
  {| threads := [thread Example.fdb20 (Inserting AtReadAccounts);
                 thread Example.fdb0 (Reverting 0 AtRemove);
                 thread Example.fdb0 (Asking (AtAsk true (QStorage 8 3)));
                 thread Example.fdb0 (Resetting None 100 AtPin);
                 thread Example.fdb20
                   (Committing (AtCommit {[1 := Example.change 30]}))];
     store := shared |}.

(** The revert has replaced the accounts and not yet the storage when the
    query runs; it waits once for the read guards of the snapshot, which is
    taken after the reset has wiped the cache. *)
Definition schedule : list nat :=
  [1; 1; 2; 3; 3; 0; 0; 1; 0; 0; 4; 1; 1; 3; 1]%nat.

Lemma pool_coherent : coherent_pool pool.
Proof.
  split; [apply (bool_decide_unpack _); vm_compute; exact I|].
  by repeat constructor.
Defined.

(** A storage query that the cache answers, account and slot: the remote
    source is left as it was, and the answer is the one that the network
    gives. *)
Lemma cache_is_transparent_witness :
  ((ask true Example.fdb0 (QStorage 1 5) source).1 =
     (ask true Example.fdb0 (QStorage 1 5) (wiped source)).1 ∧
   coherent (ask true Example.fdb0 (QStorage 1 5) source).2) ∧
  (ask true Example.fdb0 (QStorage 1 5) source).1.1 = WordAnswer (Ok 106) ∧
  (ask true Example.fdb0 (QStorage 1 5) source).2 = source.
Proof.
  split; [|by vm_compute].
  apply (cache_is_transparent true Example.fdb0 (QStorage 1 5) source).
  apply (bool_decide_unpack _). vm_compute. exact I.
Defined.

Lemma query_under_every_schedule_witness :
  coherent_pool (run schedule pool) ∧
  (threads (run schedule pool) !! 2%nat
     = Some (thread Example.fdb0 (Asking (AtAsk true (QStorage 8 3)))) ∨
   threads (run schedule pool) !! 2%nat
     = Some (thread
               (ask true Example.fdb0 (QStorage 8 3) (wiped source)).1.2
               (Asking
                  (Asked
                     (ask true Example.fdb0 (QStorage 8 3)
                        (wiped source)).1.1)))).
Proof.
  apply (query_under_every_schedule schedule pool 2 Example.fdb0 true
           (QStorage 8 3)); [exact pool_coherent|done].
Defined.

Lemma query_during_reset_reads_old_block_witness :
  RemoteStateSource.pinned_block
    (remote (store
      (run [0]%nat
         {| threads := [thread Example.fdb20 (Resetting None 200 AtPin);
                        thread Example.fdb0
                          (Asking (AtAsk false (QBasic 1)))];
            store := shared |}))) = 200 ∧
  threads
    (run [0; 1]%nat
       {| threads := [thread Example.fdb20 (Resetting None 200 AtPin);
                      thread Example.fdb0 (Asking (AtAsk false (QBasic 1)))];
          store := shared |}) !! 1%nat
    = Some (thread Example.fdb0
              (Asking
                 (Asked (AccountAnswer (Ok (Some (Example.acct 100001))))))) ∧
  run [0; 1; 0; 0]%nat
    {| threads := [thread Example.fdb20 (Resetting None 200 AtPin);
                   thread Example.fdb0 (Asking (AtAsk false (QBasic 1)))];
       store := shared |} =
    {| threads :=
         [thread (ForkedDatabase.set_cache_db Example.fdb20
                    (CacheDB.new (ForkedDatabase.backend Example.fdb20)))
            (Resetting None 200 (ResetDone (Ok tt)));
          thread Example.fdb0
            (Asking
               (Asked (AccountAnswer (Ok (Some (Example.acct 100001))))))];
       store :=
         set_remote shared
           {| RemoteStateSource.pinned_block := 200;
              RemoteStateSource.cache := RemoteCache.empty |} |}.
Proof.
  by apply (query_during_reset_reads_old_block Example.fdb20 Example.fdb0
              shared None 200 1 (Example.acct 100001)).
Defined.
End Coherent.
