(* ===== verification/Typing.v ===== *)
(** * Typing: the integers of the model stay within their machine types

    The model writes the integers of the program as unbounded integers: a
    [U256] (balance, storage key and value, snapshot identifier, block
    number of a hash), a [B256] (hash), a [B160] (address), a [u64] (nonce,
    number of the pinned block) and a byte of a bytecode are all of type
    [Z].  This file says which values of the model are values of the
    program, and shows that the operations of the database never leave that
    set.

    - Class [Typed]: the predicate [wt] ("well typed") of a type of the
      model, with an instance for each record of Revm.v, Remote.v and
      ForkedDb.v, for the registry (where it includes [Snapshots.wf]) and
      for a family of clones.
    - Class [TypedTransport]: the network answers with well typed values.
    - [wt_out], Class [TypedBacking]: a computation in the monad [SE]
      returns a well typed value and state; a backing database answers
      every query that way ([wt_out_ret] and [wt_out_bind] are the rules
      the lemmas of the queries are built from).
    - [wt_query], [wt_action]: the arguments of a call are well typed.

    The theorems: every method of the database, called by any clone with
    well typed arguments on a well typed family, leaves a well typed family,
    also when it panics, and what it tells the caller is well typed. *)

From stdpp Require Import gmap list strings.
From Stdlib Require Import ZArith Lia.
From S2P Require Import Prelude SnapshotStore Revm Remote ForkedDb Branches.

#[local] Open Scope Z_scope.
#[local] Open Scope se_scope.
#[local] Set Warnings "-clear-no-such-hyp".

(** ** The machine types *)

Definition is_u64 (x : Z) : Prop := 0 ≤ x ≤ U64_MAX.
Definition is_address (x : Z) : Prop := 0 ≤ x < 2 ^ 160.
Definition is_byte (x : Z) : Prop := 0 ≤ x < 256.

#[global] Instance is_u64_dec x : Decision (is_u64 x).
Proof. unfold is_u64. apply _. Defined.
#[global] Instance is_address_dec x : Decision (is_address x).
Proof. unfold is_address. apply _. Defined.
#[global] Instance is_byte_dec x : Decision (is_byte x).
Proof. unfold is_byte. apply _. Defined.

(** The values of a type of the model that are values of the program. *)
Class Typed (A : Type) : Type := wt : A → Prop.
#[global] Hint Mode Typed ! : typeclass_instances.

#[global] Instance option_typed `{Typed A} : Typed (option A) :=
  from_option wt True.

#[global] Instance Bytecode_typed : Typed (list Z) := Forall is_byte.

(** Storage of an account and block hashes: a word to a word. *)
#[global] Instance words_typed : Typed (gmap Z Z) :=
  map_Forall (λ k v, is_u256 k ∧ is_u256 v).

(** Bytecode by hash. *)
#[global] Instance contracts_typed : Typed (gmap Z (list Z)) :=
  map_Forall (λ h c, is_u256 h ∧ wt c).

(** The storage of the remote cache: an address and a word to a word. *)
#[global] Instance slots_typed : Typed (gmap (Z * Z) Z) :=
  map_Forall (λ k v, is_address k.1 ∧ is_u256 k.2 ∧ is_u256 v).

#[global] Instance AccountInfo_typed : Typed AccountInfo.t := λ i,
  is_u256 (AccountInfo.balance i) ∧ is_u64 (AccountInfo.nonce i) ∧
  is_u256 (AccountInfo.code_hash i) ∧ wt (AccountInfo.code i).

#[global] Instance DbAccount_typed : Typed DbAccount.t := λ a,
  wt (DbAccount.info a) ∧ wt (DbAccount.storage a).

#[global] Instance Account_typed : Typed Account.t := λ a,
  wt (Account.info a) ∧ wt (Account.storage a).

(** Records by address. *)
Definition by_address `{Typed A} (m : gmap Z A) : Prop :=
  map_Forall (λ a x, is_address a ∧ wt x) m.

#[global] Instance CacheDB_typed {ExtDB} : Typed (CacheDB.t ExtDB) := λ c,
  by_address (CacheDB.accounts c) ∧ wt (CacheDB.contracts c) ∧
  wt (CacheDB.block_hashes c).

#[global] Instance RemoteCache_typed : Typed RemoteCache.t := λ c,
  by_address (RemoteCache.accounts c) ∧ wt (RemoteCache.storage c) ∧
  wt (RemoteCache.block_hashes c).

#[global] Instance StateSnapshot_typed : Typed StateSnapshot.t := λ s,
  by_address (StateSnapshot.accounts s) ∧ wt (StateSnapshot.storage s) ∧
  wt (StateSnapshot.block_hashes s).

#[global] Instance RemoteStateSource_typed : Typed RemoteStateSource.t := λ r,
  is_u64 (RemoteStateSource.pinned_block r) ∧ wt (RemoteStateSource.cache r).

#[global] Instance ForkDbSnapshot_typed : Typed ForkDbSnapshot.t := λ s,
  wt (ForkDbSnapshot.local s) ∧ wt (ForkDbSnapshot.snapshot s).

(** The registry: the invariant of [Snapshots], and every snapshot. *)
#[global] Instance Snapshots_typed `{Typed T} : Typed (Snapshots.t T) := λ s,
  Snapshots.wf s ∧ map_Forall (λ _ x, wt x) (Snapshots.snapshots s).

#[global] Instance Shared_typed : Typed Shared := λ sh,
  wt (remote sh) ∧ wt (registry sh).

#[global] Instance ForkedDatabase_typed : Typed ForkedDatabase.t := λ self,
  wt (ForkedDatabase.cache_db self).

#[global] Instance Family_typed : Typed Family := λ f,
  Forall wt (branches f) ∧ wt (shared f).

#[global] Instance Result_typed {E} `{Typed A} : Typed (Result E A) := λ r,
  match r with Ok a => wt a | Err _ => True end.

(** The arguments of a query and of a call. *)
Definition wt_query (q : Query) : Prop :=
  match q with
  | QBasic address => is_address address
  | QCodeByHash code_hash => is_u256 code_hash
  | QStorage address index => is_address address ∧ is_u256 index
  | QBlockHash number => is_u256 number
  end.

Definition wt_action (a : Action) : Prop :=
  match a with
  | Clone | InsertSnapshot => True
  | Commit changes => by_address changes
  | Ask _ q => wt_query q
  | RevertSnapshot id => is_u256 id
  | Reset _ block_number => is_u64 block_number
  end.

(** What a call tells its caller. *)
#[global] Instance Answer_typed : Typed Answer := λ a,
  match a with
  | AccountAnswer r => wt r
  | CodeAnswer r => wt r
  | WordAnswer (Ok v) => is_u256 v
  | WordAnswer (Err _) => True
  end.

#[global] Instance Observation_typed : Typed Observation := λ o,
  match o with
  | Nothing | Reverted _ | ResetResult _ => True
  | Told a => wt a
  | SnapshotId id => is_u256 id
  end.

(** [wt] can be decided, so that it can be checked on a value by
    evaluation. *)
Class TypedDec (A : Type) `{!Typed A} : Type :=
  wt_dec :: ∀ x : A, Decision (wt x).
#[global] Hint Mode TypedDec ! - : typeclass_instances.

#[global] Instance option_wt_dec `{TypedDec A} : TypedDec (option A).
Proof. intros [x|]; unfold wt, option_typed; simpl; apply _. Defined.
#[global] Instance Bytecode_wt_dec : TypedDec (list Z).
Proof. intros x. unfold wt, Bytecode_typed. apply _. Defined.
#[global] Instance words_wt_dec : TypedDec (gmap Z Z).
Proof. intros x. unfold wt, words_typed. apply _. Defined.
#[global] Instance contracts_wt_dec : TypedDec (gmap Z (list Z)).
Proof. intros x. unfold wt at 1, contracts_typed. apply _. Defined.
#[global] Instance slots_wt_dec : TypedDec (gmap (Z * Z) Z).
Proof. intros x. unfold wt, slots_typed. apply _. Defined.
#[global] Instance AccountInfo_wt_dec : TypedDec AccountInfo.t.
Proof. intros x. unfold wt at 1, AccountInfo_typed. apply _. Defined.
#[global] Instance DbAccount_wt_dec : TypedDec DbAccount.t.
Proof. intros x. unfold wt at 1, DbAccount_typed. apply _. Defined.
#[global] Instance Account_wt_dec : TypedDec Account.t.
Proof. intros x. unfold wt at 1, Account_typed. apply _. Defined.
#[global] Instance by_address_dec `{TypedDec A} (m : gmap Z A) :
  Decision (by_address m).
Proof. unfold by_address. apply _. Defined.
#[global] Instance CacheDB_wt_dec {ExtDB} : TypedDec (CacheDB.t ExtDB).
Proof. intros x. unfold wt at 1, CacheDB_typed. apply _. Defined.
#[global] Instance RemoteCache_wt_dec : TypedDec RemoteCache.t.
Proof. intros x. unfold wt at 1, RemoteCache_typed. apply _. Defined.
#[global] Instance StateSnapshot_wt_dec : TypedDec StateSnapshot.t.
Proof. intros x. unfold wt at 1, StateSnapshot_typed. apply _. Defined.
#[global] Instance RemoteStateSource_wt_dec : TypedDec RemoteStateSource.t.
Proof. intros x. unfold wt at 1, RemoteStateSource_typed. apply _. Defined.
#[global] Instance ForkDbSnapshot_wt_dec : TypedDec ForkDbSnapshot.t.
Proof. intros x. unfold wt at 1, ForkDbSnapshot_typed. apply _. Defined.
#[global] Instance Snapshots_wt_dec `{TypedDec T} : TypedDec (Snapshots.t T).
Proof. intros x. unfold wt at 1, Snapshots_typed. apply _. Defined.
#[global] Instance Shared_wt_dec : TypedDec Shared.
Proof. intros x. unfold wt at 1, Shared_typed. apply _. Defined.
#[global] Instance ForkedDatabase_wt_dec : TypedDec ForkedDatabase.t.
Proof. intros x. unfold wt at 1, ForkedDatabase_typed. apply _. Defined.
#[global] Instance Family_wt_dec : TypedDec Family.
Proof. intros x. unfold wt at 1, Family_typed. apply _. Defined.

(** The network answers within the machine types. *)
Class TypedTransport `{!Transport} : Prop :=
  { fetch_account_wt blk a i : fetch_account blk a = Ok i → wt i;
    fetch_storage_wt blk a k v : fetch_storage blk a k = Ok v → is_u256 v;
    fetch_code_wt h c : fetch_code h = Ok c → wt c;
    fetch_block_hash_wt n h : fetch_block_hash n = Ok h → is_u256 h }.

(** ** Lemmas, by component *)

Section maps.
Context `{Typed A}.
Implicit Types (m : gmap Z A).

Lemma by_address_empty : by_address (∅ : gmap Z A).
Proof. apply map_Forall_empty. Qed.

Lemma by_address_insert m a x :
  by_address m → is_address a → wt x → by_address (<[a := x]> m).
Proof. intros Hm Ha Hx. by apply map_Forall_insert_2. Qed.

Lemma by_address_lookup m a x : by_address m → m !! a = Some x → wt x.
Proof. intros Hm Hx. by apply (Hm a x). Qed.

Lemma by_address_extend m new :
  by_address m → by_address new → by_address (hm_extend m new).
Proof. intros Hm Hnew. by apply map_Forall_union_2. Qed.
End maps.

Lemma wt_KECCAK_EMPTY : is_u256 KECCAK_EMPTY.
Proof. by apply (bool_decide_unpack _). Qed.

Lemma wt_AccountInfo_default : wt AccountInfo.default.
Proof.
  split; [split; [done|apply Z.lt_le_incl, U256_MAX_pos]|].
  split; [split; [done|apply Z.lt_le_incl, U64_MAX_pos]|].
  split; [apply wt_KECCAK_EMPTY|by apply Forall_nil].
Qed.

Section overlay.
Context {W ExtDB : Type} `{!DatabaseRef W ExtDB}.
Implicit Types (self : CacheDB.t ExtDB) (cs : gmap Z (list Z)).

Lemma wt_CacheDB_new (db : ExtDB) : wt (CacheDB.new db).
Proof.
  split; [apply by_address_empty|]. split; [|apply map_Forall_empty].
  apply map_Forall_insert_2;
    [split; [apply wt_KECCAK_EMPTY|by apply Forall_nil]|].
  apply map_Forall_insert_2;
    [split; [|by apply Forall_nil]|apply map_Forall_empty].
  split; [done|apply Z.lt_le_incl, U256_MAX_pos].
Qed.

Lemma wt_insert_contract (i : AccountInfo.t) cs :
  wt i → wt cs → wt (CacheDB.insert_contract i cs).
Proof.
  intros (_ & _ & Hhash & Hcode) Hcs. unfold CacheDB.insert_contract.
  destruct (AccountInfo.code i) as [[|b bs]|]; try done.
  destruct (cs !! _); [done|]. by apply map_Forall_insert_2.
Qed.

Lemma wt_from_info (i : option AccountInfo.t) : wt i → wt (DbAccount.from_info i).
Proof.
  destruct i as [i|]; simpl; intros Hi.
  - split; [done|apply map_Forall_empty].
  - split; [apply wt_AccountInfo_default|apply map_Forall_empty].
Qed.

Lemma wt_get_info (a : DbAccount.t) : wt a → wt (DbAccount.get_info a).
Proof.
  intros [Hi _]. unfold DbAccount.get_info.
  by destruct (DbAccount.account_state a).
Qed.

Lemma wt_commit_account (c : Account.t) (old : option DbAccount.t) :
  wt c → wt old → wt (CacheDB.commit_account c old).
Proof.
  intros [Hi Hs] Hold. unfold CacheDB.commit_account.
  destruct (Account.is_destroyed c);
    [split; [apply wt_AccountInfo_default|apply map_Forall_empty]|].
  split; [done|]. simpl. apply map_Forall_union_2; [done|].
  destruct (Account.storage_cleared c); [apply map_Forall_empty|].
  destruct old as [old|]; [apply Hold|apply map_Forall_empty].
Qed.

Lemma wt_commit self (changes : gmap Z Account.t) :
  wt self → by_address changes → wt (CacheDB.commit self changes).
Proof.
  intros (Ha & Hc & Hb) Hch. split; [|split; [|done]].
  - intros a x. rewrite CacheDB.lookup_commit.
    destruct (changes !! a) as [c|] eqn:E; [|apply Ha].
    destruct (Hch a c E) as [Haddr Hwt]. intros [= <-]. split; [done|].
    apply wt_commit_account; [done|].
    destruct (CacheDB.accounts self !! a) as [old|] eqn:Eo; [|done].
    exact (by_address_lookup _ a old Ha Eo).
  - simpl. revert Hch.
    apply (map_fold_weak_ind
             (λ cs (m : gmap Z Account.t), by_address m → wt cs)); [done|].
    intros a c m cs Hnone IH [[_ [Hi _]] Hm]%map_Forall_insert; [|done].
    destruct (Account.is_destroyed c); [by apply IH|].
    apply wt_insert_contract; [done|by apply IH].
Qed.
End overlay.

(** ** Queries *)

(** The outcome of a query: the state behind the handle stays well typed,
    and the answer, if there is one, satisfies [P]. *)
Definition wt_out `{Typed W} {A : Type} (P : A → Prop)
    (res : Result DatabaseError A * W) : Prop :=
  wt res.2 ∧ match res.1 with Ok a => P a | Err _ => True end.

(** A backing database that answers within the machine types. *)
Class TypedBacking (W D : Type) `{!DatabaseRef W D, !Typed W} : Prop :=
  { basic_ref_wt (d : D) a w :
      wt w → is_address a → wt_out wt (basic_ref d a w);
    code_by_hash_ref_wt (d : D) h w :
      wt w → is_u256 h → wt_out wt (code_by_hash_ref d h w);
    storage_ref_wt (d : D) a i w :
      wt w → is_address a → is_u256 i → wt_out is_u256 (storage_ref d a i w);
    block_hash_ref_wt (d : D) n w :
      wt w → is_u256 n → wt_out is_u256 (block_hash_ref d n w) }.

#[global] Hint Mode TypedBacking - ! - - : typeclass_instances.

Lemma is_u256_0 : is_u256 0.
Proof. split; [done|apply Z.lt_le_incl, U256_MAX_pos]. Qed.

Section monad.
Context `{Typed W}.

Lemma wt_out_ret {A} (P : A → Prop) (a : A) (w : W) :
  wt w → P a → wt_out P (se_ret (E := DatabaseError) a w).
Proof. by split. Qed.

Lemma wt_out_bind {A B} (P : A → Prop) (Q : B → Prop)
    (m : SE W DatabaseError A) (k : A → SE W DatabaseError B) (w : W) :
  wt_out P (m w) → (∀ a w', wt w' → P a → wt_out Q (k a w')) →
  wt_out Q (se_bind m k w).
Proof.
  unfold wt_out, se_bind. destruct (m w) as [[a|e] w']; simpl; [|done].
  intros [Hw Ha] Hk. by apply Hk.
Qed.

Lemma wt_out_impl {A} (P Q : A → Prop) (res : Result DatabaseError A * W) :
  wt_out P res → (∀ a, P a → Q a) → wt_out Q res.
Proof. destruct res as [[a|e] w]; intros [? ?] HPQ; split; simpl in *; auto. Qed.
End monad.

#[global] Instance unit_typed : Typed unit := λ _, True.

(** The hash function answers with 256 bits. *)
Class TypedKeccak `{!Keccak} : Prop :=
  keccak256_of_number_wt n : is_u256 (keccak256_of_number n).

#[global] Instance EmptyDB_typed_backing `{!Keccak, !TypedKeccak} :
  TypedBacking unit EmptyDB.
Proof.
  split; intros; (split; [done|]); simpl; try done;
    first [by apply Forall_nil|apply is_u256_0|apply keccak256_of_number_wt].
Qed.

Section remote.
Context `{!Transport} `{!TypedTransport}.
Implicit Types (r : RemoteStateSource.t).

Lemma wt_get_account r address :
  wt r → is_address address →
  wt_out wt (RemoteStateSource.get_account address r).
Proof.
  intros [Hblk (Ha & Hs & Hb)] Haddr. unfold RemoteStateSource.get_account.
  destruct (_ !! address) as [i|] eqn:E.
  { split; [done|]. exact (by_address_lookup _ address i Ha E). }
  destruct (fetch_account _ _) as [i|] eqn:Ef; [|done].
  pose proof (fetch_account_wt _ _ _ Ef). split; [|done].
  split; [done|]. split; [|done]. by apply by_address_insert.
Qed.

Lemma wt_get_storage r address index :
  wt r → is_address address → is_u256 index →
  wt_out is_u256 (RemoteStateSource.get_storage address index r).
Proof.
  intros [Hblk (Ha & Hs & Hb)] Haddr Hidx.
  unfold RemoteStateSource.get_storage.
  destruct (_ !! (address, index)) as [v|] eqn:E.
  { split; [done|]. apply (Hs _ _ E). }
  destruct (fetch_storage _ _ _) as [v|] eqn:Ef; [|done].
  pose proof (fetch_storage_wt _ _ _ _ Ef). split; [|done].
  split; [done|]. split; [done|]. split; [|done].
  by apply map_Forall_insert_2.
Qed.

Lemma wt_get_block_hash r number :
  wt r → is_u256 number →
  wt_out is_u256 (RemoteStateSource.get_block_hash number r).
Proof.
  intros [Hblk (Ha & Hs & Hb)] Hn. unfold RemoteStateSource.get_block_hash.
  destruct (_ !! number) as [h|] eqn:E.
  { split; [done|]. apply (Hb _ _ E). }
  destruct (fetch_block_hash _) as [h|] eqn:Ef; [|done].
  pose proof (fetch_block_hash_wt _ _ Ef). split; [|done].
  split; [done|]. split; [done|]. split; [done|].
  by apply map_Forall_insert_2.
Qed.

Lemma wt_get_code r hash :
  wt r → wt_out wt (RemoteStateSource.get_code hash r).
Proof.
  intros Hr. unfold RemoteStateSource.get_code. split; [done|]. simpl.
  destruct (fetch_code hash) eqn:Ef; [|done]. by eapply fetch_code_wt.
Qed.

#[global] Instance SharedBackend_typed_backing :
  TypedBacking RemoteStateSource.t SharedBackend.t.
Proof.
  split; intros d; intros; simpl.
  - by apply wt_get_account.
  - by apply wt_get_code.
  - by apply wt_get_storage.
  - by apply wt_get_block_hash.
Qed.
End remote.

Section overlay_queries.
Context {W ExtDB : Type} `{!DatabaseRef W ExtDB, !Typed W, !TypedBacking W ExtDB}.
Implicit Types (c : CacheDB.t ExtDB) (w : W).

Lemma wt_set_accounts c (m : gmap Z DbAccount.t) :
  wt c → by_address m → wt (CacheDB.set_accounts c m).
Proof. by intros (_ & ? & ?). Qed.

Lemma wt_set_storage (a : DbAccount.t) index value :
  wt a → is_u256 index → is_u256 value →
  wt (DbAccount.set_storage a index value).
Proof. intros [? ?] ? ?. split; [done|]. by apply map_Forall_insert_2. Qed.

Lemma wt_load_account c address w :
  wt c → wt w → is_address address →
  wt_out (λ p, wt p.1 ∧ wt p.2) (CacheDB.load_account c address w).
Proof.
  intros Hc Hw Haddr. pose proof Hc as (Ha & _). unfold CacheDB.load_account.
  destruct (CacheDB.accounts c !! address) as [a|] eqn:E.
  { apply wt_out_ret; [done|]. split; [|done].
    exact (by_address_lookup _ address a Ha E). }
  eapply wt_out_bind; [by apply basic_ref_wt|]. intros i w' Hw' Hi.
  apply wt_out_ret; [done|]. simpl. split; [by apply wt_from_info|].
  apply wt_set_accounts; [done|].
  apply by_address_insert; [done..|]. by apply wt_from_info.
Qed.

Lemma wt_basic_mut c address w :
  wt c → wt w → is_address address →
  wt_out (λ p, wt p.1 ∧ wt p.2) (CacheDB.basic_mut c address w).
Proof.
  intros Hc Hw Haddr. unfold CacheDB.basic_mut.
  eapply wt_out_bind; [by apply wt_load_account|].
  intros [a c'] w' Hw' [Ha Hc']. apply wt_out_ret; [done|].
  split; [by apply wt_get_info|done].
Qed.

Lemma wt_code_by_hash_mut c hash w :
  wt c → wt w → is_u256 hash →
  wt_out (λ p, wt p.1 ∧ wt p.2) (CacheDB.code_by_hash_mut c hash w).
Proof.
  intros Hc Hw Hh. pose proof Hc as (Ha & Hcs & Hb).
  unfold CacheDB.code_by_hash_mut.
  destruct (CacheDB.contracts c !! hash) as [code|] eqn:E.
  { apply wt_out_ret; [done|]. split; [|done]. apply (Hcs _ _ E). }
  eapply wt_out_bind; [by apply code_by_hash_ref_wt|]. intros code w' Hw' Hcode.
  apply wt_out_ret; [done|]. split; [done|]. split; [done|]. split; [|done].
  by apply map_Forall_insert_2.
Qed.

Lemma wt_block_hash_mut c number w :
  wt c → wt w → is_u256 number →
  wt_out (λ p, is_u256 p.1 ∧ wt p.2) (CacheDB.block_hash_mut c number w).
Proof.
  intros Hc Hw Hn. pose proof Hc as (Ha & Hcs & Hb).
  unfold CacheDB.block_hash_mut.
  destruct (CacheDB.block_hashes c !! number) as [h|] eqn:E.
  { apply wt_out_ret; [done|]. split; [|done]. apply (Hb _ _ E). }
  eapply wt_out_bind; [by apply block_hash_ref_wt|]. intros h w' Hw' Hh.
  apply wt_out_ret; [done|]. split; [done|]. split; [done|]. split; [done|].
  by apply map_Forall_insert_2.
Qed.

Lemma wt_storage_mut c address index w :
  wt c → wt w → is_address address → is_u256 index →
  wt_out (λ p, is_u256 p.1 ∧ wt p.2) (CacheDB.storage_mut c address index w).
Proof.
  intros Hc Hw Haddr Hidx. pose proof Hc as (Ha & Hcs & Hb).
  unfold CacheDB.storage_mut.
  destruct (CacheDB.accounts c !! address) as [a|] eqn:E.
  - pose proof (by_address_lookup _ address a Ha E) as Hwa.
    destruct (DbAccount.storage a !! index) as [v|] eqn:Ev.
    { apply wt_out_ret; [done|]. split; [|done]. apply (proj2 Hwa _ _ Ev). }
    destruct (is_storage_known _);
      [apply wt_out_ret; [done|]; split; [apply is_u256_0|done]|].
    eapply wt_out_bind; [by apply storage_ref_wt|]. intros v w' Hw' Hv.
    apply wt_out_ret; [done|]. split; [done|].
    apply wt_set_accounts; [done|].
    apply by_address_insert; [done..|]. by apply wt_set_storage.
  - eapply wt_out_bind; [by apply basic_ref_wt|]. intros i w' Hw' Hi.
    destruct i as [i|].
    + eapply wt_out_bind; [by apply storage_ref_wt|]. intros v w2 Hw2 Hv.
      apply wt_out_ret; [done|]. split; [done|].
      apply wt_set_accounts; [done|]. apply by_address_insert; [done..|].
      apply wt_set_storage; [|done..]. by apply (wt_from_info (Some i)).
    + apply wt_out_ret; [done|]. split; [apply is_u256_0|].
      apply wt_set_accounts; [done|]. apply by_address_insert; [done..|].
      by apply (wt_from_info None).
Qed.

(** The read-only queries of the overlay. *)
Lemma wt_basic_ref c address w :
  wt c → wt w → is_address address → wt_out wt (basic_ref c address w).
Proof.
  intros Hc Hw Haddr. pose proof Hc as (Ha & _). simpl.
  destruct (CacheDB.accounts c !! address) as [a|] eqn:E;
    [|by apply basic_ref_wt].
  apply wt_out_ret; [done|].
  exact (wt_get_info a (by_address_lookup _ address a Ha E)).
Qed.

Lemma wt_code_by_hash_ref c hash w :
  wt c → wt w → is_u256 hash → wt_out wt (code_by_hash_ref c hash w).
Proof.
  intros Hc Hw Hh. pose proof Hc as (_ & Hcs & _). simpl.
  destruct (CacheDB.contracts c !! hash) as [code|] eqn:E;
    [|by apply code_by_hash_ref_wt].
  apply wt_out_ret; [done|]. apply (Hcs _ _ E).
Qed.

Lemma wt_storage_ref c address index w :
  wt c → wt w → is_address address → is_u256 index →
  wt_out is_u256 (storage_ref c address index w).
Proof.
  intros Hc Hw Haddr Hidx. pose proof Hc as (Ha & _). simpl.
  destruct (CacheDB.accounts c !! address) as [a|] eqn:E;
    [|by apply storage_ref_wt].
  pose proof (by_address_lookup _ address a Ha E) as Hwa.
  destruct (DbAccount.storage a !! index) as [v|] eqn:Ev.
  { apply wt_out_ret; [done|]. apply (proj2 Hwa _ _ Ev). }
  destruct (is_storage_known _); [|by apply storage_ref_wt].
  apply wt_out_ret; [done|apply is_u256_0].
Qed.

Lemma wt_block_hash_ref c number w :
  wt c → wt w → is_u256 number → wt_out is_u256 (block_hash_ref c number w).
Proof.
  intros Hc Hw Hn. pose proof Hc as (_ & _ & Hb). simpl.
  destruct (CacheDB.block_hashes c !! number) as [h|] eqn:E;
    [|by apply block_hash_ref_wt].
  apply wt_out_ret; [done|]. apply (Hb _ _ E).
Qed.
End overlay_queries.

Section facade.
Context `{!Transport} `{!TypedTransport}.
Implicit Types (self : ForkedDatabase.t) (sh : Shared) (f : Family).
Implicit Types (reg : Snapshots.t ForkDbSnapshot.t) (s : ForkDbSnapshot.t).

Lemma wt_insert reg s :
  wt reg → wt s →
  is_u256 (Snapshots.insert reg s).1 ∧ wt (Snapshots.insert reg s).2.
Proof.
  intros [Hwf Hall] Hs. split; [apply Hwf|].
  split; [by apply Snapshots.insert_wf|].
  rewrite Snapshots.insert_eq. simpl. by apply map_Forall_insert_2.
Qed.

Lemma wt_remove reg i reg' :
  wt reg → outcome_state (Snapshots.remove reg i) = Some reg' → wt reg'.
Proof.
  intros [Hwf Hall] Hrm. split; [by eapply Snapshots.remove_wf|].
  intros k x Hx. apply (Hall k x).
  by eapply lookup_weaken, Snapshots.remove_subseteq.
Qed.

Lemma wt_removed reg i s reg' :
  wt reg → Snapshots.remove reg i = Returned (Some s) reg' → wt s.
Proof.
  intros [_ Hall] Hrm%Snapshots.remove_result. by apply (Hall i s).
Qed.

Lemma wt_create_snapshot self sh :
  wt self → wt sh → wt (ForkedDatabase.create_snapshot self sh).
Proof. by intros Hself [[_ Hcache] _]. Qed.

Lemma wt_insert_snapshot self sh :
  wt self → wt sh →
  is_u256 (ForkedDatabase.insert_snapshot self sh).1 ∧
  wt (ForkedDatabase.insert_snapshot self sh).2.
Proof.
  intros Hself Hsh. pose proof Hsh as [Hr Hreg]. rewrite insert_snapshot_eq.
  destruct (wt_insert (registry sh) (ForkedDatabase.create_snapshot self sh))
    as [Hid Hreg']; [done|by apply wt_create_snapshot|]. by split.
Qed.

Lemma wt_revert_snapshot self id sh st :
  wt self → wt sh →
  outcome_state (ForkedDatabase.revert_snapshot self id sh) = Some st →
  wt st.1 ∧ wt st.2.
Proof.
  intros Hself [[Hblk Hcache] Hreg]. unfold ForkedDatabase.revert_snapshot.
  pose proof (wt_remove (registry sh) id) as Hreg'.
  pose proof (wt_removed (registry sh) id) as Hs.
  destruct (Snapshots.remove _ _) as [[[l [a s b]]|] reg'|reg'|];
    intros [= <-]; simpl;
    [|by (split; [|split; [|apply Hreg']])..].
  destruct (Hs _ _ Hreg eq_refl) as [Hl (Ha & Hst & Hb)].
  split; [done|]. split; [|by apply Hreg'].
  split; [done|]. simpl. by rewrite !hm_extend_clear.
Qed.

Lemma wt_reset self url block sh :
  wt self → wt sh → is_u64 block →
  wt (ForkedDatabase.reset self url block sh).1.2 ∧
  wt (ForkedDatabase.reset self url block sh).2.
Proof.
  intros Hself [[Hblk Hcache] Hreg] Hblock. unfold ForkedDatabase.reset.
  unfold RemoteStateSource.set_pinned_block.
  destruct (resolve_block block); simpl; [|done].
  split; [apply wt_CacheDB_new|]. split; [|done]. split; [done|].
  by repeat split.
Qed.

(** A query of [Database]: the overlay of the database that it leaves is
    the overlay that the query of the overlay returns. *)
Lemma wt_told_mut {A} (P : A → Prop) (wrap : Result DatabaseError A → Answer)
    self (m : SE RemoteStateSource.t DatabaseError
                (A * CacheDB.t SharedBackend.t)) r :
  wt self → (∀ x, P x → wt (wrap (Ok x))) → (∀ e, wt (wrap (Err e))) →
  wt_out (λ p, P p.1 ∧ wt p.2) (m r) →
  let res :=
    told_mut wrap self
      (se_map (λ p, (p.1, ForkedDatabase.set_cache_db self p.2)) m r) in
  wt res.1.1 ∧ wt res.1.2 ∧ wt res.2.
Proof.
  intros Hself Hok Herr. unfold wt_out, told_mut, se_map, se_bind, se_ret.
  destruct (m r) as [[[x c]|e] r']; simpl; [|by intros [? _]].
  intros [? [? ?]]. auto.
Qed.

Lemma wt_told_ref {A} (P : A → Prop) (wrap : Result DatabaseError A → Answer)
    self (res : Result DatabaseError A * RemoteStateSource.t) :
  wt self → (∀ x, P x → wt (wrap (Ok x))) → (∀ e, wt (wrap (Err e))) →
  wt_out P res →
  wt (told_ref wrap self res).1.1 ∧ wt (told_ref wrap self res).1.2 ∧
  wt (told_ref wrap self res).2.
Proof.
  intros Hself Hok Herr. unfold wt_out, told_ref.
  destruct res as [[x|e] r']; simpl; intros [? ?]; auto.
Qed.

(** Every query, of either interface, answers within the machine types and
    leaves the overlay and the remote source well typed. *)
Lemma wt_ask mutable self q r :
  wt self → wt r → wt_query q →
  wt (ask mutable self q r).1.1 ∧ wt (ask mutable self q r).1.2 ∧
  wt (ask mutable self q r).2.
Proof.
  intros Hself Hr Hq. destruct mutable, q as [a|h|a i|n]; simpl in Hq;
    try destruct Hq as [Ha Hi]; unfold ask.
  - apply (wt_told_mut wt); [done..|]. by apply wt_basic_mut.
  - apply (wt_told_mut wt); [done..|]. by apply wt_code_by_hash_mut.
  - apply (wt_told_mut is_u256); [done..|]. by apply wt_storage_mut.
  - apply (wt_told_mut is_u256); [done..|]. by apply wt_block_hash_mut.
  - apply (wt_told_ref wt); [done..|].
    by apply (wt_basic_ref (ForkedDatabase.cache_db self)).
  - apply (wt_told_ref wt); [done..|].
    by apply (wt_code_by_hash_ref (ForkedDatabase.cache_db self)).
  - apply (wt_told_ref is_u256); [done..|].
    by apply (wt_storage_ref (ForkedDatabase.cache_db self)).
  - apply (wt_told_ref is_u256); [done..|].
    by apply (wt_block_hash_ref (ForkedDatabase.cache_db self)).
Qed.

Lemma wt_set_branch f b self sh :
  wt f → wt self → wt sh → wt (set_branch f b self sh).
Proof. intros [Hb _] Hself Hsh. split; [by apply Forall_insert|done]. Qed.
End facade.

(** ** Theorems *)

Section properties.
Context `{!Transport} `{!TypedTransport}.
Implicit Types (self : ForkedDatabase.t) (sh : Shared) (f : Family).

(** Claim C16. Type preservation: when the network answers within the machine
    types, every call of a method by a clone (clone, commit, any query,
    insert or revert of a snapshot, reset) with well typed arguments on a
    well typed family leaves a well typed family, also when the call
    panics, and tells the caller a well typed value.  In particular every
    balance, storage word, hash and snapshot identifier of the model stays a
    U256, every nonce a u64, every key of an account map an address, and
    the registry keeps its invariant. *)
Theorem act_preserves_types f b a o f' :
  wt f → wt_action a → act b a f = Some o → outcome_state o = Some f' →
  wt f' ∧ ∀ obs, o = Returned obs f' → wt obs.
Proof.
  intros Hf Ha. pose proof Hf as [Hbs Hsh]. unfold act.
  destruct (branches f !! b) as [self|] eqn:Hb; [|done].
  pose proof (Forall_lookup_1 _ _ _ _ Hbs Hb) as Hself.
  intros [= <-]. destruct a; cbn [wt_action] in *.
  - intros [= <-]. split; [|by intros ? [= <-]].
    split; [|done]. apply Forall_app. split; [done|]. by apply Forall_singleton.
  - intros [= <-]. split; [|by intros ? [= <-]].
    apply wt_set_branch; [done| |done]. by apply wt_commit.
  - destruct Hsh as [Hr Hreg].
    pose proof (wt_ask mutable self q (remote (shared f)) Hself Hr Ha)
      as (Hans & Hself' & Hr').
    destruct (ask _ _ _ _) as [[ans self'] r']. cbn [fst snd] in *.
    intros [= <-]. split; [by apply wt_set_branch|by intros ? [= <-]].
  - pose proof (wt_insert_snapshot self (shared f) Hself Hsh) as [Hid Hsh'].
    intros [= <-].
    split; [apply wt_set_branch; [done|done|exact Hsh']|].
    intros ? [= <-]. exact Hid.
  - pose proof (wt_revert_snapshot self id (shared f)) as Hrev.
    destruct (ForkedDatabase.revert_snapshot _ _ _) as [ok st|st|];
      intros [= <-]; destruct (Hrev st Hself Hsh eq_refl);
      (split; [by apply wt_set_branch|intros ? [=]; by subst]).
  - pose proof (wt_reset self url block_number (shared f) Hself Hsh Ha)
      as [Hself' Hsh'].
    destruct (ForkedDatabase.reset _ _ _ _) as [[r self'] sh'].
    cbn [fst snd] in *.
    intros [= <-]. split; [by apply wt_set_branch|by intros ? [= <-]].
Qed.
End properties.

(** ** A family over a network that answers within the machine types *)

Module TypedFamily.

(** A network that knows one account, one storage word and one hash. *)
#[local] Instance chain : Transport :=
  {| fetch_account _ _ := Ok (Example.acct 7);
     fetch_storage _ _ _ := Ok 1;
     fetch_code _ := Ok [];
     fetch_block_hash _ := Ok 5;
     resolve_block _ := Ok tt |}.

#[local] Instance chain_typed : TypedTransport.
Proof.
  split; simpl; intros; simplify_eq; apply (bool_decide_unpack _);
    vm_compute; exact I.
Qed.

Lemma family_50_typed : wt TwoBranches.family_50.
Proof. apply (bool_decide_unpack _). vm_compute. exact I. Defined.

Lemma act_preserves_types_witness :
  ∃ f',
    act 1 (Ask true (QStorage 8 3)) TwoBranches.family_50
      = Some (Returned (Told (WordAnswer (Ok 1))) f') ∧
    wt f' ∧
    ∀ obs,
      Returned (Told (WordAnswer (Ok 1))) f' = Returned obs f' → wt obs.
Proof.
  eexists. split; [by vm_compute|].
  eapply (act_preserves_types TwoBranches.family_50 1 (Ask true (QStorage 8 3)));
    [exact family_50_typed|apply (bool_decide_unpack _); vm_compute; exact I|
     by vm_compute|done].
Defined.
End TypedFamily.
