(* ===== verification/StateDiff.v ===== *)
(** * State diffs: merging traces and extracting pools

    Translation of state_diff.rs.

    - [get_from_txs] (lines 56-105): asks the node for the state-diff traces
      of a list of transactions and merges them into one map that keeps, for
      every address, the diff of the first trace that mentions it.  The
      result is [None] when the node fails and in no other case.
    - [extract_arb_pools] (lines 107-180) and [extract_sandwich_pools]
      (lines 182-222): walk the pools whose address has a state diff, in
      ascending address order, and classify each by the direction in which a
      balance slot changed.  The loops leave early in three ways, which the
      model keeps apart: [?] on a missing entry makes the whole function
      return [None], [break] ends the loop and keeps what was collected,
      [continue] skips the pool.
    - [to_cache_db] (lines 224-293): builds a cache database over [EmptyDB]
      that holds, for every address of a diff, the account as the node
      reports it and, for every slot that changed or died, the value before
      the transactions.

    The node (RPC calls), the hash functions and the conversion of a pool
    are given by the classes [Provider] and [Env].  The types [Diff],
    [AccountDiff], [BlockTrace] and [Pool] belong to libraries that the
    source only uses; they are modelled with the fields that the source
    reads.

    After the translation the file states what each function is to compute
    ([first_diff], [Diff.rose], [tradable], [arb_entry], [arb_breaks],
    [expected_account], [pre_account], [pre_slot], written without the
    functions they specify), proves
    the lemmas on the loops, and states the theorems.  Module [Scenario]
    holds a concrete node and concrete pools on which the theorems are
    applied. *)

From stdpp Require Import gmap list sorting.
From Stdlib Require Import ZArith Lia.
From S2P Require Import Prelude Revm.

#[local] Open Scope Z_scope.
#[local] Open Scope se_scope.
#[local] Set Warnings "-clear-no-such-hyp".

(** ** The types of the tracing interface *)

Module Diff.
Inductive t (T : Type) : Type :=
| Same
| Born (v : T)
| Died (v : T)
| Changed (from to : T).
Arguments Same {T}.
Arguments Born {T} v.
Arguments Died {T} v.
Arguments Changed {T} from to.

(** The value before the transactions, where the diff tells it: it does not
    for a value that was born, nor for one that stayed the same. *)
Definition before {T : Type} (d : t T) : option T :=
  match d with
  | Changed from _ => Some from
  | Died v => Some v
  | Born _ | Same => None
  end.

(** The value after the transactions, where the diff tells it. *)
Definition after {T : Type} (d : t T) : option T :=
  match d with
  | Changed _ to => Some to
  | Born v => Some v
  | Died _ | Same => None
  end.

(** Whether a number rose: the value after is above the value before.  Only
    a diff that tells both values has a direction. *)
Definition rose (d : t Z) : option bool :=
  from ← before d; to ← after d; Some (bool_decide (to > from)%Z).
End Diff.

Module AccountDiff.
Record t : Type :=
  { balance : Diff.t Z;
    nonce : Diff.t Z;
    code : Diff.t Bytecode;
    storage : gmap Z (Diff.t Z) }.
End AccountDiff.

Module BlockTrace.
Record t : Type := { state_diff : option (gmap Z AccountDiff.t) }.
End BlockTrace.

Module Pool.
Record t : Type :=
  { address : Address; token_0 : Address; token_1 : Address;
    swap_fee : Z; pool_variant : Z }.

#[global] Instance eq_dec : EqDecision t.
Proof. solve_decision. Defined.
End Pool.

(** The error of an RPC call. *)
Inductive ProviderError : Type :=
| RpcError (code : Z).

(** The node. *)
Class Provider : Type :=
  { trace_call_many :
      list Z → Z → Result ProviderError (list BlockTrace.t);
    get_transaction_count : Address → Z → Result ProviderError Z;
    get_balance : Address → Z → Result ProviderError Z;
    get_code : Address → Z → Result ProviderError Bytecode }.

(** What the analysis computes without the node: the address of the wrapped
    native token, the storage key of a balance ([keccak256] of the encoded
    holder and mapping slot), the hash of a token pair as an address, the
    search for the mapping slot of a token, the conversion of a pool, and the
    hash of bytecode. *)
Class Env (RustyPool : Type) : Type :=
  { WETH_ADDRESS : Address;
    balance_key : Address → U256 → B256;
    pair_hash : Address → Address → Address;
    slot_finder : Address → Address → option U256;
    to_rp : Pool.t → RustyPool;
    code_hash_of : Bytecode → B256 }.

(** ** [TradablePool] *)

Module TradablePool.
Section defs.
Context {RustyPool : Type}.

Record t : Type := { pool : RustyPool; is_weth_input : bool }.

Definition new (pool0 : RustyPool) (is_weth_input0 : bool) : t :=
  {| pool := pool0; is_weth_input := is_weth_input0 |}.
End defs.
Arguments t RustyPool : clear implicits.
End TradablePool.

(** ** [get_from_txs] *)

Section get_from_txs.
Context `{!Provider}.

(** The body of the [for_each]: a vacant entry is filled, an occupied one is
    left alone. *)
Definition merge_entry (merged_state_diffs : gmap Z AccountDiff.t)
    (entry : Z * AccountDiff.t) : gmap Z AccountDiff.t :=
  match merged_state_diffs !! entry.1 with
  | None => <[entry.1 := entry.2]> merged_state_diffs
  | Some _ => merged_state_diffs
  end.

(** The diffs of all traces, in the order of the traces and, within a trace,
    of the addresses. *)
Definition all_entries (block_traces : list BlockTrace.t)
    : list (Z * AccountDiff.t) :=
  block_traces ≫= λ bt,
    match BlockTrace.state_diff bt with
    | Some sd => btree_iter sd
    | None => []
    end.

Definition get_from_txs (meats : list Z) (block_num : Z)
    : option (gmap Z AccountDiff.t) :=
  match trace_call_many meats block_num with
  | Err _ => None
  | Ok block_traces => Some (foldl merge_entry ∅ (all_entries block_traces))
  end.
End get_from_txs.

(** The diff of an address in the first trace that mentions it. *)
Fixpoint first_diff (address : Address) (block_traces : list BlockTrace.t)
    : option AccountDiff.t :=
  match block_traces with
  | [] => None
  | bt :: rest =>
      match BlockTrace.state_diff bt ≫= (λ sd, sd !! address) with
      | Some d => Some d
      | None => first_diff address rest
      end
  end.

(** ** The pool loops *)

(** What one iteration of a loop does to the loop. *)
Inductive Flow (A : Type) : Type :=
| Next (acc : A)
| Break (acc : A)
| ReturnNone.
Arguments Next {A} acc.
Arguments Break {A} acc.
Arguments ReturnNone {A}.

(** A [for] loop over a list whose body may [continue], [break] or return
    [None] from the function. *)
Fixpoint for_each {A B : Type} (body : B → A → Flow A) (l : list B) (acc : A)
    : option A :=
  match l with
  | [] => Some acc
  | x :: l =>
      match body x acc with
      | Next acc => for_each body l acc
      | Break acc => Some acc
      | ReturnNone => None
      end
  end.

(** [to > from] on the two sides of a changed slot. *)
Definition increased (d : Diff.t Z) : option bool :=
  match d with
  | Diff.Changed from to => Some (bool_decide (from < to))
  | _ => None
  end.

Section pools.
Context {RustyPool : Type} `{!Env RustyPool}.

(** The pools whose address has a state diff, in ascending address order. *)
Definition touched_pools (state_diffs : gmap Z AccountDiff.t)
    (all_pools : gmap Z Pool.t) : list Pool.t :=
  omap (λ e, all_pools !! e) (btree_keys state_diffs).

(** One iteration of the loop of [extract_sandwich_pools]. *)
Definition sandwich_body (weth_state_diff : gmap Z (Diff.t Z)) (pool : Pool.t)
    (tradable_pools : list (TradablePool.t RustyPool))
    : Flow (list (TradablePool.t RustyPool)) :=
  let storage_key := balance_key (Pool.address pool) 3 in
  match weth_state_diff !! storage_key with
  | None => ReturnNone
  | Some d =>
      match increased d with
      | Some is_weth_input =>
          let rp := to_rp pool in
          Next (tradable_pools ++ [TradablePool.new rp is_weth_input])
      | None => Next tradable_pools
      end
  end.

Definition extract_sandwich_pools (state_diffs : gmap Z AccountDiff.t)
    (all_pools : gmap Z Pool.t) : option (list (TradablePool.t RustyPool)) :=
  let touched_pools := touched_pools state_diffs all_pools in
  match state_diffs !! WETH_ADDRESS with
  | None => None
  | Some weth =>
      for_each (sandwich_body (AccountDiff.storage weth)) touched_pools []
  end.

(** The two lists that [extract_arb_pools] fills; a map with the one entry
    [pool ↦ others] is the pair [(pool, others)]. *)
Definition ArbPools : Type := list (Pool.t * list Pool.t).

(** One iteration of the loop of [extract_arb_pools]. *)
Definition arb_body (state_diffs : gmap Z AccountDiff.t)
    (hash_pools : gmap Z (list Pool.t)) (pool : Pool.t)
    (acc : ArbPools * ArbPools) : Flow (ArbPools * ArbPools) :=
  let token0 := Pool.token_0 pool in
  let token1 := Pool.token_1 pool in
  match state_diffs !! token0 with
  | None => ReturnNone
  | Some token0_diff =>
      let token0_state_diff := AccountDiff.storage token0_diff in
      match slot_finder token0 (Pool.address pool) with
      | None => Break acc
      | Some slot =>
          let storage_key := balance_key (Pool.address pool) slot in
          match token0_state_diff !! storage_key with
          | None => ReturnNone
          | Some d =>
              match increased d with
              | None => Break acc
              | Some storage_diff =>
                  match hash_pools !! pair_hash token0 token1 with
                  | None => ReturnNone
                  | Some pools =>
                      let vec_pool :=
                        filter (λ p, Pool.address p ≠ Pool.address pool) pools in
                      let pool_map := (pool, vec_pool) in
                      if storage_diff
                      then Next (acc.1 ++ [pool_map], acc.2)
                      else Next (acc.1, acc.2 ++ [pool_map])
                  end
              end
          end
      end
  end.

Definition extract_arb_pools (state_diffs : gmap Z AccountDiff.t)
    (all_pools : gmap Z Pool.t) (hash_pools : gmap Z (list Pool.t))
    : option (ArbPools * ArbPools) :=
  let touched_pools := touched_pools state_diffs all_pools in
  for_each (arb_body state_diffs hash_pools) touched_pools ([], []).
End pools.

(** ** [to_cache_db] *)

(** The value of a slot before the transactions, for the diffs that need
    one: a changed slot had its [from] value, a slot that died had its value;
    a slot that was born or stayed the same is not written. *)
Definition slot_value (storage_diff : Diff.t Z) : option U256 :=
  match storage_diff with
  | Diff.Changed from _ => Some from
  | Diff.Died v => Some v
  | _ => None
  end.

Section to_cache_db.
Context {RustyPool : Type} `{!Env RustyPool} `{!Provider} `{!Keccak}.

(** The future of one address: nonce, balance and code, in this order; the
    first call that fails ends it. *)
Definition fetch_account_data (address : Address) (block_num : Z)
    : Result ProviderError (Z * Z * Bytecode) :=
  match get_transaction_count address block_num with
  | Err e => Err e
  | Ok nonce =>
      match get_balance address block_num with
      | Err e => Err e
      | Ok balance =>
          match get_code address block_num with
          | Err e => Err e
          | Ok code => Ok (nonce, balance, code)
          end
      end
  end.

(** [AccountInfo::new]: the account with the hash of its code. *)
Definition account_info_new (balance nonce : Z) (code : Bytecode)
    : AccountInfo.t :=
  {| AccountInfo.balance := balance; AccountInfo.nonce := nonce;
     AccountInfo.code_hash := code_hash_of code;
     AccountInfo.code := Some code |}.

(** The body of the [for_each] over the storage of a diff.  [None] is the
    panic of [unwrap]. *)
Definition write_slot (address : Address)
    (cache_db : option (CacheDB.t EmptyDB)) (entry : Z * Diff.t Z)
    : option (CacheDB.t EmptyDB) :=
  match cache_db with
  | None => None
  | Some cache_db =>
      match slot_value entry.2 with
      | None => Some cache_db
      | Some v =>
          match CacheDB.insert_account_storage cache_db address entry.1 v tt with
          | (Ok r, _) => Some r.2
          | (Err _, _) => None
          end
      end
  end.

(** The body of the [while let] for a future that succeeded.  [None] is a
    panic: of [as_u64] when the nonce does not fit 64 bits, or of
    [unwrap]. *)
Definition add_account (cache_db : CacheDB.t EmptyDB) (address : Address)
    (acc_diff : AccountDiff.t) (data : Z * Z * Bytecode)
    : option (CacheDB.t EmptyDB) :=
  let '(nonce, balance, code) := data in
  if decide (nonce ≤ U64_MAX) then
    let info := account_info_new balance nonce code in
    let cache_db := CacheDB.insert_account_info cache_db address info in
    foldl (write_slot address) (Some cache_db)
      (btree_iter (AccountDiff.storage acc_diff))
  else None.

(** The [while let] loop over the futures in the order in which they
    complete.  [None] is a panic. *)
Fixpoint collect (completed : list (Z * AccountDiff.t)) (block_num : Z)
    (cache_db : CacheDB.t EmptyDB)
    : option (Result ProviderError (CacheDB.t EmptyDB)) :=
  match completed with
  | [] => Some (Ok cache_db)
  | (address, acc_diff) :: rest =>
      match fetch_account_data address block_num with
      | Err e => Some (Err e)
      | Ok data =>
          match add_account cache_db address acc_diff data with
          | None => None
          | Some cache_db => collect rest block_num cache_db
          end
      end
  end.

(** [to_cache_db], for a given order of completion of the futures, which is
    a permutation of the entries of [state]. *)
Definition to_cache_db_in (completed : list (Z * AccountDiff.t))
    (block_num : Z) : option (Result ProviderError (CacheDB.t EmptyDB)) :=
  collect completed block_num (CacheDB.new EmptyDB_default).

(** [to_cache_db] when the futures complete in the order in which they were
    pushed. *)
Definition to_cache_db (state : gmap Z AccountDiff.t) (block_num : Z)
    : option (Result ProviderError (CacheDB.t EmptyDB)) :=
  to_cache_db_in (btree_iter state) block_num.
End to_cache_db.

(** ** What the functions are to compute *)

Section specs.
Context {RustyPool : Type} `{!Env RustyPool} `{!Provider} `{!Keccak}.
Implicit Types (state_diffs : gmap Z AccountDiff.t) (pool : Pool.t)
  (hash_pools : gmap Z (list Pool.t)) (address : Address)
  (acc_diff : AccountDiff.t).

(** What the sandwich loop makes of one pool. *)
Definition tradable (weth_state_diff : gmap Z (Diff.t Z)) pool
    : option (TradablePool.t RustyPool) :=
  d ← weth_state_diff !! balance_key (Pool.address pool) 3;
  is_weth_input ← Diff.rose d;
  Some (TradablePool.new (to_rp pool) is_weth_input).

(** What the arbitrage loop makes of one pool that it classifies: the
    direction, and the pool with the other pools of its pair. *)
Definition arb_entry state_diffs hash_pools pool
    : option (bool * (Pool.t * list Pool.t)) :=
  token0_diff ← state_diffs !! Pool.token_0 pool;
  slot ← slot_finder (Pool.token_0 pool) (Pool.address pool);
  d ← AccountDiff.storage token0_diff
         !! balance_key (Pool.address pool) slot;
  storage_diff ← Diff.rose d;
  pools ← hash_pools !! pair_hash (Pool.token_0 pool) (Pool.token_1 pool);
  Some (storage_diff,
        (pool, filter (λ p, Pool.address p ≠ Pool.address pool) pools)).

(** The entries of one direction. *)
Definition classified (storage_diff : bool)
    (entries : list (bool * (Pool.t * list Pool.t))) : ArbPools :=
  snd <$> filter (λ e, e.1 = storage_diff) entries.

(** The pools on which the arbitrage loop breaks: the slot of the balance
    mapping is not found, or the balance slot has a diff that is not a
    change. *)
Definition arb_breaks state_diffs pool : Prop :=
  ∃ token0_diff, state_diffs !! Pool.token_0 pool = Some token0_diff ∧
    match slot_finder (Pool.token_0 pool) (Pool.address pool) with
    | None => True
    | Some slot =>
        ∃ d, AccountDiff.storage token0_diff
               !! balance_key (Pool.address pool) slot = Some d ∧
             Diff.rose d = None
    end.

(** What one storage diff does to the storage of the account. *)
Definition put_slot (storage : gmap Z Z) (entry : Z * Diff.t Z) : gmap Z Z :=
  match slot_value entry.2 with
  | Some v => <[entry.1 := v]> storage
  | None => storage
  end.

(** The account that [to_cache_db] is to build for an address with a diff:
    what the node reports at the block, with the storage before the
    transactions. *)
Definition expected_account address acc_diff (block_num : Z)
    : option DbAccount.t :=
  match get_transaction_count address block_num,
        get_balance address block_num, get_code address block_num with
  | Ok nonce, Ok balance, Ok code =>
      Some {| DbAccount.info :=
                {| AccountInfo.balance := balance;
                   AccountInfo.nonce := nonce;
                   AccountInfo.code_hash := code_hash_of code;
                   AccountInfo.code := Some code |};
              DbAccount.account_state := StateNone;
              DbAccount.storage :=
                omap Diff.before (AccountDiff.storage acc_diff) |}
  | _, _, _ => None
  end.

(** What the database built from a state diff is to answer.  For an account
    of the diff: what the node reports at the block.  For a slot: the value
    before the transactions where the diff tells it, and zero otherwise (a
    slot that was born, a slot that stayed the same, a slot or an account
    that the diff does not mention). *)
Definition pre_account (state : gmap Z AccountDiff.t) address (block_num : Z)
    : option AccountInfo.t :=
  acc_diff ← state !! address;
  DbAccount.info <$> expected_account address acc_diff block_num.

Definition pre_slot (state : gmap Z AccountDiff.t) address (index : U256)
    : U256 :=
  default 0
    (state !! address ≫= λ acc_diff,
       AccountDiff.storage acc_diff !! index ≫= Diff.before).

(** The future of an address succeeds, with a nonce that [as_u64] takes;
    [answered]: every future of the state diff does. *)
Definition fits address (block_num : Z) : Prop :=
  match fetch_account_data address block_num with
  | Ok (nonce, _, _) => nonce ≤ U64_MAX
  | Err _ => False
  end.

Definition answered (state : gmap Z AccountDiff.t) (block_num : Z) : Prop :=
  map_Forall (λ address _, fits address block_num) state.

#[global] Instance fits_dec address block_num :
  Decision (fits address block_num).
Proof.
  unfold fits. destruct (fetch_account_data _ _) as [[[] ]|]; apply _.
Defined.

#[global] Instance answered_dec state block_num :
  Decision (answered state block_num).
Proof. apply _. Defined.
End specs.

(** ** Lemmas *)

Section merge_lemmas.
Implicit Types (m : gmap Z AccountDiff.t) (l : list (Z * AccountDiff.t)).

Lemma foldl_merge_entry_lookup m l a :
  foldl merge_entry m l !! a =
    match m !! a with
    | Some d => Some d
    | None => first_entry a l
    end.
Proof.
  revert m. induction l as [|[k d] l IH]; intros m; simpl.
  - by destruct (m !! a).
  - rewrite IH. unfold merge_entry. simpl.
    destruct (m !! k) eqn:Hk; case_decide; simplify_eq/=.
    + by rewrite Hk.
    + done.
    + by rewrite Hk, lookup_insert_eq.
    + by rewrite lookup_insert_ne.
Qed.

Lemma first_entry_all_entries a block_traces :
  first_entry a (all_entries block_traces) = first_diff a block_traces.
Proof.
  induction block_traces as [|bt rest IH]; simpl; [done|].
  unfold all_entries in *. simpl. rewrite first_entry_app, IH.
  destruct (BlockTrace.state_diff bt) as [sd|]; simpl; [|done].
  by rewrite first_entry_btree_iter.
Qed.

(** The merged map, entry by entry. *)
Lemma merged_lookup block_traces a :
  foldl merge_entry ∅ (all_entries block_traces) !! a
    = first_diff a block_traces.
Proof.
  by rewrite foldl_merge_entry_lookup, lookup_empty, first_entry_all_entries.
Qed.

Lemma first_diff_without_diffs a block_traces :
  Forall (λ bt, default ∅ (BlockTrace.state_diff bt) = ∅) block_traces →
  first_diff a block_traces = None.
Proof.
  induction 1 as [|bt rest Hbt _ IH]; simpl; [done|].
  destruct (BlockTrace.state_diff bt) as [sd|]; simpl in *; [|done].
  by rewrite Hbt, lookup_empty.
Qed.
End merge_lemmas.

Section for_each_lemmas.
Context {A B : Type}.
Implicit Types (body : B → A → Flow A) (l : list B) (acc : A).

(** A loop whose body never leaves early runs over the whole list. *)
Lemma for_each_all_next body l acc (f : B → A → A) :
  (∀ x a, x ∈ l → body x a = Next (f x a)) →
  for_each body l acc = Some (foldl (λ a x, f x a) acc l).
Proof.
  revert acc. induction l as [|x l IH]; intros acc Hb; simpl; [done|].
  rewrite Hb by apply list_elem_of_here. apply IH.
  intros y a Hy. apply Hb. by apply list_elem_of_further.
Qed.

(** A [break] ends the loop: what follows the pool that broke is not
    looked at. *)
Lemma for_each_break body l1 x l2 acc acc1 acc2 :
  for_each body l1 acc = Some acc1 →
  (∀ y a, y ∈ l1 → ∃ a', body y a = Next a') →
  body x acc1 = Break acc2 →
  for_each body (l1 ++ x :: l2) acc = Some acc2.
Proof.
  revert acc. induction l1 as [|y l1 IH]; intros acc; simpl.
  - intros [= ->] _ ->. done.
  - intros Hl1 Hnext Hx.
    destruct (Hnext y acc) as [a' Ha']; [apply list_elem_of_here|].
    rewrite Ha' in *. apply IH; [done| |done].
    intros z a Hz. apply Hnext. by apply list_elem_of_further.
Qed.

(** A body that returns [None] somewhere before any break makes the loop
    return [None], whatever was collected. *)
Lemma for_each_return_none body l1 x l2 acc acc1 :
  for_each body l1 acc = Some acc1 →
  (∀ y a, y ∈ l1 → ∃ a', body y a = Next a') →
  body x acc1 = ReturnNone →
  for_each body (l1 ++ x :: l2) acc = None.
Proof.
  revert acc. induction l1 as [|y l1 IH]; intros acc; simpl.
  - intros [= ->] _ ->. done.
  - intros Hl1 Hnext Hx.
    destruct (Hnext y acc) as [a' Ha']; [apply list_elem_of_here|].
    rewrite Ha' in *. apply IH; [done| |done].
    intros z a Hz. apply Hnext. by apply list_elem_of_further.
Qed.
End for_each_lemmas.

(** A pool that breaks the loop hides the pools after it. *)
Lemma for_each_stops {A B : Type} (body : B → A → Flow A) l1 x l2 acc :
  (∀ a, body x a = Break a) →
  for_each body (l1 ++ x :: l2) acc = for_each body l1 acc.
Proof.
  intros Hx. revert acc. induction l1 as [|y l1 IH]; intros acc; simpl.
  - by rewrite Hx.
  - by destruct (body y acc).
Qed.

(** In a loop that never breaks, one element that returns [None] decides the
    result. *)
Lemma for_each_none {A B : Type} (body : B → A → Flow A) l x acc :
  (∀ y a a', body y a ≠ Break a') →
  x ∈ l → (∀ a, body x a = ReturnNone) →
  for_each body l acc = None.
Proof.
  intros Hnb Hx Hnone. revert acc.
  induction l as [|y l IH]; intros acc; simpl.
  - by apply elem_of_nil in Hx.
  - apply elem_of_cons in Hx as [<-|Hx]; [by rewrite Hnone|].
    destruct (body y acc) eqn:E; [by apply IH|by apply Hnb in E|done].
Qed.

(** The comparison of the two loops gives the direction of the diff. *)
Lemma increased_rose d : increased d = Diff.rose d.
Proof.
  destruct d; [done..|]. unfold Diff.rose. simpl. f_equal.
  apply bool_decide_ext. lia.
Qed.

Section pool_lemmas.
Context {RustyPool : Type} `{!Env RustyPool}.
Implicit Types (state_diffs : gmap Z AccountDiff.t) (pool : Pool.t).

Lemma elem_of_touched_pools state_diffs (all_pools : gmap Z Pool.t) pool :
  pool ∈ touched_pools state_diffs all_pools ↔
  ∃ e, is_Some (state_diffs !! e) ∧ all_pools !! e = Some pool.
Proof.
  unfold touched_pools. rewrite list_elem_of_omap.
  by setoid_rewrite elem_of_btree_keys.
Qed.

Lemma sandwich_loop weth_state_diff (l : list Pool.t) acc :
  (∀ pool, pool ∈ l →
     is_Some (weth_state_diff !! balance_key (Pool.address pool) 3)) →
  for_each (sandwich_body weth_state_diff) l acc =
    Some (acc ++ omap (tradable weth_state_diff) l).
Proof.
  revert acc. induction l as [|p l IH]; intros acc Hl; simpl.
  - by rewrite app_nil_r.
  - destruct (Hl p) as [d Hd]; [apply list_elem_of_here|].
    unfold sandwich_body, tradable. rewrite Hd, increased_rose. simpl.
    destruct (Diff.rose d); simpl; rewrite IH;
      try (intros q Hq; apply Hl; by apply list_elem_of_further);
      by rewrite <- ?app_assoc.
Qed.

Lemma sandwich_body_no_break weth_state_diff pool acc acc' :
  sandwich_body weth_state_diff pool acc ≠ Break acc'.
Proof.
  unfold sandwich_body.
  by destruct (weth_state_diff !! _) as [d|]; [destruct (increased d)|].
Qed.
End pool_lemmas.

Section arb_lemmas.
Context {RustyPool : Type} `{!Env RustyPool}.
Implicit Types (state_diffs : gmap Z AccountDiff.t) (pool : Pool.t)
  (hash_pools : gmap Z (list Pool.t)).

Lemma arb_body_entry state_diffs hash_pools pool acc e :
  arb_entry state_diffs hash_pools pool = Some e →
  arb_body state_diffs hash_pools pool acc =
    Next (if e.1 then (acc.1 ++ [e.2], acc.2) else (acc.1, acc.2 ++ [e.2])).
Proof.
  unfold arb_entry, arb_body. intros He.
  repeat (case_match; rewrite ?increased_rose in *; simplify_eq/=); done.
Qed.

Lemma arb_body_breaks state_diffs hash_pools pool acc :
  arb_breaks state_diffs pool →
  arb_body state_diffs hash_pools pool acc = Break acc.
Proof.
  intros (td & Htd & Hb). unfold arb_body. rewrite Htd.
  destruct (slot_finder _ _) as [slot|]; [|done].
  destruct Hb as (d & -> & Hd). by rewrite increased_rose, Hd.
Qed.

Lemma classified_cons b e entries :
  classified b (e :: entries) =
    if decide (e.1 = b) then e.2 :: classified b entries
    else classified b entries.
Proof. unfold classified. rewrite filter_cons. by case_decide. Qed.

Lemma arb_loop state_diffs hash_pools (l : list Pool.t) acc :
  (∀ pool, pool ∈ l → is_Some (arb_entry state_diffs hash_pools pool)) →
  for_each (arb_body state_diffs hash_pools) l acc =
    let entries := omap (arb_entry state_diffs hash_pools) l in
    Some (acc.1 ++ classified true entries, acc.2 ++ classified false entries).
Proof.
  revert acc. induction l as [|p l IH]; intros [b0 b1] Hl; simpl.
  - unfold classified. simpl. by rewrite !app_nil_r.
  - destruct (Hl p) as [[b e] He]; [apply list_elem_of_here|].
    rewrite (arb_body_entry _ _ _ _ _ He), He. simpl.
    rewrite !classified_cons. simpl.
    destruct b; rewrite IH;
      try (intros q Hq; apply Hl; by apply list_elem_of_further);
      simpl; rewrite ?decide_True, ?decide_False by done;
      by rewrite <- ?app_assoc.
Qed.
End arb_lemmas.

Section to_cache_db_lemmas.
Context {RustyPool : Type} `{!Env RustyPool} `{!Provider} `{!Keccak}.
Implicit Types (cache_db : CacheDB.t EmptyDB) (address : Address)
  (acc_diff : AccountDiff.t) (l : list (Z * Diff.t Z))
  (completed : list (Z * AccountDiff.t)).

Lemma fetch_account_data_Ok address block_num nonce balance code :
  fetch_account_data address block_num = Ok (nonce, balance, code) ↔
  get_transaction_count address block_num = Ok nonce ∧
  get_balance address block_num = Ok balance ∧
  get_code address block_num = Ok code.
Proof.
  unfold fetch_account_data.
  destruct (get_transaction_count _ _), (get_balance _ _), (get_code _ _);
    naive_solver.
Qed.

(** Over [EmptyDB] a write to the storage of an account cannot fail: the
    [unwrap] does not panic. *)
Lemma write_slot_present cache_db address a entry :
  CacheDB.accounts cache_db !! address = Some a →
  write_slot address (Some cache_db) entry =
    Some (CacheDB.set_accounts cache_db
            (<[address := {| DbAccount.info := DbAccount.info a;
                             DbAccount.account_state :=
                               DbAccount.account_state a;
                             DbAccount.storage :=
                               put_slot (DbAccount.storage a) entry |}]>
               (CacheDB.accounts cache_db))).
Proof.
  intros Ha. unfold write_slot, put_slot, CacheDB.insert_account_storage,
    CacheDB.load_account.
  destruct (slot_value entry.2) as [v|]; simpl; rewrite ?Ha; simpl.
  - done.
  - f_equal. destruct cache_db as [accs ? ? ?], a; simpl in *.
    unfold CacheDB.set_accounts; simpl. f_equal.
    by rewrite insert_id.
Qed.

Lemma write_slots_present cache_db address a l :
  CacheDB.accounts cache_db !! address = Some a →
  foldl (write_slot address) (Some cache_db) l =
    Some (CacheDB.set_accounts cache_db
            (<[address := {| DbAccount.info := DbAccount.info a;
                             DbAccount.account_state :=
                               DbAccount.account_state a;
                             DbAccount.storage :=
                               foldl put_slot (DbAccount.storage a) l |}]>
               (CacheDB.accounts cache_db))).
Proof.
  revert cache_db a. induction l as [|e l IH]; intros cache_db a Ha;
    cbn [foldl].
  - f_equal. destruct cache_db, a; unfold CacheDB.set_accounts; simpl in *.
    f_equal. by rewrite insert_id.
  - rewrite (write_slot_present _ _ _ _ Ha).
    erewrite IH by (simpl; apply lookup_insert_eq). simpl.
    unfold CacheDB.set_accounts; simpl. by rewrite insert_insert_eq.
Qed.

(** The storage after the writes of a list of diffs without duplicate
    slots. *)
Lemma foldl_put_slot_lookup (storage : gmap Z Z) l slot :
  NoDup l.*1 →
  foldl put_slot storage l !! slot =
    match first_entry slot l ≫= slot_value with
    | Some v => Some v
    | None => storage !! slot
    end.
Proof.
  revert storage. induction l as [|[k d] l IH]; intros storage; simpl;
    [done|].
  intros [Hk Hl]%NoDup_cons. rewrite IH by done. unfold put_slot. simpl.
  case_decide as Hks; simplify_eq/=.
  - apply first_entry_None in Hk. rewrite Hk. simpl.
    destruct (slot_value d); [by rewrite lookup_insert_eq|done].
  - destruct (first_entry slot l ≫= slot_value); [done|].
    destruct (slot_value d); [by rewrite lookup_insert_ne|done].
Qed.

(** The storage that the writes build is the storage before the
    transactions. *)
Lemma foldl_put_slot_btree_iter (m : gmap Z (Diff.t Z)) :
  foldl put_slot ∅ (btree_iter m) = omap Diff.before m.
Proof.
  apply map_eq. intros slot.
  rewrite foldl_put_slot_lookup by apply btree_iter_NoDup.
  rewrite first_entry_btree_iter, lookup_omap, lookup_empty.
  by destruct (m !! slot) as [[]|].
Qed.

Lemma add_account_Some cache_db address acc_diff nonce balance code :
  nonce ≤ U64_MAX →
  let old := default DbAccount.default (CacheDB.accounts cache_db !! address) in
  ∃ cache_db',
    add_account cache_db address acc_diff (nonce, balance, code)
      = Some cache_db' ∧
    CacheDB.accounts cache_db' =
      <[address := {| DbAccount.info := account_info_new balance nonce code;
                      DbAccount.account_state := DbAccount.account_state old;
                      DbAccount.storage :=
                        foldl put_slot (DbAccount.storage old)
                          (btree_iter (AccountDiff.storage acc_diff)) |}]>
        (CacheDB.accounts cache_db) ∧
    CacheDB.contracts cache_db' =
      CacheDB.insert_contract (account_info_new balance nonce code)
        (CacheDB.contracts cache_db) ∧
    CacheDB.block_hashes cache_db' = CacheDB.block_hashes cache_db.
Proof.
  intros Hn old. unfold add_account. rewrite decide_True by done.
  erewrite write_slots_present by (simpl; apply lookup_insert_eq).
  eexists. split; [done|]. simpl. by rewrite insert_insert_eq.
Qed.


Lemma add_account_None cache_db address acc_diff nonce balance code :
  add_account cache_db address acc_diff (nonce, balance, code) = None ↔
  U64_MAX < nonce.
Proof.
  split.
  - intros Hnone. destruct (decide (nonce ≤ U64_MAX)) as [Hn|]; [|lia].
    destruct (add_account_Some cache_db address acc_diff _ balance code Hn)
      as (? & Heq & _).
    congruence.
  - intros Hn. unfold add_account. rewrite decide_False by lia. done.
Qed.

(** The accounts after the loop, when it ends well: every address of the
    list has the account built from its diff and the node's answers; the
    others are as before. *)
Lemma collect_lookup completed block_num cache_db db address :
  NoDup completed.*1 →
  (∀ a, a ∈ completed.*1 → CacheDB.accounts cache_db !! a = None) →
  collect completed block_num cache_db = Some (Ok db) →
  CacheDB.accounts db !! address =
    match first_entry address completed with
    | Some acc_diff => expected_account address acc_diff block_num
    | None => CacheDB.accounts cache_db !! address
    end.
Proof.
  revert cache_db.
  induction completed as [|[a d] rest IH]; intros cache_db; simpl.
  - by intros _ _ [= ->].
  - intros [Ha Hrest]%NoDup_cons Hfresh.
    destruct (fetch_account_data a block_num) as [[[n b] c]|] eqn:Hf; [|done].
    destruct (decide (n ≤ U64_MAX)) as [Hn|Hn];
      [|by rewrite (proj2 (add_account_None _ _ _ _ _ _)) by lia].
    destruct (add_account_Some cache_db a d n b c Hn) as (c1 & -> & Hc1 & _).
    rewrite Hfresh in Hc1 by apply list_elem_of_here. simpl in Hc1.
    intros Hco. rewrite (IH c1 Hrest) by
      (try done; intros a' Ha'; rewrite Hc1, lookup_insert_ne by
         (by intros ->); apply Hfresh; by apply list_elem_of_further).
    case_decide as Heq; simplify_eq/=.
    + apply first_entry_None in Ha. rewrite Ha, Hc1, lookup_insert_eq.
      apply fetch_account_data_Ok in Hf as (Hn' & Hb' & Hc').
      unfold expected_account. rewrite Hn', Hb', Hc'.
      by rewrite foldl_put_slot_btree_iter.
    + destruct (first_entry address rest); [done|].
      by rewrite Hc1, lookup_insert_ne.
Qed.

(** The loop panics only where a nonce does not fit 64 bits. *)
Lemma collect_None completed block_num cache_db :
  collect completed block_num cache_db = None →
  ∃ address acc_diff nonce,
    (address, acc_diff) ∈ completed ∧
    get_transaction_count address block_num = Ok nonce ∧ U64_MAX < nonce.
Proof.
  revert cache_db.
  induction completed as [|[a d] rest IH]; intros cache_db; simpl; [done|].
  destruct (fetch_account_data a block_num) as [[[n b] c]|] eqn:Hf; [|done].
  destruct (add_account cache_db a d (n, b, c)) as [c1|] eqn:Hadd.
  - intros (a' & d' & n' & Hin & Hn')%IH.
    exists a', d', n'. split; [by apply list_elem_of_further|done].
  - intros _. apply add_account_None in Hadd.
    exists a, d, n. split; [apply list_elem_of_here|]. split; [|done].
    by apply fetch_account_data_Ok in Hf as (? & _).
Qed.

(** *** The order of completion *)

(** Whether the loop ends well does not depend on the database it starts
    from: every future has to succeed with a nonce that fits. *)
Lemma collect_ok completed block_num cache_db :
  is_Some (collect completed block_num cache_db ≫= result_ok) ↔
  Forall (λ e, ∃ nonce balance code,
            fetch_account_data e.1 block_num = Ok (nonce, balance, code) ∧
            nonce ≤ U64_MAX) completed.
Proof.
  revert cache_db.
  induction completed as [|[a d] rest IH]; intros cache_db; simpl.
  - split; [constructor|by eexists].
  - rewrite Forall_cons. simpl.
    destruct (fetch_account_data a block_num) as [[[n b] c]|e] eqn:Hf.
    + destruct (decide (n ≤ U64_MAX)) as [Hn|Hn].
      * destruct (add_account_Some cache_db a d n b c Hn) as (c1 & -> & _).
        rewrite IH. naive_solver.
      * rewrite (proj2 (add_account_None _ _ _ _ _ _)) by lia. simpl.
        split; [by intros []|]. intros [(? & ? & ? & [= -> _ _] & ?) _]. lia.
    + simpl. split; [by intros []|]. by intros [(? & ? & ? & ? & _) _].
Qed.

(** The code that the loop files under a hash: the code that was there, or
    the code with this hash of one of the accounts. *)
Lemma collect_contracts completed block_num cache_db db h x :
  (∀ a1 a2 c1 c2,
     get_code a1 block_num = Ok c1 → get_code a2 block_num = Ok c2 →
     code_hash_of c1 = code_hash_of c2 → c1 = c2) →
  collect completed block_num cache_db = Some (Ok db) →
  CacheDB.contracts db !! h = Some x ↔
  CacheDB.contracts cache_db !! h = Some x ∨
  (CacheDB.contracts cache_db !! h = None ∧
   ∃ e, e ∈ completed ∧ get_code e.1 block_num = Ok x ∧
        x ≠ [] ∧ code_hash_of x = h).
Proof.
  intros Hinj. revert cache_db.
  induction completed as [|[a d] rest IH]; intros cache_db; simpl.
  - intros [= ->]. set_solver.
  - destruct (fetch_account_data a block_num) as [[[n b] c]|] eqn:Hf; [|done].
    destruct (decide (n ≤ U64_MAX)) as [Hn|Hn];
      [|by rewrite (proj2 (add_account_None _ _ _ _ _ _)) by lia].
    destruct (add_account_Some cache_db a d n b c Hn)
      as (c1 & -> & _ & Hc1 & _).
    apply fetch_account_data_Ok in Hf as (_ & _ & Hcode).
    intros Hco. rewrite (IH c1 Hco), Hc1, CacheDB.lookup_insert_contract.
    clear IH Hco Hc1. simpl.
    destruct (CacheDB.contracts cache_db !! h) as [y|];
      [split; intros [?|[[=] _]]; by left|].
    split.
    + intros [Hx|[_ (e & He & Hx)]]; right; (split; [done|]).
      * exists (a, d). split; [apply list_elem_of_here|].
        destruct c as [|z c]; [done|]. case_decide as Hz; [|done].
        injection Hx as <-. by simpl.
      * exists e. split; [by apply list_elem_of_further|done].
    + intros [[=]|[_ (e & [->|He]%elem_of_cons & Hx & Hne & Hh)]].
      * left. simpl in Hx. rewrite Hcode in Hx. injection Hx as ->.
        destruct x; [done|]. by rewrite decide_True.
      * destruct c as [|z c]; [right; split; [done|]; by exists e|].
        case_decide as Hz; [left|right; split; [done|]; by exists e].
        f_equal. symmetry. apply (Hinj e.1 a); [done|done|congruence].
Qed.

Lemma collect_block_hashes completed block_num cache_db db :
  collect completed block_num cache_db = Some (Ok db) →
  CacheDB.block_hashes db = CacheDB.block_hashes cache_db.
Proof.
  revert cache_db.
  induction completed as [|[a d] rest IH]; intros cache_db; simpl.
  - by intros [= ->].
  - destruct (fetch_account_data a block_num) as [[[n b] c]|]; [|done].
    destruct (decide (n ≤ U64_MAX)) as [Hn|Hn];
      [|by rewrite (proj2 (add_account_None _ _ _ _ _ _)) by lia].
    destruct (add_account_Some cache_db a d n b c Hn)
      as (c1 & -> & _ & _ & <-).
    apply IH.
Qed.

Lemma cache_db_eq (c1 c2 : CacheDB.t EmptyDB) :
  CacheDB.accounts c1 = CacheDB.accounts c2 →
  CacheDB.contracts c1 = CacheDB.contracts c2 →
  CacheDB.block_hashes c1 = CacheDB.block_hashes c2 →
  c1 = c2.
Proof. destruct c1 as [? ? ? []], c2 as [? ? ? []]; simpl. congruence. Qed.

(** Two runs of the loop over the same futures, in different orders, from
    the same database: if one ends well, so does the other, with the same
    database. *)
Lemma collect_Permutation completed1 completed2 block_num cache_db db :
  (∀ a1 a2 c1 c2,
     get_code a1 block_num = Ok c1 → get_code a2 block_num = Ok c2 →
     code_hash_of c1 = code_hash_of c2 → c1 = c2) →
  NoDup completed1.*1 →
  (∀ a, a ∈ completed1.*1 → CacheDB.accounts cache_db !! a = None) →
  completed1 ≡ₚ completed2 →
  collect completed1 block_num cache_db = Some (Ok db) →
  collect completed2 block_num cache_db = Some (Ok db).
Proof.
  intros Hinj Hnd Hfresh Hp H1.
  assert (Hok : is_Some (collect completed2 block_num cache_db ≫= result_ok)).
  { apply collect_ok. rewrite <- Hp. apply (collect_ok _ _ cache_db).
    by rewrite H1. }
  destruct (collect completed2 block_num cache_db) as [[db2|]|] eqn:H2;
    try by destruct Hok.
  do 2 f_equal. symmetry. apply cache_db_eq.
  - apply map_eq. intros a.
    assert (Hnd2 : NoDup completed2.*1) by (by rewrite <- Hp).
    assert (Hfresh2 : ∀ a, a ∈ completed2.*1 →
                        CacheDB.accounts cache_db !! a = None)
      by (intros ?; rewrite <- Hp; apply Hfresh).
    rewrite (collect_lookup _ _ _ _ a Hnd Hfresh H1).
    rewrite (collect_lookup _ _ _ _ a Hnd2 Hfresh2 H2).
    by rewrite (first_entry_Permutation _ _ _ Hnd Hp).
  - apply map_eq. intros h. apply option_eq. intros x.
    rewrite (collect_contracts _ _ _ _ h x Hinj H1).
    rewrite (collect_contracts _ _ _ _ h x Hinj H2).
    by setoid_rewrite Hp.
  - rewrite (collect_block_hashes _ _ _ _ H1).
    by rewrite (collect_block_hashes _ _ _ _ H2).
Qed.
End to_cache_db_lemmas.

(** ** Theorems *)

(** Claim C9. [get_from_txs] returns [None] exactly when the call to the
    node fails.  When the node answers with a list of traces, the result is
    the merged map, which holds for every address the diff of the first
    trace that mentions the address; later diffs of the same address are
    dropped.  A trace without a state diff contributes nothing, so the
    merged map may be empty: the function returns it all the same, where
    its doc comment (lines 63-65) announces [None]. *)
Theorem get_from_txs_keeps_first `{!Provider} meats block_num :
  match trace_call_many meats block_num with
  | Err _ => get_from_txs meats block_num = None
  | Ok block_traces =>
      ∃ merged, get_from_txs meats block_num = Some merged ∧
        ∀ address, merged !! address = first_diff address block_traces
  end.
Proof.
  unfold get_from_txs.
  destruct (trace_call_many meats block_num) as [block_traces|]; [|done].
  eexists. split; [done|]. apply merged_lookup.
Qed.

(** Claim C26. Against the doc comment of [get_from_txs] (lines 63-65: [None]
    if state diffs are non existent): when the node answers and there is no
    state diff (no trace, traces without a state diff, state diffs without
    an address), [get_from_txs] returns [Some] of the empty map. *)
Theorem get_from_txs_without_diffs `{!Provider} meats block_num block_traces :
  trace_call_many meats block_num = Ok block_traces →
  Forall (λ bt, default ∅ (BlockTrace.state_diff bt) = ∅) block_traces →
  get_from_txs meats block_num = Some ∅.
Proof.
  intros Htr Hall. unfold get_from_txs. rewrite Htr. f_equal.
  apply map_eq. intros a.
  by rewrite merged_lookup, lookup_empty, first_diff_without_diffs.
Qed.

Section pool_theorems.
Context {RustyPool : Type} `{!Env RustyPool}.
Implicit Types (state_diffs : gmap Z AccountDiff.t) (pool : Pool.t)
  (all_pools : gmap Z Pool.t) (hash_pools : gmap Z (list Pool.t)).

(** Claim C30. [extract_sandwich_pools]: when the wrapped native token has a
    diff and every touched pool has a diff of its balance slot in it, the
    result lists, in ascending address order, the touched pools whose balance
    changed, each with the direction of the change; pools whose balance slot
    was born, died or stayed the same are skipped. *)
Theorem extract_sandwich_pools_spec state_diffs all_pools weth :
  state_diffs !! WETH_ADDRESS = Some weth →
  (∀ pool, pool ∈ touched_pools state_diffs all_pools →
     is_Some (AccountDiff.storage weth
                !! balance_key (Pool.address pool) 3)) →
  extract_sandwich_pools state_diffs all_pools =
    Some (omap (tradable (AccountDiff.storage weth))
            (touched_pools state_diffs all_pools)).
Proof.
  intros Hweth Hkeys. unfold extract_sandwich_pools. rewrite Hweth.
  by rewrite sandwich_loop.
Qed.

(** Claim C36. [extract_sandwich_pools]: one touched pool without a diff of
    its balance slot in the wrapped native token makes the whole result
    [None], whatever the other pools are. *)
Theorem extract_sandwich_pools_missing_key state_diffs all_pools weth pool :
  state_diffs !! WETH_ADDRESS = Some weth →
  pool ∈ touched_pools state_diffs all_pools →
  AccountDiff.storage weth !! balance_key (Pool.address pool) 3 = None →
  extract_sandwich_pools state_diffs all_pools = None.
Proof.
  intros Hweth Hin Hkey. unfold extract_sandwich_pools. rewrite Hweth.
  apply (for_each_none _ _ pool); [|done|].
  - intros. apply sandwich_body_no_break.
  - intros a. unfold sandwich_body. by rewrite Hkey.
Qed.

(** Claim C10. [extract_arb_pools]: a pool whose balance slot is not found,
    or whose balance diff is not a change, ends the loop: the result is the
    result for the pools before it, and the pools after it are not
    classified. *)
Theorem extract_arb_pools_break_hides_rest state_diffs all_pools hash_pools
    l1 pool l2 :
  touched_pools state_diffs all_pools = l1 ++ pool :: l2 →
  arb_breaks state_diffs pool →
  extract_arb_pools state_diffs all_pools hash_pools =
    for_each (arb_body state_diffs hash_pools) l1 ([], []).
Proof.
  intros Htouched Hbreaks. unfold extract_arb_pools. rewrite Htouched.
  apply for_each_stops. intros a. by apply arb_body_breaks.
Qed.

(** Claim C32. [extract_arb_pools]: when every touched pool can be
    classified, the first list holds the pools whose balance of token 0
    grew and the second the others, both in ascending address order, each
    pool with the other pools of its token pair. *)
Theorem extract_arb_pools_classifies state_diffs all_pools hash_pools :
  (∀ pool, pool ∈ touched_pools state_diffs all_pools →
     is_Some (arb_entry state_diffs hash_pools pool)) →
  extract_arb_pools state_diffs all_pools hash_pools =
    let entries :=
      omap (arb_entry state_diffs hash_pools)
        (touched_pools state_diffs all_pools) in
    Some (classified true entries, classified false entries).
Proof. intros Hall. unfold extract_arb_pools. by rewrite arb_loop. Qed.

(** [extract_arb_pools]: a touched pool whose token 0 has no diff
    makes the whole result [None] when the pools before it were classified,
    whatever was collected. *)
Theorem extract_arb_pools_missing_token state_diffs all_pools hash_pools
    l1 pool l2 :
  touched_pools state_diffs all_pools = l1 ++ pool :: l2 →
  (∀ p, p ∈ l1 → is_Some (arb_entry state_diffs hash_pools p)) →
  state_diffs !! Pool.token_0 pool = None →
  extract_arb_pools state_diffs all_pools hash_pools = None.
Proof.
  intros Htouched Hl1 Hnone. unfold extract_arb_pools. rewrite Htouched.
  eapply for_each_return_none; [by apply arb_loop| |].
  - intros y a Hy. destruct (Hl1 y Hy) as [e He].
    rewrite (arb_body_entry _ _ _ _ _ He). by eexists.
  - unfold arb_body. by rewrite Hnone.
Qed.
End pool_theorems.

Section to_cache_db_theorems.
Context {RustyPool : Type} `{!Env RustyPool} `{!Provider} `{!Keccak}.
Implicit Types (state : gmap Z AccountDiff.t)
  (completed : list (Z * AccountDiff.t)).

(** The accounts of the database that [to_cache_db] returns. *)
Lemma to_cache_db_in_lookup state completed block_num db address :
  completed ≡ₚ btree_iter state →
  to_cache_db_in completed block_num = Some (Ok db) →
  CacheDB.accounts db !! address =
    state !! address ≫= λ acc_diff,
      expected_account address acc_diff block_num.
Proof.
  intros Hp Hdb.
  assert (Hnd : NoDup completed.*1)
    by (rewrite Hp; apply btree_iter_NoDup).
  rewrite (collect_lookup _ _ _ _ address Hnd (λ _ _, lookup_empty _) Hdb).
  rewrite (first_entry_Permutation _ _ _ Hnd Hp), first_entry_btree_iter.
  by destruct (state !! address).
Qed.

(** [to_cache_db] returns a database when every future succeeds with a
    nonce that fits. *)
Lemma to_cache_db_in_returns state completed block_num :
  completed ≡ₚ btree_iter state →
  answered state block_num →
  ∃ db, to_cache_db_in completed block_num = Some (Ok db).
Proof.
  intros Hp Hall. unfold to_cache_db_in.
  destruct (proj2 (collect_ok completed block_num
                     (CacheDB.new EmptyDB_default))) as [db Hdb].
  - rewrite Hp. apply Forall_forall. intros [a d] Hin.
    apply elem_of_btree_iter, Hall in Hin. unfold fits in Hin. simpl.
    destruct (fetch_account_data a block_num) as [[[n b] c]|]; naive_solver.
  - destruct (collect _ _ _) as [[db'|]|]; simplify_eq/=. by eexists.
Qed.

(** Claim C6. The database that [to_cache_db] builds is the state before the
    transactions.  When every call to the node succeeds and every nonce
    fits 64 bits, [to_cache_db] returns a database, in whatever order the
    futures complete.  Its overlay holds exactly the addresses of the state
    diff, each with the account that the node reports at the block and, as
    storage, the value before the transactions of every slot that changed
    or died; slots that were born or stayed the same are absent.  It
    answers [basic_ref] with that account and with no account for an
    address outside the diff, and [storage_ref] with the value before the
    transactions and with zero for every other slot, without an error. *)
Theorem to_cache_db_answers state completed block_num :
  completed ≡ₚ btree_iter state →
  answered state block_num →
  ∃ db,
    to_cache_db_in completed block_num = Some (Ok db) ∧
    ∀ address,
      CacheDB.accounts db !! address =
        state !! address ≫= (λ acc_diff,
          expected_account address acc_diff block_num) ∧
      basic_ref db address tt
        = (Ok (pre_account state address block_num), tt) ∧
      ∀ index,
        storage_ref db address index tt
          = (Ok (pre_slot state address index), tt).
Proof.
  intros Hp Hall.
  destruct (to_cache_db_in_returns _ _ _ Hp Hall) as [db Hdb].
  exists db. split; [done|]. intros address.
  pose proof (to_cache_db_in_lookup _ _ _ _ address Hp Hdb) as Ha.
  split; [done|]. unfold pre_account, pre_slot. simpl. rewrite Ha.
  destruct (state !! address) as [d|] eqn:Hd; simpl; [|done].
  pose proof (Hall _ _ Hd) as Hf. unfold fits in Hf.
  destruct (fetch_account_data address block_num) as [[[n b] c]|] eqn:Hfa;
    [|done].
  apply fetch_account_data_Ok in Hfa as (Hn & Hb & Hc).
  unfold expected_account. rewrite Hn, Hb, Hc. simpl.
  split; [done|]. intros index.
  rewrite lookup_omap. by destruct (AccountDiff.storage d !! index ≫= _).
Qed.

(** Claim C19. The result of [to_cache_db] does not depend on the order in
    which the futures complete: when the hash separates the codes that the
    node reports and the function returns a database for one order of
    completion, it returns the same database (accounts, storage, contracts)
    when the futures complete in the order in which they were pushed. *)
Theorem to_cache_db_order_independent state completed block_num db :
  (∀ a1 a2 c1 c2,
     get_code a1 block_num = Ok c1 → get_code a2 block_num = Ok c2 →
     code_hash_of c1 = code_hash_of c2 → c1 = c2) →
  completed ≡ₚ btree_iter state →
  to_cache_db_in completed block_num = Some (Ok db) →
  to_cache_db state block_num = Some (Ok db).
Proof.
  intros Hinj Hp Hdb. unfold to_cache_db, to_cache_db_in.
  apply (collect_Permutation completed); try done.
  rewrite Hp. apply btree_iter_NoDup.
Qed.

(** [to_cache_db] panics only on a nonce that does not fit 64
    bits: the writes to the storage of the overlay cannot fail over the
    empty database. *)
Theorem to_cache_db_panics_only_on_nonce completed block_num :
  to_cache_db_in completed block_num = None →
  ∃ address acc_diff nonce,
    (address, acc_diff) ∈ completed ∧
    get_transaction_count address block_num = Ok nonce ∧ U64_MAX < nonce.
Proof. apply collect_None. Qed.

(** [to_cache_db]: the error of the first future that fails is
    the result, when the futures that completed before it were added; the
    futures after it are not looked at. *)
Theorem to_cache_db_error l1 address acc_diff l2 block_num e cache_db :
  collect l1 block_num (CacheDB.new EmptyDB_default) = Some (Ok cache_db) →
  fetch_account_data address block_num = Err e →
  to_cache_db_in (l1 ++ (address, acc_diff) :: l2) block_num = Some (Err e).
Proof.
  unfold to_cache_db_in. generalize (CacheDB.new EmptyDB_default).
  induction l1 as [|[a d] l1 IH]; intros c0; simpl.
  - intros _ ->. done.
  - destruct (fetch_account_data a block_num); [|done].
    destruct (add_account c0 a d _); [apply IH|done].
Qed.

(** Claim C33. [to_cache_db] panics when the node reports, for an address of
    the state diff, a nonce above the largest 64-bit number and no call to
    the node fails. *)
Theorem to_cache_db_nonce_overflow completed block_num address acc_diff nonce :
  (∀ a d, (a, d) ∈ completed → is_ok (fetch_account_data a block_num)) →
  (address, acc_diff) ∈ completed →
  get_transaction_count address block_num = Ok nonce →
  U64_MAX < nonce →
  to_cache_db_in completed block_num = None.
Proof.
  unfold to_cache_db_in. generalize (CacheDB.new EmptyDB_default).
  intros c0 Hok Hin Hn Hmax. revert c0.
  induction completed as [|[a d] rest IH]; intros c0; simpl.
  - by apply elem_of_nil in Hin.
  - assert (Hf : is_ok (fetch_account_data a block_num))
      by (apply (Hok a d), list_elem_of_here).
    destruct (fetch_account_data a block_num) as [[[n b] c]|] eqn:Hfa;
      [|done].
    destruct (add_account c0 a d (n, b, c)) as [c1|] eqn:Hadd; [|done].
    apply elem_of_cons in Hin as [[= <- <-]|Hin].
    + apply fetch_account_data_Ok in Hfa as (Hn' & _).
      assert (n = nonce) as -> by congruence.
      pose proof (proj2 (add_account_None c0 address acc_diff nonce b c) Hmax).
      congruence.
    + apply IH; [|done]. intros a' d' H'. apply (Hok a' d').
      by apply list_elem_of_further.
Qed.
End to_cache_db_theorems.

(** ** A concrete node and a concrete set of pools

    Four pools of the wrapped native token at the addresses 10, 20, 30 and
    50, and one pool at 40 whose token 0 has no diff.  The slot of the
    balance mapping is not found for the pool at 20. *)

Module Scenario.

Definition pool_at (address token_0 token_1 : Z) : Pool.t :=
  {| Pool.address := address; Pool.token_0 := token_0;
     Pool.token_1 := token_1; Pool.swap_fee := 300; Pool.pool_variant := 2 |}.

Definition pool_a : Pool.t := pool_at 10 1000 2000.
Definition pool_b : Pool.t := pool_at 20 1000 2000.
Definition pool_c : Pool.t := pool_at 30 1000 2000.
Definition pool_d : Pool.t := pool_at 40 5000 2000.
Definition pool_e : Pool.t := pool_at 50 1000 2000.

#[local] Instance env : Env Pool.t :=
  {| WETH_ADDRESS := 1000;
     balance_key holder slot := holder * 16 + slot;
     pair_hash token0 token1 := token0 + token1;
     slot_finder token holder :=
       if decide (holder = 20) then None else Some 3;
     to_rp pool := pool;
     code_hash_of code := Z.of_nat (length code) + 1 |}.

#[local] Instance keccak : Keccak := {| keccak256_of_number n := n + 9000 |}.

Definition account_diff (storage : gmap Z (Diff.t Z)) : AccountDiff.t :=
  {| AccountDiff.balance := Diff.Same; AccountDiff.nonce := Diff.Same;
     AccountDiff.code := Diff.Same; AccountDiff.storage := storage |}.

(** The balances of the pools in the wrapped native token: up for the pool
    at 10, down for the pools at 20 and 30, born for the pool at 50. *)
Definition weth_storage : gmap Z (Diff.t Z) :=
  <[163 := Diff.Changed 5 9]>
    (<[323 := Diff.Changed 9 5]>
       (<[483 := Diff.Changed 2 1]> (<[803 := Diff.Born 4]> ∅))).

Definition state_diffs : gmap Z AccountDiff.t :=
  <[10 := account_diff ∅]>
    (<[20 := account_diff ∅]>
       (<[30 := account_diff
                  (<[7 := Diff.Died 8]>
                     (<[9 := Diff.Changed 3 4]> (<[11 := Diff.Born 1]> ∅)))]>
          (<[50 := account_diff ∅]>
             (<[1000 := account_diff weth_storage]> ∅)))).

Definition all_pools : gmap Z Pool.t :=
  <[10 := pool_a]>
    (<[20 := pool_b]> (<[30 := pool_c]> (<[50 := pool_e]> ∅))).

(** The pools that the arbitrage loop can classify. *)
Definition pools_a_c : gmap Z Pool.t := <[10 := pool_a]> (<[30 := pool_c]> ∅).

Definition hash_pools : gmap Z (list Pool.t) :=
  <[3000 := [pool_a; pool_b; pool_c]]> ∅.

Definition trace_1 : BlockTrace.t :=
  {| BlockTrace.state_diff :=
       Some (<[10 := account_diff (<[1 := Diff.Born 1]> ∅)]> ∅) |}.
Definition trace_2 : BlockTrace.t :=
  {| BlockTrace.state_diff :=
       Some (<[10 := account_diff ∅]> (<[20 := account_diff ∅]> ∅)) |}.

(** A node that fails at block 0, answers with traces without state diffs at
    block 1, reports a nonce of [2^64] for the address 99 and fails on the
    balance of the address 98. *)
#[local] Instance node : Provider :=
  {| trace_call_many meats block_num :=
       if decide (block_num = 0) then Err (RpcError 1)
       else if decide (block_num = 1) then
         Ok [{| BlockTrace.state_diff := None |};
             {| BlockTrace.state_diff := Some ∅ |}]
       else Ok [trace_1; trace_2];
     get_transaction_count address block_num :=
       if decide (address = 99) then Ok (U64_MAX + 1) else Ok 1;
     get_balance address block_num :=
       if decide (address = 98) then Err (RpcError 7) else Ok (address + 100);
     get_code address block_num := Ok [96; 128] |}.

Definition touched : list Pool.t := touched_pools state_diffs all_pools.

Lemma touched_eq : touched = [pool_a; pool_b; pool_c; pool_e].
Proof. by vm_compute. Qed.

Lemma get_from_txs_keeps_first_witness :
  ∃ merged, get_from_txs [1; 2] 5 = Some merged ∧
    ∀ address, merged !! address = first_diff address [trace_1; trace_2].
Proof. exact (get_from_txs_keeps_first [1; 2] 5). Defined.

Lemma get_from_txs_without_diffs_witness : get_from_txs [1; 2] 1 = Some ∅.
Proof.
  apply (get_from_txs_without_diffs [1; 2] 1
           [{| BlockTrace.state_diff := None |};
            {| BlockTrace.state_diff := Some ∅ |}]); [done|].
  by repeat constructor.
Defined.

Lemma extract_sandwich_pools_spec_witness :
  extract_sandwich_pools state_diffs all_pools =
    Some [TradablePool.new pool_a true; TradablePool.new pool_b false;
          TradablePool.new pool_c false].
Proof.
  rewrite (extract_sandwich_pools_spec state_diffs all_pools
             (account_diff weth_storage)); [by vm_compute|done|].
  fold touched. rewrite touched_eq. intros pool Hin.
  repeat (apply elem_of_cons in Hin as [->|Hin]); try by vm_compute; eauto.
  by apply elem_of_nil in Hin.
Defined.

Lemma extract_sandwich_pools_missing_key_witness :
  extract_sandwich_pools (<[40 := account_diff ∅]> state_diffs)
    (<[40 := pool_d]> all_pools) = None.
Proof.
  apply (extract_sandwich_pools_missing_key _ _
           (account_diff weth_storage) pool_d); [done| |done].
  apply elem_of_touched_pools. exists 40. by vm_compute; eauto.
Defined.

Lemma extract_arb_pools_break_hides_rest_witness :
  extract_arb_pools state_diffs all_pools hash_pools =
    Some ([(pool_a, [pool_b; pool_c])], []).
Proof.
  rewrite (extract_arb_pools_break_hides_rest state_diffs all_pools hash_pools
             [pool_a] pool_b [pool_c; pool_e]);
    [by vm_compute|exact touched_eq|].
  by exists (account_diff weth_storage).
Defined.

Lemma extract_arb_pools_classifies_witness :
  extract_arb_pools state_diffs pools_a_c hash_pools =
    Some ([(pool_a, [pool_b; pool_c])], [(pool_c, [pool_a; pool_b])]).
Proof.
  rewrite (extract_arb_pools_classifies state_diffs pools_a_c hash_pools);
    [by vm_compute|].
  intros pool Hin.
  assert (touched_pools state_diffs pools_a_c = [pool_a; pool_c]) as Heq
    by (by vm_compute).
  rewrite Heq in Hin.
  repeat (apply elem_of_cons in Hin as [->|Hin]); try by vm_compute; eauto.
  by apply elem_of_nil in Hin.
Defined.

Lemma extract_arb_pools_missing_token_witness :
  extract_arb_pools (<[40 := account_diff ∅]> state_diffs)
    (<[40 := pool_d]> pools_a_c) hash_pools = None.
Proof.
  apply (extract_arb_pools_missing_token _ _ hash_pools
           [pool_a; pool_c] pool_d []); [by vm_compute| |by vm_compute].
  intros p Hin.
  repeat (apply elem_of_cons in Hin as [->|Hin]); try by vm_compute; eauto.
  by apply elem_of_nil in Hin.
Defined.

(** The futures of [state_diffs] complete in descending address order. *)
Definition completed : list (Z * AccountDiff.t) :=
  reverse (btree_iter state_diffs).

Definition built : CacheDB.t EmptyDB :=
  match to_cache_db_in completed 5 with
  | Some (Ok db) => db
  | _ => CacheDB.new EmptyDB_default
  end.

Lemma built_eq : to_cache_db_in completed 5 = Some (Ok built).
Proof. by vm_compute. Qed.

Lemma to_cache_db_answers_witness :
  ∃ db,
    to_cache_db_in completed 5 = Some (Ok db) ∧
    ∀ address,
      CacheDB.accounts db !! address =
        state_diffs !! address ≫= (λ acc_diff,
          expected_account address acc_diff 5) ∧
      basic_ref db address tt = (Ok (pre_account state_diffs address 5), tt) ∧
      ∀ index,
        storage_ref db address index tt
          = (Ok (pre_slot state_diffs address index), tt).
Proof.
  apply (to_cache_db_answers state_diffs completed 5);
    [apply reverse_Permutation|].
  apply (bool_decide_unpack _). vm_compute. exact I.
Defined.

Lemma to_cache_db_order_independent_witness :
  to_cache_db state_diffs 5 = Some (Ok built).
Proof.
  apply (to_cache_db_order_independent state_diffs completed 5 built);
    [|apply reverse_Permutation|exact built_eq].
  intros a1 a2 c1 c2 [= <-] [= <-] _. done.
Defined.

Lemma to_cache_db_panics_only_on_nonce_witness :
  ∃ address acc_diff nonce,
    (address, acc_diff) ∈ [(10, account_diff ∅); (99, account_diff ∅)] ∧
    get_transaction_count address 5 = Ok nonce ∧ U64_MAX < nonce.
Proof.
  apply (to_cache_db_panics_only_on_nonce
           [(10, account_diff ∅); (99, account_diff ∅)] 5).
  by vm_compute.
Defined.

Lemma to_cache_db_error_witness :
  to_cache_db_in
    [(10, account_diff ∅); (98, account_diff ∅); (99, account_diff ∅)] 5 =
    Some (Err (RpcError 7)).
Proof.
  by eapply (to_cache_db_error [(10, account_diff ∅)] 98 (account_diff ∅)
               [(99, account_diff ∅)] 5 (RpcError 7)).
Defined.

Lemma to_cache_db_nonce_overflow_witness :
  to_cache_db_in [(10, account_diff ∅); (99, account_diff ∅)] 5 = None.
Proof.
  apply (to_cache_db_nonce_overflow _ 5 99 (account_diff ∅) (U64_MAX + 1));
    [|set_solver|done|lia].
  intros a d [[= -> ->]|[= -> ->]%list_elem_of_singleton]%elem_of_cons;
    by vm_compute.
Defined.
End Scenario.
