(* ===== verification/Output.v ===== *)
(** * What the program writes: log records, standard output, serialized values

    None of this changes the state of the database; it is what an operator
    or a caller of the serializer sees.

    - [LogRecord], Module [Logged]: the records that [reset],
      [insert_snapshot] and [revert_snapshot] hand to the [log] crate
      (forked_db.rs, lines 84, 115, 150 and 153), as the method together
      with the list of records it emits.  A record keeps its level, its
      target and its format string, with the identifier it formats as a
      number.
    - [Printed], [get_from_txs_printed]: the two [println!] of [get_from_txs]
      (state_diff.rs, lines 80 and 84).
    - [Value], Class [Serialize]: the data model of serde, as far as the
      sources use it: [SerializedBTreeMap] (state_diff.rs, lines 26-39)
      delegates to the map it wraps, which serde writes as a map in key
      order; [TradablePool] derives [Serialize] (line 41), which writes a
      struct of its two fields.

    The lemmas: logging changes no result; [revert_snapshot] warns exactly
    when it answers false and writes nothing when it panics; the serialized
    form of a [SerializedBTreeMap] is sorted by key and determines the map. *)

From stdpp Require Import gmap list strings sorting.
From Stdlib Require Import ZArith Lia.
From S2P Require Import Prelude SnapshotStore Revm Remote ForkedDb StateDiff.

#[local] Open Scope Z_scope.
#[local] Open Scope string_scope.
#[local] Set Warnings "-clear-no-such-hyp,-register-all".

(** ** Log records *)

(** The levels of the [log] crate that the sources use. *)
Inductive Level : Type := Warn | Trace.

#[global] Instance Level_eq_dec : EqDecision Level.
Proof. solve_decision. Defined.

Record LogRecord : Type :=
  { level : Level; target : string; format : string; argument : option Z }.

#[global] Instance LogRecord_eq_dec : EqDecision LogRecord.
Proof. solve_decision. Defined.

(** [trace!(target: "backend::forkdb", ...)] and [warn!(...)]. *)
Definition trace (format0 : string) (argument0 : option Z) : LogRecord :=
  {| level := Trace; target := "backend::forkdb"; format := format0;
     argument := argument0 |}.

Definition warn (format0 : string) (argument0 : option Z) : LogRecord :=
  {| level := Warn; target := "backend::forkdb"; format := format0;
     argument := argument0 |}.

(** The methods of [ForkedDatabase] that log, with what they log. *)
Module Logged.
Section defs.
Context `{!Transport}.

(** [reset] logs once it has cleared the database; a failed reset has
    returned before. *)
Definition reset (self : ForkedDatabase.t) (url : option string)
    (block_number : BlockId) (sh : Shared)
    : (Result ErrorString unit * ForkedDatabase.t * Shared) * list LogRecord :=
  let r := ForkedDatabase.reset self url block_number sh in
  (r, match r.1.1 with
      | Ok _ => [trace "Cleared database" None]
      | Err _ => []
      end).

Definition insert_snapshot (self : ForkedDatabase.t) (sh : Shared)
    : (U256 * Shared) * list LogRecord :=
  let r := ForkedDatabase.insert_snapshot self sh in
  (r, [trace "Created new snapshot {}" (Some r.1)]).

(** [revert_snapshot] logs in both branches of its [if let]; the panic of
    [remove] comes before either. *)
Definition revert_snapshot (self : ForkedDatabase.t) (id : U256) (sh : Shared)
    : Outcome (ForkedDatabase.t * Shared) bool * list LogRecord :=
  let o := ForkedDatabase.revert_snapshot self id sh in
  (o, match o with
      | Returned true _ => [trace "Reverted snapshot {}" (Some id)]
      | Returned false _ => [warn "No snapshot to revert for {}" (Some id)]
      | Panicked _ | OutOfFuel => []
      end).
End defs.
End Logged.

(** ** Standard output *)

(** A line that [get_from_txs] prints, with the value it formats. *)
Inductive Printed : Type :=
| BlockTraceError (e : ProviderError)
| BlockTraces (block_traces : list BlockTrace.t).

Section printed.
Context `{!Provider}.

(** [get_from_txs] with what it prints: the error of the node, or the traces
    as they arrived. *)
Definition get_from_txs_printed (meats : list Z) (block_num : Z)
    : option (gmap Z AccountDiff.t) * list Printed :=
  (get_from_txs meats block_num,
   match trace_call_many meats block_num with
   | Err e => [BlockTraceError e]
   | Ok block_traces => [BlockTraces block_traces]
   end).
End printed.

(** ** Serialized values *)

(** The data model of serde, as far as the sources reach it. *)
Inductive Value : Type :=
| VBool (b : bool)
| VInt (z : Z)
| VMap (entries : list (Value * Value))
| VStruct (name : string) (fields : list (string * Value)).

(** [trait Serialize], with the serializer that builds a [Value]. *)
Class Serialize (A : Type) : Type := serialize : A → Value.
#[global] Hint Mode Serialize ! : typeclass_instances.

#[global] Instance bool_Serialize : Serialize bool := VBool.
#[global] Instance Z_Serialize : Serialize Z := VInt.

(** [impl Serialize for BTreeMap]: a map, entry by entry in key order. *)
#[global] Instance BTreeMap_Serialize `{!Serialize V} : Serialize (gmap Z V) :=
  λ m, VMap ((λ kv, (serialize kv.1, serialize kv.2)) <$> btree_iter m).

(** [struct SerializedBTreeMap<K, V>(BTreeMap<K, V>)] and its [Serialize],
    which hands the serializer to the map. *)
Record SerializedBTreeMap (V : Type) : Type :=
  { inner : gmap Z V }.
Arguments inner {V} _.

#[global] Instance SerializedBTreeMap_Serialize `{!Serialize V} :
  Serialize (SerializedBTreeMap V) := λ self, serialize (inner self).

(** [#[derive(Serialize)]] on [TradablePool]: a struct of the two fields. *)
#[global] Instance TradablePool_Serialize `{!Serialize RustyPool} :
  Serialize (TradablePool.t RustyPool) := λ self,
  VStruct "TradablePool"
    [("pool", serialize (TradablePool.pool self));
     ("is_weth_input", serialize (TradablePool.is_weth_input self))].

(** The keys of a serialized map, in the order in which they are written. *)
Definition written_keys (v : Value) : list Z :=
  match v with
  | VMap entries =>
      omap (λ e, match e.1 with VInt k => Some k | _ => None end) entries
  | _ => []
  end.

(** ** Lemmas *)

Section log_lemmas.
Context `{!Transport}.
Implicit Types (self : ForkedDatabase.t) (sh : Shared) (id : Z).

(** [reset] logs that it cleared the database exactly when the new block
    could be pinned. *)
Lemma reset_log self url block sh :
  (Logged.reset self url block sh).2 =
    match resolve_block block with
    | Ok _ => [trace "Cleared database" None]
    | Err _ => []
    end.
Proof.
  unfold Logged.reset, ForkedDatabase.reset,
    RemoteStateSource.set_pinned_block.
  by destruct (resolve_block block).
Qed.

(** [insert_snapshot] logs the identifier under which the snapshot is
    registered. *)
Lemma insert_snapshot_log self sh :
  (Logged.insert_snapshot self sh).2 =
    [trace "Created new snapshot {}" (Some (Snapshots.id (registry sh)))].
Proof. done. Qed.

(** [revert_snapshot] below the largest identifier logs exactly one
    record, under the target [backend::forkdb] and with the identifier as
    its argument: the trace "Reverted snapshot" when the identifier is
    registered, the warning "No snapshot to revert for" when it is not. *)
Theorem revert_snapshot_log self id sh :
  Snapshots.wf (registry sh) → id < U256_MAX →
  (Logged.revert_snapshot self id sh).2 =
    match Snapshots.get (registry sh) id with
    | Some _ => [trace "Reverted snapshot {}" (Some id)]
    | None => [warn "No snapshot to revert for {}" (Some id)]
    end.
Proof.
  intros [[_ Hmax] _] Hid. unfold Logged.revert_snapshot.
  rewrite revert_snapshot_returns by done.
  by destruct (Snapshots.get (registry sh) id).
Qed.

(** At the largest identifier it panics before it logs. *)
Lemma revert_snapshot_log_at_max self sh :
  (Logged.revert_snapshot self U256_MAX sh).2 = [].
Proof.
  unfold Logged.revert_snapshot, ForkedDatabase.revert_snapshot,
    Snapshots.remove.
  by assert (u256_add U256_MAX 1 = None) as -> by (apply u256_add_None; lia).
Qed.
End log_lemmas.

Section printed_lemmas.
Context `{!Provider}.

(** [get_from_txs] prints one line, and it is the error line exactly when the
    function returns nothing. *)
Lemma get_from_txs_printed_error meats block_num :
  (get_from_txs_printed meats block_num).1 = None ↔
  ∃ e, (get_from_txs_printed meats block_num).2 = [BlockTraceError e].
Proof.
  unfold get_from_txs_printed, get_from_txs. simpl.
  destruct (trace_call_many meats block_num); naive_solver.
Qed.
End printed_lemmas.

Section serialize_lemmas.
Context `{!Serialize V}.
Implicit Types (s : SerializedBTreeMap V).

Lemma serialize_unfold s :
  serialize s =
    VMap ((λ kv, (VInt kv.1, serialize kv.2)) <$> btree_iter (inner s)).
Proof. done. Qed.

Lemma written_keys_serialize s : written_keys (serialize s) = btree_keys (inner s).
Proof.
  rewrite serialize_unfold. simpl. rewrite <- btree_iter_fst. generalize (btree_iter (inner s)).
  induction l as [|[k v] l IH]; [done|]. simpl. f_equal. apply IH.
Qed.

(** A [SerializedBTreeMap] is written in ascending key order, each key
    once. *)
Lemma written_keys_sorted s : StronglySorted Z.lt (written_keys (serialize s)).
Proof. rewrite written_keys_serialize. apply btree_keys_sorted_lt. Qed.

(** What [SerializedBTreeMap] writes determines the map: when the
    values can be told apart by what is written for them, two maps that
    are written alike are the same map, so nothing of a map is lost in its
    serialized form. *)
Theorem serialize_map_inj (s1 s2 : SerializedBTreeMap V) :
  (∀ v1 v2 : V, serialize v1 = serialize v2 → v1 = v2) →
  serialize s1 = serialize s2 → s1 = s2.
Proof.
  intros Hinj. destruct s1 as [m1], s2 as [m2].
  rewrite !serialize_unfold. simpl. intros [= Heq]. f_equal.
  assert (btree_iter m1 = btree_iter m2) as Hiter.
  { revert Heq. generalize (btree_iter m1) (btree_iter m2).
    induction l as [|[k1 v1] l IH]; intros [|[k2 v2] l2]; simpl;
      intros Heq; simplify_eq; [done|].
    f_equal; [|by apply IH]. f_equal. by apply Hinj. }
  apply map_eq. intros k. apply option_eq. intros v.
  by rewrite <- !elem_of_btree_iter, Hiter.
Qed.
End serialize_lemmas.

(** ** The lemmas at concrete values *)

Module Outputs.
#[local] Existing Instance Example.chain.

(** The storage words 2 and 4 under the keys 1 and 3, put in either
    order. *)
Definition words : SerializedBTreeMap Z := {| inner := <[1 := 2]> {[3 := 4]} |}.
Definition words' : SerializedBTreeMap Z := {| inner := <[3 := 4]> {[1 := 2]} |}.

Lemma revert_snapshot_log_witness :
  (Logged.revert_snapshot Example.fdb0 0 Example.shared1).2 =
    match Snapshots.get (registry Example.shared1) 0 with
    | Some _ => [trace "Reverted snapshot {}" (Some 0)]
    | None => [warn "No snapshot to revert for {}" (Some 0)]
    end.
Proof.
  apply (revert_snapshot_log Example.fdb0 0 Example.shared1);
    [exact Example.shared1_wf|done].
Defined.

Lemma serialize_map_inj_witness : words = words'.
Proof.
  apply (serialize_map_inj words words'); [by intros v1 v2 [= ->]|].
  vm_compute. reflexivity.
Defined.
End Outputs.
